(* ===== verification/_CoqProject ===== *)
-Q . S2P
Prelude.v
Effects.v
FrameBase.v
ControlFrames.v
SettingsFrame.v
DataFrame.v
HpackInt.v
HuffmanTable.v
Huffman.v
HpackHeader.v
HpackDecoder.v
HpackDecoderFacts.v
HpackStrings.v
HpackCut.v
HpackTable.v
RobinHood.v
HpackTableFacts.v
HpackTableInv.v
HpackTableOps.v
HpackEncoder.v
HpackEncoderFacts.v
HeadersFrame.v
HeadersFacts.v
HeaderChunks.v
ProtoErrors.v
FramedRead.v
Instances.v
FramedReadFacts.v
StreamState.v
FlowWindow.v
SlabLib.v
FrameBuffer.v
FrameSink.v
OpError.v
FramedWrite.v
FramedWriteFacts.v
HeadersDelivery.v
WireDelivery.v
WireCodec.v
Preface.v
ProtoHandlers.v
ProtoHandlersFacts.v
StreamRec.v
StreamStore.v
StreamStoreFacts.v
StreamQueue.v
Spa.v
StreamCounts.v
StreamCountsFacts.v
StreamView.v
Evolve.v
Send.v
SendOps.v
SendPoll.v
Credit.v
SendKept.v
Messages.v
HttpInstance.v
Recv.v
RecvOps.v
RecvKept.v
Inner.v
Streams.v
InnerKept.v
Calls.v
CallsFacts.v
Connection.v
Builder.v
Endpoints.v
Describe.v
WireCodecFacts.v
PrefaceFacts.v
EndpointsFacts.v
Witnesses.v
HistoryWitnesses.v
EncoderWitnesses.v
CodecWitnesses.v
EndpointWitnesses.v
EndToEnd.v
Findings.v
