(* ===== verification/Prelude.v ===== *)
(** * two-plz: a verification library for the HTTP/2 implementation

    The crate under [src/src] is an HTTP/2 client and server.  This library translates its
    code into definitions, file by file, and proves what makes it correct.  File names
    below are those of this directory; paths are those of the repository, below [src/src].

    ** The program and its model, from the wire upwards

    - Frames ([frame/]).  [FrameBase] has stream identifiers, error codes and frame heads;
      [ControlFrames], [SettingsFrame], [DataFrame] and [HeadersFrame] have one Module per
      frame type, with its record, [load] (payload to frame) and [encode].
    - HPACK ([hpack/], [ext.rs]).  [HpackInt], [HuffmanTable], [Huffman], [HpackHeader]:
      integers, strings, fields.  [HpackDecoder] is the decoder with its table.
      [HpackTable] is the encoder's table, a ring of slots under a Robin Hood hash index,
      [HpackStrings] and [HpackEncoder] the encoder.
    - Codec ([codec/]).  [FramedRead] decodes one frame, with the partial header block kept
      between CONTINUATION frames; [FramedWrite] and [HeaderChunks] encode, fragment and
      flush; [WireCodec] is the whole codec over a transport.  [FrameSink] (with the class
      [Codec] of [Connection]) is the interface the layers above are verified against;
      [WireCodecFacts] proves that the codec implements it.
    - Streams ([proto/streams/], [spa.rs]).  [StreamState], [FlowWindow], [FrameBuffer],
      [StreamRec], [StreamStore], [StreamQueue], [Spa] and [StreamCounts] are the parts;
      [Send], [SendOps] and [SendPoll] the sending side; [Recv] and [RecvOps] the receiving
      side; [Inner] the state shared by a connection and its handles, with one handler per
      frame; [Streams] the handles.
    - Messages ([message.rs], [role.rs]).  [Messages]: requests and responses as frames.
    - Connection ([proto/]).  [ProtoErrors] has the errors and roles, [ProtoHandlers] the
      handlers of PING, SETTINGS and GOAWAY, [Connection] the dispatch of frames and the
      poll loop.
    - The public interface ([preface/], [builder.rs], [client.rs], [server.rs],
      [error.rs]).  [Preface] is the handshake, [Builder] the options, [Endpoints] what
      clients and servers do, [OpError] and [Describe] the errors they report.

    A connection is a [Connection.t]: the codec, the shared streams ([Inner.t]), the three
    handlers and its own state.  A handle is the key of a stream; its operations are
    computations on the same [Inner.t].  The peer acts through [Codec.poll_next], the
    user through the handles and the task through [Connection.poll]; [Calls] puts them
    together as the steps of a transition system.

    ** How code is translated

    This file has the two layers of failure: [result] is Rust's [Result], and
    [outcome] says whether the code returns or panics (an assertion, debug assertions
    included; an [unwrap]; an index; an overflow).  Machine integers are [Z] with their
    wrap-around or their checks written out.  [Effects] is the state monad over [outcome]
    for code that changes what its [&mut] arguments point to: a world holds those
    arguments, [zoom] runs code on a part of it.  A lock is held for the whole of an
    operation, so an operation is one step.  A waker is a number, taken where the code
    takes it; an [async fn] is a machine with a stage per [await].

    Code outside the repository is a parameter, with what is relied on as the laws of a
    class: [HeaderPlz], [HeaderMapOps] and [HttpPlz] (header-plz, http-plz), [SlabOps] and
    [IndexMapOps] (slab, indexmap), [NameHash] (fnv), [Transport], [AsyncIo] and [Delimiter]
    (tokio and its length-delimited framing, with the growth of a BytesMut).  [Instances],
    [HttpInstance], [SlabLib] and the files of witnesses instantiate all of them, so that
    every theorem is also applied to a concrete input and evaluated.

    ** What is proved

    - The octets.  Integers, Huffman strings and frames are read back as they were
      written, and a reader of arbitrary octets never panics, keeps its invariant and
      ends ([HpackInt], [Huffman], [HpackDecoderFacts], [FramedReadFacts],
      [SettingsFrame]).  Decoding Huffman accepts exactly the encodings.
    - HPACK.  Both dynamic tables refine a FIFO list bounded by its size; for the encoder
      through the invariant of its index ([RobinHood], [HpackTableInv], [HpackTableOps]).
      Over a whole conversation, with changes of the table size, the decoder reads what
      the encoder was given and the two tables stay equal ([HpackEncoderFacts]), also when
      a block is cut anywhere ([HpackCut]).
    - Header blocks.  Accepted blocks are well formed and within the limit
      ([HeadersFacts]); CONTINUATION frames come in their place and within their number
      ([FramedReadFacts]); fragmentation loses nothing ([HeaderChunks]).
    - The codec.  What was written and what is pending are the octets of the accepted
      frames, in order, on any transport, and flushing ends ([FramedWriteFacts]); what one
      side accepts is what the other side reads ([HeadersDelivery], [WireDelivery]).
    - The handshake.  On both sides it writes its greeting and then the acknowledgement or
      the GOAWAY, whatever the peer sends, and ends with a codec that has the parameters of
      the peer ([PrefaceFacts]); what a builder announces, and when a peer refuses it
      ([EndpointsFacts]).
    - The parts of the streams.  The state machine refines that of RFC 9113 section 5.1
      ([StreamState]); windows are exact ([FlowWindow]); queues and buffers are sequences
      and the store a map whose iteration survives removal ([StreamQueue], [FrameBuffer],
      [StreamStoreFacts]); counters match the store and stay within their limits
      ([StreamCountsFacts]).
    - Every history of a connection.  [Evolve] is the contract of a handler with a stream;
      [SendKept], [RecvKept] and [InnerKept] prove it, one lemma per operation.  So along
      any calls streams move by the state machine only, windows stay in range, identifiers
      are never used again and GOAWAY is final ([Calls], [CallsFacts]).
    - Flow control.  What the sender hands to the codec is within the windows of the peer,
      by an account of credit for the connection and for each stream ([Credit]).
    - The handlers: a ping is answered once, settings are acknowledged and then applied,
      GOAWAY identifiers never increase ([ProtoHandlersFacts]); a client that nobody uses
      ends ([EndpointsFacts]).
    - Everything together: [EndToEnd] runs a client against a server, from the messages to
      the octets and back, with flow control, single packets and shutdown.
    - [Findings] evaluates the behaviours in which the code departs from its intent.

    ** Fuel

    A loop that is not structural takes fuel, and running out of it is a panic, so every
    theorem that says that code returns says that the fuel was enough.  The fuel is a
    measure computed from the input: the octets left (decoding, flushing, cutting into
    chunks), the entries of a table (eviction, probing, which goes round the index
    twice at most), the frames that arrived (reading), the streams of the store (the
    queues).  Two loops take it as an argument, because what ends them is the codec:
    [Connection.poll] and [Inner.poll_complete], where it bounds the frames handled by one
    call.  What is proved of them holds for every fuel; that a call returns is proved for
    an idle client, and cannot hold of every call, since the code panics on some input of
    a peer ([Findings]).

    ** Not modelled

    Traces and spans; the tasks that wakers wake; the locks, which are taken as above; the
    [Debug] of structures (of reasons it is in [Describe]); [impl Sink] for the codec and
    [impl Stream] for the server, which only forward; what is under the features
    [unstable] and [test-util]; the assertions in [Drop] for the counters; code that is
    commented out; the tests and the fixtures of HPACK.  [lib.rs] only names modules. *)

From stdpp Require Export base tactics numbers list option gmap.
From Stdlib Require Export ZArith Lia.

#[global] Open Scope Z_scope.

(** ** Results and outcomes

    [result A E] is Rust's [Result<A, E>].  [outcome A] is the outcome of a
    piece of code that may panic: [Done a] when it returns [a], [Panic] when an
    [assert!], a [debug_assert!], an [unwrap] on [None], an out-of-range index
    or [unreachable!] fires. *)

Inductive result (A E : Type) : Type :=
| Ok (a : A)
| Err (e : E).
Arguments Ok {A E} a.
Arguments Err {A E} e.

Inductive outcome (A : Type) : Type :=
| Done (a : A)
| Panic.
Arguments Done {A} a.
Arguments Panic {A}.

Definition is_ok {A E} (r : result A E) : bool :=
  match r with Ok _ => true | Err _ => false end.

Definition result_map {A B E} (f : A -> B) (r : result A E) : result B E :=
  match r with Ok a => Ok (f a) | Err e => Err e end.

Definition map_err {A E F} (f : E -> F) (r : result A E) : result A F :=
  match r with Ok a => Ok a | Err e => Err (f e) end.

Definition rbind {A B E} (r : result A E) (k : A -> result B E) : result B E :=
  match r with Ok a => k a | Err e => Err e end.

Definition obind {A B} (o : outcome A) (k : A -> outcome B) : outcome B :=
  match o with Done a => k a | Panic => Panic end.

Definition unwrap {A} (o : option A) : outcome A :=
  match o with Some a => Done a | None => Panic end.

(** [assert b; k]: Rust's [assert!(b)] (and [debug_assert!(b)]). *)
Definition assert (b : bool) : outcome unit :=
  if b then Done tt else Panic.

Declare Scope plz_scope.
Delimit Scope plz_scope with plz.
#[global] Open Scope plz_scope.

(** Sequencing in [outcome] ([let!]) and in [result], Rust's [?] ([let?]). *)
Notation "'let!' x ':=' o 'in' k" := (obind o (fun x => k))
  (at level 10, x pattern, o at level 100, k at level 200,
   format "'[v' 'let!'  x  ':='  o  'in' '/' k ']'") : plz_scope.
Notation "'let?' x ':=' r 'in' k" := (rbind r (fun x => k))
  (at level 10, x pattern, r at level 100, k at level 200,
   format "'[v' 'let?'  x  ':='  r  'in' '/' k ']'") : plz_scope.

(** [let!?]: a fallible step inside code that may also panic. *)
Definition orbind {A B E} (o : outcome (result A E))
    (k : A -> outcome (result B E)) : outcome (result B E) :=
  match o with
  | Done (Ok a) => k a
  | Done (Err e) => Done (Err e)
  | Panic => Panic
  end.
Notation "'let!?' x ':=' o 'in' k" := (orbind o (fun x => k))
  (at level 10, x pattern, o at level 100, k at level 200,
   format "'[v' 'let!?'  x  ':='  o  'in' '/' k ']'") : plz_scope.

(** ** Record update

    [r <| f := v |>] is the record [r] with its field [f] set to [v], the
    assignment [r.f = v] of the code.  A record that declares its eta-expansion as
    an instance of [Eta] has an update for each of its fields. *)

Class Eta (R : Type) : Type := eta : R -> R.
Class Update {R T : Type} (proj : R -> T) : Type := upd : (T -> T) -> R -> R.
Arguments upd {R T} proj {_} _ _ : simpl never.
Ltac record := cbv [upd] in *; cbn in *.

(** Abstract the occurrence of [proj r] in the eta-expansion of [r]. *)
Ltac derive_update :=
  match goal with
  | |- @Update ?R ?T ?proj =>
      let h := constr:(_ : Eta R) in
      let h := eval unfold eta in h in
      let h := eval red in h in
      let f := fresh "f" in let r := fresh "r" in
      intros f r;
      let body := eval cbv beta in (h r) in
      match (eval pattern (proj r) in body) with
      | ?c _ => let t := eval cbv beta in (c (f (proj r))) in exact t
      end
  end.
#[global] Hint Extern 1 (Update _) => derive_update : typeclass_instances.

#[warnings="-postfix-notation-not-level-1"]
Notation "r <| f := v |>" := (upd f (fun _ => v) r)
  (at level 12, left associativity, f at level 10, v at level 200,
   format "r  <| f  :=  v |>") : plz_scope.
#[warnings="-postfix-notation-not-level-1"]
Notation "r <| f '::=' g |>" := (upd f g r)
  (at level 12, left associativity, f at level 10, g at level 200,
   format "r  <| f  ::=  g |>") : plz_scope.

(** ** Machine integers *)

Definition u8_max : Z := 255.
Definition u16_max : Z := 65535.
Definition u32_max : Z := 4294967295.
Definition i32_max : Z := 2147483647.
Definition i32_min : Z := -2147483648.
Definition u64_max : Z := 18446744073709551615.
(** [usize] is 64 bits wide on the targets the crate is built for. *)
Definition usize_max : Z := u64_max.

Definition wrap_u8 (z : Z) : Z := z mod 256.
Definition wrap_u32 (z : Z) : Z := z mod 4294967296.
Definition wrap_u64 (z : Z) : Z := z mod 18446744073709551616.
(** [x as i32] for a [u32] or wider [x]: two's complement. *)
Definition as_i32 (z : Z) : Z :=
  let w := wrap_u32 z in if w <=? i32_max then w else w - 4294967296.
(** [x as u32] for an [i32]. *)
Definition as_u32 (z : Z) : Z := wrap_u32 z.

Definition is_u8 (z : Z) : Prop := 0 <= z <= u8_max.
Definition is_u16 (z : Z) : Prop := 0 <= z <= u16_max.
Definition is_u32 (z : Z) : Prop := 0 <= z <= u32_max.
Definition is_i32 (z : Z) : Prop := i32_min <= z <= i32_max.
Definition is_u64 (z : Z) : Prop := 0 <= z <= u64_max.
Definition is_usize (z : Z) : Prop := 0 <= z <= usize_max.

(** ** Bytes

    A byte is a [Z] in [0, 255]; [Bytes], [BytesMut] and [&[u8]] are lists of
    bytes.  Reading past the end panics, as slice indexing does. *)

Abbreviation byte := Z (only parsing).
Abbreviation bytes := (list Z) (only parsing).

Definition all_u8 (l : bytes) : Prop := Forall is_u8 l.

Definition len {A} (l : list A) : Z := Z.of_nat (length l).

(** [buf[i]] *)
Definition byte_at (buf : bytes) (i : nat) : outcome Z := unwrap (buf !! i).

(** [&buf[i..]] *)
Definition slice_from {A} (buf : list A) (i : nat) : outcome (list A) :=
  if (i <=? length buf)%nat then Done (drop i buf) else Panic.

(** [&buf[..i]] *)
Definition slice_to {A} (buf : list A) (i : nat) : outcome (list A) :=
  if (i <=? length buf)%nat then Done (take i buf) else Panic.

(** Big-endian encoding of the low [8 * n] bits of [v] ([put_u16], [put_u32],
    [put_uint], [to_be_bytes]). *)
Fixpoint be_bytes (n : nat) (v : Z) : bytes :=
  match n with
  | O => []
  | S n => wrap_u8 (Z.shiftr v (8 * Z.of_nat n)) :: be_bytes n v
  end.

(** The number a big-endian byte string denotes ([from_be_bytes]). *)
Definition be_value (l : bytes) : Z := fold_left (fun a b => 256 * a + b) l 0.

(** ** Tactics *)

(** Split the first [match]/[if] discriminee found in the goal or a hypothesis. *)
Ltac case_on :=
  match goal with
  | |- context [match ?x with _ => _ end] => destruct x eqn:?
  | H : context [match ?x with _ => _ end] |- _ => destruct x eqn:?
  end.

(** Turn the boolean tests of the code into propositions. *)
Ltac bool_to_prop :=
  repeat match goal with
  | H : (_ && _)%bool = true |- _ => apply andb_prop in H; destruct H
  | H : (_ && _)%bool = false |- _ => apply andb_false_iff in H
  | H : (_ || _)%bool = true |- _ => apply orb_true_iff in H
  | H : (_ || _)%bool = false |- _ => apply orb_false_iff in H; destruct H
  | H : negb _ = true |- _ => apply negb_true_iff in H
  | H : negb _ = false |- _ => apply negb_false_iff in H
  | H : (_ <=? _) = true |- _ => apply Z.leb_le in H
  | H : (_ <=? _) = false |- _ => apply Z.leb_gt in H
  | H : (_ <? _) = true |- _ => apply Z.ltb_lt in H
  | H : (_ <? _) = false |- _ => apply Z.ltb_ge in H
  | H : (_ >? _) = true |- _ => rewrite Z.gtb_ltb in H; apply Z.ltb_lt in H
  | H : (_ >? _) = false |- _ => rewrite Z.gtb_ltb in H; apply Z.ltb_ge in H
  | H : (_ >=? _) = true |- _ => rewrite Z.geb_leb in H; apply Z.leb_le in H
  | H : (_ >=? _) = false |- _ => rewrite Z.geb_leb in H; apply Z.leb_gt in H
  | H : (_ =? _) = true |- _ => apply Z.eqb_eq in H
  | H : (_ =? _) = false |- _ => apply Z.eqb_neq in H
  | H : (_ <=? _)%nat = true |- _ => apply Nat.leb_le in H
  | H : (_ <=? _)%nat = false |- _ => apply Nat.leb_gt in H
  | H : (_ =? _)%nat = true |- _ => apply Nat.eqb_eq in H
  | H : (_ =? _)%nat = false |- _ => apply Nat.eqb_neq in H
  end.

Ltac unfold_ints :=
  unfold is_u8, is_u16, is_u32, is_i32, is_u64, is_usize, usize_max, u8_max,
    u16_max, u32_max, i32_max, i32_min, u64_max in *.

(** Linear arithmetic over the machine-integer constants and the tests. *)
Ltac ilia := bool_to_prop; unfold_ints; lia.

(** Range hypotheses for the bytes of an explicit list. *)
Ltac destruct_bytes :=
  unfold all_u8 in *;
  repeat match goal with
  | H : Forall _ (_ :: _) |- _ => apply Forall_cons in H; destruct H
  end.

Ltac solve_bytes :=
  unfold all_u8 in *; repeat (apply Forall_cons_2; [assumption || ilia |]);
  first [apply Forall_nil_2 | assumption].

(** ** Facts about outcomes and results *)

Lemma obind_Done {A B} (o : outcome A) (k : A -> outcome B) b :
  obind o k = Done b <-> exists a, o = Done a /\ k a = Done b.
Proof. destruct o; simpl; split; [eauto | by intros (? & [= ->] & ?) | done | by intros (? & ? & ?)]. Qed.

Lemma obind_assoc {A B C} (o : outcome A) (f : A -> outcome B) (g : B -> outcome C) :
  obind (obind o f) g = obind o (fun x => obind (f x) g).
Proof. by destruct o. Qed.

Lemma rbind_Ok {A B E} (r : result A E) (k : A -> result B E) b :
  rbind r k = Ok b <-> exists a, r = Ok a /\ k a = Ok b.
Proof. destruct r; simpl; split; [eauto | by intros (? & [= ->] & ?) | done | by intros (? & ? & ?)]. Qed.

Lemma unwrap_Done {A} (o : option A) a : unwrap o = Done a <-> o = Some a.
Proof. destruct o; simpl; naive_solver. Qed.

Lemma assert_Done b u : assert b = Done u <-> b = true.
Proof. destruct u, b; simpl; naive_solver. Qed.

(** ** Facts about bytes and big-endian integers *)

Lemma all_u8_app l1 l2 : all_u8 (l1 ++ l2) <-> all_u8 l1 /\ all_u8 l2.
Proof. apply Forall_app. Qed.

Lemma wrap_u8_is_u8 z : is_u8 (wrap_u8 z).
Proof. unfold wrap_u8. pose proof (Z.mod_pos_bound z 256). ilia. Qed.

Lemma wrap_u8_id z : is_u8 z -> wrap_u8 z = z.
Proof. intros ?. unfold wrap_u8. apply Z.mod_small. ilia. Qed.

Lemma wrap_u32_id z : is_u32 z -> wrap_u32 z = z.
Proof. intros ?. unfold wrap_u32. apply Z.mod_small. ilia. Qed.

Lemma as_i32_id z : 0 <= z <= i32_max -> as_i32 z = z.
Proof.
  intros ?. unfold as_i32. rewrite wrap_u32_id by ilia.
  destruct (Z.leb_spec z i32_max); ilia.
Qed.

Lemma as_u32_id z : is_u32 z -> as_u32 z = z.
Proof. apply wrap_u32_id. Qed.

Lemma len_nonneg {A} (l : list A) : 0 <= len l.
Proof. unfold len. lia. Qed.

Lemma len_app {A} (l1 l2 : list A) : len (l1 ++ l2) = len l1 + len l2.
Proof. unfold len. rewrite length_app. lia. Qed.

Lemma length_be_bytes n v : length (be_bytes n v) = n.
Proof. induction n; simpl; congruence. Qed.

Lemma be_bytes_all_u8 n v : all_u8 (be_bytes n v).
Proof. induction n; constructor; [apply wrap_u8_is_u8 | done]. Qed.

(** Concatenating bit fields: the high part shifted over a low part of [n] bits. *)
Lemma lor_shiftl_add a b n :
  0 <= n -> 0 <= b < 2 ^ n -> Z.lor (Z.shiftl a n) b = a * 2 ^ n + b.
Proof.
  intros Hn Hb. rewrite <-Z.shiftl_mul_pow2 by done.
  assert (Z.land (Z.shiftl a n) b = 0) as Hland.
  - apply Z.bits_inj'. intros i Hi.
    rewrite Z.land_spec, Z.bits_0. destruct (Z.ltb_spec i n).
    + by rewrite Z.shiftl_spec_low.
    + rewrite <-(Z.mod_small b (2 ^ n)), Z.mod_pow2_bits_high by lia.
      apply andb_false_r.
  - by rewrite Z.add_nocarry_lxor, Z.lxor_lor.
Qed.

Lemma fold_be_value l acc :
  fold_left (fun a b => 256 * a + b) l acc = acc * 256 ^ len l + be_value l.
Proof.
  unfold be_value, len. revert acc. induction l as [|b l IH]; intros acc; simpl fold_left.
  - simpl. lia.
  - rewrite IH, (IH (256 * 0 + b)). simpl length.
    rewrite Nat2Z.inj_succ, Z.pow_succ_r by lia. lia.
Qed.

Lemma be_value_cons b l : be_value (b :: l) = b * 256 ^ len l + be_value l.
Proof. unfold be_value at 1. simpl fold_left. rewrite fold_be_value. lia. Qed.

Lemma be_value_app l1 l2 :
  be_value (l1 ++ l2) = be_value l1 * 256 ^ len l2 + be_value l2.
Proof. unfold be_value at 1. rewrite fold_left_app. by rewrite fold_be_value. Qed.

Lemma pow_256 n : 0 <= n -> 256 ^ n = 2 ^ (8 * n).
Proof. intros. change 256 with (2 ^ 8). by rewrite <-Z.pow_mul_r by lia. Qed.

Lemma be_value_bound l : all_u8 l -> 0 <= be_value l < 256 ^ len l.
Proof.
  induction 1 as [|b l Hb Hl IH]; [done|].
  rewrite be_value_cons. unfold len in *. simpl length.
  rewrite Nat2Z.inj_succ, Z.pow_succ_r by lia. unfold_ints. nia.
Qed.

Lemma be_value_be_bytes n v : be_value (be_bytes n v) = v mod 2 ^ (8 * Z.of_nat n).
Proof.
  induction n as [|n IH].
  - by rewrite Z.mul_0_r, Z.mod_1_r.
  - simpl be_bytes. rewrite be_value_cons, IH. unfold len. rewrite length_be_bytes.
    rewrite pow_256 by lia. unfold wrap_u8. rewrite Z.shiftr_div_pow2 by lia.
    rewrite Nat2Z.inj_succ, Z.mul_succ_r, Z.pow_add_r by lia. change (2 ^ 8) with 256.
    rewrite Z.rem_mul_r by lia. lia.
Qed.

(** The low bytes do not depend on what is added above them. *)
Lemma be_bytes_high m n c w :
  (m <= n)%nat -> be_bytes m (c * 256 ^ Z.of_nat n + w) = be_bytes m w.
Proof.
  intros Hm. revert n Hm. induction m as [|m IH]; intros n Hm; [done|].
  cbn [be_bytes]. f_equal; [|apply IH; lia].
  unfold wrap_u8. rewrite !Z.shiftr_div_pow2, <-!pow_256 by lia.
  replace (Z.of_nat n) with (Z.of_nat (n - S m) + 1 + Z.of_nat m) by lia.
  rewrite !Z.pow_add_r, !Z.mul_assoc, Z.div_add_l by lia.
  by rewrite Z.pow_1_r, Z.add_comm, Z_mod_plus_full.
Qed.

Lemma be_bytes_be_value l : all_u8 l -> be_bytes (length l) (be_value l) = l.
Proof.
  induction 1 as [|b l Hb Hl IH]; [done|]. cbn [length be_bytes].
  rewrite be_value_cons. unfold len. f_equal; [|by rewrite be_bytes_high].
  pose proof (be_value_bound l Hl).
  rewrite Z.shiftr_div_pow2, <-pow_256 by lia.
  rewrite Z.div_add_l, Z.div_small, Z.add_0_r by (unfold len in *; lia).
  by apply wrap_u8_id.
Qed.

Lemma be_value_be_bytes_small n v :
  0 <= v < 2 ^ (8 * Z.of_nat n) -> be_value (be_bytes n v) = v.
Proof. intros. rewrite be_value_be_bytes. by apply Z.mod_small. Qed.

Lemma slice_from_app {A} (l1 l2 : list A) n :
  length l1 = n -> slice_from (l1 ++ l2) n = Done l2.
Proof.
  intros <-. unfold slice_from. rewrite length_app.
  destruct (Nat.leb_spec (length l1) (length l1 + length l2)); [|lia].
  by rewrite drop_app_length.
Qed.

Lemma slice_to_app {A} (l1 l2 : list A) n :
  length l1 = n -> slice_to (l1 ++ l2) n = Done l1.
Proof.
  intros <-. unfold slice_to. rewrite length_app.
  destruct (Nat.leb_spec (length l1) (length l1 + length l2)); [|lia].
  by rewrite take_app_length.
Qed.

Lemma lookup_app_offset {A} (l1 l2 : list A) i :
  (l1 ++ l2) !! (length l1 + i)%nat = l2 !! i.
Proof. rewrite lookup_app_r by lia. f_equal. lia. Qed.

(** A boolean property of bytes holds of all of them when it computes to true
    on the 256 values. *)
Definition all_bytes : list Z := map Z.of_nat (seq 0 256).

Lemma elem_of_all_bytes b : is_u8 b -> In b all_bytes.
Proof.
  intros Hb. unfold all_bytes. apply in_map_iff. exists (Z.to_nat b).
  split; [unfold_ints; lia|]. apply in_seq. unfold_ints. lia.
Qed.

Lemma byte_forall (f : Z -> bool) b :
  forallb f all_bytes = true -> is_u8 b -> f b = true.
Proof. intros Hf Hb. rewrite forallb_forall in Hf. apply Hf, elem_of_all_bytes, Hb. Qed.

Create HintDb plz.
Create Rewrite HintDb plz_rw.
#[export] Hint Resolve wrap_u8_is_u8 be_bytes_all_u8 be_value_bound len_nonneg : plz.
#[export] Hint Rewrite @length_app length_be_bytes @len_app be_value_app be_value_cons : plz_rw.
