(* ===== verification/Effects.v ===== *)
(** * Code that changes a state and may panic

    The handlers of the stream layer take several [&mut] arguments.  [M W A] is such a
    piece of code: from a world [W] that holds what the arguments point to, a result
    and the world afterwards, or a panic.  [returns] is the total-correctness
    judgement (no panic, and a postcondition), [ensures] the partial one. *)

From S2P Require Import Prelude.

Definition M (W A : Type) : Type := W -> outcome (A * W).

Definition ret {W A} (a : A) : M W A := fun w => Done (a, w).

Definition bind {W A B} (m : M W A) (k : A -> M W B) : M W B :=
  fun w => let! (a, w) := m w in k a w.

Notation "'let*' x ':=' m 'in' k" := (bind m (fun x => k))
  (at level 10, x pattern, m at level 100, k at level 200,
   format "'[v' 'let*'  x  ':='  m  'in' '/' k ']'") : plz_scope.
Notation "m ';*' k" := (bind m (fun _ => k))
  (at level 100, k at level 200, right associativity,
   format "'[v' m  ';*' '/' k ']'") : plz_scope.

(** A fallible step: Rust's [?] on a [Result]. *)
Definition try {W A B E} (m : M W (result A E)) (k : A -> M W (result B E)) : M W (result B E) :=
  let* r := m in
  match r with Ok a => k a | Err e => ret (Err e) end.

Notation "'let*?' x ':=' m 'in' k" := (try m (fun x => k))
  (at level 10, x pattern, m at level 100, k at level 200,
   format "'[v' 'let*?'  x  ':='  m  'in' '/' k ']'") : plz_scope.

(** Code that does not touch the world. *)
Definition lift {W A} (o : outcome A) : M W A := fun w => let! a := o in Done (a, w).

Definition panic {W A} : M W A := fun _ => Panic.

Definition gets {W A} (f : W -> A) : M W A := fun w => Done (f w, w).

Definition modifies {W} (f : W -> W) : M W unit := fun w => Done (tt, f w).

Definition when {W} (b : bool) (m : M W unit) : M W unit := if b then m else ret tt.

(** Code on a part of the world. *)
Definition zoom {W V A} (proj : W -> V) `{!Update proj} (m : M V A) : M W A :=
  fun w => let! (a, v) := m (proj w) in Done (a, w <| proj := v |>).

(** [loop body] with fuel: [body] answers whether to go on.  Running out of fuel is a
    panic, which the theorems exclude. *)
Fixpoint loop {W A} (fuel : nat) (body : M W (option A)) : M W A :=
  match fuel with
  | O => panic
  | S fuel =>
      let* r := body in
      match r with Some a => ret a | None => loop fuel body end
  end.

(** ** Judgements *)

Definition returns {A} (o : outcome A) (Q : A -> Prop) : Prop := exists a, o = Done a /\ Q a.

Definition ensures {A} (o : outcome A) (Q : A -> Prop) : Prop := forall a, o = Done a -> Q a.

Lemma returns_ensures {A} (o : outcome A) Q : returns o Q -> ensures o Q.
Proof. intros (a & -> & HQ) a' [= <-]. done. Qed.

Lemma returns_mono {A} (o : outcome A) (P Q : A -> Prop) :
  returns o P -> (forall a, P a -> Q a) -> returns o Q.
Proof. intros (a & -> & HP) HPQ. exists a. auto. Qed.

Lemma ensures_mono {A} (o : outcome A) (P Q : A -> Prop) :
  ensures o P -> (forall a, P a -> Q a) -> ensures o Q.
Proof. intros HP HPQ a Ha. auto. Qed.

Lemma returns_Done {A} (a : A) (Q : A -> Prop) : Q a -> returns (Done a) Q.
Proof. by exists a. Qed.

Lemma ensures_Done {A} (a : A) (Q : A -> Prop) : Q a -> ensures (Done a) Q.
Proof. by intros HQ a' [= <-]. Qed.

Lemma ensures_Panic {A} (Q : A -> Prop) : ensures Panic Q.
Proof. by intros a. Qed.

Lemma returns_bind {A B} (o : outcome A) (k : A -> outcome B) (P : A -> Prop) (Q : B -> Prop) :
  returns o P -> (forall a, P a -> returns (k a) Q) -> returns (obind o k) Q.
Proof. intros (a & -> & HP) Hk. by apply Hk. Qed.

Lemma ensures_bind {A B} (o : outcome A) (k : A -> outcome B) (P : A -> Prop) (Q : B -> Prop) :
  ensures o P -> (forall a, P a -> ensures (k a) Q) -> ensures (obind o k) Q.
Proof. destruct o as [a|]; cbn; [|done]. intros HP Hk. apply Hk. by apply HP. Qed.

Lemma ensures_obind {A B} (o : outcome A) (k : A -> outcome B) (Q : B -> Prop) :
  ensures (obind o k) Q <-> ensures o (fun a => ensures (k a) Q).
Proof.
  destruct o as [a|]; cbn; unfold ensures.
  - split; [intros HQ a' [= <-]; done|]. intros HQ. by apply (HQ a).
  - split; done.
Qed.

(** Invariants of loops. *)
Lemma loop_ensures {W A} fuel (body : M W (option A)) (I : W -> Prop) (Q : A * W -> Prop) w :
  (forall w, I w -> ensures (body w) (fun '(r, w') =>
     match r with Some a => Q (a, w') | None => I w' end)) ->
  I w -> ensures (loop fuel body w) Q.
Proof.
  intros Hbody. revert w. induction fuel as [|fuel IH]; intros w HI; cbn [loop]; [done|].
  unfold bind. eapply ensures_bind; [by apply Hbody|].
  intros [[a|] w'] HP; [by apply ensures_Done|by apply IH].
Qed.

(** A loop whose measure decreases returns when there is more fuel than measure. *)
Lemma loop_returns {W A} fuel (body : M W (option A)) (I : W -> Prop) (Q : A * W -> Prop)
    (measure : W -> nat) w :
  (forall w, I w -> returns (body w) (fun '(r, w') =>
     match r with Some a => Q (a, w') | None => I w' /\ (measure w' < measure w)%nat end)) ->
  I w -> (measure w < fuel)%nat -> returns (loop fuel body w) Q.
Proof.
  intros Hbody. revert w. induction fuel as [|fuel IH]; intros w HI Hm; cbn [loop]; [lia|].
  unfold bind. eapply returns_bind; [by apply Hbody|].
  intros [[a|] w'] HP; [by apply returns_Done|]. destruct HP as [HI' Hm']. apply IH; [done|lia].
Qed.

(** ** Code that respects a preorder

    [keeps R w m]: whatever [m] run from [w] returns, the world afterwards is related
    to [w].  A judgement of partial correctness, with one rule per construct. *)
Definition keeps {W A} (R : relation W) (w : W) (m : M W A) : Prop :=
  ensures (m w) (fun '(_, w') => R w w').

Section keeps.
Context {W : Type} (R : relation W) `{!PreOrder R}.

Implicit Types (w : W).

Lemma keeps_ret {A} w (a : A) : keeps R w (ret a).
Proof. by apply ensures_Done. Qed.

Lemma keeps_panic {A} w : keeps R w (panic (A:=A)).
Proof. apply ensures_Panic. Qed.

Lemma keeps_bind {A B} w (m : M W A) (k : A -> M W B) :
  keeps R w m -> (forall a w', m w = Done (a, w') -> keeps R w' (k a)) -> keeps R w (bind m k).
Proof.
  intros Hm Hk [b w2]. unfold bind. destruct (m w) as [[a w1]|] eqn:He; [cbn [obind]|done].
  intros Hb. specialize (Hm _ He). cbn in Hm. etrans; [exact Hm|]. exact (Hk a w1 eq_refl _ Hb).
Qed.

Lemma keeps_try {A B E} w (m : M W (result A E)) (k : A -> M W (result B E)) :
  keeps R w m -> (forall a w', m w = Done (Ok a, w') -> keeps R w' (k a)) -> keeps R w (try m k).
Proof.
  intros Hm Hk. apply keeps_bind; [done|]. intros [a|e] w' He; [by apply Hk|apply keeps_ret].
Qed.

(** Reading, so that what is read stays known. *)
Lemma keeps_gets {A B} w (f : W -> A) (k : A -> M W B) : keeps R w (k (f w)) -> keeps R w (bind (gets f) k).
Proof. done. Qed.

Lemma keeps_ret_bind {A B} w (a : A) (k : A -> M W B) : keeps R w (k a) -> keeps R w (bind (ret a) k).
Proof. done. Qed.

Lemma keeps_lift {A B} w (o : outcome A) (k : A -> M W B) :
  (forall a, o = Done a -> keeps R w (k a)) -> keeps R w (bind (lift o) k).
Proof. intros Hk. unfold keeps, bind, lift. destruct o as [a|]; [|done]. by apply Hk. Qed.

Lemma keeps_lift_last {A} w (o : outcome A) : keeps R w (lift o).
Proof. unfold keeps, lift. by destruct o; [apply ensures_Done|]. Qed.

Lemma keeps_lift_try {A B E} w (o : outcome (result A E)) (k : A -> M W (result B E)) :
  (forall a, o = Done (Ok a) -> keeps R w (k a)) -> keeps R w (try (lift o) k).
Proof. intros Hk. apply keeps_lift. intros [a|e] He; [by apply Hk|apply keeps_ret]. Qed.

Lemma keeps_modifies w f : R w (f w) -> keeps R w (modifies f).
Proof. intros Hf. by apply ensures_Done. Qed.

Lemma keeps_modifies_bind {A} w f (k : unit -> M W A) :
  R w (f w) -> keeps R (f w) (k tt) -> keeps R w (bind (modifies f) k).
Proof.
  intros Hf Hk. apply keeps_bind; [by apply keeps_modifies|]. by intros [] w' [= <-].
Qed.

Lemma keeps_when w b m : (b = true -> keeps R w m) -> keeps R w (when b m).
Proof. intros Hm. destruct b; [by apply Hm|apply keeps_ret]. Qed.

Lemma keeps_loop {A} fuel w (body : M W (option A)) : (forall w, keeps R w body) -> keeps R w (loop fuel body).
Proof.
  intros Hb. revert w. induction fuel as [|fuel IH]; intros w; cbn [loop]; [apply keeps_panic|].
  apply keeps_bind; [apply Hb|]. intros [a|] w' _; [apply keeps_ret|apply IH].
Qed.

End keeps.

Create HintDb keeps discriminated.
#[export] Hint Resolve keeps_ret keeps_panic keeps_lift_last : keeps.
#[export] Hint Extern 0 (PreOrder _) => typeclasses eauto : keeps.

(** The rules with their side condition discharged. *)
Ltac kret := apply keeps_ret; typeclasses eauto.
Ltac kbind := apply keeps_bind; [typeclasses eauto|..].
Ltac ktry := apply keeps_try; [typeclasses eauto|..].
Ltac klift_try := apply keeps_lift_try; [typeclasses eauto|..].
Ltac kmodifies_bind := apply keeps_modifies_bind; [typeclasses eauto|..].
Ltac kwhen := apply keeps_when; [typeclasses eauto|..].
Ltac kloop := apply keeps_loop; [typeclasses eauto|..].

(** One step through a program: the construct at its head. *)
Ltac keeps_step :=
  lazymatch goal with
  | |- keeps _ _ (bind (gets _) _) => apply keeps_gets
  | |- keeps _ _ (bind (ret _) _) => apply keeps_ret_bind
  | |- keeps _ _ (bind (lift _) _) => apply keeps_lift; intros ? ?
  | |- keeps _ _ (try (lift _) _) => klift_try; intros ? ?
  | |- keeps _ _ (bind (match ?x with _ => _ end) _) => kbind; [|intros ? ? _]
  | |- keeps _ _ (match ?x with _ => _ end) => destruct x eqn:?
  | |- keeps _ _ (when _ _) => kwhen; intros ?
  | |- keeps _ _ (modifies _) => apply keeps_modifies; solve [eauto with keeps]
  | |- keeps _ _ (bind (modifies _) _) =>
      kmodifies_bind; [solve [eauto with keeps]|cbv beta]
  | |- keeps _ _ (loop _ _) => kloop; intros ?
  | |- keeps _ _ (ret _) => kret
  end.
