(* ===== verification/FrameBase.v ===== *)
(** * Frame vocabulary: stream identifiers, error codes, frame heads

    Models [src/src/frame/stream_id.rs], [reason.rs], [head.rs] and the error
    types of [frame/mod.rs] and [hpack/decoder.rs].  Every frame codec of
    [ControlFrames], [SettingsFrame], [DataFrame] and [HeadersFrame] builds on
    it. *)

From S2P Require Import Prelude.

(** ** Stream identifiers *)

Module StreamId.

(** [StreamId(u32)]: the newtype is transparent.  The two constructors of the
    source ([parse] and [From<u32>]) only build 31-bit identifiers. *)
Definition t : Type := Z.

Definition STREAM_ID_MASK : Z := Z.shiftl 1 31.
Definition ZERO : t := 0.
Definition MAX : t := Z.shiftr u32_max 1.

Definition valid (id : t) : Prop := 0 <= id <= MAX.

Definition from_be_bytes (b : bytes) : Z := be_value b.

Definition parse (buf : bytes) : outcome (t * bool) :=
  let! ubuf := slice_to buf 4 in
  let unpacked := from_be_bytes ubuf in
  let flag := Z.land unpacked STREAM_ID_MASK =? STREAM_ID_MASK in
  Done (Z.land unpacked (Z.lxor u32_max STREAM_ID_MASK), flag).

Definition is_client_initiated (id : t) : bool :=
  negb (id =? 0) && (id mod 2 =? 1).

Definition is_server_initiated (id : t) : bool :=
  negb (id =? 0) && (id mod 2 =? 0).

Definition is_zero (id : t) : bool := id =? 0.

(** [next_id]: [Err StreamIdOverflow] past [MAX].  The [u32] addition is
    checked, as in a build with overflow checks. *)
Definition next_id (id : t) : outcome (result t unit) :=
  let! _ := assert (id + 2 <=? u32_max) in
  let next := id + 2 in
  Done (if next >? MAX then Err tt else Ok next).

(** [impl From<u32> for StreamId] *)
Definition from_u32 (src : Z) : outcome t :=
  let! _ := assert (Z.land src STREAM_ID_MASK =? 0) in
  Done src.

(** [impl From<StreamId> for u32] *)
Definition to_u32 (src : t) : Z := src.

End StreamId.

(** ** Error codes *)

Module Reason.

(** [Reason(u32)]: any 32-bit code is a [Reason]. *)
Definition t : Type := Z.

Definition NO_ERROR : t := 0.
Definition PROTOCOL_ERROR : t := 1.
Definition INTERNAL_ERROR : t := 2.
Definition FLOW_CONTROL_ERROR : t := 3.
Definition SETTINGS_TIMEOUT : t := 4.
Definition STREAM_CLOSED : t := 5.
Definition FRAME_SIZE_ERROR : t := 6.
Definition REFUSED_STREAM : t := 7.
Definition CANCEL : t := 8.
Definition COMPRESSION_ERROR : t := 9.
Definition CONNECT_ERROR : t := 10.
Definition ENHANCE_YOUR_CALM : t := 11.
Definition INADEQUATE_SECURITY : t := 12.
Definition HTTP_1_1_REQUIRED : t := 13.

End Reason.

(** ** Errors of the HPACK decoder and of the frame parsers *)

Inductive NeedMore : Type :=
| UnexpectedEndOfStream
| IntegerUnderflow
| StringUnderflow.

Inductive DecoderError : Type :=
| InvalidRepresentation
| InvalidIntegerPrefix
| InvalidTableIndex
| InvalidHuffmanCode
| InvalidUtf8
| InvalidStatusCode
| InvalidPseudoheader
| InvalidMaxDynamicSize
| IntegerOverflow
| NeedMoreError (n : NeedMore).

(** [frame::Error] *)
Inductive FrameError : Type :=
| BadFrameSize
| TooMuchPadding
| InvalidSettingValue
| InvalidWindowUpdateValue
| InvalidPayloadLength
| InvalidPayloadAckSettings
| InvalidStreamId
| MalformedMessage
| InvalidDependencyId
| Hpack (e : DecoderError).

#[export] Instance NeedMore_eq_dec : EqDecision NeedMore.
Proof. solve_decision. Defined.
#[export] Instance DecoderError_eq_dec : EqDecision DecoderError.
Proof. solve_decision. Defined.
#[export] Instance FrameError_eq_dec : EqDecision FrameError.
Proof. solve_decision. Defined.

(** ** Frame kinds and heads *)

Module Kind.

Inductive t : Type :=
| Data | Headers | Priority | Reset | Settings | PushPromise
| Ping | GoAway | WindowUpdate | Continuation | Unknown.

#[global] Instance t_eq_dec : EqDecision t.
Proof. solve_decision. Defined.

Definition new (b : byte) : t :=
  match b with
  | 0 => Data
  | 1 => Headers
  | 2 => Priority
  | 3 => Reset
  | 4 => Settings
  | 5 => PushPromise
  | 6 => Ping
  | 7 => GoAway
  | 8 => WindowUpdate
  | 9 => Continuation
  | _ => Unknown
  end.

(** [self.kind as u8]: the [repr(u8)] discriminants; [Unknown] follows 9. *)
Definition as_u8 (k : t) : byte :=
  match k with
  | Data => 0
  | Headers => 1
  | Priority => 2
  | Reset => 3
  | Settings => 4
  | PushPromise => 5
  | Ping => 6
  | GoAway => 7
  | WindowUpdate => 8
  | Continuation => 9
  | Unknown => 10
  end.

End Kind.

(** [frame::HEADER_LEN] *)
Definition HEADER_LEN : nat := 9.

Module Head.

Record t : Type := new {
  kind : Kind.t;
  flag : byte;
  stream_id : StreamId.t
}.

Definition parse (header : bytes) : outcome t :=
  let! rest := slice_from header 5 in
  let! (stream_id, _) := StreamId.parse rest in
  let! k := byte_at header 3 in
  let! flag := byte_at header 4 in
  Done (new (Kind.new k) flag stream_id).

Definition encode_len (_ : t) : nat := HEADER_LEN.

(** [encode]: appends the 9 octets of the head to [dst]. *)
Definition encode (h : t) (payload_len : Z) (dst : bytes) : bytes :=
  dst ++ be_bytes 3 payload_len ++ [Kind.as_u8 (kind h)] ++ [flag h]
      ++ be_bytes 4 (StreamId.to_u32 (stream_id h)).

End Head.

(** The macro [unpack_octets_4!] *)
Definition unpack_octets_4 (buf : bytes) (offset : nat) : outcome Z :=
  let! b0 := byte_at buf (offset + 0) in
  let! b1 := byte_at buf (offset + 1) in
  let! b2 := byte_at buf (offset + 2) in
  let! b3 := byte_at buf (offset + 3) in
  Done (Z.lor (Z.lor (Z.lor (Z.shiftl b0 24) (Z.shiftl b1 16)) (Z.shiftl b2 8))
              (Z.shiftl b3 0)).

(** ** Facts *)

Lemma stream_id_MAX_val : StreamId.MAX = i32_max.
Proof. reflexivity. Qed.

Lemma kind_new_as_u8 k : Kind.new (Kind.as_u8 k) = k.
Proof. by destruct k. Qed.

(** The wire form of an identifier with the reserved bit [r]. *)
Lemma stream_id_parse_wire id (r : bool) rest :
  StreamId.valid id ->
  StreamId.parse (be_bytes 4 (id + if r then 2 ^ 31 else 0) ++ rest) = Done (id, r).
Proof.
  intros Hid. unfold StreamId.valid in Hid. rewrite stream_id_MAX_val in Hid.
  unfold StreamId.parse. rewrite slice_to_app by apply length_be_bytes. cbn [obind].
  unfold StreamId.from_be_bytes. rewrite be_value_be_bytes_small by (destruct r; ilia).
  assert (Z.land id StreamId.STREAM_ID_MASK = 0) as Hlow.
  { change StreamId.STREAM_ID_MASK with (Z.shiftl 1 31).
    apply Z.bits_inj'. intros i Hi. rewrite Z.land_spec, Z.bits_0.
    destruct (Z.ltb_spec i 31).
    - by rewrite Z.shiftl_spec_low, andb_false_r.
    - rewrite <-(Z.mod_small id (2 ^ 31)), Z.mod_pow2_bits_high by ilia. done. }
  assert (Z.land id (Z.lxor u32_max StreamId.STREAM_ID_MASK) = id) as Hmask.
  { change (Z.lxor u32_max StreamId.STREAM_ID_MASK) with (Z.ones 31).
    rewrite Z.land_ones by lia. apply Z.mod_small. ilia. }
  destruct r.
  - assert (id + 2 ^ 31 = Z.lor (Z.shiftl 1 31) id) as ->.
    { rewrite lor_shiftl_add; ilia. }
    rewrite !Z.land_lor_distr_l, Hlow, Hmask. done.
  - rewrite Z.add_0_r, Hlow, Hmask. done.
Qed.

Lemma unpack_octets_4_be l rest pre :
  all_u8 l -> length l = 4%nat ->
  unpack_octets_4 (pre ++ l ++ rest) (length pre) = Done (be_value l).
Proof.
  intros Hl Hlen. destruct l as [|b0 [|b1 [|b2 [|b3 [|]]]]]; try done.
  unfold unpack_octets_4, byte_at.
  rewrite !lookup_app_offset. cbn.
  destruct_bytes.
  do 2 f_equal. unfold be_value. cbn [fold_left]. unfold_ints.
  rewrite ?Z.shiftl_0_r, <-!Z.lor_assoc.
  rewrite (lor_shiftl_add b2 b3 8) by lia.
  rewrite (lor_shiftl_add b1 _ 16) by lia.
  rewrite (lor_shiftl_add b0 _ 24) by lia. lia.
Qed.

Lemma head_encode_app h n dst : Head.encode h n dst = dst ++ Head.encode h n [].
Proof. reflexivity. Qed.

Lemma head_encode_length h n : length (Head.encode h n []) = HEADER_LEN.
Proof. unfold Head.encode. rewrite !length_app, !length_be_bytes. reflexivity. Qed.

Lemma head_parse_encode h n rest :
  StreamId.valid (Head.stream_id h) ->
  Head.parse (Head.encode h n [] ++ rest) = Done h.
Proof.
  intros Hid. destruct h as [k f id]. simpl in Hid.
  assert (Head.encode (Head.new k f id) n [] ++ rest =
    (be_bytes 3 n ++ [Kind.as_u8 k; f]) ++ be_bytes 4 id ++ rest) as ->
    by (unfold Head.encode; cbn; done).
  unfold Head.parse. rewrite slice_from_app by done. cbn [obind].
  pose proof (stream_id_parse_wire id false rest Hid) as Hp.
  rewrite Z.add_0_r in Hp. rewrite Hp. cbn [obind].
  simpl. by rewrite kind_new_as_u8.
Qed.

Lemma next_id_no_panic id :
  StreamId.valid id ->
  StreamId.next_id id = Done (if id + 2 >? StreamId.MAX then Err tt else Ok (id + 2)).
Proof.
  intros [??]. rewrite stream_id_MAX_val in *. unfold StreamId.next_id.
  destruct (Z.leb_spec (id + 2) u32_max); [done|ilia].
Qed.

#[export] Hint Resolve stream_id_MAX_val : plz.
