(* ===== verification/ControlFrames.v ===== *)
(** * RST_STREAM, WINDOW_UPDATE, PING, GOAWAY and PRIORITY frames

    Models [src/src/frame/reset.rs], [window_update.rs], [ping.rs],
    [go_away.rs], [priority.rs]: one Module per frame type, its record, [load]
    (payload to frame) and [encode] (frame appended to the write buffer). *)

From S2P Require Import Prelude FrameBase.

Module Reset.

Record t : Type := mk {
  stream_id : StreamId.t;
  error_code : Reason.t
}.

Definition new (stream_id : StreamId.t) (error : Reason.t) : t := mk stream_id error.

Definition load (head : Head.t) (payload : bytes) : outcome (result t FrameError) :=
  if negb (length payload =? 4)%nat then Done (Err InvalidPayloadLength)
  else
    let! error_code := unpack_octets_4 payload 0 in
    Done (Ok (mk (Head.stream_id head) error_code)).

Definition encode (f : t) (dst : bytes) : bytes :=
  let head := Head.new Kind.Reset 0 (stream_id f) in
  Head.encode head 4 dst ++ be_bytes 4 (error_code f).

Definition wf (f : t) : Prop := StreamId.valid (stream_id f) /\ is_u32 (error_code f).

End Reset.

Module WindowUpdate.

Definition SIZE_INCREMENT_MASK : Z := Z.shiftl 1 31.

Record t : Type := new {
  stream_id : StreamId.t;
  size_increment : Z
}.

Definition load (head : Head.t) (payload : bytes) : outcome (result t FrameError) :=
  let! _ := assert (bool_decide (Head.kind head = Kind.WindowUpdate)) in
  if negb (length payload =? 4)%nat then Done (Err BadFrameSize)
  else
    let! v := unpack_octets_4 payload 0 in
    let size_increment := Z.land v (Z.lxor u32_max SIZE_INCREMENT_MASK) in
    if size_increment =? 0 then Done (Err InvalidWindowUpdateValue)
    else Done (Ok (new (Head.stream_id head) size_increment)).

Definition encode (f : t) (dst : bytes) : bytes :=
  let head := Head.new Kind.WindowUpdate 0 (stream_id f) in
  Head.encode head 4 dst ++ be_bytes 4 (size_increment f).

(** A legal increment: RFC 9113 section 6.9. *)
Definition wf (f : t) : Prop :=
  StreamId.valid (stream_id f) /\ 1 <= size_increment f <= i32_max.

End WindowUpdate.

Module Ping.

Definition ACK_FLAG : byte := 1.

Record t : Type := mk {
  ack : bool;
  payload : bytes
}.

Definition SHUTDOWN : bytes := [11; 123; 162; 240; 139; 155; 254; 84].
Definition USER : bytes := [59; 124; 219; 122; 11; 135; 22; 180].

Definition new (payload : bytes) : t := mk false payload.

Definition pong (payload : bytes) : t := mk true payload.

Definition load (head : Head.t) (b : bytes) : outcome (result t FrameError) :=
  let! _ := assert (bool_decide (Head.kind head = Kind.Ping)) in
  if negb (StreamId.is_zero (Head.stream_id head)) then Done (Err InvalidStreamId)
  else if negb (length b =? 8)%nat then Done (Err BadFrameSize)
  else
    let ack := negb (Z.land (Head.flag head) ACK_FLAG =? 0) in
    Done (Ok (mk ack b)).

Definition encode (f : t) (dst : bytes) : bytes :=
  let sz := len (payload f) in
  let flags := if ack f then ACK_FLAG else 0 in
  let head := Head.new Kind.Ping flags StreamId.ZERO in
  Head.encode head sz dst ++ payload f.

(** The payload is an array of 8 octets ([type Payload = [u8; 8]]). *)
Definition wf (f : t) : Prop := length (payload f) = 8%nat /\ all_u8 (payload f).

End Ping.

Module GoAway.

Record t : Type := mk {
  last_stream_id : StreamId.t;
  error_code : Reason.t;
  debug_data : bytes
}.

Definition new (last_stream_id : StreamId.t) (reason : Reason.t) : t :=
  mk last_stream_id reason [].

Definition with_debug_data (last_stream_id : StreamId.t) (reason : Reason.t)
    (debug_data : bytes) : t := mk last_stream_id reason debug_data.

Definition load (payload : bytes) : outcome (result t FrameError) :=
  if (length payload <? 8)%nat then Done (Err BadFrameSize)
  else
    let! head := slice_to payload 4 in
    let! (last_stream_id, _) := StreamId.parse head in
    let! error_code := unpack_octets_4 payload 4 in
    let! debug_data := slice_from payload 8 in
    Done (Ok (mk last_stream_id error_code debug_data)).

Definition encode (f : t) (dst : bytes) : bytes :=
  let head := Head.new Kind.GoAway 0 StreamId.ZERO in
  Head.encode head (8 + len (debug_data f)) dst
    ++ be_bytes 4 (StreamId.to_u32 (last_stream_id f))
    ++ be_bytes 4 (error_code f) ++ debug_data f.

Definition wf (f : t) : Prop :=
  StreamId.valid (last_stream_id f) /\ is_u32 (error_code f).

End GoAway.

Module StreamDependency.

Record t : Type := new {
  dependency_id : StreamId.t;
  weight : byte;
  is_exclusive : bool
}.

Definition load (src : bytes) : outcome (result t FrameError) :=
  if negb (length src =? 5)%nat then Done (Err InvalidPayloadLength)
  else
    let! head := slice_to src 4 in
    let! (dependency_id, is_exclusive) := StreamId.parse head in
    let! weight := byte_at src 4 in
    Done (Ok (new dependency_id weight is_exclusive)).

End StreamDependency.

Module Priority.

Record t : Type := mk {
  stream_id : StreamId.t;
  dependency : StreamDependency.t
}.

Definition load (head : Head.t) (payload : bytes) : outcome (result t FrameError) :=
  let!? dependency := StreamDependency.load payload in
  if StreamDependency.dependency_id dependency =? Head.stream_id head then
    Done (Err InvalidDependencyId)
  else Done (Ok (mk (Head.stream_id head) dependency)).

End Priority.

(** ** Facts *)

(** Four big-endian octets are read back at the front of a payload. *)
Lemma unpack_octets_4_front v rest :
  is_u32 v -> unpack_octets_4 (be_bytes 4 v ++ rest) 0 = Done v.
Proof.
  intros Hv. change (unpack_octets_4 ([] ++ be_bytes 4 v ++ rest) (length (A:=Z) []) = Done v).
  rewrite unpack_octets_4_be by auto using length_be_bytes with plz.
  by rewrite be_value_be_bytes_small by ilia.
Qed.

Lemma unpack_octets_4_second w v rest :
  is_u32 v -> unpack_octets_4 (be_bytes 4 w ++ be_bytes 4 v ++ rest) 4 = Done v.
Proof.
  intros Hv. change 4%nat with (length (be_bytes 4 w)) at 3.
  rewrite unpack_octets_4_be by auto using length_be_bytes with plz.
  by rewrite be_value_be_bytes_small by ilia.
Qed.

Lemma stream_id_parse_be id rest :
  StreamId.valid id -> StreamId.parse (be_bytes 4 id ++ rest) = Done (id, false).
Proof. intros. rewrite <-(stream_id_parse_wire id false rest) by done. by rewrite Z.add_0_r. Qed.

Lemma reset_load_payload h f :
  Reset.wf f -> Head.stream_id h = Reset.stream_id f ->
  Reset.load h (be_bytes 4 (Reset.error_code f)) = Done (Ok f).
Proof.
  intros [_ Hc] Hs. unfold Reset.load. rewrite length_be_bytes, Hs. cbn [Nat.eqb negb].
  rewrite <-(app_nil_r (be_bytes 4 _)), unpack_octets_4_front by done. by destruct f.
Qed.

Lemma window_update_load_payload h f :
  WindowUpdate.wf f -> Head.kind h = Kind.WindowUpdate ->
  Head.stream_id h = WindowUpdate.stream_id f ->
  WindowUpdate.load h (be_bytes 4 (WindowUpdate.size_increment f)) = Done (Ok f).
Proof.
  intros [_ Hc] Hk Hs. unfold WindowUpdate.load. rewrite Hk, bool_decide_true by done.
  cbn [assert obind]. rewrite length_be_bytes. cbn [Nat.eqb negb].
  rewrite <-(app_nil_r (be_bytes 4 _)), unpack_octets_4_front by ilia. cbn [obind].
  change (Z.lxor u32_max WindowUpdate.SIZE_INCREMENT_MASK) with (Z.ones 31).
  rewrite Z.land_ones, Z.mod_small by ilia.
  destruct (Z.eqb_spec (WindowUpdate.size_increment f) 0); [lia|]. rewrite Hs. by destruct f.
Qed.

(** The reserved bit of the increment is ignored when received. *)
Lemma window_update_load_range h payload f :
  all_u8 payload -> WindowUpdate.load h payload = Done (Ok f) ->
  1 <= WindowUpdate.size_increment f <= i32_max.
Proof.
  intros Hp. unfold WindowUpdate.load.
  destruct (assert _); [cbn [obind]|done].
  destruct (length payload =? 4)%nat; cbn [negb]; [|done].
  destruct (unpack_octets_4 payload 0) as [v|]; [cbn [obind]|done].
  change (Z.lxor u32_max WindowUpdate.SIZE_INCREMENT_MASK) with (Z.ones 31).
  rewrite Z.land_ones by lia. pose proof (Z.mod_pos_bound v (2 ^ 31)).
  destruct (Z.eqb_spec (v mod 2 ^ 31) 0); [done|]. intros [= <-]. simpl. ilia.
Qed.

Lemma ping_load_payload h f :
  Ping.wf f -> Head.kind h = Kind.Ping -> Head.stream_id h = StreamId.ZERO ->
  Head.flag h = (if Ping.ack f then Ping.ACK_FLAG else 0) ->
  Ping.load h (Ping.payload f) = Done (Ok f).
Proof.
  intros [Hl _] Hk Hs Hf. unfold Ping.load. rewrite Hk, Hs, Hl, Hf, bool_decide_true by done.
  destruct f as [[] ?]; done.
Qed.

Lemma go_away_load_payload f :
  GoAway.wf f ->
  GoAway.load (be_bytes 4 (GoAway.last_stream_id f) ++ be_bytes 4 (GoAway.error_code f)
    ++ GoAway.debug_data f) = Done (Ok f).
Proof.
  intros [Hid Hc]. unfold GoAway.load. rewrite !length_app, !length_be_bytes.
  destruct (Nat.ltb_spec (4 + (4 + length (GoAway.debug_data f))) 8); [lia|].
  rewrite slice_to_app by apply length_be_bytes. cbn [obind].
  rewrite <-(app_nil_r (be_bytes 4 (GoAway.last_stream_id f))) at 1.
  rewrite stream_id_parse_be by done. cbn [obind].
  rewrite unpack_octets_4_second by done. cbn [obind].
  rewrite app_assoc, slice_from_app by (rewrite length_app, !length_be_bytes; done).
  by destruct f.
Qed.

(** PRIORITY and HEADERS dependencies never point at their own stream. *)
Lemma priority_load_not_self h payload f :
  Priority.load h payload = Done (Ok f) ->
  Priority.stream_id f = Head.stream_id h /\
  StreamDependency.dependency_id (Priority.dependency f) <> Priority.stream_id f.
Proof.
  unfold Priority.load. destruct (StreamDependency.load payload) as [[d|]|]; [|done..].
  cbn [orbind]. destruct (Z.eqb_spec (StreamDependency.dependency_id d) (Head.stream_id h));
    [done|]. by intros [= <-].
Qed.
