(* ===== verification/SettingsFrame.v ===== *)
(** * SETTINGS frames

    Models [src/src/frame/settings.rs]: the settings record, the list of its
    set parameters in wire order ([for_each]), validation while loading, and
    encoding. *)

From S2P Require Import Prelude FrameBase ControlFrames.

(** [slice.chunks(n)] for [0 < n]; [fuel] is the length of the slice. *)
Fixpoint chunks_fuel {A} (n fuel : nat) (l : list A) : list (list A) :=
  match l, fuel with
  | [], _ | _, O => []
  | _, S fuel => take n l :: chunks_fuel n fuel (drop n l)
  end.
Definition chunks {A} (n : nat) (l : list A) : list (list A) := chunks_fuel n (length l) l.

Module SettingsFlags.

Definition t : Type := byte.
Definition ACK : byte := 1.
Definition ALL : byte := ACK.
Definition empty : t := 0.
Definition load (bits : byte) : t := Z.land bits ALL.
Definition ack : t := ACK.
Definition is_ack (f : t) : bool := Z.land f ACK =? ACK.

End SettingsFlags.

Module Setting.

Inductive t : Type :=
| HeaderTableSize (v : Z)
| EnablePush (v : Z)
| MaxConcurrentStreams (v : Z)
| InitialWindowSize (v : Z)
| MaxFrameSize (v : Z)
| MaxHeaderListSize (v : Z)
| EnableConnectProtocol (v : Z).

Definition from_id (id val : Z) : option t :=
  match id with
  | 1 => Some (HeaderTableSize val)
  | 2 => Some (EnablePush val)
  | 3 => Some (MaxConcurrentStreams val)
  | 4 => Some (InitialWindowSize val)
  | 5 => Some (MaxFrameSize val)
  | 6 => Some (MaxHeaderListSize val)
  | 8 => Some (EnableConnectProtocol val)
  | _ => None
  end.

Definition load (raw : bytes) : outcome (option t) :=
  let! r0 := byte_at raw 0 in
  let! r1 := byte_at raw 1 in
  let id := Z.lor (Z.shiftl r0 8) r1 in
  let! val := unpack_octets_4 raw 2 in
  Done (from_id id val).

(** The pair [(kind, val)] of [Setting::encode]. *)
Definition parts (s : t) : Z * Z :=
  match s with
  | HeaderTableSize v => (1, v)
  | EnablePush v => (2, v)
  | MaxConcurrentStreams v => (3, v)
  | InitialWindowSize v => (4, v)
  | MaxFrameSize v => (5, v)
  | MaxHeaderListSize v => (6, v)
  | EnableConnectProtocol v => (8, v)
  end.

Definition encode (s : t) (dst : bytes) : bytes :=
  let (kind, val) := parts s in dst ++ be_bytes 2 kind ++ be_bytes 4 val.

End Setting.

Definition DEFAULT_SETTINGS_HEADER_TABLE_SIZE : Z := 4096.
Definition DEFAULT_INITIAL_WINDOW_SIZE : Z := 65535.
Definition DEFAULT_MAX_FRAME_SIZE : Z := 16384.
Definition MAX_INITIAL_WINDOW_SIZE : Z := Z.shiftl 1 31 - 1.
Definition MAX_MAX_FRAME_SIZE : Z := Z.shiftl 1 24 - 1.

(** [(DEFAULT_MAX_FRAME_SIZE..=MAX_MAX_FRAME_SIZE).contains(&val)] *)
Definition frame_size_ok (val : Z) : bool :=
  (DEFAULT_MAX_FRAME_SIZE <=? val) && (val <=? MAX_MAX_FRAME_SIZE).

Module Settings.

Record t : Type := mk {
  flags : SettingsFlags.t;
  header_table_size : option Z;
  enable_push : option Z;
  max_concurrent_streams : option Z;
  initial_window_size : option Z;
  max_frame_size : option Z;
  max_header_list_size : option Z;
  enable_connect_protocol : option Z
}.

Definition default : t := mk 0 None None None None None None None.

Definition ack : t := mk SettingsFlags.ack None None None None None None None.

Definition is_ack (s : t) : bool := SettingsFlags.is_ack (flags s).

Definition is_push_enabled (s : t) : option bool :=
  option_map (fun val => negb (val =? 0)) (enable_push s).

Definition is_extended_connect_protocol_enabled (s : t) : option bool :=
  option_map (fun val => negb (val =? 0)) (enable_connect_protocol s).

(** The setters of [frame::Settings] the builders use. *)
Definition set_header_table_size (size : option Z) (s : t) : t :=
  mk (flags s) size (enable_push s) (max_concurrent_streams s) (initial_window_size s)
     (max_frame_size s) (max_header_list_size s) (enable_connect_protocol s).
Definition set_enable_push (enable : bool) (s : t) : t :=
  mk (flags s) (header_table_size s) (Some (if enable then 1 else 0))
     (max_concurrent_streams s) (initial_window_size s)
     (max_frame_size s) (max_header_list_size s) (enable_connect_protocol s).
Definition set_max_concurrent_streams (max : option Z) (s : t) : t :=
  mk (flags s) (header_table_size s) (enable_push s) max (initial_window_size s)
     (max_frame_size s) (max_header_list_size s) (enable_connect_protocol s).
Definition set_initial_window_size (size : option Z) (s : t) : t :=
  mk (flags s) (header_table_size s) (enable_push s) (max_concurrent_streams s) size
     (max_frame_size s) (max_header_list_size s) (enable_connect_protocol s).
Definition set_max_frame_size (size : option Z) (s : t) : outcome t :=
  let! _ := match size with
            | Some val => assert (frame_size_ok val)
            | None => Done tt
            end in
  Done (mk (flags s) (header_table_size s) (enable_push s) (max_concurrent_streams s)
           (initial_window_size s) size (max_header_list_size s) (enable_connect_protocol s)).
Definition set_max_header_list_size (size : option Z) (s : t) : t :=
  mk (flags s) (header_table_size s) (enable_push s) (max_concurrent_streams s)
     (initial_window_size s) (max_frame_size s) size (enable_connect_protocol s).
Definition set_enable_connect_protocol (val : option Z) (s : t) : t :=
  mk (flags s) (header_table_size s) (enable_push s) (max_concurrent_streams s)
     (initial_window_size s) (max_frame_size s) (max_header_list_size s) val.

(** One iteration of the loop of [load]: record a parsed parameter, or refuse it. *)
Definition record (settings : t) (s : option Setting.t) : result t FrameError :=
  match s with
  | Some (Setting.HeaderTableSize val) => Ok (set_header_table_size (Some val) settings)
  | Some (Setting.EnablePush val) =>
      match val with
      | 0 | 1 =>
          Ok (mk (flags settings) (header_table_size settings) (Some val)
                 (max_concurrent_streams settings) (initial_window_size settings)
                 (max_frame_size settings) (max_header_list_size settings)
                 (enable_connect_protocol settings))
      | _ => Err InvalidSettingValue
      end
  | Some (Setting.MaxConcurrentStreams val) =>
      Ok (set_max_concurrent_streams (Some val) settings)
  | Some (Setting.InitialWindowSize val) =>
      if val >? MAX_INITIAL_WINDOW_SIZE then Err InvalidSettingValue
      else Ok (set_initial_window_size (Some val) settings)
  | Some (Setting.MaxFrameSize val) =>
      if frame_size_ok val then
        Ok (mk (flags settings) (header_table_size settings) (enable_push settings)
               (max_concurrent_streams settings) (initial_window_size settings) (Some val)
               (max_header_list_size settings) (enable_connect_protocol settings))
      else Err InvalidSettingValue
  | Some (Setting.MaxHeaderListSize val) =>
      Ok (set_max_header_list_size (Some val) settings)
  | Some (Setting.EnableConnectProtocol val) =>
      match val with
      | 0 | 1 => Ok (set_enable_connect_protocol (Some val) settings)
      | _ => Err InvalidSettingValue
      end
  | None => Ok settings
  end.

Fixpoint load_chunks (settings : t) (raws : list bytes) : outcome (result t FrameError) :=
  match raws with
  | [] => Done (Ok settings)
  | raw :: raws =>
      let! s := Setting.load raw in
      match record settings s with
      | Ok settings => load_chunks settings raws
      | Err e => Done (Err e)
      end
  end.

Definition load (head : Head.t) (payload : bytes) : outcome (result t FrameError) :=
  let! _ := assert (bool_decide (Head.kind head = Kind.Settings)) in
  if negb (StreamId.is_zero (Head.stream_id head)) then Done (Err InvalidStreamId)
  else
    let flag := SettingsFlags.load (Head.flag head) in
    if SettingsFlags.is_ack flag then
      match payload with
      | [] => Done (Ok ack)
      | _ => Done (Err InvalidPayloadLength)
      end
    else if negb (length payload mod 6 =? 0)%nat then Done (Err InvalidPayloadAckSettings)
    else load_chunks default (chunks 6 payload).

(** The settings [for_each] visits, in its order. *)
Definition opt_list {A} (f : Z -> A) (o : option Z) : list A :=
  match o with Some v => [f v] | None => [] end.
Definition for_each (s : t) : list Setting.t :=
  opt_list Setting.HeaderTableSize (header_table_size s)
  ++ opt_list Setting.EnablePush (enable_push s)
  ++ opt_list Setting.MaxConcurrentStreams (max_concurrent_streams s)
  ++ opt_list Setting.InitialWindowSize (initial_window_size s)
  ++ opt_list Setting.MaxFrameSize (max_frame_size s)
  ++ opt_list Setting.MaxHeaderListSize (max_header_list_size s)
  ++ opt_list Setting.EnableConnectProtocol (enable_connect_protocol s).

Definition payload_len (s : t) : Z := fold_left (fun len _ => len + 6) (for_each s) 0.

Definition encode (s : t) (dst : bytes) : bytes :=
  let head := Head.new Kind.Settings (flags s) StreamId.ZERO in
  fold_left (fun dst setting => Setting.encode setting dst) (for_each s)
    (Head.encode head (payload_len s) dst).

(** The values RFC 9113 section 6.5.2 allows. *)
Definition opt_in (P : Z -> Prop) (o : option Z) : Prop :=
  match o with Some v => P v | None => True end.
Definition legal (s : t) : Prop :=
  opt_in is_u32 (header_table_size s) /\
  opt_in (fun v => v = 0 \/ v = 1) (enable_push s) /\
  opt_in is_u32 (max_concurrent_streams s) /\
  opt_in (fun v => 0 <= v <= i32_max) (initial_window_size s) /\
  opt_in (fun v => 16384 <= v <= 16777215) (max_frame_size s) /\
  opt_in is_u32 (max_header_list_size s) /\
  opt_in (fun v => v = 0 \/ v = 1) (enable_connect_protocol s).

End Settings.

(** ** Facts *)

Lemma chunks_fuel_enough {A} n f1 f2 (l : list A) :
  (0 < n)%nat -> (length l <= f1)%nat -> (length l <= f2)%nat ->
  chunks_fuel n f1 l = chunks_fuel n f2 l.
Proof.
  intros Hn. revert f2 l. induction f1 as [|f1 IH]; intros f2 l H1 H2.
  - destruct l; [by destruct f2|simpl in H1; lia].
  - destruct l as [|x l]; [by destruct f2|]. destruct f2 as [|f2]; [simpl in H2; lia|].
    cbn [chunks_fuel]. f_equal. apply IH; rewrite length_drop; simpl length in *; lia.
Qed.

Lemma chunks_app {A} n (c l : list A) :
  (0 < n)%nat -> length c = n -> chunks n (c ++ l) = c :: chunks n l.
Proof.
  intros Hn Hc. unfold chunks at 1. destruct c as [|x c]; [simpl in Hc; lia|].
  cbn [app length chunks_fuel]. change (x :: c ++ l) with ((x :: c) ++ l).
  rewrite take_app_length', drop_app_length' by done. f_equal.
  apply chunks_fuel_enough; rewrite ?length_app; lia.
Qed.

Lemma setting_encode_app s dst : Setting.encode s dst = dst ++ Setting.encode s [].
Proof. unfold Setting.encode. by destruct (Setting.parts s). Qed.

Lemma setting_encode_length s : length (Setting.encode s []) = 6%nat.
Proof. by destruct s. Qed.

Lemma setting_load_encode s :
  is_u32 (Setting.parts s).2 -> Setting.load (Setting.encode s []) = Done (Some s).
Proof.
  intros Hv. unfold Setting.load, Setting.encode.
  destruct (Setting.parts s) as [kind v] eqn:Hp. cbn [snd] in Hv.
  assert (unpack_octets_4 (be_bytes 2 kind ++ be_bytes 4 v ++ []) 2 = Done v) as Hu.
  { change 2%nat with (length (be_bytes 2 kind)) at 3.
    rewrite unpack_octets_4_be by auto using length_be_bytes with plz.
    by rewrite be_value_be_bytes_small by ilia. }
  rewrite app_nil_r in Hu. cbn [app]. rewrite Hu.
  destruct s; injection Hp as <- <-; reflexivity.
Qed.

Lemma settings_fold_encode l dst :
  fold_left (fun dst setting => Setting.encode setting dst) l dst
  = dst ++ concat (map (fun s => Setting.encode s []) l).
Proof.
  revert dst. induction l as [|s l IH]; intros dst; simpl; [by rewrite app_nil_r|].
  rewrite IH, setting_encode_app. by rewrite <-app_assoc.
Qed.

Lemma settings_encode_split s dst :
  Settings.encode s dst =
    Head.encode (Head.new Kind.Settings (Settings.flags s) StreamId.ZERO)
      (Settings.payload_len s) dst
    ++ concat (map (fun x => Setting.encode x []) (Settings.for_each s)).
Proof. apply settings_fold_encode. Qed.

Lemma settings_chunks l :
  chunks 6 (concat (map (fun s => Setting.encode s []) l)) = map (fun s => Setting.encode s []) l.
Proof.
  induction l as [|s l IH]; [done|]. cbn [map concat].
  rewrite chunks_app, IH by (try apply setting_encode_length; lia). done.
Qed.

Lemma settings_payload_length l :
  length (concat (map (fun s => Setting.encode s []) l)) = (6 * length l)%nat.
Proof.
  induction l as [|s l IH]; [done|]. cbn [map concat length].
  rewrite length_app, IH, setting_encode_length. lia.
Qed.

Lemma settings_payload_len_eq s : Settings.payload_len s = 6 * len (Settings.for_each s).
Proof.
  unfold Settings.payload_len, len.
  assert (forall l a, fold_left (fun n (_ : Setting.t) => n + 6) l a = a + 6 * Z.of_nat (length l))
    as Hf; [|apply Hf].
  induction l as [|x l IH]; intros a; simpl; [lia|]. rewrite IH. lia.
Qed.

(** Recording one parameter keeps the record legal. *)
Lemma settings_record_legal st raw s st' :
  Settings.legal st -> all_u8 raw -> Setting.load raw = Done s ->
  Settings.record st s = Ok st' -> Settings.legal st' /\ Settings.flags st' = Settings.flags st.
Proof.
  intros Hl Hraw Hload Hr.
  assert (forall o, s = Some o -> is_u32 (Setting.parts o).2) as Hv.
  { intros o ->. unfold Setting.load in Hload.
    destruct raw as [|a [|b [|c [|d [|e [|f raw]]]]]]; try done.
    destruct_bytes. cbn [byte_at unwrap lookup list_lookup obind] in Hload.
    change (unpack_octets_4 (a :: b :: c :: d :: e :: f :: raw) 2)
      with (unpack_octets_4 ([a; b] ++ [c; d; e; f] ++ raw) (length [a; b])) in Hload.
    rewrite unpack_octets_4_be in Hload by (done || solve_bytes).
    assert (is_u32 (be_value [c; d; e; f])) as Hb.
    { pose proof (be_value_bound [c; d; e; f] ltac:(solve_bytes)) as Hb.
      change (256 ^ len [c; d; e; f]) with 4294967296 in Hb. ilia. }
    cbn [obind] in Hload. injection Hload as Hload. unfold Setting.from_id in Hload.
    repeat case_on; simplify_eq; done. }
  destruct s as [s|]; [|cbn in Hr; by simplify_eq]. specialize (Hv s eq_refl).
  unfold Settings.legal in *. destruct s; cbn [Settings.record Setting.parts snd] in *;
    repeat case_on; simplify_eq; cbn; unfold frame_size_ok in *;
    change MAX_INITIAL_WINDOW_SIZE with 2147483647 in *;
    change MAX_MAX_FRAME_SIZE with 16777215 in *; unfold DEFAULT_MAX_FRAME_SIZE in *;
    destruct_and!; split_and!; try done; try (by left); try (by right); ilia.
Qed.

Lemma settings_load_chunks_legal raws : forall st st',
  Settings.legal st -> Forall all_u8 raws ->
  Settings.load_chunks st raws = Done (Ok st') ->
  Settings.legal st' /\ Settings.flags st' = Settings.flags st.
Proof.
  induction raws as [|raw raws IH]; intros st st' Hl Hraws Hload; [by simplify_eq/=|].
  apply Forall_cons in Hraws as [Hraw Hraws]. cbn [Settings.load_chunks] in Hload.
  destruct (Setting.load raw) as [s|] eqn:Hs; [cbn [obind] in Hload|done].
  destruct (Settings.record st s) as [st1|] eqn:Hr; [|done].
  destruct (settings_record_legal _ _ _ _ Hl Hraw Hs Hr) as [Hl1 Hf1].
  destruct (IH _ _ Hl1 Hraws Hload) as [? ->]. done.
Qed.

Lemma chunks_fuel_all_u8 n fuel l : all_u8 l -> Forall all_u8 (chunks_fuel n fuel l).
Proof.
  revert l. induction fuel as [|fuel IH]; intros l Hl; destruct l; try constructor.
  - by apply Forall_take.
  - apply IH. by apply Forall_drop.
Qed.

Lemma settings_for_each_range s :
  Settings.legal s -> Forall (fun x => is_u32 (Setting.parts x).2) (Settings.for_each s).
Proof.
  unfold Settings.legal, Settings.for_each. intros Hl. destruct_and!.
  repeat apply Forall_app_2;
    match goal with |- context [Settings.opt_list _ ?o] => destruct o end;
    cbn in *; repeat constructor; cbn; unfold_ints; lia.
Qed.

(** Recording, in order, parameters parsed before. *)
Definition settings_record_all (st : Settings.t) (l : list Setting.t) : result Settings.t FrameError :=
  fold_left (fun acc x => rbind acc (fun st => Settings.record st (Some x))) l (Ok st).

Lemma settings_record_all_err l e :
  fold_left (fun acc x => rbind acc (fun st => Settings.record st (Some x))) l (Err e) = Err e.
Proof. induction l; simpl; auto. Qed.

Lemma settings_load_chunks_encode l : forall st,
  Forall (fun x => is_u32 (Setting.parts x).2) l ->
  Settings.load_chunks st (map (fun x => Setting.encode x []) l) =
  Done (settings_record_all st l).
Proof.
  unfold settings_record_all. induction l as [|x l IH]; intros st Hf; [done|].
  apply Forall_cons in Hf as [Hx Hf].
  cbn [map Settings.load_chunks fold_left]. rewrite setting_load_encode by done.
  cbn [obind rbind].
  destruct (Settings.record st (Some x)); [by rewrite IH|by rewrite settings_record_all_err].
Qed.

Lemma settings_record_all_opt st (F : Z -> Setting.t) o l set :
  (forall v, o = Some v -> Settings.record st (Some (F v)) = Ok (set (Some v))) ->
  set None = st ->
  settings_record_all st (Settings.opt_list F o ++ l) = settings_record_all (set o) l.
Proof.
  intros Hs Hn. destruct o as [v|]; [|by rewrite Hn].
  unfold settings_record_all. cbn [Settings.opt_list fold_left app rbind].
  by rewrite (Hs v eq_refl).
Qed.

(** Recording the parameters of a legal record one after the other rebuilds it. *)
Lemma settings_record_all_for_each s :
  Settings.legal s ->
  settings_record_all (Settings.mk (Settings.flags s) None None None None None None None)
    (Settings.for_each s) = Ok s.
Proof.
  destruct s as [f a b c d e g h]. unfold Settings.legal. cbn. intros Hl. destruct_and!.
  unfold Settings.for_each. cbn -[settings_record_all].
  erewrite (settings_record_all_opt _ _ a _ (fun o => Settings.mk f o None None None None None None));
    [|done..].
  erewrite (settings_record_all_opt _ _ b _ (fun o => Settings.mk f a o None None None None None));
    [|intros v ->; cbn in *; destruct_or?; by subst|done].
  erewrite (settings_record_all_opt _ _ c _ (fun o => Settings.mk f a b o None None None None));
    [|done..].
  erewrite (settings_record_all_opt _ _ d _ (fun o => Settings.mk f a b c o None None None));
    [|intros v ->; cbn -[MAX_INITIAL_WINDOW_SIZE] in *|done].
  2:{ destruct (v >? MAX_INITIAL_WINDOW_SIZE) eqn:Hv; [|done].
      change MAX_INITIAL_WINDOW_SIZE with 2147483647 in Hv. ilia. }
  erewrite (settings_record_all_opt _ _ e _ (fun o => Settings.mk f a b c d o None None));
    [|intros v ->; cbn -[frame_size_ok] in *|done].
  2:{ destruct (frame_size_ok v) eqn:Hv; [done|]. unfold frame_size_ok in Hv.
      change MAX_MAX_FRAME_SIZE with 16777215 in Hv. unfold DEFAULT_MAX_FRAME_SIZE in Hv. ilia. }
  erewrite (settings_record_all_opt _ _ g _ (fun o => Settings.mk f a b c d e o None));
    [|done..].
  rewrite <-(app_nil_r (Settings.opt_list _ h)).
  erewrite (settings_record_all_opt _ _ h _ (fun o => Settings.mk f a b c d e g o));
    [|intros v ->; cbn in *; destruct_or?; by subst|done].
  done.
Qed.

Lemma settings_load_payload h s :
  Settings.legal s -> Settings.flags s = SettingsFlags.empty ->
  Head.kind h = Kind.Settings -> Head.stream_id h = StreamId.ZERO ->
  SettingsFlags.is_ack (SettingsFlags.load (Head.flag h)) = false ->
  Settings.load h (concat (map (fun x => Setting.encode x []) (Settings.for_each s)))
  = Done (Ok s).
Proof.
  intros Hl Hf Hk Hs Ha. unfold Settings.load. rewrite Hk, Hs, Ha, bool_decide_true by done.
  cbn [assert obind]. cbn [StreamId.is_zero Z.eqb StreamId.ZERO negb].
  rewrite settings_payload_length, (Nat.mul_comm 6), Nat.Div0.mod_mul. cbn [Nat.eqb negb].
  rewrite settings_chunks, settings_load_chunks_encode by by apply settings_for_each_range.
  unfold Settings.default. change 0 with SettingsFlags.empty. rewrite <-Hf.
  by rewrite settings_record_all_for_each.
Qed.

Lemma settings_load_legal_aux h payload s :
  all_u8 payload -> Settings.load h payload = Done (Ok s) -> Settings.legal s.
Proof.
  intros Hp. unfold Settings.load. destruct (assert _); [cbn [obind]|done].
  destruct (negb _); [done|]. destruct (SettingsFlags.is_ack _).
  - destruct payload; [|done]. by intros [= <-].
  - destruct (negb _); [done|]. intros Hload.
    eapply settings_load_chunks_legal; [| |done]; [done|]. by apply chunks_fuel_all_u8.
Qed.

(** C22: an accepted SETTINGS frame carries only values RFC 9113 allows. *)
Theorem settings_load_legal h payload s :
  all_u8 payload -> Settings.load h payload = Done (Ok s) -> Settings.legal s.
Proof. apply settings_load_legal_aux. Qed.

Lemma settings_load_legal_witness :
  Settings.load (Head.new Kind.Settings 0 0) [0; 4; 0; 1; 0; 0] =
    Done (Ok (Settings.set_initial_window_size (Some 65536) Settings.default)) /\
  Settings.legal (Settings.set_initial_window_size (Some 65536) Settings.default).
Proof.
  split; [reflexivity|].
  apply (settings_load_legal (Head.new Kind.Settings 0 0) [0; 4; 0; 1; 0; 0]); [|reflexivity].
  repeat constructor; vm_compute; discriminate.
Defined.

(** C39: which error a malformed SETTINGS frame gives: a stream identifier, an
    acknowledgement with a payload ([InvalidPayloadLength]), a length that is not
    a multiple of six ([InvalidPayloadAckSettings], whose documentation describes
    the previous case). *)
Theorem settings_load_errors h payload :
  Head.kind h = Kind.Settings ->
  (Head.stream_id h <> 0 -> Settings.load h payload = Done (Err InvalidStreamId)) /\
  (Head.stream_id h = 0 -> Z.land (Head.flag h) 1 = 1 ->
   Settings.load h payload =
     Done (if decide (payload = []) then Ok Settings.ack else Err InvalidPayloadLength)) /\
  (Head.stream_id h = 0 -> Z.land (Head.flag h) 1 = 0 -> (length payload mod 6 <> 0)%nat ->
   Settings.load h payload = Done (Err InvalidPayloadAckSettings)).
Proof.
  intros Hk. unfold Settings.load. rewrite bool_decide_true by done. cbn [assert obind].
  unfold StreamId.is_zero, SettingsFlags.is_ack, SettingsFlags.load, SettingsFlags.ALL,
    SettingsFlags.ACK. split_and!.
  - intros Hid. by destruct (Z.eqb_spec (Head.stream_id h) 0).
  - intros -> ->. by destruct payload.
  - intros -> -> Hm. by rewrite (proj2 (Nat.eqb_neq _ _) Hm).
Qed.

Lemma settings_load_errors_witness :
  Head.kind (Head.new Kind.Settings 1 0) = Kind.Settings /\
  (0 = 0 -> Z.land 1 1 = 1 ->
   Settings.load (Head.new Kind.Settings 1 0) [1] =
     Done (if decide ([1] = []) then Ok Settings.ack else Err InvalidPayloadLength)).
Proof.
  split; [reflexivity|].
  apply (settings_load_errors (Head.new Kind.Settings 1 0) [1] eq_refl).
Defined.
