(* ===== verification/DataFrame.v ===== *)
(** * DATA frames and padding

    Models [src/src/frame/data.rs] and [strip_padding] of
    [src/src/frame/util.rs]. *)

From S2P Require Import Prelude FrameBase.

(** [util::strip_padding]: the pad length and the payload without its padding. *)
Definition strip_padding (payload : bytes) : outcome (result (byte * bytes) FrameError) :=
  let payload_len := length payload in
  if (payload_len =? 0)%nat then Done (Err TooMuchPadding)
  else
    let! b := byte_at payload 0 in
    let pad_len := Z.to_nat b in
    if (payload_len <=? pad_len)%nat then Done (Err TooMuchPadding)
    else
      let payload := drop 1 payload in
      let payload := take (payload_len - pad_len - 1) payload in
      Done (Ok (b, payload)).

Module DataFlags.

Definition t : Type := byte.

Definition END_STREAM : byte := 1.
Definition PADDED : byte := 8.
Definition ALL : byte := Z.lor END_STREAM PADDED.

Definition default : t := 0.
Definition load (bits : byte) : t := Z.land bits ALL.
Definition is_empty (f : t) : bool := f =? 0.
Definition is_end_stream (f : t) : bool := Z.land f END_STREAM =? END_STREAM.
Definition set_end_stream (f : t) : t := Z.lor f END_STREAM.
Definition unset_end_stream (f : t) : t := Z.land f (Z.lxor 255 END_STREAM).
Definition is_padded (f : t) : bool := Z.land f PADDED =? PADDED.

End DataFlags.

Module Data.

Record t (T : Type) : Type := mk {
  stream_id : StreamId.t;
  data : T;
  flags : DataFlags.t;
  pad_len : option byte
}.
Arguments mk {T}.
Arguments stream_id {T}.
Arguments data {T}.
Arguments flags {T}.
Arguments pad_len {T}.

Definition new {T} (stream_id : StreamId.t) (payload : T) : outcome (t T) :=
  let! _ := assert (negb (StreamId.is_zero stream_id)) in
  Done (mk stream_id payload DataFlags.default None).

Definition is_end_stream {T} (f : t T) : bool := DataFlags.is_end_stream (flags f).

Definition set_end_stream {T} (val : bool) (f : t T) : t T :=
  mk (stream_id f) (data f)
     (if val then DataFlags.set_end_stream (flags f) else DataFlags.unset_end_stream (flags f))
     (pad_len f).

Definition payload {T} (f : t T) : T := data f.
Definition into_payload {T} (f : t T) : T := data f.

Definition head {T} (f : t T) : Head.t := Head.new Kind.Data (flags f) (stream_id f).

Definition map {T U} (g : T -> U) (f : t T) : t U :=
  mk (stream_id f) (g (data f)) (flags f) (pad_len f).

Definition load (head : Head.t) (payload : bytes) : outcome (result (t bytes) FrameError) :=
  let flags := DataFlags.load (Head.flag head) in
  if StreamId.is_zero (Head.stream_id head) then Done (Err InvalidStreamId)
  else if DataFlags.is_padded flags then
    let!? (len, payload) := strip_padding payload in
    Done (Ok (mk (Head.stream_id head) payload flags (Some len)))
  else Done (Ok (mk (Head.stream_id head) payload flags None)).

(** [encode_chunk]: [remaining_mut] is what [dst] still accepts; the payload is
    drained from the frame. *)
Definition encode_chunk (f : t bytes) (remaining_mut : Z) (dst : bytes) : outcome (t bytes * bytes) :=
  let n := len (data f) in
  let! _ := assert (n <=? remaining_mut) in
  Done (map (fun _ => []) f, Head.encode (head f) n dst ++ data f).

End Data.

(** ** Facts *)

Lemma strip_padding_ok (data padding : bytes) :
  len padding <= u8_max ->
  strip_padding (len padding :: data ++ padding) = Done (Ok (len padding, data)).
Proof.
  intros Hp. unfold strip_padding. cbn [length Nat.eqb byte_at unwrap lookup list_lookup obind].
  rewrite length_app. unfold len in *. rewrite Nat2Z.id.
  destruct (Nat.leb_spec (S (length data + length padding)) (length padding)); [lia|].
  cbn [drop]. rewrite drop_0.
  replace (S (length data + length padding) - length padding - 1)%nat with (length data) by lia.
  by rewrite take_app_length.
Qed.

(** What [strip_padding] accepts is a pad length, the data and that much padding. *)
Lemma strip_padding_inv payload n data :
  all_u8 payload -> strip_padding payload = Done (Ok (n, data)) ->
  exists padding, payload = n :: data ++ padding /\ len padding = n.
Proof.
  intros Hp. unfold strip_padding. destruct payload as [|b payload]; [done|].
  destruct_bytes. cbn [length Nat.eqb byte_at unwrap lookup list_lookup obind].
  destruct (Nat.leb_spec (S (length payload)) (Z.to_nat b)); [done|].
  cbn [drop]. rewrite drop_0. intros [= <- <-].
  set (k := (S (length payload) - Z.to_nat b - 1)%nat).
  exists (drop k payload). rewrite take_drop. split; [done|].
  unfold len. rewrite length_drop. unfold_ints. lia.
Qed.

(** The only error is an impossible pad length. *)
Lemma strip_padding_err payload e :
  strip_padding payload = Done (Err e) ->
  e = TooMuchPadding /\ forall b, payload !! 0%nat = Some b -> len payload <= b.
Proof.
  unfold strip_padding. destruct payload as [|b payload].
  - intros [= <-]. done.
  - cbn [length Nat.eqb byte_at unwrap lookup list_lookup obind].
    destruct (Nat.leb_spec (S (length payload)) (Z.to_nat b)); [|done].
    intros [= <-]. split; [done|]. intros ? [= <-]. unfold len. simpl length. lia.
Qed.

Lemma strip_padding_no_panic payload : strip_padding payload <> Panic.
Proof. unfold strip_padding. destruct payload; [done|]. simpl. by case_on. Qed.

(** A padded DATA frame is accepted exactly when its payload is a pad length,
    the data and that much padding, and then carries the data alone; the only
    other outcome is [TooMuchPadding]. *)
Theorem data_load_padded h payload :
  all_u8 payload -> Head.stream_id h <> 0 ->
  DataFlags.is_padded (DataFlags.load (Head.flag h)) = true ->
  (forall data padding, payload = len padding :: data ++ padding ->
     Data.load h payload = Done (Ok (Data.mk (Head.stream_id h) data
       (DataFlags.load (Head.flag h)) (Some (len padding))))) /\
  ((forall data padding, payload <> len padding :: data ++ padding) ->
   Data.load h payload = Done (Err TooMuchPadding)).
Proof.
  intros Hp Hid Hpad. unfold Data.load, StreamId.is_zero. rewrite Hpad.
  destruct (Z.eqb_spec (Head.stream_id h) 0); [done|]. split.
  - intros data padding ->. destruct_bytes. by rewrite strip_padding_ok by ilia.
  - intros Hno. destruct (strip_padding payload) as [[[n' data]|e]|] eqn:Hs.
    + destruct (strip_padding_inv _ _ _ Hp Hs) as (padding & -> & <-). by destruct (Hno data padding).
    + by apply strip_padding_err in Hs as [-> _].
    + by destruct (strip_padding_no_panic payload).
Qed.

Lemma data_load_padded_witness :
  Data.load (Head.new Kind.Data 9 1) [2; 65; 66; 0; 0] =
    Done (Ok (Data.mk 1 [65; 66] 9 (Some 2))).
Proof.
  apply (data_load_padded (Head.new Kind.Data 9 1) [2; 65; 66; 0; 0]) with (padding := [0; 0]);
    [|done|reflexivity|reflexivity].
  repeat constructor; vm_compute; discriminate.
Defined.
