(* ===== verification/HpackInt.v ===== *)
(** * HPACK integers (RFC 7541 section 5.1)

    Models [decode_int] and [peek_u8] of [src/src/hpack/decoder.rs] and
    [encode_int], [encode_int_one_byte] of [src/src/hpack/encoder.rs]. *)

From S2P Require Import Prelude FrameBase.

Definition MAX_BYTES : Z := 5.
Definition VARINT_MASK : Z := 127.
Definition VARINT_FLAG : Z := 128.

(** The [while buf.has_remaining()] loop of [decode_int]. *)
Fixpoint decode_varint (bytes_read shift ret : Z) (buf : bytes) : result (Z * bytes) DecoderError :=
  match buf with
  | [] => Err (NeedMoreError IntegerUnderflow)
  | b :: buf =>
      let bytes_read := bytes_read + 1 in
      let ret := ret + Z.shiftl (Z.land b VARINT_MASK) shift in
      let shift := shift + 7 in
      if Z.land b VARINT_FLAG =? 0 then Ok (ret, buf)
      else if bytes_read =? MAX_BYTES then Err IntegerOverflow
      else decode_varint bytes_read shift ret buf
  end.

(** [decode_int]: the value and what is left of the buffer. *)
Definition decode_int (buf : bytes) (prefix_size : Z) : result (Z * bytes) DecoderError :=
  if negb ((1 <=? prefix_size) && (prefix_size <=? 8)) then Err InvalidIntegerPrefix
  else
    match buf with
    | [] => Err (NeedMoreError IntegerUnderflow)
    | b :: buf =>
        let mask := if prefix_size =? 8 then 255 else wrap_u8 (Z.shiftl 1 prefix_size - 1) in
        let ret := Z.land b mask in
        if ret <? mask then Ok (ret, buf)
        else decode_varint 1 0 ret buf
    end.

Definition peek_u8 (buf : bytes) : option byte :=
  match buf with b :: _ => Some b | [] => None end.

Definition encode_int_one_byte (value prefix_bits : Z) : bool :=
  value <? Z.shiftl 1 prefix_bits - 1.

(** The [while value >= 128] loop of [encode_int]; ten iterations are enough for
    a 64-bit value (see [encode_varint_total]). *)
Fixpoint encode_varint (fuel : nat) (value : Z) (dst : bytes) : outcome bytes :=
  match fuel with
  | O => Panic
  | S fuel =>
      if value >=? 128 then
        encode_varint fuel (Z.shiftr value 7) (dst ++ [Z.lor 128 (wrap_u8 value)])
      else Done (dst ++ [wrap_u8 value])
  end.

Definition encode_int (value prefix_bits : Z) (first_byte : byte) (dst : bytes) : outcome bytes :=
  if encode_int_one_byte value prefix_bits then Done (dst ++ [Z.lor first_byte (wrap_u8 value)])
  else
    let low := Z.shiftl 1 prefix_bits - 1 in
    let value := value - low in
    encode_varint 10 value (dst ++ [Z.lor first_byte (wrap_u8 low)]).

(** ** Facts *)

(** The octets of a varint, as a function of the value. *)
Fixpoint varint_octets (fuel : nat) (value : Z) : bytes :=
  match fuel with
  | O => []
  | S fuel =>
      if value >=? 128 then (128 + value mod 128) :: varint_octets fuel (value / 128)
      else [value]
  end.

Lemma varint_octet_lor value : Z.lor 128 (wrap_u8 value) = 128 + value mod 128.
Proof.
  assert ((Z.lor 128 (wrap_u8 value) =? 128 + wrap_u8 value mod 128) = true) as H%Z.eqb_eq.
  { apply (byte_forall (fun w => Z.lor 128 w =? 128 + w mod 128)); [reflexivity|].
    apply wrap_u8_is_u8. }
  rewrite H. unfold wrap_u8. rewrite Z.mod_mod_divide; [done|]. by exists 2.
Qed.

Lemma encode_varint_total fuel value dst :
  (0 < fuel)%nat -> 0 <= value < 2 ^ (7 * Z.of_nat fuel) ->
  encode_varint fuel value dst = Done (dst ++ varint_octets fuel value).
Proof.
  revert value dst. induction fuel as [|fuel IH]; intros value dst Hfuel Hv; [lia|].
  cbn [encode_varint varint_octets]. destruct (value >=? 128) eqn:Hge.
  - rewrite varint_octet_lor, Z.shiftr_div_pow2 by lia. change (2 ^ 7) with 128.
    replace (7 * Z.of_nat (S fuel)) with (7 + 7 * Z.of_nat fuel) in Hv by lia.
    rewrite Z.pow_add_r in Hv by lia. change (2 ^ 7) with 128 in Hv.
    rewrite IH, <-app_assoc; [done| |].
    + destruct fuel; [simpl in Hv; ilia|lia].
    + split; [apply Z.div_pos; ilia|]. apply Z.div_lt_upper_bound; lia.
  - by rewrite wrap_u8_id by ilia.
Qed.

Lemma varint_low b : 0 <= b < 128 ->
  Z.land b VARINT_MASK = b /\ (Z.land b VARINT_FLAG =? 0) = true.
Proof.
  intros Hb. change VARINT_MASK with (Z.ones 7). rewrite Z.land_ones by lia.
  split; [by apply Z.mod_small|].
  assert (((128 <=? b) || (Z.land b VARINT_FLAG =? 0)) = true) as H.
  { apply (byte_forall (fun b => (128 <=? b) || (Z.land b VARINT_FLAG =? 0))); [reflexivity|ilia]. }
  apply orb_true_iff in H as [H|H]; [ilia|done].
Qed.

Lemma varint_high m : 0 <= m < 128 ->
  Z.land (128 + m) VARINT_MASK = m /\ (Z.land (128 + m) VARINT_FLAG =? 0) = false.
Proof.
  intros Hm. change VARINT_MASK with (Z.ones 7). rewrite Z.land_ones by lia.
  split; [by rewrite (Z.add_mod 128), Z.mod_same, Z.add_0_l, Z.mod_mod, Z.mod_small by lia|].
  assert (((128 + m <? 128) || negb (Z.land (128 + m) VARINT_FLAG =? 0)) = true) as H.
  { apply (byte_forall (fun b => (b <? 128) || negb (Z.land b VARINT_FLAG =? 0)));
      [reflexivity|ilia]. }
  apply orb_true_iff in H as [H|H]; [ilia|by apply negb_true_iff].
Qed.

(** Decoding the octets of a value that fits in the octets still allowed. *)
Lemma decode_varint_octets fuel k : forall value ret rest,
  0 <= value < 2 ^ (7 * (MAX_BYTES - k)) -> value < 2 ^ (7 * Z.of_nat fuel) ->
  1 <= k < MAX_BYTES -> (0 < fuel)%nat ->
  decode_varint k (7 * (k - 1)) ret (varint_octets fuel value ++ rest) =
    Ok (ret + value * 2 ^ (7 * (k - 1)), rest).
Proof.
  revert k. induction fuel as [|fuel IH]; intros k value ret rest Hv Hf Hk Hfuel; [lia|].
  cbn [varint_octets]. destruct (value >=? 128) eqn:Hge.
  - cbn [app decode_varint].
    destruct (varint_high (value mod 128)) as [Hmask Hflag]; [apply Z.mod_pos_bound; lia|].
    rewrite Hmask, Hflag. destruct (Z.eqb_spec (k + 1) MAX_BYTES) as [He|He].
    + unfold MAX_BYTES in *. replace (5 - k) with 1 in Hv by lia. simpl in Hv. ilia.
    + replace (7 * (k - 1) + 7) with (7 * (k + 1 - 1)) by lia.
      assert (forall n, 1 <= n -> value < 2 ^ (7 * n) -> value / 128 < 2 ^ (7 * (n - 1))) as Hdiv.
      { intros n Hn Hlt. apply Z.div_lt_upper_bound; [lia|].
        replace (7 * n) with (7 + 7 * (n - 1)) in Hlt by lia.
        rewrite Z.pow_add_r in Hlt by lia. change (2 ^ 7) with 128 in Hlt. lia. }
      rewrite IH.
      * f_equal. f_equal. rewrite Z.shiftl_mul_pow2 by lia.
        replace (7 * (k + 1 - 1)) with (7 + 7 * (k - 1)) by lia.
        rewrite Z.pow_add_r by lia. change (2 ^ 7) with 128.
        pose proof (Z.div_mod value 128 ltac:(lia)). nia.
      * split; [apply Z.div_pos; ilia|]. unfold MAX_BYTES in *.
        replace (5 - (k + 1)) with (5 - k - 1) by lia. apply Hdiv; lia.
      * replace (7 * Z.of_nat fuel) with (7 * (Z.of_nat (S fuel) - 1)) by lia. apply Hdiv; lia.
      * unfold MAX_BYTES in *. lia.
      * destruct fuel; [simpl in Hf; ilia|lia].
  - cbn [app decode_varint].
    destruct (varint_low value) as [Hmask Hflag]; [ilia|]. rewrite Hmask, Hflag.
    by rewrite Z.shiftl_mul_pow2 by lia.
Qed.

(** A value that needs more octets than allowed is refused. *)
Lemma decode_varint_octets_overflow fuel k : forall value ret rest,
  2 ^ (7 * (MAX_BYTES - k)) <= value < 2 ^ (7 * Z.of_nat fuel) ->
  1 <= k < MAX_BYTES ->
  decode_varint k (7 * (k - 1)) ret (varint_octets fuel value ++ rest) = Err IntegerOverflow.
Proof.
  revert k. induction fuel as [|fuel IH]; intros k value ret rest Hv Hk.
  { assert (0 < 2 ^ (7 * (MAX_BYTES - k))) by (apply Z.pow_pos_nonneg; unfold MAX_BYTES in *; lia).
    simpl in Hv. lia. }
  assert (2 ^ 7 <= 2 ^ (7 * (MAX_BYTES - k))) as Hmin
    by (apply Z.pow_le_mono_r; unfold MAX_BYTES in *; lia).
  change (2 ^ 7) with 128 in Hmin.
  cbn [varint_octets]. destruct (value >=? 128) eqn:Hge; [|ilia].
  cbn [app decode_varint].
  destruct (varint_high (value mod 128)) as [Hmask Hflag]; [apply Z.mod_pos_bound; lia|].
  rewrite Hmask, Hflag. destruct (Z.eqb_spec (k + 1) MAX_BYTES) as [He|He]; [done|].
  replace (7 * (k - 1) + 7) with (7 * (k + 1 - 1)) by lia. apply IH; [|unfold MAX_BYTES in *; lia].
  unfold MAX_BYTES in *. split.
  - apply Z.div_le_lower_bound; [lia|].
    replace (7 * (5 - k)) with (7 + 7 * (5 - (k + 1))) in Hv by lia.
    rewrite Z.pow_add_r in Hv by lia. change (2 ^ 7) with 128 in Hv. lia.
  - apply Z.div_lt_upper_bound; [lia|].
    replace (7 * Z.of_nat (S fuel)) with (7 + 7 * Z.of_nat fuel) in Hv by lia.
    rewrite Z.pow_add_r in Hv by lia. change (2 ^ 7) with 128 in Hv. lia.
Qed.

Lemma decode_varint_range k : forall ret buf v rest,
  all_u8 buf -> 1 <= k < MAX_BYTES -> 0 <= ret < 2 ^ 8 + 2 ^ (7 * (k - 1)) - 1 ->
  decode_varint k (7 * (k - 1)) ret buf = Ok (v, rest) ->
  ret <= v < 2 ^ 8 + 2 ^ 28 - 1 /\ exists used, buf = used ++ rest /\ used <> [].
Proof.
  intros ret buf. revert k ret. induction buf as [|b buf IH]; intros k ret v rest Hb Hk Hr; [done|].
  destruct_bytes. cbn [decode_varint].
  assert (0 <= Z.land b VARINT_MASK < 128) as Hm.
  { change VARINT_MASK with (Z.ones 7). rewrite Z.land_ones by lia. apply Z.mod_pos_bound. lia. }
  rewrite Z.shiftl_mul_pow2 by lia.
  assert (0 < 2 ^ (7 * (k - 1))) as Hp by (apply Z.pow_pos_nonneg; lia).
  assert (2 ^ (7 * (k + 1 - 1)) = 128 * 2 ^ (7 * (k - 1))) as Hp1.
  { replace (7 * (k + 1 - 1)) with (7 + 7 * (k - 1)) by lia. by rewrite Z.pow_add_r by lia. }
  assert (2 ^ (7 * (k + 1 - 1)) <= 2 ^ 28) as Hp2 by (apply Z.pow_le_mono_r; unfold MAX_BYTES in *; lia).
  assert (Z.land b VARINT_MASK * 2 ^ (7 * (k - 1)) <= 127 * 2 ^ (7 * (k - 1))) as Hle
    by (apply Z.mul_le_mono_nonneg_r; lia).
  assert (0 <= Z.land b VARINT_MASK * 2 ^ (7 * (k - 1))) as Hge by (apply Z.mul_nonneg_nonneg; lia).
  destruct (Z.land b VARINT_FLAG =? 0).
  - intros [= <- <-]. split; [lia|]. by exists [b].
  - destruct (Z.eqb_spec (k + 1) MAX_BYTES) as [He|He]; [done|].
    replace (7 * (k - 1) + 7) with (7 * (k + 1 - 1)) by lia. intros Hd.
    apply IH in Hd; [|done|unfold MAX_BYTES in *; lia|lia].
    destruct Hd as [Hv (used & -> & _)]. split; [lia|]. by exists (b :: used).
Qed.

Lemma int_prefix_mask p :
  1 <= p <= 8 ->
  (if p =? 8 then 255 else wrap_u8 (Z.shiftl 1 p - 1)) = Z.ones p /\ Z.shiftl 1 p - 1 = Z.ones p.
Proof.
  intros Hp. assert (p = 1 \/ p = 2 \/ p = 3 \/ p = 4 \/ p = 5 \/ p = 6 \/ p = 7 \/ p = 8) as H by lia.
  by destruct_or?; subst.
Qed.

Lemma ones_range p : 1 <= p <= 8 -> Z.ones p = 2 ^ p - 1 /\ 2 <= 2 ^ p <= 256.
Proof.
  intros Hp. rewrite Z.ones_equiv. split; [lia|].
  pose proof (Z.pow_le_mono_r 2 1 p ltac:(lia) ltac:(lia)).
  pose proof (Z.pow_le_mono_r 2 p 8 ltac:(lia) ltac:(lia)).
  change (2 ^ 1) with 2 in *. change (2 ^ 8) with 256 in *. lia.
Qed.

(** The prefix bits of the first octet hold the value, its other bits [first]. *)
Lemma prefix_bits_read p first v :
  1 <= p <= 8 -> Z.land first (Z.ones p) = 0 -> 0 <= v < 2 ^ p ->
  Z.land (Z.lor first (wrap_u8 v)) (Z.ones p) = v.
Proof.
  intros Hp Hf Hv. destruct (ones_range p Hp). rewrite wrap_u8_id by ilia.
  rewrite Z.land_lor_distr_l, Hf, Z.lor_0_l, Z.land_ones by lia. by apply Z.mod_small.
Qed.

(** The octets [encode_int] appends. *)
Definition int_octets (value p first : Z) : bytes :=
  if encode_int_one_byte value p then [Z.lor first (wrap_u8 value)]
  else Z.lor first (wrap_u8 (Z.shiftl 1 p - 1)) :: varint_octets 10 (value - (Z.shiftl 1 p - 1)).

Lemma encode_int_octets value p first dst :
  1 <= p <= 8 -> is_usize value ->
  encode_int value p first dst = Done (dst ++ int_octets value p first).
Proof.
  intros Hp Hv. unfold encode_int, int_octets, encode_int_one_byte.
  destruct (int_prefix_mask p Hp) as [_ ->]. destruct (ones_range p Hp) as [-> ?].
  destruct (value <? 2 ^ p - 1) eqn:He; [done|].
  rewrite encode_varint_total; [by rewrite <-app_assoc|lia|].
  change (2 ^ (7 * Z.of_nat 10)) with 1180591620717411303424. ilia.
Qed.

Lemma decode_int_octets value p first rest :
  1 <= p <= 8 -> Z.land first (Z.ones p) = 0 -> is_usize value ->
  decode_int (int_octets value p first ++ rest) p =
    if value <? 2 ^ p - 1 + 2 ^ 28 then Ok (value, rest) else Err IntegerOverflow.
Proof.
  intros Hp Hf Hv. unfold decode_int, int_octets, encode_int_one_byte.
  destruct (Z.leb_spec 1 p), (Z.leb_spec p 8); try lia. cbn [andb negb].
  destruct (int_prefix_mask p Hp) as [-> ->]. destruct (ones_range p Hp) as [Ho ?].
  destruct (Z.ltb_spec value (2 ^ p - 1 + 2 ^ 28)) as [Hlt|Hge]; rewrite !Ho.
  - destruct (Z.ltb_spec value (2 ^ p - 1)) as [Hs|Hl].
    + cbn [app]. rewrite <-Ho, prefix_bits_read by (done || ilia).
      rewrite Ho. destruct (Z.ltb_spec value (2 ^ p - 1)); [done|lia].
    + cbn [app]. rewrite <-Ho, prefix_bits_read by (done || ilia). rewrite Z.ltb_irrefl.
      change 0 with (7 * (1 - 1)) at 1. rewrite decode_varint_octets.
      * f_equal. f_equal. rewrite Z.mul_0_r, Z.pow_0_r. lia.
      * unfold MAX_BYTES. simpl in *. ilia.
      * change (2 ^ (7 * Z.of_nat 10)) with 1180591620717411303424. ilia.
      * unfold MAX_BYTES. lia.
      * lia.
  - destruct (Z.ltb_spec value (2 ^ p - 1)) as [Hs|Hl]; [lia|].
    cbn [app]. rewrite <-Ho, prefix_bits_read by (done || ilia). rewrite Z.ltb_irrefl.
    change 0 with (7 * (1 - 1)) at 1. apply decode_varint_octets_overflow.
    + unfold MAX_BYTES. change (2 ^ (7 * Z.of_nat 10)) with 1180591620717411303424.
      simpl in *. ilia.
    + unfold MAX_BYTES. lia.
Qed.

Lemma decode_int_range buf p v rest :
  all_u8 buf -> decode_int buf p = Ok (v, rest) ->
  0 <= v < 2 ^ 8 + 2 ^ 28 - 1 /\ exists used, buf = used ++ rest /\ used <> [].
Proof.
  intros Hb. unfold decode_int. destruct (negb _) eqn:Hneg; [done|].
  assert (1 <= p <= 8) as Hp by ilia. clear Hneg.
  destruct buf as [|b buf]; [done|]. destruct_bytes.
  destruct (int_prefix_mask p Hp) as [-> _]. destruct (ones_range p Hp) as [Ho ?].
  assert (0 <= Z.land b (Z.ones p) < 2 ^ p) as Hr
    by (rewrite Z.land_ones by lia; apply Z.mod_pos_bound; lia).
  destruct (Z.ltb_spec (Z.land b (Z.ones p)) (Z.ones p)).
  - intros [= <- <-]. split; [lia|]. by exists [b].
  - change 0 with (7 * (1 - 1)) at 1. intros Hd. apply decode_varint_range in Hd;
      [|done|unfold MAX_BYTES; lia|change (2 ^ 8 + 2 ^ (7 * (1 - 1)) - 1) with 256; lia].
    destruct Hd as [? (used & -> & _)]. split; [lia|]. by exists (b :: used).
Qed.

(** C40: every integer is read back from its encoding for any prefix size, up to
    the decoder's limit of 2^28 above the prefix; from there on the encoding is
    refused as an overflow. *)
Theorem hpack_int_roundtrip value p first dst rest :
  1 <= p <= 8 -> Z.land first (Z.ones p) = 0 -> is_usize value ->
  exists octets, encode_int value p first dst = Done (dst ++ octets) /\
    decode_int (octets ++ rest) p =
      (if value <? 2 ^ p - 1 + 2 ^ 28 then Ok (value, rest) else Err IntegerOverflow).
Proof.
  intros Hp Hf Hv. exists (int_octets value p first).
  split; [by apply encode_int_octets|by apply decode_int_octets].
Qed.

Lemma hpack_int_roundtrip_witness :
  exists octets, encode_int 1337 5 32 [] = Done ([] ++ octets) /\
    decode_int (octets ++ [7]) 5 = Ok (1337, [7]).
Proof.
  apply (hpack_int_roundtrip 1337 5 32 [] [7]); [lia|reflexivity|].
  split; vm_compute; discriminate.
Defined.

(** Whatever the octets, a decoded integer is below 2^28 + 255, so it fits a
    [u32] (the bound the source announces), and at least one octet is consumed. *)
Lemma hpack_int_bound buf p v rest :
  all_u8 buf -> decode_int buf p = Ok (v, rest) ->
  0 <= v < 2 ^ 28 + 255 /\ is_u32 v /\ (length rest < length buf)%nat.
Proof.
  intros Hb Hd. apply decode_int_range in Hd as [Hv (used & -> & Hne)]; [|done].
  split_and!; [lia..| |]; [ilia|]. rewrite length_app. destruct used; [done|]. simpl. lia.
Qed.

Lemma hpack_int_bound_witness :
  decode_int [255; 255; 255; 255; 127] 8 = Ok (268435710, []) /\
  0 <= 268435710 < 2 ^ 28 + 255 /\ is_u32 268435710 /\ (length (A:=Z) [] < 5)%nat.
Proof.
  split; [reflexivity|].
  apply (hpack_int_bound [255; 255; 255; 255; 127] 8 268435710 []); [|reflexivity].
  repeat constructor; vm_compute; discriminate.
Defined.
