(* ===== verification/Huffman.v ===== *)
(** * Huffman coding of HPACK strings (RFC 7541 section 5.2)

    Models [src/src/hpack/huffman/mod.rs]: the nibble automaton of [decode] and
    the 40-bit accumulator of [encode].  The specification is on bit strings:
    the code of a string is the concatenation of its symbols' codes, padded to
    an octet with fewer than eight 1 bits. *)

From S2P Require Import Prelude FrameBase HuffmanTable.

Module Huffman.

Definition MAYBE_EOS : Z := 1.
Definition DECODED : Z := 2.
Definition ERROR : Z := 4.

Record Decoder : Type := mk { state : Z; maybe_eos : bool }.

Definition new : Decoder := mk 0 false.

(** [DECODE_TABLE[state][input]] *)
Definition transition (state : Z) (input : byte) : outcome (Z * Z * Z) :=
  let! row := unwrap (DECODE_TABLE !! Z.to_nat state) in
  unwrap (row !! Z.to_nat input).

Definition decode4 (d : Decoder) (input : byte) : outcome (result (option byte * Decoder) DecoderError) :=
  let! (next, byte, flags) := transition (state d) input in
  if Z.land flags ERROR =? ERROR then Done (Err InvalidHuffmanCode)
  else
    let ret := if Z.land flags DECODED =? DECODED then Some byte else None in
    Done (Ok (ret, mk next (Z.land flags MAYBE_EOS =? MAYBE_EOS))).

Definition is_final (d : Decoder) : bool := (state d =? 0) || maybe_eos d.

(** [if let Some(b) = ... { buf.put_u8(b) }] *)
Definition put_opt (buf : bytes) (o : option byte) : bytes :=
  match o with Some b => buf ++ [b] | None => buf end.

(** The loop of [decode]; on an error the octets decoded so far stay in [buf]. *)
Fixpoint decode_loop (d : Decoder) (src buf : bytes) : outcome (result Decoder DecoderError * bytes) :=
  match src with
  | [] => Done (Ok d, buf)
  | b :: src =>
      let! r1 := decode4 d (Z.shiftr b 4) in
      match r1 with
      | Err e => Done (Err e, buf)
      | Ok (o1, d) =>
          let buf := put_opt buf o1 in
          let! r2 := decode4 d (Z.land b 15) in
          match r2 with
          | Err e => Done (Err e, buf)
          | Ok (o2, d) => decode_loop d src (put_opt buf o2)
          end
      end
  end.

(** [decode]: the result and the scratch buffer afterwards. *)
Definition decode (src buf : bytes) : outcome (result bytes DecoderError * bytes) :=
  let! (r, buf) := decode_loop new src buf in
  match r with
  | Err e => Done (Err e, buf)
  | Ok d =>
      if negb (is_final d) then Done (Err InvalidHuffmanCode, buf)
      else Done (Ok buf, [])
  end.

(** [while bits_left <= 32]; at most four octets are ready at a time, so five
    iterations are enough (see [flush_spec]). *)
Fixpoint flush (fuel : nat) (bits bits_left : Z) (dst : bytes) : outcome (Z * Z * bytes) :=
  match fuel with
  | O => Panic
  | S fuel =>
      if bits_left <=? 32 then
        flush fuel (wrap_u64 (Z.shiftl bits 8)) (bits_left + 8) (dst ++ [wrap_u8 (Z.shiftr bits 32)])
      else Done (bits, bits_left, dst)
  end.

Fixpoint encode_loop (src : bytes) (bits bits_left : Z) (dst : bytes) : outcome (Z * Z * bytes) :=
  match src with
  | [] => Done (bits, bits_left, dst)
  | b :: src =>
      let! (nbits, code) := unwrap (ENCODE_TABLE !! Z.to_nat b) in
      let! _ := assert (nbits <=? bits_left) in
      let bits := Z.lor bits (wrap_u64 (Z.shiftl code (bits_left - nbits))) in
      let bits_left := bits_left - nbits in
      let! (bits, bits_left, dst) := flush 5 bits bits_left dst in
      encode_loop src bits bits_left dst
  end.

Definition encode (src dst : bytes) : outcome bytes :=
  let! (bits, bits_left, dst) := encode_loop src 0 40 dst in
  if negb (bits_left =? 40) then
    let bits := Z.lor bits (Z.shiftl 1 bits_left - 1) in
    Done (dst ++ [wrap_u8 (Z.shiftr bits 32)])
  else Done dst.

End Huffman.

(** ** Bit strings *)

(** The low [n] bits of [v], most significant first. *)
Fixpoint to_bits (n : nat) (v : Z) : list bool :=
  match n with
  | O => []
  | S n => Z.testbit v (Z.of_nat n) :: to_bits n v
  end.

Definition bits_val (l : list bool) : Z := fold_left (fun a b => 2 * a + Z.b2z b) l 0.

Definition ones (n : nat) : list bool := repeat true n.

Definition bits_of_bytes (l : bytes) : list bool := flat_map (to_bits 8) l.

(** The code of a symbol, 256 being the end-of-string symbol. *)
Definition code_bits (sym : Z) : list bool :=
  match ENCODE_TABLE !! Z.to_nat sym with
  | Some (n, c) => to_bits (Z.to_nat n) c
  | None => []
  end.

Definition code_of (l : bytes) : list bool := flat_map code_bits l.

Definition EOS : Z := 256.

Fixpoint is_prefix (l1 l2 : list bool) : bool :=
  match l1, l2 with
  | [], _ => true
  | a :: l1, b :: l2 => Bool.eqb a b && is_prefix l1 l2
  | _, [] => false
  end.

(** The bits each decoder state remembers, as (number, value): the path from the
    root of the code tree to the inner node the state stands for.  The table is
    checked against both tables of the source by [tables_agree]. *)
Definition STATE_BITS : list (Z * Z) := [
  (0, 0); (1, 0); (2, 0); (3, 0); (4, 0); (4, 1); (3, 1); (4, 2);
  (4, 3); (2, 1); (3, 2); (4, 4); (4, 5); (5, 10); (5, 11); (3, 3);
  (4, 6); (5, 12); (5, 13); (4, 7); (5, 14); (5, 15); (1, 1); (2, 2);
  (3, 4); (4, 8); (5, 16); (5, 17); (4, 9); (5, 18); (5, 19); (3, 5);
  (4, 10); (5, 20); (5, 21); (4, 11); (5, 22); (5, 23); (6, 46); (6, 47);
  (2, 3); (3, 6); (4, 12); (5, 24); (6, 48); (6, 49); (5, 25); (6, 50);
  (6, 51); (4, 13); (5, 26); (6, 52); (6, 53); (5, 27); (6, 54); (6, 55);
  (3, 7); (4, 14); (5, 28); (6, 56); (6, 57); (5, 29); (6, 58); (6, 59);
  (4, 15); (5, 30); (6, 60); (6, 61); (5, 31); (6, 62); (7, 124); (7, 125);
  (6, 63); (7, 126); (7, 127); (8, 254); (9, 508); (9, 509); (8, 255); (9, 510);
  (10, 1021); (9, 511); (10, 1022); (11, 2045); (10, 1023); (11, 2046); (12, 4092); (12, 4093);
  (11, 2047); (12, 4094); (12, 4095); (13, 8190); (13, 8191); (14, 16382); (14, 16383); (15, 32767);
  (16, 65534); (17, 131068); (18, 262136); (18, 262137); (19, 524275); (17, 131069); (18, 262138); (19, 524276);
  (19, 524277); (18, 262139); (19, 524278); (19, 524279); (20, 1048558); (20, 1048559); (16, 65535); (17, 131070);
  (18, 262140); (19, 524280); (20, 1048560); (20, 1048561); (19, 524281); (20, 1048562); (20, 1048563); (18, 262141);
  (19, 524282); (20, 1048564); (21, 2097129); (20, 1048565); (21, 2097130); (21, 2097131); (19, 524283); (20, 1048566);
  (21, 2097132); (21, 2097133); (20, 1048567); (21, 2097134); (21, 2097135); (17, 131071); (18, 262142); (19, 524284);
  (20, 1048568); (21, 2097136); (21, 2097137); (20, 1048569); (21, 2097138); (21, 2097139); (19, 524285); (20, 1048570);
  (21, 2097140); (21, 2097141); (20, 1048571); (21, 2097142); (22, 4194284); (22, 4194285); (21, 2097143); (22, 4194286);
  (22, 4194287); (18, 262143); (19, 524286); (20, 1048572); (21, 2097144); (22, 4194288); (22, 4194289); (21, 2097145);
  (22, 4194290); (22, 4194291); (20, 1048573); (21, 2097146); (22, 4194292); (22, 4194293); (21, 2097147); (22, 4194294);
  (22, 4194295); (19, 524287); (20, 1048574); (21, 2097148); (22, 4194296); (22, 4194297); (21, 2097149); (22, 4194298);
  (23, 8388597); (22, 4194299); (23, 8388598); (23, 8388599); (20, 1048575); (21, 2097150); (22, 4194300); (23, 8388600);
  (23, 8388601); (22, 4194301); (23, 8388602); (23, 8388603); (24, 16777206); (24, 16777207); (21, 2097151); (22, 4194302);
  (23, 8388604); (24, 16777208); (25, 33554416); (25, 33554417); (24, 16777209); (25, 33554418); (25, 33554419); (23, 8388605);
  (24, 16777210); (25, 33554420); (25, 33554421); (24, 16777211); (25, 33554422); (25, 33554423); (26, 67108847); (22, 4194303);
  (23, 8388606); (24, 16777212); (25, 33554424); (26, 67108848); (26, 67108849); (25, 33554425); (26, 67108850); (26, 67108851);
  (24, 16777213); (25, 33554426); (26, 67108852); (26, 67108853); (25, 33554427); (26, 67108854); (26, 67108855); (23, 8388607);
  (24, 16777214); (25, 33554428); (26, 67108856); (27, 134217713); (26, 67108857); (27, 134217714); (27, 134217715); (25, 33554429);
  (26, 67108858); (27, 134217716); (27, 134217717); (26, 67108859); (27, 134217718); (27, 134217719); (24, 16777215); (25, 33554430);
  (26, 67108860); (27, 134217720); (27, 134217721); (26, 67108861); (27, 134217722); (27, 134217723); (25, 33554431); (26, 67108862);
  (27, 134217724); (27, 134217725); (26, 67108863); (27, 134217726); (27, 134217727); (28, 268435455); (29, 536870910); (29, 536870911)
].

Definition state_bits (s : Z) : list bool :=
  match STATE_BITS !! Z.to_nat s with
  | Some (n, v) => to_bits (Z.to_nat n) v
  | None => []
  end.

(** Padding: fewer than eight 1 bits. *)
Definition is_padding (l : list bool) : bool := (length l <=? 7)%nat && forallb id l.

(** What a transition must do: emit the symbol whose code is completed, remember
    the rest of the bits, know whether that rest is padding, and refuse exactly
    when the end-of-string symbol is completed. *)
Definition entry_ok (s n : Z) (e : Z * Z * Z) : bool :=
  let '(next, byte, flags) := e in
  let all := state_bits s ++ to_bits 4 n in
  if Z.land flags Huffman.ERROR =? Huffman.ERROR then is_prefix (code_bits EOS) all
  else
    let emitted := if Z.land flags Huffman.DECODED =? Huffman.DECODED then [byte] else [] in
    bool_decide (all = code_of emitted ++ state_bits next)
    && forallb (fun b => (0 <=? b) && (b <=? 255)) emitted
    && ((0 <=? next) && (next <=? 255))
    && Bool.eqb ((next =? 0) || (Z.land flags Huffman.MAYBE_EOS =? Huffman.MAYBE_EOS))
         (is_padding (state_bits next)).

Definition tables_agree : bool :=
  forallb (fun s =>
    match DECODE_TABLE !! s with
    | Some row =>
        forallb (fun n =>
          match row !! n with
          | Some e => entry_ok (Z.of_nat s) (Z.of_nat n) e
          | None => false
          end) (seq 0 16)
    | None => false
    end) (seq 0 256).

Definition symbols : list Z := map Z.of_nat (seq 0 257).

(** No code is a prefix of another one, nor of what a state remembers or of a padding. *)
Definition prefix_free_of (codes : list (Z * list bool)) (states pads : list (list bool)) : bool :=
  forallb (fun a =>
    forallb (fun b => negb (is_prefix a.2 b.2) || (a.1 =? b.1)) codes
    && forallb (fun l => negb (is_prefix a.2 l)) states
    && forallb (fun l => negb (is_prefix a.2 l)) pads) codes.

Definition all_codes : list (Z * list bool) := map (fun s => (s, code_bits s)) symbols.
Definition all_states : list (list bool) := map (fun s => state_bits (Z.of_nat s)) (seq 0 256).
Definition all_pads : list (list bool) := map ones (seq 0 8).

(** Each code fits the accumulator: at most 30 bits. *)
Definition codes_short : bool :=
  forallb (fun e => (5 <=? e.1) && (e.1 <=? 30) && (0 <=? e.2) && (e.2 <? 2 ^ e.1)) ENCODE_TABLE.

(** ** Facts about the tables *)

Lemma tables_agree_true : tables_agree = true.
Proof. vm_compute. reflexivity. Qed.

Lemma prefix_free_true : prefix_free_of all_codes all_states all_pads = true.
Proof. vm_compute. reflexivity. Qed.

Lemma codes_short_true : codes_short = true.
Proof. vm_compute. reflexivity. Qed.

(** ** Facts about bit strings *)

Lemma length_to_bits n v : length (to_bits n v) = n.
Proof. induction n; simpl; congruence. Qed.

Lemma is_prefix_app l1 l2 : is_prefix l1 l2 = true <-> exists r, l2 = l1 ++ r.
Proof.
  revert l2. induction l1 as [|a l1 IH]; intros l2; [simpl; split; [by exists l2|done]|].
  destruct l2 as [|b l2]; simpl; [split; [done|by intros (? & ?)]|].
  rewrite andb_true_iff, IH, eqb_true_iff. split.
  - intros [-> (r & ->)]. by exists r.
  - intros (r & [= -> ->]). eauto.
Qed.

Lemma fold_bits_val l acc :
  fold_left (fun a b => 2 * a + Z.b2z b) l acc = acc * 2 ^ len l + bits_val l.
Proof.
  unfold bits_val, len. revert acc. induction l as [|b l IH]; intros acc.
  - cbn. lia.
  - cbn [fold_left length]. rewrite IH, (IH (2 * 0 + _)).
    rewrite Nat2Z.inj_succ, Z.pow_succ_r by lia. lia.
Qed.

Lemma bits_val_app l1 l2 : bits_val (l1 ++ l2) = bits_val l1 * 2 ^ len l2 + bits_val l2.
Proof. unfold bits_val at 1. rewrite fold_left_app. apply fold_bits_val. Qed.

Lemma bits_val_cons b l : bits_val (b :: l) = Z.b2z b * 2 ^ len l + bits_val l.
Proof. unfold bits_val at 1. cbn [fold_left]. rewrite fold_bits_val. lia. Qed.

Lemma bits_val_range l : 0 <= bits_val l < 2 ^ len l.
Proof.
  induction l as [|b l IH]; [done|]. rewrite bits_val_cons.
  assert (len (b :: l) = len l + 1) as -> by (unfold len; simpl length; lia).
  rewrite Z.pow_add_r by (unfold len; lia). change (2 ^ 1) with 2. destruct b; simpl Z.b2z; lia.
Qed.

Lemma to_bits_bits_val l m :
  to_bits (length l) (m * 2 ^ len l + bits_val l) = l.
Proof.
  revert m. induction l as [|b l IH]; intros m; [done|].
  cbn [length to_bits]. rewrite bits_val_cons.
  pose proof (bits_val_range l) as Hr.
  assert (len (b :: l) = len l + 1) as -> by (unfold len; simpl length; lia).
  rewrite Z.pow_add_r by (unfold len; lia). change (2 ^ 1) with 2.
  replace (m * (2 ^ len l * 2) + (Z.b2z b * 2 ^ len l + bits_val l))
    with ((2 * m + Z.b2z b) * 2 ^ len l + bits_val l) by lia.
  f_equal; [|apply IH].
  change (Z.of_nat (length l)) with (len l).
  apply Z.b2z_inj. rewrite Z.testbit_spec' by (unfold len; lia).
  rewrite Z.div_add_l, (Z.div_small (bits_val l)), Z.add_0_r, Z.add_comm, Z.mul_comm by lia.
  rewrite Z_mod_plus_full. by destruct b.
Qed.

Lemma to_bits_bits_val_small l : to_bits (length l) (bits_val l) = l.
Proof. pose proof (to_bits_bits_val l 0) as H. by rewrite Z.mul_0_l, Z.add_0_l in H. Qed.

Lemma bits_val_to_bits n v : 0 <= v < 2 ^ Z.of_nat n -> bits_val (to_bits n v) = v.
Proof.
  assert (bits_val (to_bits n v) = v mod 2 ^ Z.of_nat n) as Hm.
  { induction n as [|n IH]; [by rewrite Z.mod_1_r|].
    cbn [to_bits]. rewrite bits_val_cons, IH. unfold len. rewrite length_to_bits.
    rewrite Nat2Z.inj_succ, <-Z.add_1_r, Z.pow_add_r, Z.rem_mul_r by lia.
    rewrite Z.testbit_spec' by lia. change (2 ^ 1) with 2. lia. }
  intros Hv. rewrite Hm. by apply Z.mod_small.
Qed.

Lemma byte_nibbles b :
  is_u8 b -> to_bits 8 b = to_bits 4 (Z.shiftr b 4) ++ to_bits 4 (Z.land b 15).
Proof.
  intros Hb.
  pose proof (byte_forall (fun b => bool_decide
    (to_bits 8 b = to_bits 4 (Z.shiftr b 4) ++ to_bits 4 (Z.land b 15))) b) as H.
  cbv beta in H. rewrite bool_decide_eq_true in H. by apply H.
Qed.

Lemma byte_nibbles_range b : is_u8 b -> 0 <= Z.shiftr b 4 < 16 /\ 0 <= Z.land b 15 < 16.
Proof.
  intros Hb. change 15 with (Z.ones 4). rewrite Z.land_ones, Z.shiftr_div_pow2 by lia.
  change (2 ^ 4) with 16. split; [|apply Z.mod_pos_bound; lia].
  split; [apply Z.div_pos; ilia|apply Z.div_lt_upper_bound; ilia].
Qed.

Lemma forallb_seq (f : nat -> bool) a n i :
  forallb f (seq a n) = true -> (a <= i < a + n)%nat -> f i = true.
Proof. intros Hf Hi. rewrite forallb_forall in Hf. apply Hf, in_seq. lia. Qed.

(** ** Unique decodability *)

Definition is_symbol (s : Z) : Prop := 0 <= s <= EOS.

Definition no_code (l : list bool) : Prop :=
  forall s, is_symbol s -> is_prefix (code_bits s) l = false.

Lemma prefix_free_of_spec codes states pads :
  prefix_free_of codes states pads = true -> forall s c, In (s, c) codes ->
  (forall s' c', In (s', c') codes -> is_prefix c c' = true -> s = s') /\
  (forall l, In l states -> is_prefix c l = false) /\
  (forall l, In l pads -> is_prefix c l = false).
Proof.
  intros H s c Hs. unfold prefix_free_of in H. rewrite forallb_forall in H.
  specialize (H _ Hs). cbn [fst snd] in H.
  apply andb_prop in H as [H H3]. apply andb_prop in H as [H1 H2].
  rewrite forallb_forall in H1, H2, H3. split_and!.
  - intros s' c' Hs' Hp. specialize (H1 _ Hs'). cbn [fst snd] in H1.
    rewrite Hp in H1. cbn in H1. by apply Z.eqb_eq.
  - intros l Hl. by apply negb_true_iff, H2.
  - intros l Hl. by apply negb_true_iff, H3.
Qed.

Lemma symbol_in s : is_symbol s -> In (s, code_bits s) all_codes.
Proof.
  intros [??]. unfold all_codes. apply in_map_iff. exists s. split; [done|]. apply in_map_iff.
  exists (Z.to_nat s). split; [lia|]. apply in_seq. unfold EOS in *. lia.
Qed.

Lemma prefix_free_checks s :
  is_symbol s ->
  (forall s', is_symbol s' -> is_prefix (code_bits s) (code_bits s') = true -> s = s') /\
  (forall st, 0 <= st <= 255 -> is_prefix (code_bits s) (state_bits st) = false) /\
  (forall k, (k < 8)%nat -> is_prefix (code_bits s) (ones k) = false).
Proof.
  intros Hs. destruct (prefix_free_of_spec _ _ _ prefix_free_true _ _ (symbol_in s Hs))
    as (H1 & H2 & H3). split_and!.
  - intros s' Hs' Hp. exact (H1 _ _ (symbol_in s' Hs') Hp).
  - intros st Hst. apply H2. unfold all_states. apply in_map_iff. exists (Z.to_nat st).
    rewrite Z2Nat.id by lia. split; [done|]. apply in_seq. lia.
  - intros k Hk. apply H3. unfold all_pads. apply in_map_iff. exists k. split; [done|].
    apply in_seq. lia.
Qed.

Lemma state_no_code st : 0 <= st <= 255 -> no_code (state_bits st).
Proof. intros Hst s Hs. by apply (prefix_free_checks s Hs). Qed.

Lemma ones_no_code k : (k < 8)%nat -> no_code (ones k).
Proof. intros Hk s Hs. by apply (prefix_free_checks s Hs). Qed.

Lemma is_prefix_app_or l1 l2 r1 r2 :
  l1 ++ r1 = l2 ++ r2 -> is_prefix l1 l2 = true \/ is_prefix l2 l1 = true.
Proof.
  revert l2. induction l1 as [|a l1 IH]; intros l2 He; [by left|].
  destruct l2 as [|b l2]; [by right|]. simplify_eq/=. rewrite eqb_reflx. eauto.
Qed.

(** A parse into codes is at most as long as one whose rest holds no code. *)
Lemma code_of_unique l1 l2 r1 r2 :
  Forall is_symbol l1 -> Forall is_symbol l2 -> no_code r2 ->
  code_of l1 ++ r1 = code_of l2 ++ r2 ->
  exists l3, l2 = l1 ++ l3 /\ r1 = code_of l3 ++ r2.
Proof.
  intros Hl1. revert l2. induction Hl1 as [|a l1 Ha Hl1 IH]; intros l2 Hl2 Hr He.
  - by exists l2.
  - destruct Hl2 as [|b l2 Hb Hl2].
    + cbn in He. assert (is_prefix (code_bits a) r2 = true) as Hp.
      { apply is_prefix_app. exists (code_of l1 ++ r1). by rewrite <-app_assoc in He. }
      by rewrite (Hr a Ha) in Hp.
    + cbn in He. rewrite <-!app_assoc in He.
      assert (a = b) as <-.
      { destruct (is_prefix_app_or _ _ _ _ He) as [Hp|Hp];
          [|symmetry]; by apply prefix_free_checks. }
      apply app_inv_head in He. destruct (IH _ Hl2 Hr He) as (l3 & -> & ->). by exists l3.
Qed.

Lemma bytes_are_symbols l : all_u8 l -> Forall is_symbol l.
Proof. intros Hl. eapply Forall_impl; [exact Hl|]. intros b Hb. unfold is_symbol, EOS. ilia. Qed.

(** ** The decoder *)

Definition state_ok (d : Huffman.Decoder) : Prop :=
  0 <= Huffman.state d <= 255 /\
  Huffman.is_final d = is_padding (state_bits (Huffman.state d)).

Definition opt_list_of (o : option byte) : bytes :=
  match o with Some b => [b] | None => [] end.

Lemma put_opt_app buf o : Huffman.put_opt buf o = buf ++ opt_list_of o.
Proof. destruct o; simpl; [done|by rewrite app_nil_r]. Qed.

(** What one nibble does, from the agreement of the tables. *)
Lemma decode4_spec d n :
  state_ok d -> 0 <= n < 16 ->
  (Huffman.decode4 d n = Done (Err InvalidHuffmanCode) /\
   exists rest, state_bits (Huffman.state d) ++ to_bits 4 n = code_bits EOS ++ rest) \/
  (exists o d', Huffman.decode4 d n = Done (Ok (o, d')) /\ state_ok d' /\ all_u8 (opt_list_of o) /\
   state_bits (Huffman.state d) ++ to_bits 4 n =
     code_of (opt_list_of o) ++ state_bits (Huffman.state d')).
Proof.
  intros [Hs _] Hn. pose proof tables_agree_true as H. unfold tables_agree in H.
  apply (forallb_seq _ _ _ (Z.to_nat (Huffman.state d))) in H; [|lia]. cbv beta in H.
  unfold Huffman.decode4, Huffman.transition.
  destruct (DECODE_TABLE !! Z.to_nat (Huffman.state d)) as [row|]; [|done]. cbn [unwrap obind].
  apply (forallb_seq _ _ _ (Z.to_nat n)) in H; [|lia]. cbv beta in H.
  destruct (row !! Z.to_nat n) as [[[next b] flags]|]; [|done]. cbn [unwrap obind].
  rewrite !Z2Nat.id in H by lia. unfold entry_ok in H.
  destruct (Z.land flags Huffman.ERROR =? Huffman.ERROR).
  - left. split; [done|]. by apply is_prefix_app.
  - right. destruct (Z.land flags Huffman.DECODED =? Huffman.DECODED) eqn:Hd.
    all: apply andb_prop in H as [H Hf]; apply andb_prop in H as [H Hnext];
      apply andb_prop in H as [Hbits Hb]; apply bool_decide_eq_true in Hbits;
      apply Bool.eqb_prop in Hf; cbn [forallb] in Hb.
    + exists (Some b), (Huffman.mk next (Z.land flags Huffman.MAYBE_EOS =? Huffman.MAYBE_EOS)).
      split_and!; [done| |cbn; solve_bytes|done].
      split; cbn; [ilia|done].
    + exists None, (Huffman.mk next (Z.land flags Huffman.MAYBE_EOS =? Huffman.MAYBE_EOS)).
      split_and!; [done| |by constructor|done]. split; cbn; [ilia|done].
Qed.

Lemma code_of_app l1 l2 : code_of (l1 ++ l2) = code_of l1 ++ code_of l2.
Proof. apply flat_map_app. Qed.

Lemma app_step {A} (a n x c r : list A) : a ++ n = c ++ r -> a ++ n ++ x = c ++ r ++ x.
Proof. intros H. by rewrite !app_assoc, H. Qed.

(** The decoder emits the symbols of the codes read so far; it stops exactly at
    an end-of-string symbol. *)
Lemma decode_loop_spec src : forall d buf,
  all_u8 src -> state_ok d ->
  (exists d' out, Huffman.decode_loop d src buf = Done (Ok d', buf ++ out) /\
     state_ok d' /\ all_u8 out /\
     state_bits (Huffman.state d) ++ bits_of_bytes src =
       code_of out ++ state_bits (Huffman.state d')) \/
  (exists out rest, Huffman.decode_loop d src buf = Done (Err InvalidHuffmanCode, buf ++ out) /\
     all_u8 out /\
     state_bits (Huffman.state d) ++ bits_of_bytes src = code_of out ++ code_bits EOS ++ rest).
Proof.
  induction src as [|b src IH]; intros d buf Hsrc Hd.
  - left. exists d, []. cbn. rewrite !app_nil_r. done.
  - apply Forall_cons in Hsrc as [Hb Hsrc]. cbn [Huffman.decode_loop bits_of_bytes flat_map].
    destruct (byte_nibbles_range b Hb) as [Hn1 Hn2]. rewrite byte_nibbles by done.
    fold (bits_of_bytes src). rewrite <-(app_assoc (to_bits 4 _)).
    destruct (decode4_spec d _ Hd Hn1) as [(-> & r & Hr)|(o1 & d1 & -> & Hd1 & Ho1 & H1)].
    { right. exists [], (r ++ to_bits 4 (Z.land b 15) ++ bits_of_bytes src).
      cbn [obind]. rewrite !app_nil_r. split_and!; [done|constructor|].
      by rewrite (app_step _ _ _ _ _ Hr). }
    cbn [obind].
    destruct (decode4_spec d1 _ Hd1 Hn2) as [(-> & r & Hr)|(o2 & d2 & -> & Hd2 & Ho2 & H2)].
    { right. exists (opt_list_of o1), (r ++ bits_of_bytes src). cbn [obind].
      rewrite put_opt_app. split_and!; [done..|].
      by rewrite (app_step _ _ _ _ _ H1), (app_step _ _ _ _ _ Hr). }
    cbn [obind]. rewrite !put_opt_app.
    destruct (IH d2 ((buf ++ opt_list_of o1) ++ opt_list_of o2) Hsrc Hd2)
      as [(d' & out & -> & Hd' & Hout & H3)|(out & rest & -> & Hout & H3)]; [left|right].
    + exists d', (opt_list_of o1 ++ opt_list_of o2 ++ out). rewrite <-!app_assoc.
      split_and!; [done..|repeat apply Forall_app_2; done|].
      rewrite (app_step _ _ _ _ _ H1), (app_step _ _ _ _ _ H2), H3.
      by rewrite !code_of_app, <-!app_assoc.
    + exists (opt_list_of o1 ++ opt_list_of o2 ++ out), rest. rewrite <-!app_assoc.
      split_and!; [done..|repeat apply Forall_app_2; done|].
      rewrite (app_step _ _ _ _ _ H1), (app_step _ _ _ _ _ H2), H3.
      by rewrite !code_of_app, <-!app_assoc.
Qed.

Lemma is_padding_ones l : is_padding l = true <-> exists k, (k < 8)%nat /\ l = ones k.
Proof.
  unfold is_padding. rewrite andb_true_iff, Nat.leb_le. split.
  - intros [Hl Ht]. exists (length l). split; [lia|]. clear Hl.
    induction l as [|[] l IH]; cbn in *; [done| |done]. unfold ones in *. cbn. f_equal. by apply IH.
  - intros (k & Hk & ->). unfold ones. rewrite repeat_length. split; [lia|].
    clear Hk. by induction k.
Qed.

Lemma new_state_ok : state_ok Huffman.new.
Proof. split; [cbn; lia|reflexivity]. Qed.

Lemma initial_bits : state_bits (Huffman.state Huffman.new) = [].
Proof. reflexivity. Qed.

Lemma decode_sound src buf out :
  all_u8 src -> Huffman.decode src buf = Done (Ok out, []) ->
  exists s k, out = buf ++ s /\ all_u8 s /\ (k < 8)%nat /\
    bits_of_bytes src = code_of s ++ ones k.
Proof.
  intros Hsrc. unfold Huffman.decode.
  destruct (decode_loop_spec src Huffman.new buf Hsrc new_state_ok)
    as [(d' & s & -> & [_ Hf] & Hs & Hb)|(s & rest & -> & _)]; [|done].
  cbn [obind]. destruct (negb _) eqn:Hn; [done|]. apply negb_false_iff in Hn.
  intros [= <-]. rewrite Hf in Hn. apply is_padding_ones in Hn as (k & Hk & Hk').
  exists s, k. rewrite initial_bits in Hb. cbn [app] in Hb. by rewrite Hb, Hk'.
Qed.

Lemma decode_complete src buf s k :
  all_u8 src -> all_u8 s -> (k < 8)%nat -> bits_of_bytes src = code_of s ++ ones k ->
  Huffman.decode src buf = Done (Ok (buf ++ s), []).
Proof.
  intros Hsrc Hs Hk Hb. unfold Huffman.decode.
  destruct (decode_loop_spec src Huffman.new buf Hsrc new_state_ok)
    as [(d' & s' & -> & [Hst Hf] & Hs' & Hb')|(s' & rest & -> & Hs' & Hb')].
  - rewrite initial_bits in Hb'. cbn [app] in Hb'. rewrite Hb in Hb'. symmetry in Hb'.
    destruct (code_of_unique s' s _ _ (bytes_are_symbols _ Hs') (bytes_are_symbols _ Hs)
      (ones_no_code k Hk) Hb') as (l3 & -> & Hl3).
    destruct l3 as [|a l3].
    + rewrite app_nil_r. cbn [obind]. rewrite Hf, Hl3. cbn.
      by rewrite (proj2 (is_padding_ones (ones k)) ltac:(eauto)).
    + exfalso. assert (is_symbol a) as Ha.
      { apply bytes_are_symbols in Hs. apply Forall_app in Hs as [_ Hs]. by inversion Hs. }
      pose proof (state_no_code _ Hst a Ha) as Hno. rewrite Hl3 in Hno.
      rewrite (proj2 (is_prefix_app _ _)) in Hno; [done|]. cbn. rewrite <-app_assoc. eauto.
  - exfalso. rewrite initial_bits in Hb'. cbn [app] in Hb'. rewrite Hb in Hb'. symmetry in Hb'.
    assert (code_of (s' ++ [EOS]) ++ rest = code_of s ++ ones k) as He.
    { rewrite code_of_app, <-app_assoc, <-Hb'. cbn -[code_bits]. by rewrite app_nil_r. }
    assert (Forall is_symbol (s' ++ [EOS])) as Hsym.
    { apply Forall_app_2; [by apply bytes_are_symbols|]. repeat constructor; unfold EOS; lia. }
    destruct (code_of_unique _ s _ _ Hsym (bytes_are_symbols _ Hs) (ones_no_code k Hk) He)
      as (l3 & -> & _).
    apply Forall_app in Hs as [Hs _]. apply Forall_app in Hs as [_ Hs].
    inversion Hs as [|?? He' _]; subst. unfold EOS in He'. ilia.
Qed.

(** Decoding never panics; anything else is an invalid code. *)
Lemma decode_total src buf :
  all_u8 src ->
  (exists out, Huffman.decode src buf = Done (Ok out, [])) \/
  exists buf', Huffman.decode src buf = Done (Err InvalidHuffmanCode, buf').
Proof.
  intros Hsrc. unfold Huffman.decode.
  destruct (decode_loop_spec src Huffman.new buf Hsrc new_state_ok)
    as [(d' & s & -> & _)|(s & rest & -> & _)]; cbn [obind].
  - destruct (negb _); eauto.
  - eauto.
Qed.

(** ** The encoder *)

Lemma code_bits_spec b :
  is_symbol b -> exists n c, ENCODE_TABLE !! Z.to_nat b = Some (n, c) /\
    5 <= n <= 30 /\ 0 <= c < 2 ^ n /\ code_bits b = to_bits (Z.to_nat n) c.
Proof.
  intros [Hb1 Hb2]. unfold EOS in Hb2.
  destruct (ENCODE_TABLE !! Z.to_nat b) as [[n c]|] eqn:He.
  - exists n, c. split; [done|]. unfold code_bits. rewrite He.
    pose proof codes_short_true as H. unfold codes_short in H. rewrite forallb_forall in H.
    specialize (H (n, c) (proj1 (list_elem_of_In _ _) (list_elem_of_lookup_2 _ _ _ He))).
    cbn [fst snd] in H. split_and!; try done; ilia.
  - exfalso. apply lookup_ge_None in He.
    assert (length ENCODE_TABLE = 257%nat) as Hl by reflexivity. lia.
Qed.

(** The accumulator holds the pending bits [p] in the top of its low 40 bits. *)
Definition pending (bits bits_left : Z) (p : list bool) : Prop :=
  0 <= bits /\ 0 <= bits_left /\ len p + bits_left = 40 /\
  bits mod 2 ^ 40 = bits_val p * 2 ^ bits_left.

Lemma byte_window bits hi lo :
  0 <= lo < 2 ^ 32 -> 0 <= hi < 256 -> bits mod 2 ^ 40 = hi * 2 ^ 32 + lo ->
  wrap_u8 (Z.shiftr bits 32) = hi.
Proof.
  intros Hlo Hhi H. unfold wrap_u8. rewrite Z.shiftr_div_pow2 by lia.
  change (2 ^ 40) with (2 ^ 32 * 2 ^ 8) in H. rewrite Z.rem_mul_r in H by lia.
  change (2 ^ 8) with 256 in H.
  pose proof (Z.mod_pos_bound bits (2 ^ 32) ltac:(lia)).
  pose proof (Z.mod_pos_bound (bits / 2 ^ 32) 256 ltac:(lia)). lia.
Qed.

Lemma pending_split bits bits_left q p :
  length q = 8%nat -> pending bits bits_left (q ++ p) ->
  wrap_u8 (Z.shiftr bits 32) = bits_val q /\
  pending (wrap_u64 (Z.shiftl bits 8)) (bits_left + 8) p.
Proof.
  intros Hq (Hb & Hbl & Hlen & Hv). rewrite len_app in Hlen. unfold len in Hlen at 1.
  rewrite Hq in Hlen. rewrite bits_val_app in Hv.
  pose proof (bits_val_range p) as Hp. pose proof (bits_val_range q) as Hqr.
  unfold len in Hqr. rewrite Hq in Hqr. change (2 ^ Z.of_nat 8) with 256 in Hqr.
  pose proof (len_nonneg p) as Hlp.
  assert (2 ^ len p * 2 ^ bits_left = 2 ^ 32) as Hpow
    by (rewrite <-Z.pow_add_r by lia; f_equal; lia).
  assert (0 < 2 ^ bits_left) by (apply Z.pow_pos_nonneg; lia).
  assert (0 <= bits_val p * 2 ^ bits_left < 2 ^ 32) as Hlo.
  { rewrite <-Hpow. split; [nia|]. apply Z.mul_lt_mono_pos_r; lia. }
  rewrite Z.mul_add_distr_r, <-Z.mul_assoc, Hpow in Hv. split.
  - by eapply byte_window.
  - unfold pending, wrap_u64. split_and!.
    + apply Z.mod_pos_bound. lia.
    + lia.
    + lia.
    + rewrite Z.mod_mod_divide by (by exists (2 ^ 24)).
      rewrite Z.shiftl_mul_pow2, <-Z.mul_mod_idemp_l, Hv by lia.
      rewrite Z.mul_add_distr_r.
      replace (bits_val q * 2 ^ 32 * 2 ^ 8) with (bits_val q * 2 ^ 40) by lia.
      rewrite Z.add_comm, Z_mod_plus_full, Z.pow_add_r, Z.mul_assoc by lia.
      apply Z.mod_small. change (2 ^ 40) with (2 ^ 32 * 2 ^ 8). nia.
Qed.

Lemma bits_of_bytes_cons b l : bits_of_bytes (b :: l) = to_bits 8 b ++ bits_of_bytes l.
Proof. reflexivity. Qed.

Lemma bits_of_bytes_app l1 l2 : bits_of_bytes (l1 ++ l2) = bits_of_bytes l1 ++ bits_of_bytes l2.
Proof. apply flat_map_app. Qed.

(** Flushing moves whole octets of the pending bits to the output. *)
Lemma flush_spec fuel : forall bits bits_left p dst,
  pending bits bits_left p -> (length p < 8 * fuel)%nat ->
  exists bits' bits_left' p' out,
    Huffman.flush fuel bits bits_left dst = Done (bits', bits_left', dst ++ out) /\
    pending bits' bits_left' p' /\ (length p' < 8)%nat /\ all_u8 out /\
    p = bits_of_bytes out ++ p'.
Proof.
  induction fuel as [|fuel IH]; intros bits bits_left p dst Hp Hl; [lia|].
  cbn [Huffman.flush]. pose proof Hp as (_ & _ & Hlen & _). unfold len in Hlen.
  destruct (Z.leb_spec bits_left 32).
  - pose proof (take_drop 8 p) as Hsplit. rewrite <-Hsplit in Hp.
    apply pending_split in Hp as [Hbyte Hp]; [|rewrite length_take; lia].
    destruct (IH _ _ _ (dst ++ [wrap_u8 (Z.shiftr bits 32)]) Hp) as
      (bits' & bl' & p' & out & -> & Hp' & Hl' & Hout & Heq); [rewrite length_drop; lia|].
    exists bits', bl', p', (wrap_u8 (Z.shiftr bits 32) :: out). rewrite <-app_assoc.
    split_and!; [done..|constructor; [apply wrap_u8_is_u8|done]|].
    rewrite bits_of_bytes_cons, <-app_assoc, <-Heq, Hbyte.
    rewrite <-Hsplit at 1. f_equal.
    replace 8%nat with (length (take 8 p)) at 2 by (rewrite length_take; lia).
    by rewrite to_bits_bits_val_small.
  - exists bits, bits_left, p, []. rewrite app_nil_r. split_and!; [done..|lia|constructor|done].
Qed.

Lemma pending_push bits bits_left p n c :
  pending bits bits_left p -> 0 <= n <= bits_left -> 0 <= c < 2 ^ n ->
  pending (Z.lor bits (wrap_u64 (Z.shiftl c (bits_left - n)))) (bits_left - n)
    (p ++ to_bits (Z.to_nat n) c).
Proof.
  intros (Hb & Hbl & Hlen & Hv) Hn Hc. pose proof (len_nonneg p).
  assert (0 < 2 ^ (bits_left - n)) by (apply Z.pow_pos_nonneg; lia).
  assert (2 ^ n * 2 ^ (bits_left - n) = 2 ^ bits_left) as Hpow
    by (rewrite <-Z.pow_add_r by lia; f_equal; lia).
  assert (0 <= c * 2 ^ (bits_left - n) < 2 ^ bits_left) as Hr.
  { rewrite <-Hpow. split; [nia|]. apply Z.mul_lt_mono_pos_r; lia. }
  assert (2 ^ bits_left <= 2 ^ 40) as Hle by (apply Z.pow_le_mono_r; lia).
  rewrite Z.shiftl_mul_pow2 by lia.
  unfold wrap_u64. rewrite (Z.mod_small (c * _)) by (change (2 ^ 40) with 1099511627776 in *; lia).
  unfold pending. split_and!.
  - apply Z.lor_nonneg. lia.
  - lia.
  - rewrite len_app. unfold len at 2. rewrite length_to_bits. lia.
  - rewrite <-(Z.land_ones _ 40), Z.land_lor_distr_l, !Z.land_ones, Hv by lia.
    rewrite (Z.mod_small (c * _)) by lia.
    rewrite <-Z.shiftl_mul_pow2, lor_shiftl_add by lia.
    rewrite bits_val_app. unfold len. rewrite length_to_bits, Z2Nat.id by lia.
    rewrite bits_val_to_bits by (rewrite Z2Nat.id; lia).
    rewrite <-Hpow. lia.
Qed.

Lemma encode_loop_spec src : forall bits bits_left p dst,
  all_u8 src -> pending bits bits_left p -> (length p < 8)%nat ->
  exists bits' bits_left' p' out,
    Huffman.encode_loop src bits bits_left dst = Done (bits', bits_left', dst ++ out) /\
    pending bits' bits_left' p' /\ (length p' < 8)%nat /\ all_u8 out /\
    p ++ code_of src = bits_of_bytes out ++ p'.
Proof.
  induction src as [|b src IH]; intros bits bits_left p dst Hsrc Hp Hl.
  - exists bits, bits_left, p, []. cbn. rewrite !app_nil_r. split_and!; done || constructor.
  - apply Forall_cons in Hsrc as [Hb Hsrc]. cbn [Huffman.encode_loop].
    destruct (code_bits_spec b) as (n & c & -> & Hn & Hc & Hcode); [unfold is_symbol, EOS; ilia|].
    cbn [unwrap obind]. pose proof Hp as (_ & _ & Hlen & _). unfold len in Hlen.
    destruct (Z.leb_spec n bits_left); [|lia]. cbn [assert obind].
    apply (pending_push _ _ _ n c) in Hp; [|lia|done]. rewrite <-Hcode in Hp.
    destruct (flush_spec 5 _ _ _ dst Hp) as (bits1 & bl1 & p1 & out1 & -> & Hp1 & Hl1 & Ho1 & He1).
    { rewrite length_app, Hcode, length_to_bits. lia. }
    cbn [obind].
    destruct (IH bits1 bl1 p1 (dst ++ out1) Hsrc Hp1 Hl1)
      as (bits2 & bl2 & p2 & out2 & -> & Hp2 & Hl2 & Ho2 & He2).
    exists bits2, bl2, p2, (out1 ++ out2). rewrite <-app_assoc.
    split_and!; [done..|by apply Forall_app_2|].
    cbn [code_of flat_map]. rewrite app_assoc, He1, bits_of_bytes_app, <-!app_assoc.
    f_equal. exact He2.
Qed.

Lemma ones_val k : bits_val (ones k) = 2 ^ Z.of_nat k - 1.
Proof.
  induction k as [|k IH]; [done|]. unfold ones in *. cbn [repeat]. rewrite bits_val_cons, IH.
  unfold len. rewrite repeat_length, Nat2Z.inj_succ, Z.pow_succ_r by lia. simpl Z.b2z. lia.
Qed.

(** The encoder appends the codes, padded with fewer than eight 1 bits. *)
Lemma encode_spec src dst :
  all_u8 src ->
  exists out k, Huffman.encode src dst = Done (dst ++ out) /\ all_u8 out /\ (k < 8)%nat /\
    bits_of_bytes out = code_of src ++ ones k.
Proof.
  intros Hsrc. unfold Huffman.encode.
  assert (pending 0 40 []) as H0 by (unfold pending; repeat split; done).
  destruct (encode_loop_spec src 0 40 [] dst Hsrc H0) as
    (bits & bl & p & out & -> & Hp & Hl & Hout & He); [simpl; lia|].
  cbn [obind app] in *. pose proof Hp as (Hb0 & Hb1 & Hlen & Hv). unfold len in Hlen.
  destruct (Z.eqb_spec bl 40) as [->|Hne]; cbn [negb].
  - exists out, 0%nat. assert (p = []) as -> by (apply nil_length_inv; lia).
    rewrite He. split_and!; [done..|lia|]. by rewrite !app_nil_r.
  - set (k := (8 - length p)%nat). assert (length (p ++ ones k) = 8%nat) as Hl8.
    { unfold ones. rewrite length_app, repeat_length. unfold k. lia. }
    assert (wrap_u8 (Z.shiftr (Z.lor bits (Z.shiftl 1 bl - 1)) 32) = bits_val (p ++ ones k)) as ->.
    { pose proof (bits_val_range (p ++ ones k)) as Hr. unfold len in Hr. rewrite Hl8 in Hr.
      eapply (byte_window _ _ (2 ^ 32 - 1)); [lia|exact Hr|].
      rewrite Z.shiftl_1_l.
      assert (2 ^ bl <= 2 ^ 40) by (apply Z.pow_le_mono_r; lia).
      assert (0 < 2 ^ bl) by (apply Z.pow_pos_nonneg; lia).
      rewrite <-(Z.land_ones _ 40), Z.land_lor_distr_l, !Z.land_ones, Hv by lia.
      rewrite (Z.mod_small (2 ^ bl - 1)) by lia.
      rewrite <-Z.shiftl_mul_pow2, lor_shiftl_add by lia.
      rewrite bits_val_app, ones_val. unfold len, ones. rewrite repeat_length.
      replace bl with (32 + Z.of_nat k) by (unfold k; lia).
      rewrite Z.pow_add_r by lia. lia. }
    exists (out ++ [bits_val (p ++ ones k)]), k. rewrite app_assoc. split_and!.
    + done.
    + apply Forall_app_2; [done|]. repeat constructor;
        pose proof (bits_val_range (p ++ ones k)) as Hr; unfold len in Hr; rewrite Hl8 in Hr;
        change (2 ^ Z.of_nat 8) with 256 in Hr; ilia.
    + unfold k. destruct p; simpl length in *; lia.
    + rewrite bits_of_bytes_app, He, <-app_assoc. f_equal.
      cbn [bits_of_bytes flat_map]. rewrite app_nil_r, <-Hl8. apply to_bits_bits_val_small.
Qed.

(** C19: every byte string is read back from its Huffman code. *)
Theorem huffman_roundtrip src dst :
  all_u8 src ->
  exists out, Huffman.encode src dst = Done (dst ++ out) /\
    Huffman.decode out [] = Done (Ok src, []).
Proof.
  intros Hsrc. destruct (encode_spec src dst Hsrc) as (out & k & He & Hu & Hk & Hb).
  exists out. split; [done|]. by apply (decode_complete out [] src k).
Qed.

Lemma huffman_roundtrip_witness :
  exists out, Huffman.encode [119; 119; 119] [1] = Done ([1] ++ out) /\
    Huffman.decode out [] = Done (Ok [119; 119; 119], []).
Proof. apply (huffman_roundtrip [119; 119; 119] [1]). repeat constructor; vm_compute; discriminate. Defined.

(** C34: the nibble automaton accepts exactly the concatenations of codes padded
    with fewer than eight 1 bits, and returns the string they spell; everything
    else (a truncated code, a wrong or too long padding, the end-of-string symbol)
    is [InvalidHuffmanCode], and no table access is out of range. *)
Theorem huffman_decode_exact src :
  all_u8 src ->
  (forall out, Huffman.decode src [] = Done (Ok out, []) <->
     all_u8 out /\ exists k, (k < 8)%nat /\ bits_of_bytes src = code_of out ++ ones k) /\
  ((forall out k, (k < 8)%nat -> all_u8 out -> bits_of_bytes src <> code_of out ++ ones k) ->
   exists buf, Huffman.decode src [] = Done (Err InvalidHuffmanCode, buf)).
Proof.
  intros Hsrc. split.
  - intros out. split.
    + intros Hd. destruct (decode_sound src [] out Hsrc Hd) as (s & k & -> & Hs & Hk & Hb).
      cbn. eauto.
    + intros (Ho & k & Hk & Hb). by apply (decode_complete src [] out k).
  - intros Hno. destruct (decode_total src [] Hsrc) as [[out Hd]|]; [|done].
    destruct (decode_sound src [] out Hsrc Hd) as (s & k & -> & Hs & Hk & Hb).
    by destruct (Hno s k Hk Hs).
Qed.

Lemma huffman_decode_exact_witness :
  Huffman.decode [7] [] = Done (Ok [48], []) <->
    all_u8 [48] /\ exists k, (k < 8)%nat /\ bits_of_bytes [7] = code_of [48] ++ ones k.
Proof. apply (huffman_decode_exact [7]). repeat constructor; vm_compute; discriminate. Defined.
