(* ===== verification/HpackHeader.v ===== *)
(** * Header fields of HPACK

    Models [src/src/hpack/header.rs], [src/src/ext.rs] and the static table
    [get_static] of [src/src/hpack/decoder.rs].  The methods, status codes and
    header-name constants come from the crate [header-plz], which is not part of
    the repository: they are the parameters of the class [HeaderPlz]. *)

From Stdlib Require Import Ascii String.
From S2P Require Import Prelude FrameBase.

(** The bytes of an ASCII literal. *)
Definition str (s : string) : bytes :=
  map (fun c => Z.of_N (N_of_ascii c)) (list_ascii_of_string s).

(** The name constants of [header_plz::const_headers] the crate uses. *)
Inductive ConstHeader : Type :=
| ACCEPT_CHARSET | ACCEPT_ENCODING | ACCEPT_LANGUAGE | ACCEPT_RANGES
| ACCEPT | ACCESS_CONTROL_ALLOW_ORIGIN | AGE | ALLOW
| AUTHORIZATION | CACHE_CONTROL | CONTENT_DISPOSITION | CONTENT_ENCODING
| CONTENT_LANGUAGE | CONTENT_LENGTH | CONTENT_LOCATION | CONTENT_RANGE
| CONTENT_TYPE | COOKIE | DATE | ETAG
| EXPECT | EXPIRES | FROM | HOST
| IF_MATCH | IF_MODIFIED_SINCE | IF_NONE_MATCH | IF_RANGE
| IF_UNMODIFIED_SINCE | LAST_MODIFIED | LINK | LOCATION
| MAX_FORWARDS | PROXY_AUTHENTICATE | PROXY_AUTHORIZATION | RANGE
| REFERER | REFRESH | RETRY_AFTER | SERVER
| SET_COOKIE | STRICT_TRANSPORT_SECURITY | TRANSFER_ENCODING | USER_AGENT
| VARY | VIA | WWW_AUTHENTICATE
| CONNECTION | UPGRADE | TE.

(** ** The crate [header-plz] *)

Class HeaderPlz : Type := {
  PlzMethod : Type;
  PlzMethod_eq_dec :: EqDecision PlzMethod;
  method_from : bytes -> PlzMethod;
  method_as_ref : PlzMethod -> bytes;
  method_GET : PlzMethod;
  method_POST : PlzMethod;
  PlzStatus : Type;
  PlzStatus_eq_dec :: EqDecision PlzStatus;
  status_from_bytes : bytes -> result PlzStatus unit;
  status_as_str : PlzStatus -> bytes;
  status_is_informational : PlzStatus -> bool;
  status_OK : PlzStatus;
  status_NO_CONTENT : PlzStatus;
  status_PARTIAL_CONTENT : PlzStatus;
  status_NOT_MODIFIED : PlzStatus;
  status_BAD_REQUEST : PlzStatus;
  status_NOT_FOUND : PlzStatus;
  status_INTERNAL_SERVER_ERROR : PlzStatus;
  const_header : ConstHeader -> bytes
}.

(** What the codec relies on: a method or status code is read back from its text,
    and its text is what the wire carries. *)
Class HeaderPlzLaws (H : HeaderPlz) : Prop := {
  method_from_as_ref : forall m, method_from (method_as_ref m) = m;
  method_as_ref_u8 : forall m, all_u8 (method_as_ref m);
  status_from_as_str : forall s, status_from_bytes (status_as_str s) = Ok s;
  status_as_str_length : forall s, length (status_as_str s) = 3%nat;
  status_as_str_u8 : forall s, all_u8 (status_as_str s);
  const_header_not_pseudo : forall c, exists b rest, const_header c = b :: rest /\ b <> 58;
  const_header_u8 : forall c, all_u8 (const_header c)
}.

(** ** UTF-8: [std::str::from_utf8(..).is_ok()] *)

Definition in_range (lo hi b : Z) : bool := (lo <=? b) && (b <=? hi).

Definition utf8_cont (b : Z) : bool := in_range 128 191 b.

Fixpoint utf8_valid (l : bytes) : bool :=
  match l with
  | [] => true
  | b0 :: l0 =>
      if b0 <? 128 then utf8_valid l0
      else
        match l0 with
        | [] => false
        | b1 :: l1 =>
            if in_range 194 223 b0 then utf8_cont b1 && utf8_valid l1
            else
              match l1 with
              | [] => false
              | b2 :: l2 =>
                  if in_range 224 239 b0 then
                    (if b0 =? 224 then in_range 160 191 b1
                     else if b0 =? 237 then in_range 128 159 b1
                     else utf8_cont b1)
                    && utf8_cont b2 && utf8_valid l2
                  else
                    match l2 with
                    | [] => false
                    | b3 :: l3 =>
                        in_range 240 244 b0
                        && (if b0 =? 240 then in_range 144 191 b1
                            else if b0 =? 244 then in_range 128 143 b1
                            else utf8_cont b1)
                        && utf8_cont b2 && utf8_cont b3 && utf8_valid l3
                    end
              end
        end
  end.

(** [BytesStr(Bytes)]: the newtype is transparent.  [From<Bytes>] does not check,
    [try_from] does; a [Utf8Error] becomes [DecoderError::InvalidUtf8]. *)
Module BytesStr.

Definition t : Type := bytes.

Definition try_from (b : bytes) : result t DecoderError :=
  if utf8_valid b then Ok b else Err InvalidUtf8.

Definition into_inner (s : t) : bytes := s.

Definition to_ascii_lowercase (b : byte) : byte :=
  if in_range 65 90 b then b + 32 else b.

(** [eq_ignore_ascii_case], the comparison with a [&str]. *)
Definition eq_str (s other : bytes) : bool :=
  bool_decide (map to_ascii_lowercase s = map to_ascii_lowercase other).

End BytesStr.

(** [ext::Protocol]: a wrapper of a [BytesStr]. *)
Module Protocol.

Record t : Type := mk { value : BytesStr.t }.

#[global] Instance t_eq_dec : EqDecision t.
Proof. solve_decision. Defined.

Definition as_str (p : t) : bytes := value p.

Definition try_from (b : bytes) : result t DecoderError :=
  let? v := BytesStr.try_from b in
  Ok (mk v).

End Protocol.

Module Header.

Section header.
Context `{HeaderPlz}.

Inductive t (T : Type) : Type :=
| Field (name : T) (value : BytesStr.t)
| Authority (v : BytesStr.t)
| Method (m : PlzMethod)
| Scheme (v : BytesStr.t)
| Path (v : BytesStr.t)
| Protocol (v : Protocol.t)
| Status (s : PlzStatus).
#[global] Arguments Field {T}.
#[global] Arguments Authority {T}.
#[global] Arguments Method {T}.
#[global] Arguments Scheme {T}.
#[global] Arguments Path {T}.
#[global] Arguments Protocol {T}.
#[global] Arguments Status {T}.

(** [enum Name<'a>] *)
Inductive Name : Type :=
| NField (name : BytesStr.t)
| NAuthority
| NMethod
| NScheme
| NPath
| NProtocol
| NStatus.

Definition hd : Type := t BytesStr.t.

Definition reify (h : t (option BytesStr.t)) : result hd BytesStr.t :=
  match h with
  | Field (Some n) value => Ok (Field n value)
  | Field None value => Err value
  | Authority v => Ok (Authority v)
  | Method v => Ok (Method v)
  | Scheme v => Ok (Scheme v)
  | Path v => Ok (Path v)
  | Protocol v => Ok (Protocol v)
  | Status v => Ok (Status v)
  end.

(** [impl From<Header> for Header<Option<BytesStr>>] *)
Definition named (h : hd) : t (option BytesStr.t) :=
  match h with
  | Field n value => Field (Some n) value
  | Authority v => Authority v
  | Method v => Method v
  | Scheme v => Scheme v
  | Path v => Path v
  | Protocol v => Protocol v
  | Status v => Status v
  end.

(** [InvalidStatusCode] is turned into [InvalidUtf8] by [?]. *)
Definition status_or_utf8 (r : result PlzStatus unit) : result PlzStatus DecoderError :=
  map_err (fun _ => InvalidUtf8) r.

Definition new (name value : bytes) : result hd DecoderError :=
  match name with
  | [] => Err (NeedMoreError UnexpectedEndOfStream)
  | b :: rest =>
      if b =? 58 then
        if bool_decide (rest = str "authority") then
          let? value := BytesStr.try_from value in Ok (Authority value)
        else if bool_decide (rest = str "method") then Ok (Method (method_from value))
        else if bool_decide (rest = str "scheme") then
          let? value := BytesStr.try_from value in Ok (Scheme value)
        else if bool_decide (rest = str "path") then
          let? value := BytesStr.try_from value in Ok (Path value)
        else if bool_decide (rest = str "protocol") then
          let? value := Protocol.try_from value in Ok (Protocol value)
        else if bool_decide (rest = str "status") then
          let? status := status_or_utf8 (status_from_bytes value) in Ok (Status status)
        else Err InvalidPseudoheader
      else Ok (Field name value)
  end.

Definition len (h : hd) : Z :=
  match h with
  | Field name value => 32 + Prelude.len name + Prelude.len value
  | Authority v => 32 + 10 + Prelude.len v
  | Method v => 32 + 7 + Prelude.len (method_as_ref v)
  | Scheme v => 32 + 7 + Prelude.len v
  | Path v => 32 + 5 + Prelude.len v
  | Protocol v => 32 + 9 + Prelude.len (Protocol.as_str v)
  | Status _ => 32 + 7 + 3
  end.

Definition name (h : hd) : Name :=
  match h with
  | Field name _ => NField name
  | Authority _ => NAuthority
  | Method _ => NMethod
  | Scheme _ => NScheme
  | Path _ => NPath
  | Protocol _ => NProtocol
  | Status _ => NStatus
  end.

Definition value_slice (h : hd) : bytes :=
  match h with
  | Field _ value => value
  | Authority v => v
  | Method v => method_as_ref v
  | Scheme v => v
  | Path v => v
  | Protocol v => Protocol.as_str v
  | Status v => status_as_str v
  end.

Definition value_eq (h other : hd) : bool :=
  match h, other with
  | Field _ a, Field _ b => bool_decide (a = b)
  | Authority a, Authority b => bool_decide (a = b)
  | Method a, Method b => bool_decide (a = b)
  | Scheme a, Scheme b => bool_decide (a = b)
  | Path a, Path b => bool_decide (a = b)
  | Protocol a, Protocol b => bool_decide (a = b)
  | Status a, Status b => bool_decide (a = b)
  | _, _ => false
  end.

Definition is_sensitive (_ : hd) : bool := false.

Definition skip_value_index (h : hd) : bool :=
  match h with
  | Field name _ =>
      existsb (fun c => bool_decide (name = const_header c))
        [CONTENT_LENGTH; AGE; AUTHORIZATION; ETAG; IF_MODIFIED_SINCE; IF_NONE_MATCH;
         LOCATION; COOKIE; SET_COOKIE]
  | Path _ => true
  | _ => false
  end.

(** [Name::into_entry] *)
Definition into_entry (n : Name) (value : bytes) : result hd DecoderError :=
  match n with
  | NField name => Ok (Field name value)
  | NAuthority => let? value := BytesStr.try_from value in Ok (Authority value)
  | NMethod => Ok (Method (method_from value))
  | NScheme => let? value := BytesStr.try_from value in Ok (Scheme value)
  | NPath => let? value := BytesStr.try_from value in Ok (Path value)
  | NProtocol => let? value := Protocol.try_from value in Ok (Protocol value)
  | NStatus =>
      match status_from_bytes value with
      | Ok status => Ok (Status status)
      | Err _ => Err InvalidStatusCode
      end
  end.

(** [Name::as_slice] *)
Definition as_slice (n : Name) : bytes :=
  match n with
  | NField name => name
  | NAuthority => str ":authority"
  | NMethod => str ":method"
  | NScheme => str ":scheme"
  | NPath => str ":path"
  | NProtocol => str ":protocol"
  | NStatus => str ":status"
  end.

(** [get_static]: the static table; [unreachable!] outside 1..=61. *)
Definition get_static (idx : Z) : outcome hd :=
  match idx with
  | 1 => Done (Authority (str ""))
  | 2 => Done (Method method_GET)
  | 3 => Done (Method method_POST)
  | 4 => Done (Path (str "/"))
  | 5 => Done (Path (str "/index.html"))
  | 6 => Done (Scheme (str "http"))
  | 7 => Done (Scheme (str "https"))
  | 8 => Done (Status status_OK)
  | 9 => Done (Status status_NO_CONTENT)
  | 10 => Done (Status status_PARTIAL_CONTENT)
  | 11 => Done (Status status_NOT_MODIFIED)
  | 12 => Done (Status status_BAD_REQUEST)
  | 13 => Done (Status status_NOT_FOUND)
  | 14 => Done (Status status_INTERNAL_SERVER_ERROR)
  | _ =>
      let! (name, value) :=
        match idx with
        | 15 => Done (const_header ACCEPT_CHARSET, str "")
        | 16 => Done (const_header ACCEPT_ENCODING, str "gzip, deflate")
        | 17 => Done (const_header ACCEPT_LANGUAGE, str "")
        | 18 => Done (const_header ACCEPT_RANGES, str "")
        | 19 => Done (const_header ACCEPT, str "")
        | 20 => Done (const_header ACCESS_CONTROL_ALLOW_ORIGIN, str "")
        | 21 => Done (const_header AGE, str "")
        | 22 => Done (const_header ALLOW, str "")
        | 23 => Done (const_header AUTHORIZATION, str "")
        | 24 => Done (const_header CACHE_CONTROL, str "")
        | 25 => Done (const_header CONTENT_DISPOSITION, str "")
        | 26 => Done (const_header CONTENT_ENCODING, str "")
        | 27 => Done (const_header CONTENT_LANGUAGE, str "")
        | 28 => Done (const_header CONTENT_LENGTH, str "")
        | 29 => Done (const_header CONTENT_LOCATION, str "")
        | 30 => Done (const_header CONTENT_RANGE, str "")
        | 31 => Done (const_header CONTENT_TYPE, str "")
        | 32 => Done (const_header COOKIE, str "")
        | 33 => Done (const_header DATE, str "")
        | 34 => Done (const_header ETAG, str "")
        | 35 => Done (const_header EXPECT, str "")
        | 36 => Done (const_header EXPIRES, str "")
        | 37 => Done (const_header FROM, str "")
        | 38 => Done (const_header HOST, str "")
        | 39 => Done (const_header IF_MATCH, str "")
        | 40 => Done (const_header IF_MODIFIED_SINCE, str "")
        | 41 => Done (const_header IF_NONE_MATCH, str "")
        | 42 => Done (const_header IF_RANGE, str "")
        | 43 => Done (const_header IF_UNMODIFIED_SINCE, str "")
        | 44 => Done (const_header LAST_MODIFIED, str "")
        | 45 => Done (const_header LINK, str "")
        | 46 => Done (const_header LOCATION, str "")
        | 47 => Done (const_header MAX_FORWARDS, str "")
        | 48 => Done (const_header PROXY_AUTHENTICATE, str "")
        | 49 => Done (const_header PROXY_AUTHORIZATION, str "")
        | 50 => Done (const_header RANGE, str "")
        | 51 => Done (const_header REFERER, str "")
        | 52 => Done (const_header REFRESH, str "")
        | 53 => Done (const_header RETRY_AFTER, str "")
        | 54 => Done (const_header SERVER, str "")
        | 55 => Done (const_header SET_COOKIE, str "")
        | 56 => Done (const_header STRICT_TRANSPORT_SECURITY, str "")
        | 57 => Done (const_header TRANSFER_ENCODING, str "")
        | 58 => Done (const_header USER_AGENT, str "")
        | 59 => Done (const_header VARY, str "")
        | 60 => Done (const_header VIA, str "")
        | 61 => Done (const_header WWW_AUTHENTICATE, str "")
        | _ => Panic
        end in
      Done (Field name value)
  end.

(** The headers a sender may hand to the encoder: the text of a pseudo-header is
    UTF-8 and a regular name is neither empty nor a pseudo name. *)
Definition wf (h : hd) : Prop :=
  all_u8 (value_slice h) /\
  match h with
  | Field n _ => all_u8 n /\ exists b rest, n = b :: rest /\ b <> 58
  | Authority v | Scheme v | Path v => utf8_valid v = true
  | Protocol v => utf8_valid (Protocol.as_str v) = true
  | _ => True
  end.

End header.

End Header.
