(* ===== verification/HpackDecoder.v ===== *)
(** * The HPACK decoder

    Models [src/src/hpack/decoder.rs]: the dynamic table ([Table]), the cursor
    over the header block, string and literal decoding, and the [decode] loop.
    The callback of [decode] receives the headers one by one and cannot touch the
    decoder, so the loop collects them in the list [out] of its state. *)

From S2P Require Import Prelude FrameBase HpackInt HpackHeader.
From S2P Require Huffman.

(** [VecDeque::pop_back] *)
Definition pop_back {A} (l : list A) : option (A * list A) :=
  match rev l with
  | [] => None
  | x :: r => Some (x, rev r)
  end.

Module DecTable.

Section table.
Context `{HeaderPlz}.

Record t : Type := mk {
  entries : list Header.hd;
  size : Z;
  max_size : Z
}.

Definition new (max_size : Z) : t := mk [] 0 max_size.

(** [get]: 1-based, the static table first. *)
Definition get (self : t) (index : Z) : outcome (result Header.hd DecoderError) :=
  if index =? 0 then Done (Err InvalidTableIndex)
  else if index <=? 61 then
    let! h := Header.get_static index in
    Done (Ok h)
  else
    match entries self !! Z.to_nat (index - 62) with
    | Some e => Done (Ok e)
    | None => Done (Err InvalidTableIndex)
    end.

(** The loop of [reserve]; it pops at most once per entry, so a fuel one larger
    than the number of entries is enough ([dec_table_reserve_spec]). *)
Fixpoint reserve_loop (fuel : nat) (self : t) (n : Z) : outcome t :=
  match fuel with
  | O => Panic
  | S fuel =>
      if size self + n >? max_size self then
        match pop_back (entries self) with
        | Some (last, es) =>
            let! _ := assert (Header.len last <=? size self) in
            reserve_loop fuel (mk es (size self - Header.len last) (max_size self)) n
        | None => Done self
        end
      else Done self
  end.

Definition reserve (self : t) (n : Z) : outcome t :=
  reserve_loop (S (length (entries self))) self n.

Definition insert (self : t) (entry : Header.hd) : outcome t :=
  let len := Header.len entry in
  let! self := reserve self len in
  if size self + len <=? max_size self then
    Done (mk (entry :: entries self) (size self + len) (max_size self))
  else Done self.

(** The loop of [consolidate]; it panics when the size is positive and no entry
    is left. *)
Fixpoint consolidate_loop (fuel : nat) (self : t) : outcome t :=
  match fuel with
  | O => Panic
  | S fuel =>
      if size self >? max_size self then
        match pop_back (entries self) with
        | None => Panic
        | Some (last, es) =>
            let! _ := assert (Header.len last <=? size self) in
            consolidate_loop fuel (mk es (size self - Header.len last) (max_size self))
        end
      else Done self
  end.

Definition consolidate (self : t) : outcome t :=
  consolidate_loop (S (length (entries self))) self.

Definition set_max_size (self : t) (n : Z) : outcome t :=
  consolidate (mk (entries self) (size self) n).

End table.

End DecTable.

(** [Cursor<&mut BytesMut>] *)
Module Cursor.

Record t : Type := mk { buf : bytes; pos : nat }.

Definition chunk (c : t) : bytes := drop (pos c) (buf c).
Definition remaining (c : t) : nat := length (buf c) - pos c.
Definition set_position (c : t) (p : nat) : t := mk (buf c) p.

(** [advance]: panics past the end. *)
Definition advance (c : t) (n : nat) : outcome t :=
  let! _ := assert (pos c + n <=? length (buf c))%nat in
  Done (mk (buf c) (pos c + n)).

(** The function [take] of the decoder: cuts [n] bytes at the cursor, with what
    is before them, off the buffer. *)
Definition take (c : t) (n : nat) : outcome (bytes * t) :=
  let! head := slice_to (buf c) (pos c + n) in
  Done (drop (pos c) head, mk (drop (pos c + n) (buf c)) 0).

(** The function [consume] of the decoder. *)
Definition consume (c : t) : outcome t :=
  let! (_, c) := take c 0 in
  Done c.

End Cursor.

Module Representation.

Inductive t : Type :=
| Indexed
| LiteralWithIndexing
| LiteralWithoutIndexing
| LiteralNeverIndexed
| SizeUpdate.

Definition INDEXED : Z := 128.
Definition LITERAL_WITH_INDEXING : Z := 64.
Definition LITERAL_WITHOUT_INDEXING : Z := 240.
Definition LITERAL_NEVER_INDEXED : Z := 16.
Definition SIZE_UPDATE_MASK : Z := 224.
Definition SIZE_UPDATE : Z := 32.

Definition load (b : byte) : result t DecoderError :=
  if Z.land b INDEXED =? INDEXED then Ok Indexed
  else if Z.land b LITERAL_WITH_INDEXING =? LITERAL_WITH_INDEXING then Ok LiteralWithIndexing
  else if Z.land b LITERAL_WITHOUT_INDEXING =? 0 then Ok LiteralWithoutIndexing
  else if Z.land b LITERAL_WITHOUT_INDEXING =? LITERAL_NEVER_INDEXED then Ok LiteralNeverIndexed
  else if Z.land b SIZE_UPDATE_MASK =? SIZE_UPDATE then Ok SizeUpdate
  else Err InvalidRepresentation.

End Representation.

Module Decoder.

Section decoder.
Context `{HeaderPlz}.

Record t : Type := mk {
  max_size_update : option Z;
  last_max_update : Z;
  table : DecTable.t;
  buffer : bytes
}.

Definition new (size : Z) : t := mk None size (DecTable.new size) [].

Definition queue_size_update (self : t) (size : Z) : t :=
  let size := match max_size_update self with Some v => Z.max v size | None => size end in
  mk (Some size) (last_max_update self) (table self) (buffer self).

Definition with_table (self : t) (tb : DecTable.t) : t :=
  mk (max_size_update self) (last_max_update self) tb (buffer self).

Definition with_buffer (self : t) (b : bytes) : t :=
  mk (max_size_update self) (last_max_update self) (table self) b.

(** [StringMarker] *)
Record StringMarker : Type := marker {
  offset : nat;
  mlen : nat;
  string : option bytes
}.

(** *** The state of a decoding run

    The decoder, the cursor, and the headers given to the callback so far.  An
    operation may fail ([Err]) or panic; a failure leaves the state as it is at
    that point, which matters because a truncated block is resumed. *)
Record St : Type := st {
  dec : t;
  cur : Cursor.t;
  out : list Header.hd
}.

Definition M (A : Type) : Type := St -> outcome (result A DecoderError * St).

Definition ret {A} (a : A) : M A := fun s => Done (Ok a, s).
Definition fail {A} (e : DecoderError) : M A := fun s => Done (Err e, s).
Definition bind {A B} (m : M A) (k : A -> M B) : M B := fun s =>
  let! (r, s) := m s in
  match r with
  | Ok a => k a s
  | Err e => Done (Err e, s)
  end.
Definition get {A} (f : St -> A) : M A := fun s => Done (Ok (f s), s).
Definition modify (f : St -> outcome St) : M unit := fun s =>
  let! s := f s in
  Done (Ok tt, s).
Definition lift {A} (o : outcome A) : M A := fun s =>
  let! a := o in
  Done (Ok a, s).
Definition lift_result {A} (r : result A DecoderError) : M A := fun s => Done (r, s).

Notation "x <- m ; k" := (bind m (fun x => k))
  (at level 90, m at level 100, k at level 200, right associativity).

Definition on_cursor (f : Cursor.t -> outcome Cursor.t) : M unit :=
  modify (fun s => let! c := f (cur s) in Done (st (dec s) c (out s))).

Definition set_position (p : nat) : M unit :=
  on_cursor (fun c => Done (Cursor.set_position c p)).

Definition on_table (f : DecTable.t -> outcome DecTable.t) : M unit :=
  modify (fun s => let! tb := f (table (dec s)) in Done (st (with_table (dec s) tb) (cur s) (out s))).

(** The callback: [f(entry)]. *)
Definition emit (h : Header.hd) : M unit :=
  modify (fun s => Done (st (dec s) (cur s) (out s ++ [h]))).

(** [decode_int] on the cursor. *)
Definition decode_int (prefix_size : Z) : M Z := fun s =>
  match HpackInt.decode_int (Cursor.chunk (cur s)) prefix_size with
  | Ok (v, rest) =>
      Done (Ok v, st (dec s)
        (Cursor.set_position (cur s) (length (Cursor.buf (cur s)) - length rest)) (out s))
  | Err e => Done (Err e, s)
  end.

(** [huffman::decode(raw, &mut self.buffer)] *)
Definition huffman_decode (raw : bytes) : M bytes := fun s =>
  let! (r, b) := Huffman.Huffman.decode raw (buffer (dec s)) in
  Done (r, st (with_buffer (dec s) b) (cur s) (out s)).

Definition HUFF_FLAG : Z := 128.

Definition try_decode_string : M StringMarker :=
  old_pos <- get (fun s => Cursor.pos (cur s));
  first <- get (fun s => peek_u8 (Cursor.chunk (cur s)));
  match first with
  | None => fail (NeedMoreError UnexpectedEndOfStream)
  | Some hdr =>
      let huff := Z.land hdr HUFF_FLAG =? HUFF_FLAG in
      len <- decode_int 7;
      let len := Z.to_nat len in
      remaining <- get (fun s => Cursor.remaining (cur s));
      if (remaining <? len)%nat then fail (NeedMoreError StringUnderflow)
      else
        offset <- get (fun s => Cursor.pos (cur s) - old_pos)%nat;
        if huff then
          chunk <- get (fun s => Cursor.chunk (cur s));
          raw <- lift (slice_to chunk len);
          decoded <- huffman_decode raw;
          _ <- on_cursor (fun c => Cursor.advance c len);
          ret (marker offset len (Some decoded))
        else
          _ <- on_cursor (fun c => Cursor.advance c len);
          ret (marker offset len None)
  end.

(** [StringMarker::consume] *)
Definition consume_marker (m : StringMarker) : M bytes :=
  _ <- on_cursor (fun c => Cursor.advance c (offset m));
  match string m with
  | Some s =>
      _ <- on_cursor (fun c => Cursor.advance c (mlen m));
      ret s
  | None => fun s =>
      let! (b, c) := Cursor.take (cur s) (mlen m) in
      Done (Ok b, st (dec s) c (out s))
  end.

Definition decode_string : M bytes :=
  old_pos <- get (fun s => Cursor.pos (cur s));
  m <- try_decode_string;
  _ <- set_position old_pos;
  consume_marker m.

Definition table_get (index : Z) : M Header.hd := fun s =>
  let! r := DecTable.get (table (dec s)) index in
  Done (r, s).

Definition decode_indexed : M Header.hd :=
  index <- decode_int 7;
  table_get index.

Definition decode_literal (index : bool) : M Header.hd :=
  let prefix := if index then 6 else 4 in
  table_idx <- decode_int prefix;
  if table_idx =? 0 then
    old_pos <- get (fun s => Cursor.pos (cur s));
    name_marker <- try_decode_string;
    value_marker <- try_decode_string;
    _ <- set_position old_pos;
    name <- consume_marker name_marker;
    value <- consume_marker value_marker;
    lift_result (Header.new name value)
  else
    e <- table_get table_idx;
    value <- decode_string;
    lift_result (Header.into_entry (Header.name e) value).

Definition process_size_update : M unit :=
  new_size <- decode_int 5;
  last <- get (fun s => last_max_update (dec s));
  if new_size >? last then fail InvalidMaxDynamicSize
  else on_table (fun tb => DecTable.set_max_size tb new_size).

Definition consume : M unit := on_cursor Cursor.consume.

(** One iteration of [while let Some(ty) = peek_u8(src)]; the result is the new
    [can_resize]. *)
Definition decode_one (ty : byte) (can_resize : bool) : M bool :=
  r <- lift_result (Representation.load ty);
  match r with
  | Representation.Indexed =>
      entry <- decode_indexed;
      _ <- consume;
      _ <- emit entry;
      ret false
  | Representation.LiteralWithIndexing =>
      entry <- decode_literal true;
      _ <- on_table (fun tb => DecTable.insert tb entry);
      _ <- consume;
      _ <- emit entry;
      ret false
  | Representation.LiteralWithoutIndexing =>
      entry <- decode_literal false;
      _ <- consume;
      _ <- emit entry;
      ret false
  | Representation.LiteralNeverIndexed =>
      entry <- decode_literal false;
      _ <- consume;
      _ <- emit entry;
      ret false
  | Representation.SizeUpdate =>
      if negb can_resize then fail InvalidMaxDynamicSize
      else
        _ <- process_size_update;
        _ <- consume;
        ret can_resize
  end.

Fixpoint decode_loop (fuel : nat) (can_resize : bool) : M unit :=
  match fuel with
  | O => fun _ => Panic
  | S fuel =>
      first <- get (fun s => peek_u8 (Cursor.chunk (cur s)));
      match first with
      | None => ret tt
      | Some ty =>
          can_resize <- decode_one ty can_resize;
          decode_loop fuel can_resize
      end
  end.

(** [decode]: the result, the decoder, what is left of the block, and the headers
    given to the callback.  Each iteration consumes an octet, so a fuel one larger
    than the block is enough ([hpack_decode_total]). *)
Definition decode (self : t) (src : bytes) :
    outcome (result unit DecoderError * t * bytes * list Header.hd) :=
  let self :=
    match max_size_update self with
    | Some size => mk None size (table self) (buffer self)
    | None => self
    end in
  let! (r, s) := decode_loop (S (length src)) true (st self (Cursor.mk src 0) []) in
  Done (r, dec s, Cursor.buf (cur s), out s).

End decoder.

End Decoder.
