(* ===== verification/HpackDecoderFacts.v ===== *)
(** * Facts about the HPACK decoder

    The dynamic table against its FIFO specification [fit]; totality of the
    decoding loop and the invariant it preserves. *)

From S2P Require Import Prelude FrameBase HpackInt HpackHeader Huffman HpackDecoder.

Section facts.
Context `{HeaderPlz}.

(** ** The dynamic table *)

Definition sizes (l : list Header.hd) : Z := foldr (fun h n => Header.len h + n) 0 l.

(** The specification of eviction (RFC 7541 section 4.4): of a list of entries,
    newest first, keep the longest prefix that fits. *)
Fixpoint fit (max : Z) (l : list Header.hd) : list Header.hd :=
  match l with
  | [] => []
  | h :: l => if Header.len h <=? max then h :: fit (max - Header.len h) l else []
  end.

Definition table_ok (t : DecTable.t) : Prop :=
  DecTable.size t = sizes (DecTable.entries t) /\ DecTable.size t <= DecTable.max_size t.

Lemma header_len_pos h : 32 <= Header.len h.
Proof.
  destruct h; cbn; unfold len; lia.
Qed.

Lemma sizes_app l1 l2 : sizes (l1 ++ l2) = sizes l1 + sizes l2.
Proof. unfold sizes. induction l1 as [|h l1 IH]; cbn [app foldr]; [lia|]. rewrite IH. lia. Qed.

Lemma sizes_length l : 32 * len l <= sizes l.
Proof.
  induction l as [|h l IH]; [done|]. cbn. pose proof (header_len_pos h).
  unfold len, sizes in *. simpl length. lia.
Qed.

Lemma sizes_nonneg l : 0 <= sizes l.
Proof. pose proof (sizes_length l). pose proof (len_nonneg l). lia. Qed.

Lemma fit_all max l : sizes l <= max -> fit max l = l.
Proof.
  revert max. induction l as [|h l IH]; intros max Hs; [done|]. cbn in *.
  pose proof (sizes_nonneg l). fold (sizes l) in *.
  destruct (Z.leb_spec (Header.len h) max); [|lia]. f_equal. apply IH. lia.
Qed.

Lemma fit_snoc max l h : max < sizes (l ++ [h]) -> fit max (l ++ [h]) = fit max l.
Proof.
  revert max. induction l as [|x l IH]; intros max Hs; cbn in *.
  - destruct (Z.leb_spec (Header.len h) max); [lia|done].
  - fold (sizes (l ++ [h])) in *.
    destruct (Z.leb_spec (Header.len x) max); [|done]. f_equal. apply IH. lia.
Qed.

Lemma fit_sizes max l : 0 <= max -> sizes (fit max l) <= max.
Proof.
  revert max. induction l as [|h l IH]; intros max Hm; [done|]. cbn.
  destruct (Z.leb_spec (Header.len h) max); cbn; [|lia].
  fold (sizes (fit (max - Header.len h) l)). specialize (IH (max - Header.len h)). lia.
Qed.

Lemma fit_prefix max l : exists k, fit max l = take k l.
Proof.
  revert max. induction l as [|h l IH]; intros max; [by exists 0%nat|]. cbn.
  destruct (_ <=? _); [|by exists 0%nat].
  destruct (IH (max - Header.len h)) as [k ->]. by exists (S k).
Qed.

Lemma pop_back_snoc {A} (l : list A) x : pop_back (l ++ [x]) = Some (x, l).
Proof. unfold pop_back. by rewrite rev_unit, rev_involutive. Qed.

Lemma sizes_snoc l h : sizes (l ++ [h]) = sizes l + Header.len h.
Proof. rewrite sizes_app. cbn. lia. Qed.

Lemma dec_table_reserve_spec t n :
  0 <= n -> table_ok t ->
  DecTable.reserve t n = Done (DecTable.mk (fit (DecTable.max_size t - n) (DecTable.entries t))
    (sizes (fit (DecTable.max_size t - n) (DecTable.entries t))) (DecTable.max_size t)).
Proof.
  intros Hn [Hs Hm]. unfold DecTable.reserve.
  destruct t as [es sz max]. cbn [DecTable.entries DecTable.size DecTable.max_size] in *. subst sz.
  assert (forall fuel, (length es < fuel)%nat ->
    DecTable.reserve_loop fuel (DecTable.mk es (sizes es) max) n =
    Done (DecTable.mk (fit (max - n) es) (sizes (fit (max - n) es)) max)) as Hgen; [|apply Hgen; lia].
  clear Hm. induction es as [|h es IH] using rev_ind; intros fuel Hf.
  - destruct fuel; [simpl in Hf; lia|]. cbn. by destruct (_ >? _).
  - destruct fuel as [|fuel]; [lia|]. rewrite length_app in Hf. simpl in Hf.
    cbn [DecTable.reserve_loop DecTable.size DecTable.max_size DecTable.entries].
    destruct (sizes (es ++ [h]) + n >? max) eqn:Hc; bool_to_prop.
    + rewrite pop_back_snoc, sizes_snoc in *. pose proof (sizes_nonneg es).
      destruct (Z.leb_spec (Header.len h) (sizes es + Header.len h)); [|lia]. cbn [assert obind].
      replace (sizes es + Header.len h - Header.len h) with (sizes es) by lia.
      rewrite IH by lia. rewrite fit_snoc by (rewrite sizes_snoc; lia). done.
    + by rewrite fit_all by lia.
Qed.

Lemma dec_table_insert_spec t e :
  table_ok t -> 0 <= DecTable.max_size t ->
  exists t', DecTable.insert t e = Done t' /\ table_ok t' /\
    DecTable.max_size t' = DecTable.max_size t /\
    DecTable.entries t' = fit (DecTable.max_size t) (e :: DecTable.entries t).
Proof.
  intros Ht Hm. unfold DecTable.insert. pose proof (header_len_pos e).
  rewrite dec_table_reserve_spec by (done || lia). cbn [obind DecTable.size DecTable.max_size].
  cbn [fit DecTable.entries].
  set (room := DecTable.max_size t - Header.len e).
  destruct (Z.leb_spec (Header.len e) (DecTable.max_size t)) as [Hle|Hgt].
  - pose proof (fit_sizes room (DecTable.entries t)).
    destruct (Z.leb_spec (sizes (fit room (DecTable.entries t)) + Header.len e)
      (DecTable.max_size t)); [|unfold room in *; lia].
    eexists. split_and!; [done| |done..]. split; cbn; fold (sizes (fit room (DecTable.entries t))); lia.
  - assert (fit room (DecTable.entries t) = []) as Hnil.
    { destruct (DecTable.entries t) as [|h l]; [done|]. cbn.
      pose proof (header_len_pos h). destruct (Z.leb_spec (Header.len h) room); unfold room in *; [lia|done]. }
    rewrite Hnil. cbn [sizes foldr].
    destruct (Z.leb_spec (0 + Header.len e) (DecTable.max_size t)); [lia|].
    eexists. split_and!; [done| |done..]. split; cbn; lia.
Qed.

Lemma dec_table_set_max_size_spec t n :
  0 <= n -> DecTable.size t = sizes (DecTable.entries t) ->
  exists t', DecTable.set_max_size t n = Done t' /\ table_ok t' /\
    DecTable.max_size t' = n /\ DecTable.entries t' = fit n (DecTable.entries t).
Proof.
  intros Hn Hs. unfold DecTable.set_max_size, DecTable.consolidate.
  destruct t as [es sz max]. cbn [DecTable.entries DecTable.size] in *. subst sz.
  assert (forall fuel, (length es < fuel)%nat ->
    DecTable.consolidate_loop fuel (DecTable.mk es (sizes es) n) =
    Done (DecTable.mk (fit n es) (sizes (fit n es)) n)) as Hgen.
  { induction es as [|h es IH] using rev_ind; intros fuel Hf.
    - destruct fuel; [simpl in Hf; lia|]. cbn. destruct (0 >? n) eqn:Hc; bool_to_prop; [lia|done].
    - destruct fuel as [|fuel]; [lia|]. rewrite length_app in Hf. simpl in Hf.
      cbn [DecTable.consolidate_loop DecTable.size DecTable.max_size DecTable.entries].
      destruct (sizes (es ++ [h]) >? n) eqn:Hc; bool_to_prop.
      + rewrite pop_back_snoc, sizes_snoc in *. pose proof (sizes_nonneg es).
        destruct (Z.leb_spec (Header.len h) (sizes es + Header.len h)); [|lia]. cbn [assert obind].
        replace (sizes es + Header.len h - Header.len h) with (sizes es) by lia.
        rewrite IH by lia. rewrite fit_snoc by (rewrite sizes_snoc; lia). done.
      + by rewrite fit_all by lia. }
  rewrite Hgen by lia. eexists. split_and!; [done| |done..].
  split; cbn; [done|]. by apply fit_sizes.
Qed.

Lemma dec_table_get_total t i :
  0 <= i -> exists r, DecTable.get t i = Done r.
Proof.
  intros Hi. unfold DecTable.get. destruct (Z.eqb_spec i 0); [eauto|].
  destruct (Z.leb_spec i 61).
  - assert (exists h, Header.get_static i = Done h) as [h ->]; [|eauto].
    assert (1 <= i <= 61) as Hr by lia. clear -Hr.
    assert (In i (map Z.of_nat (seq 1 61))) as Hin.
    { apply in_map_iff. exists (Z.to_nat i). split; [lia|]. apply in_seq. lia. }
    cbn in Hin. repeat destruct Hin as [<-|Hin]; try (eexists; reflexivity). done.
  - destruct (_ !! _); eauto.
Qed.

(** ** Weakest preconditions of decoding steps

    [wp m s Q]: run from [s], [m] does not panic and its result satisfies [Q]. *)

Definition wp {A} (m : Decoder.M A) (s : Decoder.St)
    (Q : result A DecoderError -> Decoder.St -> Prop) : Prop :=
  exists r s', m s = Done (r, s') /\ Q r s'.

Lemma wp_bind {A B} (m : Decoder.M A) (k : A -> Decoder.M B) s Q :
  wp m s (fun r s' => match r with Ok a => wp (k a) s' Q | Err e => Q (Err e) s' end) ->
  wp (Decoder.bind m k) s Q.
Proof.
  intros (r & s' & Hm & HQ). unfold wp, Decoder.bind. rewrite Hm. cbn [obind].
  destruct r; [exact HQ|]. by eexists _, _.
Qed.

Lemma wp_mono {A} (m : Decoder.M A) s (Q Q' : _ -> _ -> Prop) :
  wp m s Q -> (forall r s', Q r s' -> Q' r s') -> wp m s Q'.
Proof. intros (r & s' & Hm & HQ) Himp. exists r, s'. auto. Qed.

Lemma wp_done {A} (m : Decoder.M A) s r s' (Q : _ -> _ -> Prop) :
  m s = Done (r, s') -> Q r s' -> wp m s Q.
Proof. intros. by exists r, s'. Qed.

Definition cursor_ok (s : Decoder.St) : Prop :=
  all_u8 (Cursor.buf (Decoder.cur s)) /\
  (Cursor.pos (Decoder.cur s) <= length (Cursor.buf (Decoder.cur s)))%nat.

Definition left (s : Decoder.St) : nat := Cursor.remaining (Decoder.cur s).

(** What string and integer decoding leave alone. *)
Definition same (s s' : Decoder.St) : Prop :=
  Decoder.table (Decoder.dec s') = Decoder.table (Decoder.dec s) /\
  Decoder.last_max_update (Decoder.dec s') = Decoder.last_max_update (Decoder.dec s) /\
  Decoder.max_size_update (Decoder.dec s') = Decoder.max_size_update (Decoder.dec s) /\
  Decoder.out s' = Decoder.out s.

#[local] Instance same_preorder : PreOrder same.
Proof.
  split; unfold same; repeat intro; [done|]. destruct_and!. split_and!; congruence.
Qed.

Lemma chunk_u8 s : cursor_ok s -> all_u8 (Cursor.chunk (Decoder.cur s)).
Proof. intros [Hu _]. by apply Forall_drop. Qed.

Lemma wp_decode_int s p :
  cursor_ok s ->
  wp (Decoder.decode_int p) s (fun r s' => same s s' /\ cursor_ok s' /\
    Cursor.buf (Decoder.cur s') = Cursor.buf (Decoder.cur s) /\
    match r with
    | Ok v => 0 <= v /\ (Cursor.pos (Decoder.cur s) < Cursor.pos (Decoder.cur s'))%nat
    | Err _ => True
    end).
Proof.
  intros Hc. unfold wp, Decoder.decode_int.
  destruct (HpackInt.decode_int _ _) as [[v rest]|e] eqn:Hd; eexists _, _; (split; [done|]).
  - apply decode_int_range in Hd as [Hv (used & Hused & Hne)]; [|by apply chunk_u8].
    destruct Hc as [Hu Hp]. apply (f_equal length) in Hused. unfold Cursor.chunk in Hused.
    rewrite length_drop, length_app in Hused. destruct used; [done|]. simpl in Hused.
    split_and!; try done; try lia; [|cbn; lia]. split; cbn; [done|lia].
  - split_and!; done.
Qed.

Lemma wp_advance s n (Q : result unit DecoderError -> Decoder.St -> Prop) :
  (Cursor.pos (Decoder.cur s) + n <= length (Cursor.buf (Decoder.cur s)))%nat ->
  Q (Ok tt) (Decoder.st (Decoder.dec s)
    (Cursor.mk (Cursor.buf (Decoder.cur s)) (Cursor.pos (Decoder.cur s) + n)) (Decoder.out s)) ->
  wp (Decoder.on_cursor (fun c => Cursor.advance c n)) s Q.
Proof.
  intros Hn HQ. eapply wp_done; [|exact HQ].
  unfold Decoder.on_cursor, Decoder.modify, Cursor.advance.
  apply Nat.leb_le in Hn. by rewrite Hn.
Qed.

Lemma wp_try_decode_string s :
  cursor_ok s ->
  wp Decoder.try_decode_string s (fun r s' => same s s' /\ cursor_ok s' /\
    Cursor.buf (Decoder.cur s') = Cursor.buf (Decoder.cur s) /\
    match r with
    | Ok m => (1 <= Decoder.offset m)%nat /\ Cursor.pos (Decoder.cur s') =
        (Cursor.pos (Decoder.cur s) + Decoder.offset m + Decoder.mlen m)%nat
    | Err _ => True
    end).
Proof.
  intros Hc. unfold Decoder.try_decode_string.
  apply wp_bind. eapply wp_done; [done|]. apply wp_bind. eapply wp_done; [done|]. cbv beta iota.
  destruct (peek_u8 _) as [hdr|]; [|by eapply wp_done].
  apply wp_bind. eapply wp_mono; [by apply wp_decode_int|].
  intros r s1 (Hs1 & Hc1 & Hb1 & Hr). destruct r as [v|e]; [|done]. destruct Hr as [Hv Hpos].
  apply wp_bind. eapply wp_done; [done|]. cbv beta iota.
  destruct (Nat.ltb_spec (Cursor.remaining (Decoder.cur s1)) (Z.to_nat v)) as [Hlt|Hle];
    [by eapply wp_done|].
  apply wp_bind. eapply wp_done; [done|]. cbv beta iota.
  destruct Hc1 as [Hu1 Hp1]. unfold Cursor.remaining in Hle.
  destruct (Z.land hdr Decoder.HUFF_FLAG =? Decoder.HUFF_FLAG).
  - apply wp_bind. eapply wp_done; [done|]. cbv beta iota. apply wp_bind.
    unfold slice_to, Cursor.chunk at 1. rewrite length_drop.
    destruct (Nat.leb_spec (Z.to_nat v)
      (length (Cursor.buf (Decoder.cur s1)) - Cursor.pos (Decoder.cur s1))); [|lia].
    eapply wp_done; [done|]. cbv beta iota. apply wp_bind.
    assert (all_u8 (take (Z.to_nat v) (Cursor.chunk (Decoder.cur s1)))) as Hraw
      by (apply Forall_take, Forall_drop, Hu1).
    destruct (decode_total _ (Decoder.buffer (Decoder.dec s1)) Hraw) as [[d Hd]|[b Hd]].
    + eapply wp_done; [unfold Decoder.huffman_decode; rewrite Hd; done|]. cbv beta iota.
      apply wp_bind. apply wp_advance; [cbn; lia|]. cbv beta iota. eapply wp_done; [done|].
      split_and!; try done; cbn; try lia. split; cbn; [done|lia].
    + eapply wp_done; [unfold Decoder.huffman_decode; rewrite Hd; done|]. cbv beta iota.
      split_and!; try done.
  - apply wp_bind. apply wp_advance; [lia|]. cbv beta iota. eapply wp_done; [done|].
    split_and!; try done; cbn; try lia. split; cbn; [done|lia].
Qed.

Lemma wp_consume_marker s m :
  cursor_ok s -> (Decoder.offset m + Decoder.mlen m <= left s)%nat ->
  wp (Decoder.consume_marker m) s (fun r s' => same s s' /\ cursor_ok s' /\
    (exists b, r = Ok b) /\ left s' = (left s - (Decoder.offset m + Decoder.mlen m))%nat).
Proof.
  intros [Hu Hp] Hl. unfold left, Cursor.remaining in *. unfold Decoder.consume_marker.
  apply wp_bind. apply wp_advance; [lia|]. cbv beta iota.
  destruct (Decoder.string m) as [str|].
  - apply wp_bind. apply wp_advance; [cbn; lia|]. cbv beta iota. eapply wp_done; [done|].
    split_and!; try done; cbn; try lia; [|by eexists]. split; cbn; [done|lia].
  - eapply wp_done.
    { unfold Cursor.take, slice_to. cbn -[Nat.leb].
      destruct (Nat.leb_spec (Cursor.pos (Decoder.cur s) + Decoder.offset m + Decoder.mlen m)
        (length (Cursor.buf (Decoder.cur s)))); [done|lia]. }
    split_and!; try done; cbn; [| by eexists|].
    + split; cbn; [by apply Forall_drop|lia].
    + rewrite length_drop. lia.
Qed.

Lemma wp_decode_string s :
  cursor_ok s ->
  wp Decoder.decode_string s (fun r s' => same s s' /\ cursor_ok s' /\
    match r with Ok _ => (left s' < left s)%nat | Err _ => True end).
Proof.
  intros Hc. unfold Decoder.decode_string. apply wp_bind. eapply wp_done; [done|]. cbv beta iota.
  apply wp_bind. eapply wp_mono; [by apply wp_try_decode_string|].
  intros r s1 (Hs1 & [Hu1 Hp1] & Hb1 & Hr). destruct r as [m|e]; [|by split_and!].
  destruct Hr as [Ho Hpos]. apply wp_bind. eapply wp_done; [done|]. cbv beta iota.
  destruct Hc as [Hu Hp]. eapply wp_mono.
  - apply wp_consume_marker.
    + split; cbn; [done|]. rewrite Hb1. done.
    + unfold left, Cursor.remaining. cbn. rewrite Hb1 in *. lia.
  - cbv beta. intros r s2 (Hs2 & Hc2 & [b ->] & Hl2).
    split_and!; [|done|].
    + etransitivity; [exact Hs1|]. etransitivity; [|exact Hs2]. done.
    + rewrite Hl2. unfold left, Cursor.remaining. cbn. rewrite Hb1 in *. lia.
Qed.

Lemma wp_table_get s i (Q : result Header.hd DecoderError -> Decoder.St -> Prop) :
  0 <= i -> (forall r, Q r s) -> wp (Decoder.table_get i) s Q.
Proof.
  intros Hi HQ. destruct (dec_table_get_total (Decoder.table (Decoder.dec s)) i Hi) as [r Hr].
  eapply wp_done; [|apply HQ]. unfold Decoder.table_get. by rewrite Hr.
Qed.

Lemma wp_decode_literal s b :
  cursor_ok s ->
  wp (Decoder.decode_literal b) s (fun r s' => same s s' /\ cursor_ok s' /\
    match r with Ok _ => (left s' < left s)%nat | Err _ => True end).
Proof.
  intros Hc. unfold Decoder.decode_literal. apply wp_bind.
  eapply wp_mono; [by apply wp_decode_int|].
  intros r s1 (Hs1 & Hc1 & Hb1 & Hr). destruct r as [v|e]; [|done]. destruct Hr as [Hv Hpos].
  assert (left s1 < left s)%nat as Hl1.
  { destruct Hc1. unfold left, Cursor.remaining. rewrite Hb1 in *. lia. }
  destruct (v =? 0).
  - apply wp_bind. eapply wp_done; [done|]. cbv beta iota.
    apply wp_bind. eapply wp_mono; [by apply wp_try_decode_string|].
    intros r2 s2 (Hs2 & Hc2 & Hb2 & Hr2).
    destruct r2 as [m1|e]; [|split_and!; [by etransitivity|done..]]. destruct Hr2 as [Ho1 Hp2].
    apply wp_bind. eapply wp_mono; [by apply wp_try_decode_string|].
    intros r3 s3 (Hs3 & Hc3 & Hb3 & Hr3).
    destruct r3 as [m2|e];
      [|split_and!; [etransitivity; [exact Hs1|]; by etransitivity|done..]].
    destruct Hr3 as [Ho2 Hp3]. apply wp_bind. eapply wp_done; [done|]. cbv beta iota.
    destruct Hc1 as [Hu1 Hp1], Hc3 as [Hu3 Hl3].
    apply wp_bind. eapply wp_mono; [apply wp_consume_marker|].
    { split; cbn; rewrite Hb3, Hb2; done. }
    { unfold left, Cursor.remaining. cbn. rewrite Hb3, Hb2 in *. lia. }
    cbv beta. intros r4 s4 (Hs4 & Hc4 & [name ->] & Hl4).
    change (left s4 = (length (Cursor.buf (Decoder.cur s3)) - Cursor.pos (Decoder.cur s1)
      - (Decoder.offset m1 + Decoder.mlen m1))%nat) in Hl4.
    apply wp_bind. eapply wp_mono; [apply wp_consume_marker; [done|]|].
    { rewrite Hl4, Hb3, Hb2 in *. lia. }
    cbv beta. intros r5 s5 (Hs5 & Hc5 & [value ->] & Hl5).
    eapply wp_done; [done|]. split_and!; [|done|].
    + etransitivity; [exact Hs1|]. etransitivity; [exact Hs2|]. etransitivity; [exact Hs3|].
      etransitivity; [|exact Hs5]. etransitivity; [|exact Hs4]. done.
    + destruct (Header.new name value); [|done].
      assert (left s1 = length (Cursor.buf (Decoder.cur s3)) - Cursor.pos (Decoder.cur s1))%nat
        by (unfold left, Cursor.remaining; by rewrite Hb3, Hb2). lia.
  - apply wp_bind. apply wp_table_get; [done|]. intros [e|e]; [|by split_and!].
    apply wp_bind. eapply wp_mono; [by apply wp_decode_string|].
    intros r2 s2 (Hs2 & Hc2 & Hr2).
    destruct r2 as [value|e2]; [|split_and!; [by etransitivity|done..]].
    eapply wp_done; [done|]. split_and!; [by etransitivity|done|].
    destruct (Header.into_entry _ _); [lia|done].
Qed.

(** ** The decoding loop *)

(** The invariant of the decoder when no advertised limit exceeds [m]. *)
Definition dec_ok (m : Z) (d : Decoder.t) : Prop :=
  table_ok (Decoder.table d) /\ 0 <= DecTable.max_size (Decoder.table d) <= m /\
  0 <= Decoder.last_max_update d <= m /\
  match Decoder.max_size_update d with Some v => 0 <= v <= m | None => True end.

Lemma dec_ok_same m s s' : same s s' -> dec_ok m (Decoder.dec s) -> dec_ok m (Decoder.dec s').
Proof. unfold same, dec_ok. intros (-> & -> & -> & _). done. Qed.

Lemma wp_consume s (Q : result unit DecoderError -> Decoder.St -> Prop) :
  cursor_ok s ->
  (forall s', cursor_ok s' -> Decoder.dec s' = Decoder.dec s -> Decoder.out s' = Decoder.out s ->
    left s' = left s -> Cursor.pos (Decoder.cur s') = 0%nat -> Q (Ok tt) s') ->
  wp Decoder.consume s Q.
Proof.
  intros [Hu Hp] HQ. unfold Decoder.consume, Decoder.on_cursor, Decoder.modify, Cursor.consume,
    Cursor.take, slice_to. eexists _, _. rewrite Nat.add_0_r. cbn -[Nat.leb].
  destruct (Nat.leb_spec (Cursor.pos (Decoder.cur s)) (length (Cursor.buf (Decoder.cur s)))); [|lia].
  split; [done|]. apply HQ; try done; cbn.
  - split; cbn; [by apply Forall_drop|lia].
  - unfold left, Cursor.remaining. cbn. rewrite length_drop. lia.
Qed.

(** An entry that was decoded without indexing is consumed and emitted. *)
Lemma wp_finish m s0 s entry :
  cursor_ok s -> dec_ok m (Decoder.dec s) -> (left s < left s0)%nat ->
  wp (Decoder.bind Decoder.consume (fun _ => Decoder.bind (Decoder.emit entry)
    (fun _ => Decoder.ret false))) s
    (fun r s' => cursor_ok s' /\ dec_ok m (Decoder.dec s') /\ r = Ok false /\
      (left s' < left s0)%nat /\ Cursor.pos (Decoder.cur s') = 0%nat).
Proof.
  intros Hc Hd Hl. apply wp_bind. apply wp_consume; [done|]. intros s' Hc' Hd' Ho' Hl' Hz'.
  apply wp_bind. eapply wp_done; [done|]. cbv beta iota. eapply wp_done; [done|].
  unfold left in *. cbn. rewrite Hd'. split_and!; try done. lia.
Qed.

Lemma wp_process_size_update m s :
  cursor_ok s -> dec_ok m (Decoder.dec s) ->
  wp Decoder.process_size_update s (fun r s' => cursor_ok s' /\ dec_ok m (Decoder.dec s') /\
    match r with Ok _ => (left s' < left s)%nat | Err _ => True end).
Proof.
  intros Hc Hd. unfold Decoder.process_size_update. apply wp_bind.
  eapply wp_mono; [by apply wp_decode_int|].
  intros r s1 (Hs1 & Hc1 & Hb1 & Hr). pose proof (dec_ok_same _ _ _ Hs1 Hd) as Hd1.
  destruct r as [v|e]; [|done]. destruct Hr as [Hv Hpos].
  apply wp_bind. eapply wp_done; [done|]. cbv beta iota.
  destruct (v >? Decoder.last_max_update (Decoder.dec s1)) eqn:Hgt; [by eapply wp_done|].
  bool_to_prop. destruct Hd1 as (Ht1 & Hm1 & Hl1 & Hq1).
  destruct (dec_table_set_max_size_spec (Decoder.table (Decoder.dec s1)) v Hv (proj1 Ht1))
    as (t' & Ht' & Hok & Hmax & _).
  eapply wp_done; [unfold Decoder.on_table, Decoder.modify; rewrite Ht'; done|].
  split_and!; [done| |].
  - split_and!; cbn; try done; lia.
  - destruct Hc1. unfold left, Cursor.remaining. cbn. rewrite Hb1 in *. lia.
Qed.

Lemma wp_decode_one m s ty can_resize :
  cursor_ok s -> dec_ok m (Decoder.dec s) ->
  wp (Decoder.decode_one ty can_resize) s (fun r s' => cursor_ok s' /\ dec_ok m (Decoder.dec s') /\
    match r with
    | Ok _ => (left s' < left s)%nat /\ Cursor.pos (Decoder.cur s') = 0%nat
    | Err _ => True
    end).
Proof.
  intros Hc Hd. unfold Decoder.decode_one. apply wp_bind. eapply wp_done; [done|]. cbv beta.
  destruct (Representation.load ty) as [rep|e]; [|done].
  assert (forall entry s1, cursor_ok s1 -> dec_ok m (Decoder.dec s1) -> (left s1 < left s)%nat ->
    wp (Decoder.bind Decoder.consume (fun _ => Decoder.bind (Decoder.emit entry)
      (fun _ => Decoder.ret false))) s1
    (fun r s' => cursor_ok s' /\ dec_ok m (Decoder.dec s') /\
      match r with
      | Ok _ => (left s' < left s)%nat /\ Cursor.pos (Decoder.cur s') = 0%nat
      | Err _ => True
      end)) as Hfin.
  { intros entry s1 Hc1 Hd1 Hl1. eapply wp_mono; [by apply (wp_finish m s)|].
    intros r s' (? & ? & -> & ? & ?). done. }
  assert (forall b, wp (Decoder.decode_literal b) s (fun r s' => cursor_ok s' /\
    dec_ok m (Decoder.dec s') /\ match r with Ok _ => (left s' < left s)%nat | Err _ => True end))
    as Hlit.
  { intros b. eapply wp_mono; [by apply wp_decode_literal|].
    intros r s' (Hs' & Hc' & Hl'). split_and!; try done. by eapply dec_ok_same. }
  destruct rep.
  - apply wp_bind. unfold Decoder.decode_indexed. apply wp_bind.
    eapply wp_mono; [by apply wp_decode_int|].
    intros r s1 (Hs1 & Hc1 & Hb1 & Hr). pose proof (dec_ok_same _ _ _ Hs1 Hd) as Hd1.
    destruct r as [v|e]; [|done]. destruct Hr as [Hv Hpos].
    apply wp_table_get; [done|]. intros [e|e]; [|done].
    apply Hfin; [done..|]. destruct Hc1. unfold left, Cursor.remaining. rewrite Hb1 in *. lia.
  - apply wp_bind. eapply wp_mono; [apply Hlit|].
    intros r s1 (Hc1 & Hd1 & Hl1). destruct r as [entry|e]; [|done].
    apply wp_bind. destruct Hd1 as (Ht1 & Hm1 & Hl1' & Hq1).
    destruct (dec_table_insert_spec (Decoder.table (Decoder.dec s1)) entry Ht1 (proj1 Hm1))
      as (t' & Ht' & Hok & Hmax & _).
    eapply wp_done; [unfold Decoder.on_table, Decoder.modify; rewrite Ht'; done|].
    apply Hfin; [done| |done]. split_and!; cbn; rewrite ?Hmax; done || lia.
  - apply wp_bind. eapply wp_mono; [apply Hlit|].
    intros r s1 (Hc1 & Hd1 & Hl1). destruct r as [entry|e]; [|done]. by apply Hfin.
  - apply wp_bind. eapply wp_mono; [apply Hlit|].
    intros r s1 (Hc1 & Hd1 & Hl1). destruct r as [entry|e]; [|done]. by apply Hfin.
  - destruct can_resize; cbn [negb]; [|by eapply wp_done].
    apply wp_bind. eapply wp_mono; [by apply (wp_process_size_update m)|].
    intros r s1 (Hc1 & Hd1 & Hl1). destruct r as [[]|e]; [|done].
    apply wp_bind. apply wp_consume; [done|]. intros s' Hc' Hd' Ho' Hl' Hz'.
    eapply wp_done; [done|]. rewrite Hd'. split_and!; try done; lia.
Qed.

Lemma wp_decode_loop m fuel : forall s can_resize,
  cursor_ok s -> dec_ok m (Decoder.dec s) -> (left s < fuel)%nat ->
  Cursor.pos (Decoder.cur s) = 0%nat ->
  wp (Decoder.decode_loop fuel can_resize) s (fun r s' =>
    cursor_ok s' /\ dec_ok m (Decoder.dec s') /\
    match r with Ok _ => Cursor.buf (Decoder.cur s') = [] | Err _ => True end).
Proof.
  induction fuel as [|fuel IH]; intros s can_resize Hc Hd Hf Hz; [lia|].
  cbn [Decoder.decode_loop]. apply wp_bind. eapply wp_done; [done|]. cbv beta iota.
  destruct (peek_u8 _) as [ty|] eqn:Hpeek.
  - apply wp_bind. eapply wp_mono; [by apply (wp_decode_one m)|].
    intros r s1 (Hc1 & Hd1 & Hl1). destruct r as [b|e]; [|done]. destruct Hl1. apply IH; done || lia.
  - eapply wp_done; [done|]. split_and!; [done..|].
    unfold Cursor.chunk in Hpeek. rewrite Hz, drop_0 in Hpeek.
    by destruct (Cursor.buf (Decoder.cur s)).
Qed.

(** Decoding a block from a decoder whose invariant holds: no panic, and the
    invariant holds afterwards, whatever the block. *)
Lemma decode_ok m d src :
  dec_ok m d -> all_u8 src ->
  exists r d' rest out, Decoder.decode d src = Done (r, d', rest, out) /\ dec_ok m d' /\
    all_u8 rest /\ (r = Ok tt -> rest = []).
Proof.
  intros Hd Hsrc. unfold Decoder.decode.
  set (d1 := match Decoder.max_size_update d with
             | Some size => Decoder.mk None size (Decoder.table d) (Decoder.buffer d)
             | None => d end).
  assert (dec_ok m d1) as Hd1.
  { unfold d1, dec_ok in *. destruct (Decoder.max_size_update d) eqn:Hu; cbn; rewrite ?Hu;
      destruct_and!; split_and!; done. }
  destruct (wp_decode_loop m (S (length src)) (Decoder.st d1 (Cursor.mk src 0) []) true)
    as (r & s' & -> & [Hu Hp] & Hd' & Hr).
  - split; cbn; [done|lia].
  - done.
  - unfold left, Cursor.remaining. cbn. lia.
  - done.
  - cbn [obind]. eexists _, _, _, _. split_and!; [done..|]. intros ->. exact Hr.
Qed.

(** C30: the dynamic table is the FIFO of RFC 7541 section 4: inserting an entry or
    changing the maximum keeps the longest run of newest entries that fits (an
    entry larger than the table empties it), the recorded size is always the sum
    of the entries' sizes, and neither operation panics. *)
Theorem dec_table_fifo t e n :
  table_ok t -> 0 <= DecTable.max_size t -> 0 <= n ->
  (exists t', DecTable.insert t e = Done t' /\ table_ok t' /\
     DecTable.max_size t' = DecTable.max_size t /\
     DecTable.entries t' = fit (DecTable.max_size t) (e :: DecTable.entries t)) /\
  (exists t', DecTable.set_max_size t n = Done t' /\ table_ok t' /\
     DecTable.max_size t' = n /\ DecTable.entries t' = fit n (DecTable.entries t)).
Proof.
  intros Ht Hm Hn. split; [by apply dec_table_insert_spec|].
  by apply dec_table_set_max_size_spec, Ht.
Qed.

(** C18: decoding a header block never panics and terminates within its fuel,
    whatever the octets; if no dynamic table size above [m] was ever advertised,
    the table holds at most [m] octets (so at most [m / 32] entries) afterwards,
    errors included; an accepted block is consumed entirely. *)
Theorem hpack_decode_safe m d src :
  dec_ok m d -> all_u8 src ->
  exists r d' rest out, Decoder.decode d src = Done (r, d', rest, out) /\ dec_ok m d' /\
    32 * len (DecTable.entries (Decoder.table d')) <= m /\ (r = Ok tt -> rest = []).
Proof.
  intros Hd Hs. destruct (decode_ok m d src Hd Hs) as (r & d' & rest & out & He & Hd' & _ & Hr).
  exists r, d', rest, out. split_and!; [done..| |done].
  destruct Hd' as ([Hsz Hle] & Hm & _).
  pose proof (sizes_length (DecTable.entries (Decoder.table d'))). lia.
Qed.

End facts.
