(* ===== verification/HpackStrings.v ===== *)
(** * HPACK string and literal encoding

    Models the free functions of [src/src/hpack/encoder.rs] that write a string
    ([encode_str]), a literal field ([encode_not_indexed], [encode_not_indexed2])
    and a table size update, and relates them to the decoder. *)

From S2P Require Import Prelude FrameBase HpackInt HpackHeader Huffman HpackDecoder.

(** [dst[i] = b] *)
Definition set_at (dst : bytes) (i : nat) (b : byte) : outcome bytes :=
  if (i <? length dst)%nat then Done (<[i := b]> dst) else Panic.

Definition PLACEHOLDER_LEN : nat := 8.

(** [for i in 0..huff_len]: the copy goes from the last octet to the first; [k] is
    [huff_len - i]. *)
Fixpoint shift_loop (k idx head_len : nat) (dst : bytes) : outcome bytes :=
  match k with
  | O => Done dst
  | S k =>
      let src_i := (idx + 1 + k)%nat in
      let dst_i := (idx + head_len + k)%nat in
      let! b := byte_at dst src_i in
      let! dst := set_at dst dst_i b in
      shift_loop k idx head_len dst
  end.

(** [for i in 0..head_len { dst[idx + i] = buf[i]; }] *)
Fixpoint copy_head (head : bytes) (idx : nat) (dst : bytes) : outcome bytes :=
  match head with
  | [] => Done dst
  | b :: head =>
      let! dst := set_at dst idx b in
      copy_head head (S idx) dst
  end.

Definition encode_str (val dst : bytes) : outcome bytes :=
  match val with
  | [] => Done (dst ++ [0])
  | _ =>
      let idx := length dst in
      let dst := dst ++ [0] in
      let! dst := Huffman.encode val dst in
      let huff_len := (length dst - (idx + 1))%nat in
      if encode_int_one_byte (Z.of_nat huff_len) 7 then
        set_at dst idx (Z.lor 128 (wrap_u8 (Z.of_nat huff_len)))
      else
        let! head := encode_int (Z.of_nat huff_len) 7 128 [] in
        let! _ := assert (length head <=? PLACEHOLDER_LEN)%nat in
        let head_len := length head in
        let dst := dst ++ drop 1 head in
        let! dst := shift_loop huff_len idx head_len dst in
        copy_head head idx dst
  end.

Definition encode_size_update (val : Z) (dst : bytes) : outcome bytes := encode_int val 5 32 dst.

Definition encode_not_indexed (name : Z) (value : bytes) (sensitive : bool) (dst : bytes) : outcome bytes :=
  let! dst := if sensitive then encode_int name 4 16 dst else encode_int name 4 0 dst in
  encode_str value dst.

Definition encode_not_indexed2 (name value : bytes) (sensitive : bool) (dst : bytes) : outcome bytes :=
  let dst := if sensitive then dst ++ [16] else dst ++ [0] in
  let! dst := encode_str name dst in
  encode_str value dst.

(** ** Facts *)

Lemma set_at_app (l1 l2 : bytes) x b :
  set_at (l1 ++ x :: l2) (length l1) b = Done (l1 ++ b :: l2).
Proof.
  unfold set_at. rewrite length_app. simpl length.
  destruct (Nat.ltb_spec (length l1) (length l1 + S (length l2))); [|lia].
  by rewrite insert_app_r_alt, Nat.sub_diag by lia.
Qed.

Lemma copy_head_spec head : forall pre old post,
  length old = length head ->
  copy_head head (length pre) (pre ++ old ++ post) = Done (pre ++ head ++ post).
Proof.
  induction head as [|b head IH]; intros pre old post Hl.
  - by apply nil_length_inv in Hl as ->.
  - destruct old as [|x old]; [done|]. cbn [copy_head app]. rewrite set_at_app. cbn [obind].
    replace (S (length pre)) with (length (pre ++ [b])) by (rewrite length_app; simpl; lia).
    replace (pre ++ b :: old ++ post) with ((pre ++ [b]) ++ old ++ post) by (by rewrite <-app_assoc).
    rewrite IH by (simpl in Hl; lia). by rewrite <-app_assoc.
Qed.

(** The loop slides [data] over a gap of [head_len - 1] octets. *)
Lemma shift_loop_spec data : forall pre gap post,
  exists gap',
    length gap' = length gap /\
    shift_loop (length data) (length pre) (S (length gap)) (pre ++ 0 :: data ++ gap ++ post) =
      Done (pre ++ 0 :: gap' ++ data ++ post).
Proof.
  induction data as [|d data IH] using rev_ind; intros pre gap post.
  - by exists gap.
  - rewrite length_app, Nat.add_1_r. cbn [shift_loop].
    set (base := pre ++ 0 :: data).
    assert (length base = (length pre + 1 + length data)%nat) as Hbase
      by (unfold base; rewrite length_app; simpl length; lia).
    assert (d :: gap <> []) as Hne by done.
    destruct (exists_last Hne) as (front & y & Hsplit).
    assert (length front = length gap) as Hfront.
    { apply (f_equal length) in Hsplit. rewrite length_app in Hsplit. simpl in Hsplit. lia. }
    assert (pre ++ 0 :: (data ++ [d]) ++ gap ++ post = base ++ d :: gap ++ post) as ->
      by (unfold base; by rewrite <-!app_assoc).
    unfold byte_at. rewrite <-Hbase, list_lookup_middle by done. cbn [unwrap obind].
    assert (base ++ d :: gap ++ post = (base ++ front) ++ y :: post) as ->.
    { rewrite <-app_assoc. change (d :: gap ++ post) with ((d :: gap) ++ post).
      rewrite Hsplit, <-app_assoc. done. }
    replace (length pre + S (length gap) + length data)%nat with (length (base ++ front))
      by (rewrite length_app; lia).
    rewrite set_at_app. cbn [obind].
    destruct (IH pre front (d :: post)) as (gap' & Hg & Hloop).
    exists gap'. split; [lia|]. rewrite Hfront in Hloop.
    replace ((base ++ front) ++ d :: post) with (pre ++ 0 :: data ++ front ++ d :: post)
      by (unfold base; rewrite <-!app_assoc; done).
    rewrite Hloop, <-app_assoc. done.
Qed.

Lemma varint_octets_length fuel : forall n v,
  (1 <= n)%nat -> v < 2 ^ (7 * Z.of_nat n) -> (length (varint_octets fuel v) <= n)%nat.
Proof.
  induction fuel as [|fuel IH]; intros n v Hn Hv; [simpl; lia|].
  cbn [varint_octets]. destruct (v >=? 128) eqn:Hge; simpl length; [|lia]. bool_to_prop.
  destruct n as [|[|n]]; [lia|simpl in Hv; lia|].
  enough (length (varint_octets fuel (v / 128)) <= S n)%nat by lia. apply IH; [lia|].
  apply Z.div_lt_upper_bound; [lia|].
  replace (7 * Z.of_nat (S (S n))) with (7 + 7 * Z.of_nat (S n)) in Hv by lia.
  rewrite Z.pow_add_r in Hv by lia. change (2 ^ 7) with 128 in Hv. lia.
Qed.

(** The octets of a string: its Huffman code after its length. *)
Lemma encode_str_spec val dst :
  all_u8 val ->
  exists huff k,
    all_u8 huff /\ (k < 8)%nat /\ bits_of_bytes huff = code_of val ++ ones k /\
    (len huff < 2 ^ 49 ->
     encode_str val dst = Done (dst ++ (if bool_decide (val = []) then [0]
       else int_octets (len huff) 7 128 ++ huff))).
Proof.
  intros Hval. destruct (encode_spec val (dst ++ [0]) Hval) as (huff & k & He & Hu & Hk & Hb).
  exists huff, k. split_and!; [done..|]. intros Hlen.
  destruct val as [|v val]; [done|]. rewrite bool_decide_false by done. cbn [encode_str].
  rewrite He. cbn [obind]. rewrite !length_app. change (length [0]) with 1%nat.
  replace (length dst + 1 + length huff - (length dst + 1))%nat with (length huff) by lia.
  change (Z.of_nat (length huff)) with (len huff). pose proof (len_nonneg huff) as Hn.
  rewrite encode_int_octets by (try done; ilia). cbn [app obind].
  unfold int_octets. destruct (encode_int_one_byte (len huff) 7).
  - rewrite <-app_assoc. cbn [app]. by rewrite set_at_app.
  - set (low := Z.shiftl 1 7 - 1). set (rest := varint_octets 10 (len huff - low)).
    assert (length rest <= 7)%nat as Hrest.
    { apply varint_octets_length; [lia|]. change (7 * Z.of_nat 7) with 49.
      change low with 127. lia. }
    cbn [length drop]. rewrite drop_0.
    destruct (Nat.leb_spec (S (length rest)) PLACEHOLDER_LEN); [|unfold PLACEHOLDER_LEN in *; lia].
    cbn [assert obind]. destruct (shift_loop_spec huff dst rest []) as (gap' & Hg & Hloop).
    rewrite !app_nil_r in Hloop. rewrite <-!app_assoc. cbn [app]. rewrite Hloop. cbn [obind].
    change (dst ++ 0 :: gap' ++ huff) with (dst ++ (0 :: gap') ++ huff).
    rewrite copy_head_spec by (simpl length; lia). done.
Qed.

(** ** Reading back what was written *)

Lemma land_lor_128 b : is_u8 b -> Z.land (Z.lor 128 b) 128 = 128.
Proof.
  intros Hb. apply Z.eqb_eq.
  apply (byte_forall (fun b => Z.land (Z.lor 128 b) 128 =? 128)); [reflexivity|done].
Qed.

Lemma code_bits_length b : is_symbol b -> (length (code_bits b) <= 30)%nat.
Proof.
  intros Hb. destruct (code_bits_spec b Hb) as (n & c & _ & Hn & _ & ->).
  rewrite length_to_bits. lia.
Qed.

Lemma huffman_length huff val k :
  all_u8 val -> (k < 8)%nat -> bits_of_bytes huff = code_of val ++ ones k ->
  len huff <= 4 * len val + 1.
Proof.
  intros Hval Hk Hb. apply (f_equal length) in Hb. rewrite length_app in Hb.
  unfold ones in Hb. rewrite repeat_length in Hb.
  assert (length (bits_of_bytes huff) = 8 * length huff)%nat as Hl.
  { clear. unfold bits_of_bytes. induction huff as [|b l IH]; [done|].
    cbn [flat_map]. rewrite length_app, length_to_bits, IH. simpl length. lia. }
  assert (length (code_of val) <= 30 * length val)%nat as Hc.
  { apply bytes_are_symbols in Hval. clear -Hval. unfold code_of.
    induction Hval as [|b l Hb _ IH]; [done|].
    cbn [flat_map]. rewrite length_app. pose proof (code_bits_length b Hb). simpl length. lia. }
  unfold len. lia.
Qed.

Section roundtrip.
Context `{HeaderPlz}.

Implicit Types d : Decoder.t.

(** The octets [encode_str] writes for a string whose code is [huff]. *)
Definition str_octets (val huff : bytes) : bytes :=
  if bool_decide (val = []) then [0] else int_octets (len huff) 7 128 ++ huff.

Definition huffman_of (val huff : bytes) : Prop :=
  all_u8 huff /\ len huff < 2 ^ 28 /\ exists k, (k < 8)%nat /\
    bits_of_bytes huff = code_of val ++ ones k.

Lemma chunk_app pre l out d :
  Cursor.chunk (Decoder.cur (Decoder.st d (Cursor.mk (pre ++ l) (length pre)) out)) = l.
Proof. unfold Cursor.chunk. cbn. by rewrite drop_app_length. Qed.

Lemma chunk_mk pre l : Cursor.chunk (Cursor.mk (pre ++ l) (length pre)) = l.
Proof. unfold Cursor.chunk. cbn. by rewrite drop_app_length. Qed.

Lemma decode_int_at d pre v p first rest out :
  1 <= p <= 8 -> Z.land first (Z.ones p) = 0 -> is_usize v -> v < 2 ^ p - 1 + 2 ^ 28 ->
  Decoder.decode_int p (Decoder.st d
    (Cursor.mk (pre ++ int_octets v p first ++ rest) (length pre)) out) =
  Done (Ok v, Decoder.st d
    (Cursor.mk ((pre ++ int_octets v p first) ++ rest) (length (pre ++ int_octets v p first))) out).
Proof.
  intros Hp Hf Hv Hlt. unfold Decoder.decode_int. rewrite chunk_app.
  rewrite decode_int_octets by done. destruct (Z.ltb_spec v (2 ^ p - 1 + 2 ^ 28)); [|lia].
  unfold Cursor.set_position. cbn [Decoder.dec Decoder.cur Decoder.out Cursor.buf].
  do 4 f_equal; [by rewrite app_assoc|]. rewrite !length_app. lia.
Qed.

Lemma int_octets_head v p first :
  exists b rest, int_octets v p first = Z.lor first b :: rest /\ is_u8 b.
Proof.
  unfold int_octets. destruct (encode_int_one_byte v p); eexists _, _;
    (split; [reflexivity|apply wrap_u8_is_u8]).
Qed.

Lemma int_octets_pos v p first : (1 <= length (int_octets v p first))%nat.
Proof. destruct (int_octets_head v p first) as (b & rest & -> & _). simpl. lia. Qed.

Lemma bind_ok {A B} (m : Decoder.M A) (k : A -> Decoder.M B) s a s' :
  m s = Done (Ok a, s') -> Decoder.bind m k s = k a s'.
Proof. intros Hm. unfold Decoder.bind. by rewrite Hm. Qed.

Lemma drop_length_app {A} (l1 l2 : list A) : (length (l1 ++ l2) - length l1)%nat = length l2.
Proof. rewrite length_app. lia. Qed.

(** Run the next step, which only reads the state. *)
Ltac step := rewrite (bind_ok _ _ _ _ _ eq_refl); cbv beta iota zeta; cbn [Decoder.cur].

Lemma advance_at d c n out :
  (Cursor.pos c + n <= length (Cursor.buf c))%nat ->
  Decoder.on_cursor (fun c => Cursor.advance c n) (Decoder.st d c out) =
    Done (Ok tt, Decoder.st d (Cursor.mk (Cursor.buf c) (Cursor.pos c + n)) out).
Proof.
  intros Hn. unfold Decoder.on_cursor, Decoder.modify, Cursor.advance. cbn -[Nat.leb].
  apply Nat.leb_le in Hn. by rewrite Hn.
Qed.

(** The marker of a string just written, and where the cursor stands after it. *)
Definition str_marker (val huff : bytes) : Decoder.StringMarker :=
  if bool_decide (val = []) then Decoder.marker 1 0 None
  else Decoder.marker (length (int_octets (len huff) 7 128)) (length huff) (Some val).

Lemma try_decode_string_at d pre val huff rest out :
  all_u8 val -> huffman_of val huff -> Decoder.buffer d = [] ->
  Decoder.try_decode_string (Decoder.st d
    (Cursor.mk (pre ++ str_octets val huff ++ rest) (length pre)) out) =
  Done (Ok (str_marker val huff), Decoder.st d
    (Cursor.mk ((pre ++ str_octets val huff) ++ rest) (length (pre ++ str_octets val huff))) out).
Proof.
  intros Hval (Hu & Hl & k & Hk & Hb) Hbuf. unfold str_octets, str_marker.
  unfold Decoder.try_decode_string.
  rewrite (bind_ok _ _ _ _ _ eq_refl), (bind_ok _ _ _ _ _ eq_refl), chunk_app.
  destruct (bool_decide_reflect (val = [])) as [->|Hne].
  - assert (peek_u8 ([0] ++ rest) = Some 0) as -> by done.
    change ([0] ++ rest) with (int_octets 0 7 0 ++ rest). cbv iota.
    erewrite bind_ok; [|apply (decode_int_at d pre 0 7 0 rest out); done || ilia].
    step. destruct (Nat.ltb_spec (Cursor.remaining (Cursor.mk ((pre ++ int_octets 0 7 0) ++ rest)
      (length (pre ++ int_octets 0 7 0)))) (Z.to_nat 0)); [lia|].
    step. change (Z.land 0 Decoder.HUFF_FLAG =? Decoder.HUFF_FLAG) with false. cbv iota.
    erewrite bind_ok; [|apply advance_at; cbn; rewrite !length_app; lia].
    unfold Decoder.ret. cbn [Cursor.buf Cursor.pos]. change (int_octets 0 7 0) with [0].
    change (Z.to_nat 0) with 0%nat. rewrite Nat.add_0_r, drop_length_app. done.
  - destruct (int_octets_head (len huff) 7 128) as (b & tl & Hhead & Hb8).
    assert (peek_u8 ((int_octets (len huff) 7 128 ++ huff) ++ rest) = Some (Z.lor 128 b)) as ->
      by (by rewrite Hhead).
    pose proof (len_nonneg huff). rewrite <-app_assoc. cbv iota.
    erewrite bind_ok; [|apply (decode_int_at d pre (len huff) 7 128 (huff ++ rest) out);
      done || (try ilia)].
    set (io := int_octets (len huff) 7 128). step. unfold Cursor.remaining. cbn [Cursor.buf Cursor.pos].
    assert (Z.to_nat (len huff) = length huff) as -> by (unfold len; lia).
    destruct (Nat.ltb_spec (length ((pre ++ io) ++ huff ++ rest) - length (pre ++ io)) (length huff));
      [rewrite !length_app in *; lia|].
    step. unfold Decoder.HUFF_FLAG. rewrite land_lor_128, Z.eqb_refl by done. cbv iota.
    step. rewrite chunk_mk. erewrite bind_ok;
      [|unfold Decoder.lift; rewrite slice_to_app by done; done].
    erewrite bind_ok; [|unfold Decoder.huffman_decode; cbn [Decoder.dec];
      rewrite Hbuf, (decode_complete huff [] val k) by done; done].
    erewrite bind_ok; [|apply advance_at; cbn; rewrite !length_app; lia].
    unfold Decoder.ret, Decoder.with_buffer. cbn [Cursor.buf Cursor.pos app].
    rewrite <-Hbuf, drop_length_app. rewrite (app_assoc pre io huff), (app_assoc (pre ++ io)).
    rewrite (length_app (pre ++ io) huff). by destruct d.
Qed.

Lemma consume_marker_at d pre val huff rest out :
  all_u8 val -> huffman_of val huff ->
  exists pre' rest',
    Decoder.consume_marker (str_marker val huff) (Decoder.st d
      (Cursor.mk (pre ++ str_octets val huff ++ rest) (length pre)) out) =
    Done (Ok val, Decoder.st d (Cursor.mk (pre' ++ rest') (length pre')) out) /\ rest' = rest.
Proof.
  intros Hval (Hu & Hl & k & Hk & Hb). unfold str_marker, str_octets, Decoder.consume_marker.
  destruct (bool_decide_reflect (val = [])) as [->|Hne].
  - exists [], rest. split; [|done].
    erewrite bind_ok; [|apply advance_at; cbn; rewrite !length_app; simpl; lia].
    cbn -[drop take slice_to length app]. unfold Cursor.take. cbn [Cursor.buf Cursor.pos].
    rewrite Nat.add_0_r. rewrite (app_assoc pre [0] rest).
    replace (length pre + 1)%nat with (length (pre ++ [0])) by (rewrite length_app; done).
    rewrite slice_to_app by done. cbn [obind]. rewrite drop_app_length.
    by rewrite drop_all.
  - exists ((pre ++ int_octets (len huff) 7 128) ++ huff), rest. split; [|done].
    set (io := int_octets (len huff) 7 128).
    cbn [Decoder.offset Decoder.mlen Decoder.string].
    erewrite bind_ok; [|apply advance_at; cbn; rewrite !length_app; lia].
    erewrite bind_ok; [|apply advance_at; cbn; rewrite !length_app; lia].
    unfold Decoder.ret. cbn [Cursor.buf Cursor.pos]. rewrite !length_app, <-!app_assoc. done.
Qed.

Lemma str_octets_length val huff :
  length (str_octets val huff) =
    (Decoder.offset (str_marker val huff) + Decoder.mlen (str_marker val huff))%nat.
Proof.
  unfold str_octets, str_marker. destruct (bool_decide _); [done|]. by rewrite length_app.
Qed.

(** The prefix of a literal, with and without incremental indexing. *)
Definition literal_prefix (index : bool) : Z := if index then 6 else 4.
Definition literal_flag (index : bool) : byte := if index then 64 else 0.

(** A literal field with a literal name, as the encoder writes it. *)
Definition literal_octets (index : bool) (name nh value vh : bytes) : bytes :=
  [literal_flag index] ++ str_octets name nh ++ str_octets value vh.

Lemma decode_literal_at index d name nh value vh rest out :
  all_u8 name -> all_u8 value -> huffman_of name nh -> huffman_of value vh ->
  Decoder.buffer d = [] ->
  exists pre',
  Decoder.decode_literal index (Decoder.st d
    (Cursor.mk (literal_octets index name nh value vh ++ rest) 0) out) =
  Done (Header.new name value, Decoder.st d (Cursor.mk (pre' ++ rest) (length pre')) out).
Proof.
  intros Hn Hv Hnh Hvh Hbuf. unfold literal_octets, Decoder.decode_literal. rewrite <-!app_assoc.
  assert (int_octets 0 (literal_prefix index) (literal_flag index) = [literal_flag index]) as Hio
    by (by destruct index).
  rewrite <-Hio. erewrite bind_ok;
    [|apply (decode_int_at d [] 0 (literal_prefix index) (literal_flag index)
        (str_octets name nh ++ str_octets value vh ++ rest) out); destruct index; done || ilia].
  change (0 =? 0) with true. cbv iota.
  rewrite Hio. step. erewrite bind_ok; [|by apply try_decode_string_at].
  erewrite bind_ok; [|by apply try_decode_string_at].
  unfold Decoder.set_position.
  erewrite bind_ok; [|unfold Decoder.on_cursor, Decoder.modify; done].
  cbn [Decoder.cur Decoder.dec Decoder.out Cursor.set_position Cursor.buf Cursor.pos].
  rewrite <-!app_assoc.
  destruct (consume_marker_at d [literal_flag index] name nh (str_octets value vh ++ rest) out Hn Hnh)
    as (pre1 & rest1 & Hc1 & ->).
  erewrite bind_ok; [|exact Hc1].
  destruct (consume_marker_at d pre1 value vh rest out Hv Hvh) as (pre2 & rest2 & Hc2 & ->).
  erewrite bind_ok; [|exact Hc2]. by exists pre2.
Qed.

(** Encoding a list of fields as literals, one after the other. *)
Fixpoint encode_literals (hs : list Header.hd) (dst : bytes) : outcome bytes :=
  match hs with
  | [] => Done dst
  | h :: hs =>
      let! dst := encode_not_indexed2 (Header.as_slice (Header.name h)) (Header.value_slice h)
                    (Header.is_sensitive h) dst in
      encode_literals hs dst
  end.

(** Short enough for the decoder's integer limit. *)
Definition short (l : bytes) : Prop := len l < 2 ^ 26 - 1.

Definition header_short (h : Header.hd) : Prop :=
  short (Header.as_slice (Header.name h)) /\ short (Header.value_slice h).

Lemma encode_str_octets val dst :
  all_u8 val -> short val ->
  exists huff, huffman_of val huff /\ encode_str val dst = Done (dst ++ str_octets val huff).
Proof.
  intros Hval Hs. destruct (encode_str_spec val dst Hval) as (huff & k & Hu & Hk & Hb & He).
  pose proof (huffman_length _ _ _ Hval Hk Hb). unfold short in Hs.
  exists huff. split; [split_and!; [done|lia|eauto]|]. apply He. lia.
Qed.

Lemma encode_not_indexed2_octets name value dst :
  all_u8 name -> all_u8 value -> short name -> short value ->
  exists nh vh, huffman_of name nh /\ huffman_of value vh /\
    encode_not_indexed2 name value false dst = Done (dst ++ literal_octets false name nh value vh).
Proof.
  intros Hn Hv Hsn Hsv. unfold encode_not_indexed2, literal_octets.
  destruct (encode_str_octets name (dst ++ [0]) Hn Hsn) as (nh & Hnh & ->). cbn [obind].
  destruct (encode_str_octets value ((dst ++ [0]) ++ str_octets name nh) Hv Hsv) as (vh & Hvh & ->).
  exists nh, vh. by rewrite <-!app_assoc.
Qed.

Context `{!HeaderPlzLaws H}.

(** Reading a well-formed field's name and text gives the field back. *)
Lemma header_new_wf h :
  Header.wf h -> Header.new (Header.as_slice (Header.name h)) (Header.value_slice h) = Ok h.
Proof.
  intros [Hv Hw]. destruct h; cbn in *;
    unfold Protocol.try_from, BytesStr.try_from; rewrite ?Hw; try done.
  - destruct Hw as (_ & b & rest & -> & Hb). cbn. destruct (Z.eqb_spec b 58); [done|]. done.
  - by rewrite method_from_as_ref.
  - by destruct v.
  - by rewrite status_from_as_str.
Qed.

Lemma name_slice_u8 h : Header.wf h -> all_u8 (Header.as_slice (Header.name h)).
Proof.
  intros [Hv Hw]. destruct h; cbn in *; [by destruct Hw|..];
    repeat constructor; unfold_ints; lia.
Qed.

Lemma consume_at d pre rest out :
  Decoder.consume (Decoder.st d (Cursor.mk (pre ++ rest) (length pre)) out) =
  Done (Ok tt, Decoder.st d (Cursor.mk rest 0) out).
Proof.
  unfold Decoder.consume, Decoder.on_cursor, Decoder.modify, Cursor.consume, Cursor.take.
  cbn [Decoder.cur Cursor.buf Cursor.pos]. rewrite Nat.add_0_r, slice_to_app by done.
  cbn [obind]. by rewrite drop_app_length.
Qed.

Lemma decode_one_literal d name nh value vh rest out h b :
  all_u8 name -> all_u8 value -> huffman_of name nh -> huffman_of value vh ->
  Decoder.buffer d = [] -> Header.new name value = Ok h ->
  Decoder.decode_one 0 b (Decoder.st d
    (Cursor.mk (literal_octets false name nh value vh ++ rest) 0) out) =
  Done (Ok false, Decoder.st d (Cursor.mk rest 0) (out ++ [h])).
Proof.
  intros Hn Hv Hnh Hvh Hbuf Hnew. unfold Decoder.decode_one.
  rewrite (bind_ok _ _ _ Representation.LiteralWithoutIndexing _ eq_refl). cbv iota.
  destruct (decode_literal_at false d name nh value vh rest out Hn Hv Hnh Hvh Hbuf) as (pre' & Hdec).
  rewrite Hnew in Hdec. erewrite bind_ok; [|exact Hdec].
  erewrite bind_ok; [|apply consume_at]. done.
Qed.

(** The loop reads a block of literals back, whatever the fuel beyond its length. *)
Lemma decode_loop_literals hs : forall dst d fuel b out,
  Forall Header.wf hs -> Forall header_short hs -> Decoder.buffer d = [] ->
  exists block, encode_literals hs dst = Done (dst ++ block) /\
    ((length block < fuel)%nat ->
     Decoder.decode_loop fuel b (Decoder.st d (Cursor.mk block 0) out) =
       Done (Ok tt, Decoder.st d (Cursor.mk [] 0) (out ++ hs))).
Proof.
  induction hs as [|h hs IH]; intros dst d fuel b out Hwf Hs Hbuf.
  - exists []. rewrite !app_nil_r. split; [done|]. intros Hf.
    destruct fuel; [simpl in Hf; lia|done].
  - apply Forall_cons in Hwf as [Hh Hwf]. apply Forall_cons in Hs as [[Hs1 Hs2] Hs].
    cbn [encode_literals]. change (Header.is_sensitive h) with false.
    destruct (encode_not_indexed2_octets _ _ dst (name_slice_u8 h Hh) (proj1 Hh) Hs1 Hs2)
      as (nh & vh & Hnh & Hvh & ->). cbn [obind].
    destruct (IH (dst ++ literal_octets false (Header.as_slice (Header.name h)) nh
      (Header.value_slice h) vh) d (pred fuel) false (out ++ [h]) Hwf Hs Hbuf) as (block & -> & Hdec).
    eexists. rewrite <-app_assoc. split; [done|]. intros Hf.
    destruct fuel as [|fuel]; [lia|]. cbn [Decoder.decode_loop].
    step. cbn [literal_octets app peek_u8 Cursor.chunk Cursor.buf Cursor.pos drop].
    change (0 :: _ ++ block) with (literal_octets false (Header.as_slice (Header.name h)) nh
      (Header.value_slice h) vh ++ block).
    erewrite bind_ok; [|apply decode_one_literal; try done;
      [by apply name_slice_u8|apply Hh|by apply header_new_wf]].
    cbn [pred] in Hdec. rewrite Hdec, <-app_assoc; [done|].
    rewrite length_app in Hf. unfold literal_octets in Hf. simpl length in Hf. lia.
Qed.

Lemma decode_literals hs d :
  Forall Header.wf hs -> Forall header_short hs -> Decoder.buffer d = [] ->
  exists block d', encode_literals hs [] = Done block /\
    Decoder.decode d block = Done (Ok tt, d', [], hs) /\ Decoder.table d' = Decoder.table d.
Proof.
  intros Hwf Hs Hbuf. set (d1 := match Decoder.max_size_update d with
    | Some size => Decoder.mk None size (Decoder.table d) (Decoder.buffer d)
    | None => d end).
  assert (Decoder.buffer d1 = [] /\ Decoder.table d1 = Decoder.table d) as [Hb1 Ht1]
    by (unfold d1; by destruct (Decoder.max_size_update d)).
  destruct (decode_loop_literals hs [] d1 0 true [] Hwf Hs Hb1) as (block & He & _).
  destruct (decode_loop_literals hs [] d1 (S (length block)) true [] Hwf Hs Hb1)
    as (block' & He' & Hdec).
  rewrite He in He'. injection He' as <-.
  exists block, d1. split_and!; [done| |done]. unfold Decoder.decode. fold d1.
  rewrite Hdec by lia. done.
Qed.

(** A list of fields written as literals (Huffman-coded names and values of any
    length below 64 MiB) is decoded to the same list, with the block consumed and
    the dynamic table untouched. *)
Theorem literals_roundtrip hs d :
  Forall Header.wf hs -> Forall header_short hs -> Decoder.buffer d = [] ->
  exists block d', encode_literals hs [] = Done block /\
    Decoder.decode d block = Done (Ok tt, d', [], hs) /\ Decoder.table d' = Decoder.table d.
Proof. apply decode_literals. Qed.

End roundtrip.
