(* ===== verification/HpackCut.v ===== *)
(** * Header blocks cut anywhere

    A header block that crosses frames is decoded as it arrives: what the decoder has not
    finished is kept and decoded again with the next fragment.  Here: an integer, a string
    or a field cut before its end makes the decoder ask for more ([NeedMoreError]) and
    leaves everything but the cursor as it was. *)

From S2P Require Import Prelude FrameBase HpackInt Huffman HpackHeader HpackDecoder HpackStrings.

(** Two pieces in a row, cut. *)
Lemma cut_two {A} (o1 o2 a q : list A) :
  o1 ++ o2 = a ++ q ->
  (exists l, l <> [] /\ o1 = a ++ l /\ q = l ++ o2) \/ (exists l, a = o1 ++ l /\ o2 = l ++ q).
Proof.
  intros Ho. apply app_eq_inv in Ho as [(l & Hl & ->)|(l & Hl & ->)].
  - destruct l as [|x l]; [right; exists []; by rewrite app_nil_r in *|]. left. by exists (x :: l).
  - right. by exists l.
Qed.

(** Run the next step, which only reads the state. *)
Ltac read := rewrite (bind_ok _ _ _ _ _ eq_refl); cbv beta iota zeta; cbn [Decoder.cur].

Lemma varint_cut fuel : forall k value ret p q,
  varint_octets fuel value = p ++ q -> q <> [] ->
  0 <= value < 2 ^ (7 * (MAX_BYTES - k)) -> 1 <= k < MAX_BYTES ->
  decode_varint k (7 * (k - 1)) ret p = Err (NeedMoreError IntegerUnderflow).
Proof.
  induction fuel as [|fuel IH]; intros k value ret p q Ho Hq Hv Hk; [by destruct p, q|].
  destruct p as [|b p]; [done|]. cbn [varint_octets] in Ho. destruct (value >=? 128) eqn:Hge.
  - injection Ho as <- Ho. cbn [decode_varint].
    destruct (varint_high (value mod 128)) as [_ Hflag]; [apply Z.mod_pos_bound; lia|]. rewrite Hflag.
    destruct (Z.eqb_spec (k + 1) MAX_BYTES) as [He|He]; unfold MAX_BYTES in *.
    + replace (5 - k) with 1 in Hv by lia. simpl in Hv. ilia.
    + replace (7 * (k - 1) + 7) with (7 * (k + 1 - 1)) by lia. apply (IH _ _ _ _ q Ho Hq); [|lia].
      split; [apply Z.div_pos; ilia|]. apply Z.div_lt_upper_bound; [lia|].
      replace (7 * (5 - k)) with (7 + 7 * (5 - (k + 1))) in Hv by lia.
      rewrite Z.pow_add_r in Hv by lia. change (2 ^ 7) with 128 in Hv. lia.
  - by destruct p, q.
Qed.

Lemma int_cut v p first a q :
  1 <= p <= 8 -> Z.land first (Z.ones p) = 0 -> 0 <= v < 2 ^ p - 1 + 2 ^ 28 ->
  int_octets v p first = a ++ q -> q <> [] -> decode_int a p = Err (NeedMoreError IntegerUnderflow).
Proof.
  intros Hp Hf Hv Ho Hq. unfold decode_int. rewrite (proj2 (Z.leb_le 1 p)), (proj2 (Z.leb_le p 8)) by lia. cbn [andb negb].
  destruct a as [|b a]; [done|]. unfold int_octets, encode_int_one_byte in Ho.
  destruct (int_prefix_mask p Hp) as [Hmask Hsh]. rewrite Hmask. rewrite Hsh in Ho.
  destruct (ones_range p Hp) as [Hones Hr].
  destruct (Z.ltb_spec v (Z.ones p)) as [|Hge]; [by destruct a, q|].
  injection Ho as <- Ho. rewrite prefix_bits_read by (done || lia). rewrite Z.ltb_irrefl.
  apply (varint_cut 10 1 (v - Z.ones p) _ _ q Ho Hq); unfold MAX_BYTES; [|lia].
  change (2 ^ (7 * (5 - 1))) with (2 ^ 28). lia.
Qed.

Section cut.
Context `{HeaderPlz}.

Implicit Types (d : Decoder.t).

(** [m] wants more than the octets [a] behind [pre]. *)
Definition wants {A} (m : Decoder.M A) d pre (a : bytes) out : Prop :=
  exists n pos, m (Decoder.st d (Cursor.mk (pre ++ a) (length pre)) out) =
    Done (Err (NeedMoreError n), Decoder.st d (Cursor.mk (pre ++ a) pos) out).

Lemma wants_bind {A B} (m : Decoder.M A) (k : A -> Decoder.M B) d pre a out :
  wants m d pre a out -> wants (Decoder.bind m k) d pre a out.
Proof. intros (n & pos & Hm). exists n, pos. unfold Decoder.bind. by rewrite Hm. Qed.

Lemma wants_int d pre a q v p first out :
  1 <= p <= 8 -> Z.land first (Z.ones p) = 0 -> 0 <= v < 2 ^ p - 1 + 2 ^ 28 ->
  int_octets v p first = a ++ q -> q <> [] -> wants (Decoder.decode_int p) d pre a out.
Proof.
  intros Hp Hf Hv Ho Hq. eexists _, _. unfold Decoder.decode_int. rewrite chunk_app. by rewrite (int_cut v p first a q).
Qed.

Lemma wants_string d pre a q val huff out :
  all_u8 val -> huffman_of val huff -> str_octets val huff = a ++ q -> q <> [] ->
  wants Decoder.try_decode_string d pre a out.
Proof.
  intros Hval (Hu & Hl & _) Ho Hq. unfold wants, Decoder.try_decode_string.
  do 2 read. rewrite chunk_mk. destruct a as [|x a]; [by eexists _, _|]. cbn [peek_u8]. unfold str_octets in Ho.
  destruct (bool_decide_reflect (val = [])) as [->|Hne]; [by destruct a, q|]. pose proof (len_nonneg huff).
  destruct (cut_two _ _ _ _ Ho) as [(l & Hl0 & Hi & _)|(l & Ha & Hh)].
  - apply wants_bind. by apply (wants_int d pre (x :: a) l (len huff) 7 128); [..|unfold_ints; lia| |].
  - rewrite Ha. erewrite bind_ok; [|apply (decode_int_at d pre (len huff) 7 128 l out); done || ilia].
    read. assert (length l < length huff)%nat as Hlt.
    { rewrite Hh, length_app. destruct q; [done|]. cbn. lia. }
    unfold Cursor.remaining. cbn [Cursor.buf Cursor.pos]. rewrite length_app.
    destruct (Nat.ltb_spec (length (pre ++ int_octets (len huff) 7 128) + length l - length (pre ++ int_octets (len huff) 7 128))
      (Z.to_nat (len huff))); [|unfold len in *; lia].
    eexists _, _. rewrite <-app_assoc. reflexivity.
Qed.

Lemma wants_decode_string d pre a q val huff out :
  all_u8 val -> huffman_of val huff -> str_octets val huff = a ++ q -> q <> [] ->
  wants Decoder.decode_string d pre a out.
Proof.
  intros Hval Hh Ho Hq. unfold Decoder.decode_string. unfold wants. read. apply wants_bind. by apply (wants_string d pre a q val huff).
Qed.

(** A literal cut before its end. *)
Lemma wants_literal_new index d a q name nh value vh out :
  all_u8 name -> all_u8 value -> huffman_of name nh -> huffman_of value vh -> Decoder.buffer d = [] ->
  literal_octets index name nh value vh = a ++ q -> a <> [] -> q <> [] ->
  wants (Decoder.decode_literal index) d [] a out.
Proof.
  intros Hn Hv Hnh Hvh Hbuf Ho Ha Hq. unfold literal_octets in Ho. destruct a as [|x a]; [done|]. injection Ho as <- Ho.
  unfold wants, Decoder.decode_literal.
  assert (int_octets 0 (literal_prefix index) (literal_flag index) = [literal_flag index]) as Hint by by destruct index.
  pose proof (decode_int_at d [] 0 (literal_prefix index) (literal_flag index) a out) as Hd. rewrite Hint in Hd.
  erewrite bind_ok; [|apply Hd; by destruct index]. cbv beta. rewrite Z.eqb_refl. clear Hd. cbn [app length].
  read. destruct (cut_two _ _ _ _ Ho) as [(l & Hl & Hname & _)|(l & -> & Hval)].
  - destruct (wants_string d [literal_flag index] a l name nh out Hn Hnh Hname Hl) as (n & pos & Hw).
    cbn [app length] in Hw |- *. exists n, pos. unfold Decoder.bind at 1. by rewrite Hw.
  - pose proof (try_decode_string_at d [literal_flag index] name nh l out Hn Hnh Hbuf) as Hs.
    cbn [app length] in Hs. erewrite bind_ok; [|exact Hs]. cbv beta.
    destruct (wants_string d ([literal_flag index] ++ str_octets name nh) l q value vh out Hv Hvh Hval Hq) as (n & pos & Hw).
    cbn [app length] in Hw |- *. exists n, pos. unfold Decoder.bind at 1. by rewrite Hw.
Qed.

Lemma wants_literal_named index d a q idx e value vh out :
  1 <= idx < 2 ^ 28 -> DecTable.get (Decoder.table d) idx = Done (Ok e) ->
  all_u8 value -> huffman_of value vh ->
  int_octets idx (literal_prefix index) (literal_flag index) ++ str_octets value vh = a ++ q -> q <> [] ->
  wants (Decoder.decode_literal index) d [] a out.
Proof.
  intros Hidx Hget Hv Hvh Ho Hq. unfold wants, Decoder.decode_literal.
  assert (2 ^ 28 <= 2 ^ literal_prefix index - 1 + 2 ^ 28) as H28 by by destruct index.
  destruct (cut_two _ _ _ _ Ho) as [(l & Hl & Hi & _)|(l & -> & Hval)].
  - apply wants_bind. apply (wants_int d [] a l idx (literal_prefix index) (literal_flag index)); (done || (by destruct index) || lia).
  - pose proof (decode_int_at d [] idx (literal_prefix index) (literal_flag index) l out) as Hd.
    erewrite bind_ok; [|apply Hd; (by destruct index) || (try ilia)]. cbv beta. destruct (Z.eqb_spec idx 0); [lia|]. clear Hd.
    erewrite bind_ok; [|unfold Decoder.table_get; cbn [Decoder.dec]; rewrite Hget; reflexivity].
    destruct (wants_decode_string d ([] ++ int_octets idx (literal_prefix index) (literal_flag index)) l q value vh out Hv Hvh Hval Hq)
      as (m & pos & Hw).
    rewrite <-app_assoc in Hw. exists m, pos. unfold Decoder.bind at 1. rewrite <-app_assoc, Hw. done.
Qed.

End cut.
