(* ===== verification/HpackTable.v ===== *)
(** * The table of the HPACK encoder

    Models [src/src/hpack/table.rs]: the dynamic table as a queue of slots, newest
    first, and the index over it, a hash table with open addressing (Robin Hood) whose
    entries lead to the oldest slot of a name; the slots of a name are linked from the
    oldest to the newest.  The hasher is the crate [fnv], a parameter.  In the build
    that is not a test, [assert_valid_state] is [true] and its [debug_assert!] says
    nothing. *)

From Stdlib Require Import String.
From S2P Require Import Prelude FrameBase HpackHeader HpackDecoder.

(** [FnvHasher]: the hash of a name, a [u64]. *)
Class NameHash `{HeaderPlz} : Type := {
  fnv_hash : Header.Name -> Z;
  (** [u16::from(status)] of the crate [header-plz]. *)
  status_u16 : PlzStatus -> Z
}.

(** The value of a status determines it, and the constants have the values of their names. *)
Class NameHashLaws `{HeaderPlz} (N : NameHash) : Prop := {
  fnv_hash_u64 : forall n, is_u64 (fnv_hash n);
  status_u16_inj : forall a b, status_u16 a = status_u16 b -> a = b;
  status_u16_OK : status_u16 status_OK = 200;
  status_u16_NO_CONTENT : status_u16 status_NO_CONTENT = 204;
  status_u16_PARTIAL_CONTENT : status_u16 status_PARTIAL_CONTENT = 206;
  status_u16_NOT_MODIFIED : status_u16 status_NOT_MODIFIED = 304;
  status_u16_BAD_REQUEST : status_u16 status_BAD_REQUEST = 400;
  status_u16_NOT_FOUND : status_u16 status_NOT_FOUND = 404;
  status_u16_INTERNAL_SERVER_ERROR : status_u16 status_INTERNAL_SERVER_ERROR = 500
}.

(** ** Arithmetic of [usize] *)

Definition wrapping_add (a b : Z) : Z := wrap_u64 (a + b).
Definition wrapping_sub (a b : Z) : Z := wrap_u64 (a - b).

(** A sum or product that panics when it does not fit. *)
Definition checked (z : Z) : outcome Z :=
  let! _ := assert ((0 <=? z) && (z <=? usize_max)) in Done z.

(** [usize::next_power_of_two] *)
Definition next_power_of_two (n : Z) : Z := if n <=? 1 then 1 else 2 ^ Z.log2_up n.

(** The macro [probe_loop!]: from [probe] to the end, then again from 0; [body]
    answers [inl] to go on, [inr] to leave.  Two rounds are enough for all its uses. *)
Fixpoint probe_loop {S R} (fuel : nat) (len : Z) (body : Z -> S -> outcome (S + R))
    (probe : Z) (s : S) : outcome R :=
  match fuel with
  | O => Panic
  | Datatypes.S fuel =>
      if probe <? len then
        let! r := body probe s in
        match r with
        | inl s => probe_loop fuel len body (probe + 1) s
        | inr r => Done r
        end
      else probe_loop fuel len body 0 s
  end.

Definition probing {S R} (len : Z) (body : Z -> S -> outcome (S + R)) (probe : Z) (s : S) :
    outcome R :=
  let! _ := assert (len >? 0) in
  probe_loop (Z.to_nat (2 * len + 2)) len body probe s.

(** [v[i]] and [v[i] = x] *)
Definition get_at {A} (l : list A) (i : Z) : outcome A := unwrap (l !! Z.to_nat i).
Definition put_at {A} (l : list A) (i : Z) (x : A) : outcome (list A) :=
  let! _ := assert (i <? len l) in Done (<[Z.to_nat i := x]> l).

Record Pos : Type := mkPos { pindex : Z; phash : Z }.

Section slot.
Context `{HeaderPlz}.

Record Slot : Type := mkSlot { shash : Z; sheader : Header.hd; snext : option Z }.

(** [enum Index] *)
Inductive Index : Type :=
| Indexed (i : Z) (h : Header.hd)
| IName (i : Z) (h : Header.hd)
| Inserted (i : Z)
| InsertedValue (i slot : Z)
| NotIndexed (h : Header.hd).

(** [Index::new] *)
Definition new_index (v : option (Z * bool)) (e : Header.hd) : Index :=
  match v with
  | None => NotIndexed e
  | Some (n, true) => Indexed n e
  | Some (n, false) => IName n e
  end.

#[global] Instance name_eq_dec : EqDecision Header.Name.
Proof. solve_decision. Defined.

End slot.

Definition MAX_SIZE : Z := Z.shiftl 1 16.
Definition DYN_OFFSET : Z := 62.

Definition usable_capacity (cap : Z) : Z := cap - cap / 4.
Definition to_raw_capacity (n : Z) : Z := n + n / 3.
Definition desired_pos (mask hash : Z) : Z := Z.land hash mask.
Definition probe_distance (mask hash current : Z) : Z :=
  Z.land (wrapping_sub current (desired_pos mask hash)) mask.

Section static.
Context `{HeaderPlz} `{!NameHash}.

Definition hash_header (h : Header.hd) : Z := Z.land (fnv_hash (Header.name h)) (MAX_SIZE - 1).

(** The [match] on a field name of [index_static]; the patterns are constants. *)
Definition static_names : list (ConstHeader * Z) :=
  [(ACCEPT_CHARSET, 15); (ACCEPT_ENCODING, 16); (ACCEPT_LANGUAGE, 17); (ACCEPT_RANGES, 18);
   (ACCEPT, 19); (ACCESS_CONTROL_ALLOW_ORIGIN, 20); (AGE, 21); (ALLOW, 22);
   (AUTHORIZATION, 23); (CACHE_CONTROL, 24); (CONTENT_DISPOSITION, 25);
   (CONTENT_ENCODING, 26); (CONTENT_LANGUAGE, 27); (CONTENT_LENGTH, 28);
   (CONTENT_LOCATION, 29); (CONTENT_RANGE, 30); (CONTENT_TYPE, 31); (COOKIE, 32);
   (DATE, 33); (ETAG, 34); (EXPECT, 35); (EXPIRES, 36); (FROM, 37); (HOST, 38);
   (IF_MATCH, 39); (IF_MODIFIED_SINCE, 40); (IF_NONE_MATCH, 41); (IF_RANGE, 42);
   (IF_UNMODIFIED_SINCE, 43); (LAST_MODIFIED, 44); (LINK, 45); (LOCATION, 46);
   (MAX_FORWARDS, 47); (PROXY_AUTHENTICATE, 48); (PROXY_AUTHORIZATION, 49); (RANGE, 50);
   (REFERER, 51); (REFRESH, 52); (RETRY_AFTER, 53); (SERVER, 54); (SET_COOKIE, 55);
   (STRICT_TRANSPORT_SECURITY, 56); (TRANSFER_ENCODING, 57); (USER_AGENT, 58);
   (VARY, 59); (VIA, 60); (WWW_AUTHENTICATE, 61)].

Definition static_field (name : bytes) : option Z :=
  option_map snd (find (fun '(c, _) => bool_decide (name = const_header c)) static_names).

Definition index_static (h : Header.hd) : option (Z * bool) :=
  match h with
  | Header.Field name value =>
      match static_field name with
      | Some 16 => Some (16, BytesStr.eq_str value (str "gzip, deflate"))
      | Some n => Some (n, false)
      | None => None
      end
  | Header.Authority _ => Some (1, false)
  | Header.Method v =>
      if bool_decide (v = method_GET) then Some (2, true)
      else if bool_decide (v = method_POST) then Some (3, true)
      else Some (2, false)
  | Header.Scheme v =>
      if bool_decide (v = str "http") then Some (6, true)
      else if bool_decide (v = str "https") then Some (7, true)
      else Some (6, false)
  | Header.Path v =>
      if bool_decide (v = str "/") then Some (4, true)
      else if bool_decide (v = str "/index.html") then Some (5, true)
      else Some (4, false)
  | Header.Protocol _ => None
  | Header.Status v =>
      match status_u16 v with
      | 200 => Some (8, true)
      | 204 => Some (9, true)
      | 206 => Some (10, true)
      | 304 => Some (11, true)
      | 400 => Some (12, true)
      | 404 => Some (13, true)
      | 500 => Some (14, true)
      | _ => Some (8, false)
      end
  end.

End static.

Module EncTable.

Section table.
Context `{HeaderPlz} `{!NameHash}.

Record t : Type := mk {
  mask : Z;
  indices : list (option Pos);
  slots : list Slot;
  inserted : Z;
  size : Z;
  max_size : Z
}.

#[local] Abbreviation Table := t.

#[global] Instance eta_t : Eta t := fun t =>
  mk (mask t) (indices t) (slots t) (inserted t) (size t) (max_size t).

Definition new (max_size capacity : Z) : Table :=
  if capacity =? 0 then mk 0 [] [] 0 0 max_size
  else
    let capacity := Z.max (next_power_of_two (to_raw_capacity capacity)) 8 in
    mk (wrapping_sub capacity 1) (repeat None (Z.to_nat capacity)) [] 0 0 max_size.

Definition capacity (t : Table) : Z := usable_capacity (len (indices t)).

Definition resolve (t : Table) (index : Index) : outcome Header.hd :=
  match index with
  | Indexed _ h => Done h
  | IName _ h => Done h
  | Inserted idx => let! s := get_at (slots t) idx in Done (sheader s)
  | InsertedValue _ idx => let! s := get_at (slots t) idx in Done (sheader s)
  | NotIndexed h => Done h
  end.

Definition resolve_idx (index : Index) : outcome Z :=
  match index with
  | Indexed idx _ => Done idx
  | IName idx _ => Done idx
  | Inserted idx => Done (idx + DYN_OFFSET)
  | InsertedValue _ slot_idx => Done (slot_idx + DYN_OFFSET)
  | NotIndexed _ => Panic
  end.

(** ** Eviction *)

(** [remove_phase_two]: from the vacated [probe], shift the displaced entries back. *)
Definition remove_phase_two (t : Table) (probe : Z) : outcome Table :=
  probing (len (indices t)) (fun probe '(t, last_probe) =>
    let! cell := get_at (indices t) probe in
    match cell with
    | Some pos =>
        if probe_distance (mask t) (phash pos) probe >? 0 then
          let! l := put_at (indices t) probe None in
          let! l := put_at l last_probe (Some pos) in
          Done (inl (t <| indices := l |>, probe))
        else Done (inr t)
    | None => Done (inr t)
    end) (probe + 1) (t, probe).

(** The part of [evict] that finds the position of the slot that was popped. *)
Definition unindex (t : Table) (slot : Slot) (pos_idx : Z) (prev_idx : option Z) : outcome Table :=
  probing (len (indices t)) (fun probe _ =>
    let! cell := get_at (indices t) probe in
    let! pos := unwrap cell in
    if pindex pos =? pos_idx then
      match snext slot with
      | Some idx =>
          let! l := put_at (indices t) probe (Some (mkPos idx (phash pos))) in
          Done (inr (t <| indices := l |>))
      | None =>
          if bool_decide (Some (pindex pos) = prev_idx) then
            let! next := checked (inserted t + 1) in
            let! l := put_at (indices t) probe (Some (mkPos (wrapping_sub 0 next) (phash pos))) in
            Done (inr (t <| indices := l |>))
          else
            let! l := put_at (indices t) probe None in
            let! t := remove_phase_two (t <| indices := l |>) probe in
            Done (inr t)
      end
    else Done (inl tt)) (desired_pos (mask t) (shash slot)) tt.

Definition points_to (i : Z) (cell : option Pos) : bool :=
  match cell with Some pos => pindex pos =? i | None => false end.

Definition evict (t : Table) (prev_idx : option Z) : outcome Table :=
  let! last := checked (len (slots t) - 1) in
  let pos_idx := wrapping_sub last (inserted t) in
  let! (slot, rest) := unwrap (pop_back (slots t)) in
  let! sz := checked (size t - Header.len (sheader slot)) in
  let t := t <| slots := rest |> <| size := sz |> in
  let! _ := assert (length (filter (points_to pos_idx) (indices t)) =? 1)%nat in
  unindex t slot pos_idx prev_idx.

(** [converge]; every round pops a slot. *)
Fixpoint converge_loop (fuel : nat) (t : Table) (prev_idx : option Z) (ret : bool) : outcome (Table * bool) :=
  match fuel with
  | O => Panic
  | S fuel =>
      if size t >? max_size t then
        let! t := evict t prev_idx in
        converge_loop fuel t prev_idx true
      else Done (t, ret)
  end.

Definition converge (t : Table) (prev_idx : option Z) : outcome (Table * bool) :=
  converge_loop (S (length (slots t))) t prev_idx false.

Definition update_size (t : Table) (len : Z) (prev_idx : option Z) : outcome (Table * bool) :=
  let! sz := checked (size t + len) in
  converge (t <| size := sz |>) prev_idx.

Definition resize (t : Table) (sz : Z) : outcome Table :=
  let t := t <| max_size := sz |> in
  if sz =? 0 then
    Done (t <| size := 0 |> <| indices ::= map (fun _ => None) |> <| slots := [] |>
            <| inserted := 0 |>)
  else
    let! (t, _) := converge t None in
    Done t.

(** ** Growth *)

(** A round over the entries of the old table; [None] entries are skipped. *)
Definition reinsert_entry_in_order (t : Table) (pos : option Pos) : outcome Table :=
  match pos with
  | None => Done t
  | Some pos =>
      probing (len (indices t)) (fun probe _ =>
        let! cell := get_at (indices t) probe in
        match cell with
        | None =>
            let! l := put_at (indices t) probe (Some pos) in
            Done (inr (t <| indices := l |>))
        | Some them =>
            let their_distance := probe_distance (mask t) (phash them) probe in
            let our_distance := probe_distance (mask t) (phash pos) probe in
            let! _ := assert (their_distance >=? our_distance) in
            Done (inl tt)
        end) (desired_pos (mask t) (phash pos)) tt
  end.

Fixpoint reinsert_all (t : Table) (l : list (option Pos)) : outcome Table :=
  match l with
  | [] => Done t
  | pos :: l =>
      let! t := reinsert_entry_in_order t pos in
      reinsert_all t l
  end.

(** The first entry at its desired position, 0 when there is none. *)
Fixpoint find_ideal (mask i : Z) (l : list (option Pos)) : Z :=
  match l with
  | [] => 0
  | Some pos :: l =>
      if probe_distance mask (phash pos) i =? 0 then i else find_ideal mask (i + 1) l
  | None :: l => find_ideal mask (i + 1) l
  end.

Definition grow (t : Table) (new_raw_cap : Z) : outcome Table :=
  let first_ideal := find_ideal (mask t) 0 (indices t) in
  let old_indices := indices t in
  let t := t <| indices := repeat None (Z.to_nat new_raw_cap) |>
             <| mask := wrapping_sub new_raw_cap 1 |> in
  let! t := reinsert_all t (drop (Z.to_nat first_ideal) old_indices) in
  reinsert_all t (take (Z.to_nat first_ideal) old_indices).

Definition reserve_one (t : Table) : outcome Table :=
  if len (slots t) =? capacity t then
    if len (slots t) =? 0 then Done (t <| mask := 8 - 1 |> <| indices := repeat None 8 |>)
    else grow t (Z.shiftl (len (indices t)) 1)
  else Done t.

(** ** Indexing *)

Definition insert (t : Table) (header : Header.hd) (hash : Z) : Table :=
  t <| inserted ::= (fun n => wrapping_add n 1) |>
    <| slots ::= cons (mkSlot hash header None) |>.

(** [index_occupied] from the slot [index]: the chain is walked to its end. *)
Fixpoint occupied_loop (fuel : nat) (t : Table) (header : Header.hd) (hash index : Z)
    (statik : option Z) : outcome (Index * Table) :=
  match fuel with
  | O => Panic
  | S fuel =>
      let real_idx := wrapping_add index (inserted t) in
      let! s := get_at (slots t) real_idx in
      if Header.value_eq (sheader s) header then Done (Indexed (real_idx + DYN_OFFSET) header, t)
      else
        match snext s with
        | Some next => occupied_loop fuel t header hash next statik
        | None =>
            if Header.is_sensitive header then Done (IName (real_idx + DYN_OFFSET) header, t)
            else
              let! (t, _) := update_size t (Header.len header) (Some index) in
              let t := insert t header hash in
              let new_real_idx := wrapping_add index (inserted t) in
              let! l :=
                if new_real_idx <? len (slots t) then
                  let! s := get_at (slots t) new_real_idx in
                  put_at (slots t) new_real_idx
                    (mkSlot (shash s) (sheader s) (Some (wrapping_sub 0 (inserted t))))
                else Done (slots t) in
              let t := t <| slots := l |> in
              Done (match statik with
                    | Some n => InsertedValue n 0
                    | None => InsertedValue (real_idx + DYN_OFFSET) 0
                    end, t)
        end
  end.

Definition index_occupied (t : Table) (header : Header.hd) (hash index : Z) (statik : option Z) :
    outcome (Index * Table) :=
  occupied_loop (length (slots t)) t header hash index statik.

(** The [while dist != 0] of [index_vacant]: eviction may have freed a better position. *)
Fixpoint back_up (fuel : nat) (t : Table) (dist probe : Z) : outcome (Z * Z) :=
  match fuel with
  | O => Panic
  | S fuel =>
      if dist =? 0 then Done (dist, probe)
      else
        let back := Z.land (wrapping_sub probe 1) (mask t) in
        let! cell := get_at (indices t) back in
        match cell with
        | Some pos =>
            let their_dist := probe_distance (mask t) (phash pos) back in
            if their_dist <? dist - 1 then back_up fuel t (dist - 1) back
            else Done (dist, probe)
        | None => back_up fuel t (dist - 1) back
        end
  end.

(** Shift forward until a vacant position takes the last entry. *)
Definition shift_forward (t : Table) (probe : Z) (prev : Pos) : outcome Table :=
  probing (len (indices t)) (fun probe '(t, prev) =>
    let! cell := get_at (indices t) probe in
    let! l := put_at (indices t) probe (Some prev) in
    let t := t <| indices := l |> in
    match cell with
    | Some p => Done (inl (t, p))
    | None => Done (inr t)
    end) probe (t, prev).

Definition index_vacant (t : Table) (header : Header.hd) (hash dist probe : Z)
    (statik : option (Z * bool)) : outcome (Index * Table) :=
  if Header.is_sensitive header then Done (new_index statik header, t)
  else
    let! _ :=
      if dist =? 0 then Done tt
      else
        let! cell := get_at (indices t) (Z.land (wrapping_sub probe 1) (mask t)) in
        assert (match cell with Some _ => true | None => false end) in
    let! (t, evicted) := update_size t (Header.len header) None in
    let! (dist, probe) :=
      if evicted : bool then back_up (S (Z.to_nat dist)) t dist probe else Done (dist, probe) in
    let t := insert t header hash in
    let pos_idx := wrapping_sub 0 (inserted t) in
    let! prev := get_at (indices t) probe in
    let! l := put_at (indices t) probe (Some (mkPos pos_idx hash)) in
    let t := t <| indices := l |> in
    let! t :=
      match prev with
      | Some prev => shift_forward t (probe + 1) prev
      | None => Done t
      end in
    Done (match statik with
          | Some (n, _) => InsertedValue n 0
          | None => Inserted 0
          end, t).

(** The probe of [index_dynamic] through a table that is not empty. *)
Definition probe_index (t : Table) (header : Header.hd) (hash : Z) (statik : option (Z * bool)) :
    outcome (Index * Table) :=
  probing (len (indices t)) (fun probe dist =>
    let! cell := get_at (indices t) probe in
    match cell with
    | Some pos =>
        let their_dist := probe_distance (mask t) (phash pos) probe in
        let slot_idx := wrapping_add (pindex pos) (inserted t) in
        if their_dist <? dist then
          let! r := index_vacant t header hash dist probe statik in Done (inr r)
        else
          let! same :=
            if phash pos =? hash then
              let! s := get_at (slots t) slot_idx in
              Done (bool_decide (Header.name (sheader s) = Header.name header))
            else Done false in
          if same : bool then
            let! r := index_occupied t header hash (pindex pos) (option_map fst statik) in
            Done (inr r)
          else Done (inl (dist + 1))
    | None =>
        let! r := index_vacant t header hash dist probe statik in Done (inr r)
    end) (desired_pos (mask t) hash) 0.

Definition index_dynamic (t : Table) (header : Header.hd) (statik : option (Z * bool)) :
    outcome (Index * Table) :=
  let! total := checked (Header.len header + size t) in
  let! t := if (total <? max_size t) || negb (Header.is_sensitive header) then reserve_one t
            else Done t in
  match indices t with
  | [] => Done (new_index statik header, t)
  | _ => probe_index t header (hash_header header) statik
  end.

Definition index (t : Table) (header : Header.hd) : outcome (Index * Table) :=
  let statik := index_static header in
  if Header.skip_value_index header then
    let! _ := assert (match statik with Some _ => true | None => false end) in
    Done (new_index statik header, t)
  else
    match statik with
    | Some (n, true) => Done (Indexed n header, t)
    | _ =>
        let! a := checked (Header.len header * 4) in
        let! b := checked (max_size t * 3) in
        if a >? b then Done (new_index statik header, t)
        else index_dynamic t header statik
    end.

End table.

End EncTable.
