(* ===== verification/RobinHood.v ===== *)
(** * Robin Hood probing

    Positions of the index of [HpackTable] form a ring.  The depth of a position is the
    distance of its entry to the position its hash desires, -1 when it is vacant.  The
    invariant of the index is one inequality: the depth never grows by more than one
    from a position to the next ([robin_hood]).  Lookup, insertion with a forward
    shift, and deletion with a backward shift rest on it. *)

From S2P Require Import Prelude Effects FrameBase HpackHeader HpackTable.

(** ** Arithmetic of the ring *)

Lemma pow2_divides_64 k : 0 <= k <= 64 -> (2 ^ k | 18446744073709551616).
Proof.
  intros Hk. exists (2 ^ (64 - k)). change 18446744073709551616 with (2 ^ 64).
  rewrite <-Z.pow_add_r by lia. f_equal. lia.
Qed.

Lemma land_mask x k : 0 <= k -> Z.land x (2 ^ k - 1) = x mod 2 ^ k.
Proof. intros Hk. rewrite <-Z.land_ones by done. by rewrite Z.ones_equiv, <-Z.sub_1_r. Qed.

Definition dist (c h p : Z) : Z := (p - h) mod c.

Lemma probe_distance_dist k h p : 0 <= k <= 64 -> probe_distance (2 ^ k - 1) h p = dist (2 ^ k) h p.
Proof.
  intros Hk. unfold probe_distance, desired_pos, dist, wrapping_sub, wrap_u64. rewrite !land_mask by lia.
  rewrite Z.mod_mod_divide by (by apply pow2_divides_64).
  by rewrite Zminus_mod_idemp_r.
Qed.

Lemma dist_bound c h p : 0 < c -> 0 <= dist c h p < c.
Proof. intros Hc. by apply Z.mod_pos_bound. Qed.

Lemma dist_mod c h p : dist c h (p mod c) = dist c h p.
Proof. unfold dist. by rewrite Zminus_mod_idemp_l. Qed.

(** One step further, short of a whole turn. *)
Lemma dist_succ c h p : 0 < c -> dist c h p < c - 1 -> dist c h (p + 1) = dist c h p + 1.
Proof.
  unfold dist. intros Hc Hd. pose proof (Z.mod_pos_bound (p - h) c Hc).
  replace (p + 1 - h) with (p - h + 1) by lia. rewrite <-Zplus_mod_idemp_l. by rewrite (Z.mod_small (_ + 1)) by lia.
Qed.

Lemma dist_pred c h p : 0 < c -> 0 < dist c h p -> dist c h (p - 1) = dist c h p - 1.
Proof.
  unfold dist. intros Hc Hd. pose proof (Z.mod_pos_bound (p - h) c Hc).
  replace (p - 1 - h) with (p - h - 1) by lia. rewrite <-Zminus_mod_idemp_l. by rewrite (Z.mod_small (_ - 1)) by lia.
Qed.

(** Two positions less than a turn apart are the same when they agree in the ring. *)
Lemma ring_inj c a b : 0 < c -> a mod c = b mod c -> -c < a - b < c -> a = b.
Proof.
  intros Hc He Hr. assert ((a - b) mod c = 0) as H by (by rewrite Zminus_mod, He, Z.sub_diag).
  apply Z.mod_divide in H as [z Hz]; [|lia].
  destruct (Z.lt_trichotomy z 0) as [|[->|]]; [nia|lia|nia].
Qed.

Lemma ring_succ c p q : 0 < c -> p mod c = q mod c -> (p + 1) mod c = (q + 1) mod c.
Proof. intros Hc He. by rewrite <-Zplus_mod_idemp_l, He, Zplus_mod_idemp_l. Qed.

Lemma ring_pred c p q : 0 < c -> p mod c = q mod c -> (p - 1) mod c = (q - 1) mod c.
Proof. intros Hc He. by rewrite <-Zminus_mod_idemp_l, He, Zminus_mod_idemp_l. Qed.

Lemma ring_succ_ne c p : 1 < c -> (p + 1) mod c <> p mod c.
Proof. intros Hc He. assert (p + 1 = p); [|lia]. apply (ring_inj c); [lia|done|lia]. Qed.

(** ** The probe loop

    [body] is run at the positions [p0], [p0 + 1], ... of the ring, at most [n] times. *)
Lemma probing_returns {S R} (c n : Z) (body : Z -> S -> outcome (S + R)) p0 probe s
    (I : Z -> S -> Prop) (Q : R -> Prop) :
  0 < c -> n <= c + 1 -> (probe = p0 mod c \/ probe = c /\ p0 mod c = 0) ->
  0 < n -> I 0 s ->
  (forall i s, 0 <= i < n -> I i s ->
     returns (body ((p0 + i) mod c) s) (fun r =>
       match r with inl s => i + 1 < n /\ I (i + 1) s | inr r => Q r end)) ->
  returns (probing c body probe s) Q.
Proof.
  intros Hc Hn Hp Hn0 Hs Hbody. unfold probing. rewrite (proj2 (Z.gtb_lt c 0)) by done. cbn [assert obind].
  assert (forall m fuel i probe s, 0 <= i -> (Z.to_nat (n - i) <= m)%nat -> (2 * m <= fuel)%nat -> i < n ->
    (probe = (p0 + i) mod c \/ probe = c /\ (p0 + i) mod c = 0) -> I i s ->
    returns (probe_loop fuel c body probe s) Q) as Hgen.
  { clear Hs Hp probe s. induction m as [|m IH]; intros fuel i probe s Hi Hm Hf Hin Hp Hs; [lia|].
    assert (forall fuel, (2 * m + 1 <= fuel)%nat ->
      returns (probe_loop fuel c body ((p0 + i) mod c) s) Q) as Hrun.
    { intros [|fuel'] Hf'; [lia|]. cbn [probe_loop].
      pose proof (Z.mod_pos_bound (p0 + i) c Hc) as Hb. rewrite (proj2 (Z.ltb_lt _ _)) by lia.
      eapply returns_bind; [by apply Hbody|]. intros [s'|r] Hr; [|by apply returns_Done].
      destruct Hr as [Hlt Hs']. apply (IH fuel' (i + 1)); [lia..| |done].
      assert ((p0 + (i + 1)) mod c = ((p0 + i) mod c + 1) mod c) as ->.
      { rewrite Zplus_mod_idemp_l. f_equal. lia. }
      destruct (decide ((p0 + i) mod c + 1 = c)) as [He|He].
      - right. split; [done|]. rewrite He. apply Z.mod_same. lia.
      - left. symmetry. apply Z.mod_small. lia. }
    destruct Hp as [->|[-> Hz]]; [apply Hrun; lia|].
    destruct fuel as [|fuel]; [lia|]. cbn [probe_loop]. rewrite Z.ltb_irrefl. rewrite <-Hz. apply Hrun. lia. }
  apply (Hgen (Z.to_nat n) _ 0); [lia..| |done]. by rewrite Z.add_0_r.
Qed.

(** ** Cells and depths *)

Implicit Types (l : list (option Pos)) (p q : Z) (x : option Pos).

Definition cell l p : option Pos := default None (l !! Z.to_nat (p mod len l)).

Definition depth_of (c : Z) x p : Z := match x with Some pos => dist c (phash pos) p | None => -1 end.

Definition depth l p : Z := depth_of (len l) (cell l p) p.

Definition robin_hood l : Prop := forall p, depth l (p + 1) <= depth l p + 1.

Definition set_cell l p x : list (option Pos) := <[Z.to_nat (p mod len l) := x]> l.

Lemma len_set_cell l p x : len (set_cell l p x) = len l.
Proof. unfold set_cell, len. by rewrite length_insert. Qed.

Lemma cell_ring l p q : p mod len l = q mod len l -> cell l p = cell l q.
Proof. unfold cell. by intros ->. Qed.

Lemma depth_of_ring c x p q : p mod c = q mod c -> depth_of c x p = depth_of c x q.
Proof. intros He. destruct x; [|done]. cbn. by rewrite <-dist_mod, He, dist_mod. Qed.

Lemma depth_ring l p q : p mod len l = q mod len l -> depth l p = depth l q.
Proof. intros He. unfold depth. by rewrite (cell_ring l p q), (depth_of_ring _ _ p q). Qed.

Lemma cell_lookup l p : 0 < len l -> l !! Z.to_nat (p mod len l) = Some (cell l p).
Proof.
  intros Hl. unfold cell. pose proof (Z.mod_pos_bound p (len l) Hl).
  destruct (lookup_lt_is_Some_2 l (Z.to_nat (p mod len l))) as [x ->]; [unfold len in *; lia|done].
Qed.

Lemma get_cell l p : 0 < len l -> get_at l (p mod len l) = Done (cell l p).
Proof. intros Hl. unfold get_at. by rewrite cell_lookup. Qed.

Lemma put_cell l p x : 0 < len l -> put_at l (p mod len l) x = Done (set_cell l p x).
Proof.
  intros Hl. unfold put_at, set_cell. pose proof (Z.mod_pos_bound p (len l) Hl).
  by rewrite (proj2 (Z.ltb_lt _ _)) by lia.
Qed.

Lemma get_ring l c p : len l = c -> 0 < c -> get_at l (p mod c) = Done (cell l p).
Proof. intros <-. apply get_cell. Qed.

Lemma put_ring l c p x : len l = c -> 0 < c -> put_at l (p mod c) x = Done (set_cell l p x).
Proof. intros <-. apply put_cell. Qed.

Lemma cell_set l p x q : 0 < len l ->
  cell (set_cell l p x) q = if decide (q mod len l = p mod len l) then x else cell l q.
Proof.
  intros Hl. unfold cell at 1. rewrite len_set_cell. unfold set_cell.
  pose proof (Z.mod_pos_bound p (len l) Hl). pose proof (Z.mod_pos_bound q (len l) Hl).
  destruct (decide _) as [->|Hne].
  - rewrite list_lookup_insert_eq by (unfold len in *; lia). done.
  - rewrite list_lookup_insert_ne by lia. done.
Qed.

Lemma depth_set l p x q : 0 < len l ->
  depth (set_cell l p x) q =
    if decide (q mod len l = p mod len l) then depth_of (len l) x p else depth l q.
Proof.
  intros Hl. unfold depth. rewrite len_set_cell, cell_set by done.
  destruct (decide _) as [He|]; [|done]. by apply depth_of_ring.
Qed.

(** What [depth] says of an occupied cell. *)
Lemma depth_some l p pos : cell l p = Some pos -> depth l p = dist (len l) (phash pos) p.
Proof. intros Hc. unfold depth. by rewrite Hc. Qed.

Lemma depth_none l p : cell l p = None -> depth l p = -1.
Proof. intros Hc. unfold depth. by rewrite Hc. Qed.

Lemma depth_of_bound c x p : 0 < c -> -1 <= depth_of c x p < c.
Proof. intros Hc. destruct x; cbn; [|lia]. pose proof (dist_bound c (phash p0) p Hc). lia. Qed.

Lemma depth_bound l p : 0 < len l -> -1 <= depth l p < len l.
Proof. intros Hl. by apply depth_of_bound. Qed.

Lemma depth_vacant l p : 0 < len l -> depth l p < 0 <-> cell l p = None.
Proof.
  intros Hl. unfold depth. destruct (cell l p) as [pos|]; cbn; [|done].
  pose proof (dist_bound (len l) (phash pos) p Hl). split; [lia|done].
Qed.

Lemma depth_occupied l p pos : 0 < len l -> cell l p = Some pos -> 0 <= depth l p.
Proof. intros Hl Hc. unfold depth. rewrite Hc. by apply dist_bound. Qed.

(** Before a deep entry the positions are occupied. *)
Lemma depth_run l p i : robin_hood l -> 0 <= i -> depth l p - i <= depth l (p - i).
Proof.
  intros Hr Hi. revert i Hi. apply (natlike_ind (fun i => depth l p - i <= depth l (p - i))).
  - by rewrite !Z.sub_0_r.
  - intros i Hi IH. specialize (Hr (p - Z.succ i)). replace (p - Z.succ i + 1) with (p - i) in Hr by lia. lia.
Qed.

(** An entry a whole turn away from its position needs every position occupied. *)
Lemma depth_not_full l p q :
  0 < len l -> robin_hood l -> cell l q = None -> depth l p < len l - 1.
Proof.
  intros Hl Hr Hq. pose proof (depth_bound l p Hl). destruct (decide (depth l p = len l - 1)) as [He|]; [|lia].
  set (i := (p - q) mod len l). pose proof (Z.mod_pos_bound (p - q) (len l) Hl) as Hi.
  pose proof (depth_run l p i Hr ltac:(lia)) as Hd.
  assert (depth l (p - i) = depth l q) as Heq.
  { apply depth_ring. unfold i. rewrite Zminus_mod_idemp_r. f_equal. lia. }
  apply depth_vacant in Hq; [|done]. rewrite Heq in Hd. unfold i in Hd. lia.
Qed.

Lemma robin_hood_set l p x :
  1 < len l -> robin_hood l ->
  depth_of (len l) x p <= depth l (p - 1) + 1 -> depth l (p + 1) <= depth_of (len l) x p + 1 ->
  robin_hood (set_cell l p x).
Proof.
  intros Hl Hr Hbelow Habove q. rewrite !depth_set by lia.
  destruct (decide ((q + 1) mod len l = p mod len l)) as [He1|], (decide (q mod len l = p mod len l)) as [He2|].
  - exfalso. assert (q + 1 = q) as Heq; [|lia]. apply (ring_inj (len l)); [lia|congruence|lia].
  - assert (depth l q = depth l (p - 1)) as ->; [|done]. apply depth_ring.
    replace q with (q + 1 - 1) by lia. apply ring_pred; [lia|done].
  - assert (depth l (q + 1) = depth l (p + 1)) as ->; [|done]. apply depth_ring. apply ring_succ; [lia|done].
  - apply Hr.
Qed.

(** ** Shifting forward

    An entry in hand that wants [p]: it displaces the entry there, which is no deeper. *)
Definition wants l p (pos : Pos) : Prop :=
  depth l p <= dist (len l) (phash pos) p <= depth l (p - 1) + 1.

Lemma place_wanted l p pos :
  1 < len l -> robin_hood l -> wants l p pos -> robin_hood (set_cell l p (Some pos)).
Proof. intros Hl Hr [H1 H2]. apply robin_hood_set; [done|done|exact H2|]. cbn. pose proof (Hr p). lia. Qed.

Lemma wants_next l p pos old q :
  1 < len l -> robin_hood l -> wants l p pos -> cell l p = Some old -> cell l q = None ->
  wants (set_cell l p (Some pos)) (p + 1) old.
Proof.
  intros Hl Hr [H1 H2] Hold Hq. pose proof (depth_not_full l p q ltac:(lia) Hr Hq) as Hfull.
  assert (depth l p = dist (len l) (phash old) p) as Hd by (unfold depth; by rewrite Hold).
  rewrite Hd in *. unfold wants. rewrite len_set_cell, !depth_set by lia.
  rewrite dist_succ by lia. replace (p + 1 - 1) with p by lia.
  rewrite (decide_True (P := p mod len l = p mod len l)) by done. cbn. split; [|lia].
  destruct (decide _) as [He|].
  - exfalso. assert (p + 1 = p); [|lia]. apply (ring_inj (len l)); [lia|done|lia].
  - pose proof (Hr p). lia.
Qed.

(** ** Shifting back

    A vacated position [p]: the inequality fails there only, by one more. *)
Record holed l p : Prop := {
  holed_vacant : cell l p = None;
  holed_rest q : q mod len l <> p mod len l -> depth l (q + 1) <= depth l q + 1;
  holed_next : depth l (p + 1) <= depth l (p - 1) + 2
}.

Lemma vacate_holed l p :
  1 < len l -> robin_hood l -> holed (set_cell l p None) p.
Proof.
  intros Hl Hr. split.
  - rewrite cell_set by lia. by rewrite decide_True.
  - intros q. rewrite len_set_cell. intros Hq. rewrite !depth_set by lia. rewrite (decide_False (P := q mod _ = _)) by done.
    destruct (decide _); [|apply Hr]. cbn. pose proof (depth_bound l q ltac:(lia)). lia.
  - rewrite !depth_set by lia. rewrite decide_False, decide_False.
    + pose proof (Hr p). pose proof (Hr (p - 1)) as Hr1. replace (p - 1 + 1) with p in Hr1 by lia. lia.
    + intros He. assert (p - 1 = p); [|lia]. apply (ring_inj (len l)); [lia|done|lia].
    + intros He. assert (p + 1 = p); [|lia]. apply (ring_inj (len l)); [lia|done|lia].
Qed.

(** Nothing is displaced after the hole: it is an ordinary vacancy. *)
Lemma holed_done l p : holed l p -> depth l (p + 1) <= 0 -> robin_hood l.
Proof.
  intros [Hv Hr Hn] Hd q. destruct (decide (q mod len l = p mod len l)) as [He|]; [|by apply Hr].
  destruct (decide (len l = 0)) as [H0|].
  { unfold depth, cell. apply nil_length_inv in H0 || (unfold len in H0; destruct l; [|done]). done. }
  assert (0 < len l) by (unfold len in *; lia).
  rewrite (depth_ring l q p), (depth_ring l (q + 1) (p + 1)) by (done || by apply ring_succ).
  assert (depth l p = -1) as -> by (unfold depth; by rewrite Hv). lia.
Qed.

(** The entry after the hole moves into it and leaves a hole behind. *)
Lemma holed_step l p pos :
  2 < len l -> holed l p -> cell l (p + 1) = Some pos -> 0 < depth l (p + 1) ->
  holed (set_cell (set_cell l (p + 1) None) p (Some pos)) (p + 1).
Proof.
  intros Hl [Hv Hr Hn] Hc Hd.
  assert (dist (len l) (phash pos) p = depth l (p + 1) - 1) as Hp.
  { unfold depth in *. rewrite Hc in *. cbn in *. replace p with (p + 1 - 1) at 1 by lia. apply dist_pred; lia. }
  assert (forall i j, -3 < i - j < 3 -> i <> j -> (p + i) mod len l <> (p + j) mod len l) as Hne.
  { intros i j Hij Hx He. assert (p + i = p + j); [|lia]. apply (ring_inj (len l)); [lia|done|lia]. }
  pose proof (Hne 0 1 ltac:(lia) ltac:(lia)) as H01. pose proof (Hne 1 2 ltac:(lia) ltac:(lia)) as H12.
  pose proof (Hne 2 0 ltac:(lia) ltac:(lia)) as H20. rewrite Z.add_0_r in *. clear Hne.
  assert (forall q, depth (set_cell (set_cell l (p + 1) None) p (Some pos)) q =
    if decide (q mod len l = p mod len l) then depth l (p + 1) - 1 else
    if decide (q mod len l = (p + 1) mod len l) then -1 else depth l q) as Hall.
  { intros q. rewrite depth_set by (rewrite len_set_cell; lia). rewrite len_set_cell, depth_set by lia.
    cbn [depth_of]. by rewrite Hp. }
  split.
  - rewrite cell_set by (rewrite len_set_cell; lia). rewrite len_set_cell, cell_set by lia.
    rewrite decide_False by done. by rewrite decide_True.
  - rewrite !len_set_cell. intros q Hq. rewrite !Hall. rewrite (decide_False (P := q mod _ = (p + 1) mod _)) by done.
    destruct (decide (q mod len l = p mod len l)) as [He|He].
    + assert ((q + 1) mod len l = (p + 1) mod len l) as He1 by (apply ring_succ; [lia|done]).
      rewrite He1, decide_False, decide_True by done. lia.
    + destruct (decide ((q + 1) mod len l = p mod len l)) as [He1|].
      * assert (depth l q = depth l (p - 1)) as ->; [|lia]. apply depth_ring.
        replace q with (q + 1 - 1) by lia. apply ring_pred; [lia|done].
      * destruct (decide _) as [He2|]; [|by apply Hr]. exfalso. apply He.
        replace q with (q + 1 - 1) by lia. replace p with (p + 1 - 1) by lia. apply ring_pred; [lia|done].
  - rewrite !Hall. replace (p + 1 - 1) with p by lia. replace (p + 1 + 1) with (p + 2) by lia.
    rewrite (decide_False (P := (p + 2) mod _ = p mod _)), (decide_False (P := (p + 2) mod _ = (p + 1) mod _)),
      decide_True by done.
    pose proof (Hr (p + 1) (not_eq_sym H01)) as Hs. replace (p + 1 + 1) with (p + 2) in Hs by lia. lia.
Qed.

(** ** The entries of a table, and its vacancies *)

Definition entries l : list Pos := omap id l.

(** One element of a list against the rest, for what [f] takes from each. *)
Lemma omap_split {A B} (f : A -> option B) (xs : list A) i c :
  xs !! i = Some c ->
  exists R, omap f xs ≡ₚ option_list (f c) ++ R /\
    forall y, omap f (<[i := y]> xs) ≡ₚ option_list (f y) ++ R.
Proof.
  intros Hi. pose proof (lookup_lt_Some _ _ _ Hi) as Hlt.
  assert (forall y, omap f (take i xs ++ y :: drop (S i) xs) ≡ₚ
    option_list (f y) ++ omap f (take i xs) ++ omap f (drop (S i) xs)) as Hy.
  { intros y. rewrite omap_app. cbn. destruct (f y); cbn; [|done]. by rewrite Permutation_middle. }
  exists (omap f (take i xs) ++ omap f (drop (S i) xs)). split; [|intros y].
  - rewrite <-(take_drop_middle xs i c) at 1 by done. apply Hy.
  - rewrite insert_take_drop by done. apply Hy.
Qed.

Lemma entries_set l p : 0 < len l ->
  exists R, entries l ≡ₚ option_list (cell l p) ++ R /\
    forall x, entries (set_cell l p x) ≡ₚ option_list x ++ R.
Proof. intros Hl. by apply (omap_split id), cell_lookup. Qed.

(** Moving an entry into a vacant cell. *)
Lemma entries_move l p q pos :
  0 < len l -> p mod len l <> q mod len l -> cell l p = Some pos -> cell l q = None ->
  entries (set_cell (set_cell l p None) q (Some pos)) ≡ₚ entries l.
Proof.
  intros Hl Hne Hp Hq. destruct (entries_set l p) as (R & HR & HR'); [done|]. rewrite Hp in HR.
  destruct (entries_set (set_cell l p None) q) as (R2 & HR2 & HR2'); [by rewrite len_set_cell|].
  rewrite cell_set, decide_False, Hq in HR2 by done.
  by rewrite HR2', HR, <-HR2, HR'.
Qed.

Lemma entries_length l : (length (entries l) <= length l)%nat.
Proof. unfold entries. induction l as [|[x|] l IH]; cbn; lia. Qed.

Lemma exists_vacant l : len (entries l) < len l -> exists q, 0 <= q < len l /\ cell l q = None.
Proof.
  intros Hlt. assert (exists i, l !! i = Some None) as [i Hi].
  { revert Hlt. unfold entries, len. induction l as [|[x|] l IH]; cbn; [lia| |by exists 0%nat].
    intros Hlt. destruct IH as [i Hi]; [lia|]. by exists (S i). }
  pose proof (lookup_lt_Some _ _ _ Hi). exists (Z.of_nat i). split; [unfold len; lia|].
  unfold cell. rewrite Z.mod_small by (unfold len; lia). by rewrite Nat2Z.id, Hi.
Qed.

Lemma cell_entry l p pos : cell l p = Some pos -> pos ∈ entries l.
Proof.
  unfold cell. destruct (l !! _) as [c|] eqn:Hc; [|done]. cbn. intros ->.
  apply list_elem_of_omap. exists (Some pos). split; [|done]. by apply list_elem_of_lookup_2 in Hc.
Qed.

Lemma entry_cell l pos : pos ∈ entries l -> exists p, 0 <= p < len l /\ cell l p = Some pos.
Proof.
  intros (c & Hc & He)%list_elem_of_omap. cbn in He. subst c. apply list_elem_of_lookup_1 in Hc as [i Hi].
  pose proof (lookup_lt_Some _ _ _ Hi). exists (Z.of_nat i). split; [unfold len; lia|].
  unfold cell. rewrite Z.mod_small by (unfold len; lia). by rewrite Nat2Z.id, Hi.
Qed.
