(* ===== verification/HpackTableFacts.v ===== *)
(** * The index of the encoder's table

    The loops of [HpackTable] over the index, proved against the Robin Hood invariant:
    the backward shift of a deletion, the forward shift of an insertion, the search for
    an entry that is there, and the growth of the index. *)

From S2P Require Import Prelude Effects FrameBase HpackHeader HpackDecoder HpackDecoderFacts HpackTable RobinHood.
Import EncTable.

Lemma checked_ok z : 0 <= z <= usize_max -> checked z = Done z.
Proof. intros [H1 H2]. unfold checked. by rewrite (proj2 (Z.leb_le _ _) H1), (proj2 (Z.leb_le _ _) H2). Qed.

Section facts.
Context `{HeaderPlz} `{!NameHash}.

Implicit Types (pos : Pos).

(** The index is a ring of [2 ^ k] positions. *)
Definition ring (t : EncTable.t) : Prop :=
  exists k, 3 <= k <= 62 /\ len (indices t) = 2 ^ k /\ mask t = 2 ^ k - 1.

Lemma ring_len t : ring t -> 8 <= len (indices t) <= 2 ^ 62.
Proof.
  intros (k & Hk & -> & _). split; [|by apply Z.pow_le_mono_r; lia].
  change 8 with (2 ^ 3). apply Z.pow_le_mono_r; lia.
Qed.

Lemma ring_distance t h p : ring t -> probe_distance (mask t) h p = dist (len (indices t)) h p.
Proof. intros (k & Hk & -> & ->). apply probe_distance_dist. lia. Qed.

Lemma ring_desired t h : ring t -> desired_pos (mask t) h = h mod len (indices t).
Proof. intros (k & Hk & -> & ->). apply land_mask. lia. Qed.

Lemma ring_set t l : ring t -> len l = len (indices t) -> ring (t <| indices := l |>).
Proof. intros (k & Hk & Hl & Hm) He. exists k. record. by rewrite He. Qed.

Lemma dist_desired c h p : 0 < c -> (h mod c + dist c h p) mod c = p mod c.
Proof. intros Hc. unfold dist. rewrite <-Zplus_mod. f_equal. lia. Qed.

(** The position after [p mod c], where a loop that goes on from there begins. *)
Lemma next_probe c p : 0 < c -> p mod c + 1 = (p + 1) mod c \/ p mod c + 1 = c /\ (p + 1) mod c = 0.
Proof.
  intros Hc. rewrite <-Zplus_mod_idemp_l. pose proof (Z.mod_pos_bound p c Hc).
  destruct (decide (p mod c + 1 = c)) as [->|]; [right; by rewrite Z.mod_same by lia|].
  left. symmetry. apply Z.mod_small. lia.
Qed.

(** The cell [v] is met after [(v - p) mod c] steps from [p]. *)
Lemma steps_to c p v : 0 < c -> (p + (v - p) mod c) mod c = v mod c.
Proof. intros Hc. rewrite Zplus_mod_idemp_r. f_equal. lia. Qed.

(** ** Deletion *)

Lemma remove_phase_two_spec t p v l0 :
  ring t -> holed (indices t) p -> cell (indices t) v = None ->
  v mod len (indices t) <> p mod len (indices t) ->
  len l0 = len (indices t) -> robin_hood l0 -> (forall q, depth (indices t) q <= depth l0 q) ->
  returns (remove_phase_two t (p mod len (indices t))) (fun t' => exists l,
    t' = t <| indices := l |> /\ len l = len (indices t) /\ robin_hood l /\
    entries l ≡ₚ entries (indices t) /\ forall q, depth l q <= depth l0 q).
Proof.
  intros Hr Hh Hv Hne Hl0 Hrh HD. pose proof (ring_len t Hr) as Hlen. set (c := len (indices t)) in *.
  set (iv := (v - (p + 1)) mod c). pose proof (Z.mod_pos_bound (v - (p + 1)) c ltac:(lia)) as Hiv. fold iv in Hiv.
  assert ((p + 1 + iv) mod c = v mod c) as Hmeet by (apply steps_to; lia).
  unfold remove_phase_two. fold c.
  apply (probing_returns c (iv + 1) _ (p + 1) _ _ (fun i '(t', last) => exists l,
    t' = t <| indices := l |> /\ len l = c /\ holed l (p + i) /\ entries l ≡ₚ entries (indices t) /\
    cell l v = None /\ v mod c <> (p + i) mod c /\ last = (p + i) mod c /\
    forall q, depth l q <= depth l0 q)); [lia|lia|by apply next_probe; lia|lia| |].
  { exists (indices t). rewrite !Z.add_0_r. split_and!; [by destruct t|done..]. }
  intros i [t' last] Hi (l & -> & Hl & Hho & Hp & Hvl & Hvi & -> & HDl). record.
  replace (p + 1 + i) with (p + (i + 1)) in * by lia. rewrite (get_ring l c) by lia. cbn [obind].
  rewrite (Z.add_assoc p i 1) in *. set (p' := p + i) in *.
  assert (forall l', holed l' p' -> depth l' (p' + 1) <= 0 -> robin_hood l') as Hend by (intros l'; apply holed_done).
  destruct (cell l (p' + 1)) as [pos|] eqn:Hc; cycle 1.
  { apply returns_Done. exists l. split_and!; [done..| |done|done]. apply Hend; [done|]. by rewrite depth_none. }
  rewrite (ring_distance t _ _ Hr). fold c. rewrite dist_mod. rewrite <-Hl, <-(depth_some _ _ _ Hc), Hl.
  destruct (Z.gtb_spec (depth l (p' + 1)) 0) as [Hgt|Hle]; cycle 1.
  { apply returns_Done. exists l. split_and!; [done..| |done|done]. by apply Hend. }
  rewrite (put_ring l c) by lia. cbn [obind]. rewrite (put_ring _ c) by (by rewrite ?len_set_cell; lia).
  apply returns_Done.
  assert (v mod c <> (p' + 1) mod c) as Hv1.
  { intros He. rewrite (cell_ring l v (p' + 1)) in Hvl by (by rewrite Hl). congruence. }
  split.
  { destruct (decide (i = iv)) as [->|]; [|lia]. exfalso. apply Hv1. rewrite <-Hmeet. f_equal. unfold p'. lia. }
  eexists. split_and!.
  - done.
  - by rewrite !len_set_cell.
  - apply holed_step; [lia|done..].
  - rewrite <-Hp. apply entries_move; [lia|apply ring_succ_ne; lia|done|apply Hho].
  - rewrite cell_set by (rewrite len_set_cell; lia). rewrite len_set_cell, cell_set by lia.
    rewrite Hl. by rewrite !decide_False by done.
  - done.
  - done.
  - intros q. rewrite depth_set by (rewrite len_set_cell; lia). rewrite len_set_cell, depth_set by lia.
    destruct (decide _) as [He|]; [|destruct (decide _); [|apply HDl]].
    + rewrite (depth_ring l0 q p') by (by rewrite Hl0, <-Hl). cbn.
      assert (dist (len l) (phash pos) p' = depth l (p' + 1) - 1) as ->.
      { rewrite (depth_some _ _ _ Hc) in *. replace p' with (p' + 1 - 1) at 1 by lia. apply dist_pred; lia. }
      pose proof (HDl (p' + 1)). pose proof (Hrh p'). lia.
    + cbn. apply depth_bound. lia.
Qed.

(** ** Insertion *)

Lemma shift_forward_spec t p v probe prev :
  ring t -> robin_hood (indices t) -> wants (indices t) p prev -> cell (indices t) v = None ->
  (probe = p mod len (indices t) \/ probe = len (indices t) /\ p mod len (indices t) = 0) ->
  returns (shift_forward t probe prev) (fun t' => exists l,
    t' = t <| indices := l |> /\ len l = len (indices t) /\ robin_hood l /\
    entries l ≡ₚ prev :: entries (indices t)).
Proof.
  intros Hr Hrh Hw Hv Hp. pose proof (ring_len t Hr) as Hlen. set (c := len (indices t)) in *.
  set (iv := (v - p) mod c). pose proof (Z.mod_pos_bound (v - p) c ltac:(lia)) as Hiv. fold iv in Hiv.
  assert ((p + iv) mod c = v mod c) as Hmeet by (apply steps_to; lia).
  unfold shift_forward. fold c.
  apply (probing_returns c (iv + 1) _ p _ _ (fun i '(t', prev') => exists l,
    t' = t <| indices := l |> /\ len l = c /\ robin_hood l /\ wants l (p + i) prev' /\
    prev' :: entries l ≡ₚ prev :: entries (indices t) /\ cell l v = None)); [lia|lia|done|lia| |].
  { exists (indices t). rewrite !Z.add_0_r. split_and!; [by destruct t|done..]. }
  intros i [t' prev'] Hi (l & -> & Hl & Hrl & Hwl & Hpl & Hvl). record.
  rewrite (get_ring l c), (put_ring l c) by lia. cbn [obind].
  pose proof (place_wanted l (p + i) prev' ltac:(lia) Hrl Hwl) as Hrl'.
  destruct (entries_set l (p + i)) as (R & HR & HR'); [lia|].
  destruct (cell l (p + i)) as [old|] eqn:Hc; apply returns_Done.
  - assert (v mod c <> (p + i) mod c) as Hvi.
    { intros He. rewrite (cell_ring l v (p + i)) in Hvl by (by rewrite Hl). congruence. }
    split.
    { destruct (decide (i = iv)) as [->|]; [|lia]. by rewrite Hmeet in Hvi. }
    eexists. split_and!; [done|by rewrite len_set_cell|done| | |].
    + rewrite Z.add_assoc. by apply (wants_next _ _ _ _ v); [lia|..].
    + rewrite HR', <-Hpl, HR. cbn. apply Permutation_swap.
    + rewrite cell_set by lia. rewrite Hl. by rewrite decide_False.
  - eexists. split_and!; [done|by rewrite len_set_cell|done|]. by rewrite HR', <-Hpl, HR.
Qed.

(** Put [pos] where it wants to be, in a table with a vacancy. *)
Definition place (t : EncTable.t) (probe : Z) (pos : Pos) : outcome EncTable.t :=
  let! prev := get_at (indices t) probe in
  let! l := put_at (indices t) probe (Some pos) in
  match prev with
  | Some prev => shift_forward (t <| indices := l |>) (probe + 1) prev
  | None => Done (t <| indices := l |>)
  end.

Lemma place_spec t p v pos :
  ring t -> robin_hood (indices t) -> wants (indices t) p pos -> cell (indices t) v = None ->
  returns (place t (p mod len (indices t)) pos) (fun t' => exists l,
    t' = t <| indices := l |> /\ len l = len (indices t) /\ robin_hood l /\
    entries l ≡ₚ pos :: entries (indices t)).
Proof.
  intros Hr Hrh Hw Hv. pose proof (ring_len t Hr) as Hlen. set (l := indices t) in *.
  unfold place. fold l. rewrite get_cell, put_cell by lia. cbn [obind].
  pose proof (place_wanted l p pos ltac:(lia) Hrh Hw) as Hrh'.
  destruct (entries_set l p) as (R & HR & HR'); [lia|].
  destruct (cell l p) as [old|] eqn:Hc.
  - assert (v mod len l <> p mod len l) as Hvi.
    { intros He. rewrite (cell_ring l v p) in Hv by done. congruence. }
    eapply returns_mono.
    { apply (shift_forward_spec _ (p + 1) v); record; rewrite ?len_set_cell.
      - apply (ring_set t); [done|by rewrite len_set_cell].
      - done.
      - by apply (wants_next _ _ _ _ v); [lia|..].
      - rewrite cell_set by lia. by rewrite decide_False.
      - apply next_probe. lia. }
    record. intros t' (l' & -> & Hl' & Hrl' & Hp). exists l'. rewrite len_set_cell in Hl'.
    split_and!; [done..|]. rewrite Hp, HR', HR. cbn. apply Permutation_swap.
  - apply returns_Done. eexists. split_and!; [done|by rewrite len_set_cell|done|]. by rewrite HR', HR.
Qed.

(** ** Search

    From the desired position of an entry the loop meets it before a vacant cell. *)
Lemma before_entry t p pos i :
  ring t -> robin_hood (indices t) -> cell (indices t) p = Some pos ->
  0 <= i <= depth (indices t) p ->
  exists pos', cell (indices t) (phash pos mod len (indices t) + i) = Some pos' /\
    (i = depth (indices t) p -> pos' = pos).
Proof.
  intros Hr Hrh Hc Hi. pose proof (ring_len t Hr) as Hlen. set (l := indices t) in *.
  pose proof (depth_some _ _ _ Hc) as Hd.
  assert ((phash pos mod len l + i) mod len l = (p - (depth l p - i)) mod len l) as He.
  { rewrite Hd. unfold dist. rewrite Zplus_mod_idemp_l. 
    replace (p - ((p - phash pos) mod len l - i)) with (p + i - (p - phash pos) mod len l) by lia.
    rewrite Zminus_mod_idemp_r. f_equal. lia. }
  rewrite (cell_ring _ _ _ He).
  pose proof (depth_run l p (depth l p - i) Hrh ltac:(lia)) as Hrun.
  destruct (cell l (p - (depth l p - i))) as [pos'|] eqn:Hc'.
  - exists pos'. split; [done|]. intros ->. rewrite Z.sub_diag, Z.sub_0_r in Hc'. congruence.
  - rewrite (depth_none _ _ Hc') in Hrun. lia.
Qed.

(** ** Growth *)

Lemma find_ideal_spec m l i j pos :
  l !! j = Some (Some pos) -> probe_distance m (phash pos) (i + Z.of_nat j) = 0 ->
  exists j' pos', find_ideal m i l = i + Z.of_nat j' /\ l !! j' = Some (Some pos') /\
    probe_distance m (phash pos') (i + Z.of_nat j') = 0.
Proof.
  revert i j. induction l as [|x l IH]; intros i j Hj Hd; [done|].
  assert (forall j', i + Z.of_nat (S j') = i + 1 + Z.of_nat j') as Hs by lia.
  assert (forall j, l !! j = Some (Some pos) -> probe_distance m (phash pos) (i + Z.of_nat (S j)) = 0 ->
    exists j' pos', find_ideal m (i + 1) l = i + Z.of_nat j' /\ (x :: l) !! j' = Some (Some pos') /\
      probe_distance m (phash pos') (i + Z.of_nat j') = 0) as Hrest.
  { intros j' Hj' Hd'. rewrite Hs in Hd'. destruct (IH _ _ Hj' Hd') as (j'' & pos' & -> & Hl & Hd'').
    exists (S j''), pos'. by rewrite Hs. }
  cbn [find_ideal]. destruct x as [pos'|].
  - destruct (Z.eqb_spec (probe_distance m (phash pos') i) 0).
    + exists 0%nat, pos'. by rewrite Z.add_0_r.
    + destruct j as [|j]; [|by apply (Hrest j)]. exfalso. cbn in Hj. simplify_eq.
      by rewrite Z.add_0_r in Hd.
  - destruct j as [|j]; [done|]. by apply (Hrest j).
Qed.

(** The first entry after a vacancy is at its desired position. *)
Lemma exists_ideal l p q :
  0 < len l -> robin_hood l -> cell l q = None -> 0 <= depth l p ->
  exists f, 0 <= f < len l /\ depth l f = 0.
Proof.
  intros Hl Hr Hq Hp.
  assert (forall n : nat, (exists f, 0 <= f < len l /\ depth l f = 0) \/ depth l (q + Z.of_nat n) = -1) as Hn.
  { induction n as [|n [IH|IH]]; [|by left|].
    - right. rewrite Z.add_0_r. by apply depth_none.
    - pose proof (Hr (q + Z.of_nat n)) as Hs. pose proof (depth_bound l (q + Z.of_nat n + 1) Hl).
      replace (q + Z.of_nat (S n)) with (q + Z.of_nat n + 1) by lia.
      destruct (decide (depth l (q + Z.of_nat n + 1) = 0)) as [He|]; [left|right; lia].
      exists ((q + Z.of_nat n + 1) mod len l). split; [by apply Z.mod_pos_bound|].
      rewrite <-He. apply depth_ring. by apply Z.mod_mod; lia. }
  destruct (Hn (Z.to_nat ((p - q) mod len l))) as [|He]; [done|]. exfalso.
  rewrite Z2Nat.id in He by (by apply Z.mod_pos_bound).
  rewrite (depth_ring l _ p) in He by (by apply steps_to). lia.
Qed.

Section growing.
Variables (l : list (option Pos)) (f : Z).
Hypotheses (Hl : 0 < len l) (Hrh : robin_hood l) (Hf : depth l f = 0).

(** The desired position of the entry [i] places after [f], or the place itself. *)
Definition origin (i : Z) : Z := f + i - depth l (f + i).

Lemma origin_mono i : origin i <= origin (i + 1).
Proof. unfold origin. pose proof (Hrh (f + i)). rewrite Z.add_assoc. lia. Qed.

(** After the entries up to the place [i] were inserted in the table [l'], twice as
    large: each half holds entries below [f + i], desired no later than [origin i]. *)
Definition reinserted (i : Z) (l' : list (option Pos)) : Prop :=
  len l' = 2 * len l /\ robin_hood l' /\
  forall b y, b = 0 \/ b = len l -> f <= y < f + len l -> 0 <= depth l' (y + b) ->
    y < f + i /\ y - depth l' (y + b) <= origin i.

Lemma half_desired h d : (d - h) mod len l = 0 ->
  exists b, (b = 0 \/ b = len l) /\ h mod (2 * len l) = (d + b) mod (2 * len l).
Proof.
  intros Hz. apply Z.mod_divide in Hz as [z Hz]; [|lia].
  exists ((z mod 2) * len l). pose proof (Z.mod_pos_bound z 2 ltac:(lia)).
  split; [destruct (decide (z mod 2 = 0)) as [->|]; [by left|right; nia]|].
  assert (d + z mod 2 * len l = h + (z + z mod 2) / 2 * (2 * len l)) as ->; [|by rewrite Z_mod_plus_full].
  pose proof (Z.div_mod z 2 ltac:(lia)) as Hdm.
  assert ((z + z mod 2) / 2 * 2 = z + z mod 2) as He.
  { assert (z mod 2 = 0 \/ z mod 2 = 1) as [Hz0|Hz0] by lia; rewrite Hz0 in *.
    - rewrite Z.add_0_r. lia.
    - replace (z + 1) with ((z / 2 + 1) * 2) by lia. by rewrite Z_div_mult by lia. }
  nia.
Qed.

Lemma reinsert_spec t i :
  ring t -> 0 <= i < len l -> reinserted i (indices t) ->
  returns (reinsert_entry_in_order t (cell l (f + i))) (fun t' => exists l',
    t' = t <| indices := l' |> /\ reinserted (i + 1) l' /\
    entries l' ≡ₚ option_list (cell l (f + i)) ++ entries (indices t)).
Proof.
  intros Hr Hi (Hlen & Hrl & Hin). pose proof (origin_mono i) as Hmono.
  unfold reinsert_entry_in_order. destruct (cell l (f + i)) as [pos|] eqn:Hc; cycle 1.
  { apply returns_Done. exists (indices t). split; [by destruct t|]. split; [|done]. split_and!; [done..|].
    intros b y Hb Hy Hd. specialize (Hin b y Hb Hy Hd). lia. }
  set (c := len l) in *. set (l' := indices t) in *.
  pose proof (depth_some _ _ _ Hc) as Hd. fold c in Hd.
  pose proof (depth_bound l (f + i) Hl) as Hdb. pose proof (depth_occupied _ _ _ Hl Hc) as Hd0.
  pose proof (depth_run l (f + i) i Hrh ltac:(lia)) as Hrun. replace (f + i - i) with f in Hrun by lia.
  rewrite Hf in Hrun. set (d0 := depth l (f + i)) in *.
  assert (origin i = f + i - d0) as Ho by done.
  destruct (half_desired (phash pos) (origin i)) as (b & Hb & Hdes).
  { rewrite Ho, Hd. unfold dist.
    replace (f + i - (f + i - phash pos) mod c - phash pos)
      with (f + i - phash pos - (f + i - phash pos) mod c) by lia.
    by rewrite Zminus_mod_idemp_r, Z.sub_diag. }
  rewrite (ring_desired _ _ Hr). fold l' c in Hdes |- *. rewrite Hlen, Hdes.
  assert (forall j, dist (2 * c) (phash pos) (origin i + b + j) = j mod (2 * c)) as Hdist.
  { intros j. unfold dist. rewrite Zminus_mod, Hdes, <-Zminus_mod. f_equal. lia. }
  apply (probing_returns (2 * c) (d0 + 1) _ (origin i + b) _ _
    (fun j _ => j = 0 \/ j - 1 <= depth l' (origin i + b + (j - 1)))); [lia|lia|by left|lia|by left|].
  intros j _ Hj Hprev. fold l'. rewrite (get_ring l' (2 * c)) by lia. cbn [obind].
  set (x := origin i + b + j) in *.
  assert (x = origin i + j + b) as Hx by (unfold x; lia).
  assert (f <= origin i + j < f + c) as Hy by lia.
  destruct (cell l' x) as [them|] eqn:Hcx.
  - rewrite !(ring_distance t _ _ Hr). fold l'. rewrite Hlen, !dist_mod.
    pose proof (depth_some _ _ _ Hcx) as Hdx. rewrite Hlen in Hdx. rewrite <-Hdx.
    pose proof (depth_occupied l' x them ltac:(lia) Hcx) as Hdx0. unfold x at 2. rewrite Hdist.
    destruct (Hin b (origin i + j) Hb Hy) as [Hlt Hle]; [by rewrite <-Hx|]. rewrite <-Hx in Hle.
    rewrite Z.mod_small by lia. destruct (Z.geb_spec (depth l' x) j); [|lia]. cbn [assert obind].
    apply returns_Done. split; [lia|]. right.
    replace (j + 1 - 1) with j by lia. fold x. lia.
  - rewrite (put_ring l' (2 * c)) by lia. cbn [obind]. apply returns_Done. eexists. split; [done|].
    assert (depth_of (len l') (Some pos) x = j) as Hdj.
    { cbn. rewrite Hlen. unfold x. rewrite Hdist. apply Z.mod_small. lia. }
    split; [|destruct (entries_set l' x) as (R & HR & HR'); [lia|]; by rewrite HR', HR, Hcx].
    split; [by rewrite len_set_cell|]. split.
    + apply robin_hood_set; [lia|done| |]; rewrite Hdj.
      * pose proof (depth_bound l' (x - 1) ltac:(lia)). destruct Hprev as [|Hprev]; [lia|].
        replace (x - 1) with (origin i + b + (j - 1)) by (unfold x; lia). lia.
      * pose proof (Hrl x) as Hs. rewrite (depth_none _ _ Hcx) in Hs. lia.
    + intros b' y Hb' Hy' Hdy. rewrite depth_set in * by lia. rewrite Hlen in *.
      destruct (decide _) as [He|].
      * assert (y + b' = x) as Hyx by (apply (ring_inj (2 * c)); [lia|done|lia]).
        assert (y = origin i + j) as -> by lia. rewrite Hdj. lia.
      * specialize (Hin b' y Hb' Hy' Hdy). lia.
Qed.

Lemma reinsert_all_spec L : forall t i,
  ring t -> 0 <= i -> i + len L <= len l -> reinserted i (indices t) ->
  (forall j x, L !! j = Some x -> cell l (f + i + Z.of_nat j) = x) ->
  returns (reinsert_all t L) (fun t' => exists l',
    t' = t <| indices := l' |> /\ reinserted (i + len L) l' /\ entries l' ≡ₚ entries L ++ entries (indices t)).
Proof.
  induction L as [|x L IH]; intros t i Hr Hi Hlen Hre HL; cbn [reinsert_all].
  - apply returns_Done. exists (indices t). split; [by destruct t|]. change (len []) with 0. by rewrite Z.add_0_r.
  - assert (len (x :: L) = len L + 1) as HlL by (unfold len; cbn; lia). pose proof (len_nonneg L).
    rewrite HlL in Hlen |- *. clear HlL.
    pose proof (HL 0%nat x eq_refl) as Hx. rewrite Z.add_0_r in Hx. rewrite <-Hx.
    eapply returns_bind; [apply (reinsert_spec t i); [done|lia|done]|].
    intros t' (l' & -> & Hre' & Hp). eapply returns_mono.
    { apply (IH _ (i + 1)); record.
      - apply ring_set; [done|]. destruct Hre as [-> _], Hre' as [-> _]. done.
      - lia.
      - lia.
      - done.
      - intros j y Hy. rewrite <-(HL (S j) y Hy). f_equal. lia. }
    record. intros t'' (l'' & -> & Hre'' & Hp''). exists l''. split; [done|].
    replace (i + (len L + 1)) with (i + 1 + len L) by lia. split; [done|].
    rewrite Hp'', Hp, Hx. destruct x; cbn; [|done]. by rewrite Permutation_middle.
Qed.

End growing.

Lemma cell_repeat n p : cell (repeat None n) p = None.
Proof.
  unfold cell. destruct (repeat None n !! _) as [x|] eqn:Hx; [|done].
  apply list_elem_of_lookup_2, list_elem_of_In, repeat_spec in Hx. by subst.
Qed.

Lemma robin_hood_repeat n : robin_hood (repeat None n).
Proof. intros p. rewrite !depth_none by apply cell_repeat. lia. Qed.

Lemma len_repeat {A} (x : A) z : 0 <= z -> len (repeat x (Z.to_nat z)) = z.
Proof. intros Hz. unfold len. rewrite repeat_length. lia. Qed.

Lemma entries_repeat n : entries (repeat None n) = [].
Proof. unfold entries. induction n; [done|]. by cbn. Qed.

Lemma cell_small l (i : nat) x : l !! i = Some x -> cell l (Z.of_nat i) = x.
Proof.
  intros Hi. pose proof (lookup_lt_Some _ _ _ Hi). unfold cell.
  rewrite Z.mod_small by (unfold len; lia). by rewrite Nat2Z.id, Hi.
Qed.

Lemma grow_spec t p q :
  ring t -> len (indices t) <= 2 ^ 61 -> robin_hood (indices t) ->
  0 <= depth (indices t) p -> cell (indices t) q = None ->
  returns (grow t (Z.shiftl (len (indices t)) 1)) (fun t' => exists l m,
    t' = t <| indices := l |> <| mask := m |> /\ ring t' /\ len l = 2 * len (indices t) /\
    robin_hood l /\ entries l ≡ₚ entries (indices t)).
Proof.
  intros Hr Hmax Hrh Hp Hq. pose proof (ring_len t Hr) as Hlen. unfold grow.
  rewrite Z.shiftl_mul_pow2 by lia. change (2 ^ 1) with 2. set (l := indices t) in *.
  assert (exists f : nat, (f < length l)%nat /\ find_ideal (mask t) 0 l = Z.of_nat f /\
    depth l (Z.of_nat f) = 0) as (f & Hfl & -> & Hf).
  { destruct (exists_ideal l p q) as (f & Hfb & Hf); [lia|done..|].
    destruct (cell l f) as [pos|] eqn:Hc; [|by rewrite (depth_none _ _ Hc) in Hf].
    unfold cell in Hc. rewrite Z.mod_small in Hc by lia.
    destruct (l !! Z.to_nat f) as [c|] eqn:Hlf; [|done]. cbn in Hc. subst c.
    destruct (find_ideal_spec (mask t) l 0 (Z.to_nat f) pos) as (j & pos' & Hfi & Hlj & Hdj); [done| |].
    { rewrite (ring_distance t _ _ Hr), Z.add_0_l, Z2Nat.id by lia. fold l. rewrite <-Hf. symmetry.
      apply depth_some. rewrite <-(Z2Nat.id f) by lia. by apply cell_small. }
    exists j. rewrite Hfi, Z.add_0_l in *. split; [by apply lookup_lt_Some in Hlj|]. split; [done|].
    rewrite (depth_some _ _ pos') by (by apply cell_small). by rewrite <-(ring_distance t _ _ Hr). }
  rewrite Nat2Z.id. set (l0 := repeat None (Z.to_nat (len l * 2))).
  set (t0 := t <| indices := l0 |> <| mask := wrapping_sub (len l * 2) 1 |>).
  assert (len l0 = 2 * len l) as Hl0 by (unfold l0; rewrite len_repeat; lia).
  assert (ring t0) as Hr0.
  { destruct Hr as (k & Hk & Hlk & _). exists (k + 1).
    assert (len l * 2 = 2 ^ (k + 1)) as Hk1 by (unfold l; rewrite Hlk, Z.pow_add_r; lia).
    unfold t0. record. rewrite Hl0. split; [|split; [lia|]].
    - split; [lia|]. apply (Z.pow_le_mono_r_iff 2); [lia..|]. rewrite <-Hk1.
      change (2 ^ 62) with (2 ^ 61 * 2). lia.
    - rewrite <-Hk1. unfold wrapping_sub, wrap_u64. apply Z.mod_small. lia. }
  eapply returns_bind.
  { apply (reinsert_all_spec l (Z.of_nat f) ltac:(lia) Hrh Hf _ t0 0); [done|lia| | |].
    - unfold len. rewrite length_drop. lia.
    - split; [done|]. split; [apply robin_hood_repeat|]. intros b y _ _. 
      unfold t0. record. rewrite depth_none by apply cell_repeat. lia.
    - intros j x Hx. rewrite lookup_drop in Hx. rewrite Z.add_0_r, <-Nat2Z.inj_add. by apply cell_small. }
  intros t1 (l1 & -> & Hre1 & Hp1). eapply returns_mono.
  { apply (reinsert_all_spec l (Z.of_nat f) ltac:(lia) Hrh Hf _ _ (len (drop f l))); [|apply len_nonneg| |exact Hre1|].
    - apply ring_set; [done|]. destruct Hre1 as [-> _]. done.
    - unfold len. rewrite length_drop, length_take. lia.
    - intros j x Hx. apply lookup_take_Some in Hx as [Hx Hj]. unfold len. rewrite length_drop.
      rewrite <-(cell_small l j x Hx). apply cell_ring.
      replace (Z.of_nat f + Z.of_nat (length l - f) + Z.of_nat j) with (Z.of_nat j + 1 * len l) by (unfold len; lia).
      by rewrite Z_mod_plus_full. }
  record. intros t2 (l2 & -> & Hre2 & Hp2). destruct Hre2 as (Hl2 & Hrh2 & _).
  exists l2, (wrapping_sub (len l * 2) 1). split; [done|]. split; [|split; [done|split; [done|]]].
  - destruct Hr0 as (k & Hk & Hlk & Hm). exists k. record. by rewrite Hl2, <-Hl0.
  - rewrite Hp2, Hp1. unfold l0. rewrite entries_repeat, app_nil_r.
    unfold entries. by rewrite <-omap_app, take_drop.
Qed.

End facts.
