(* ===== verification/HpackTableInv.v ===== *)
(** * The invariant of the encoder's table

    Every slot has a number: the [n]-th field ever inserted since the table was last
    emptied is the slot [n]; the index refers to it as [-n] modulo [2 ^ 64].  A name
    function gives the name of each numbered field.  The invariant [table_inv] says that
    every slot in the table is referred to exactly once, by the index or by the link of
    an older slot of the same name, and that the index is in Robin Hood order.  While a
    field is being inserted, the index may already refer to it ([pend]). *)

From S2P Require Import Prelude Effects FrameBase HpackHeader HpackDecoder HpackDecoderFacts HpackTable RobinHood HpackTableFacts.
Import EncTable.

Section inv.
Context `{HeaderPlz} `{!NameHash}.

Implicit Types (N : Z -> Header.Name) (pos : Pos).

Definition ref (id : Z) : Z := 18446744073709551616 - id.

Lemma ref_ref id : ref (ref id) = id.
Proof. unfold ref. lia. Qed.

#[global] Instance ref_inj : Inj (=) (=) ref.
Proof. intros a b. unfold ref. lia. Qed.

Lemma ref_snoc m n : 0 <= n -> ref <$> seqZ m (n + 1) ≡ₚ ref (m + n) :: (ref <$> seqZ m n).
Proof. intros Hn. rewrite (seqZ_app m n 1) by lia. rewrite fmap_app. by rewrite Permutation_cons_append. Qed.

Definition name_hash (n : Header.Name) : Z := Z.land (fnv_hash n) (MAX_SIZE - 1).

Lemma hash_header_name h : hash_header h = name_hash (Header.name h).
Proof. done. Qed.

Lemma real_idx id T : 0 <= T - id < 18446744073709551616 -> wrapping_add (ref id) T = T - id.
Proof.
  intros Hb. unfold wrapping_add, wrap_u64, ref.
  replace (18446744073709551616 - id + T) with (T - id + 1 * 18446744073709551616) by lia.
  rewrite Z_mod_plus_full. by apply Z.mod_small.
Qed.

Lemma ref_new T : 0 < T < 18446744073709551616 -> wrapping_sub 0 T = ref T.
Proof.
  intros Hb. unfold wrapping_sub, wrap_u64, ref.
  replace (0 - T) with (18446744073709551616 - T + (-1) * 18446744073709551616) by lia.
  rewrite Z_mod_plus_full. apply Z.mod_small. lia.
Qed.

Lemma ref_oldest n T : 0 < n <= T -> T < 18446744073709551616 -> wrapping_sub (n - 1) T = ref (T - n + 1).
Proof.
  intros Hb HT. unfold wrapping_sub, wrap_u64, ref.
  replace (n - 1 - T) with (18446744073709551616 - (T - n + 1) + (-1) * 18446744073709551616) by lia.
  rewrite Z_mod_plus_full. apply Z.mod_small. lia.
Qed.

Definition headers (t : EncTable.t) : list Header.hd := map sheader (slots t).

Definition refs (t : EncTable.t) : list Z := map pindex (entries (indices t)) ++ omap snext (slots t).

(** The number of the oldest slot. *)
Definition oldest (t : EncTable.t) : Z := inserted t - len (slots t) + 1.

Record table_inv N (pend : Z) (t : EncTable.t) : Prop := {
  ti_ring : ring t;
  ti_robin : robin_hood (indices t);
  ti_refs : refs t ≡ₚ ref <$> seqZ (oldest t) (len (slots t) + pend);
  ti_hash pos : pos ∈ entries (indices t) -> phash pos = name_hash (N (ref (pindex pos)));
  ti_slot j s : slots t !! j = Some s ->
    Header.name (sheader s) = N (inserted t - Z.of_nat j) /\
    shash s = name_hash (N (inserted t - Z.of_nat j)) /\
    forall r, snext s = Some r ->
      inserted t - Z.of_nat j < ref r <= inserted t /\ N (ref r) = N (inserted t - Z.of_nat j);
  ti_count : len (slots t) + pend <= capacity t;
  ti_pend : 0 <= pend;
  ti_inserted : len (slots t) <= inserted t;
  ti_bound : inserted t + pend < 18446744073709551616
}.

Lemma capacity_lt t : ring t -> capacity t < len (indices t).
Proof.
  intros Hr. pose proof (ring_len t Hr). unfold capacity, usable_capacity.
  pose proof (Z.div_le_lower_bound (len (indices t)) 4 1). lia.
Qed.

Lemma inv_vacant N pend t : table_inv N pend t -> exists v, cell (indices t) v = None.
Proof.
  intros Hi. destruct (exists_vacant (indices t)) as (v & _ & Hv); [|by exists v].
  pose proof (capacity_lt t (ti_ring _ _ _ Hi)). pose proof (ti_count _ _ _ Hi).
  pose proof (Permutation_length (ti_refs _ _ _ Hi)) as Hl.
  unfold refs in Hl. rewrite length_app, length_map, length_fmap, length_seqZ in Hl.
  pose proof (ti_pend _ _ _ Hi). unfold len in *. lia.
Qed.

Lemma refs_NoDup N pend t : table_inv N pend t -> NoDup (refs t).
Proof. intros Hi. rewrite (ti_refs _ _ _ Hi). apply NoDup_fmap; [apply _|apply NoDup_seqZ]. Qed.

(** A link never leads to the oldest slot. *)
Lemma oldest_not_linked N pend t : table_inv N pend t -> ref (oldest t) ∉ omap snext (slots t).
Proof.
  intros Hi (s & Hs & Hn)%list_elem_of_omap. apply list_elem_of_lookup_1 in Hs as [j Hj].
  destruct (ti_slot _ _ _ Hi _ _ Hj) as (_ & _ & Hnext). apply lookup_lt_Some in Hj.
  destruct (Hnext _ Hn) as [Hlt _]. rewrite ref_ref in Hlt. unfold oldest, len in Hlt. lia.
Qed.

Lemma oldest_indexed N pend t :
  table_inv N pend t -> 0 < len (slots t) ->
  exists p pos, cell (indices t) p = Some pos /\ pindex pos = ref (oldest t).
Proof.
  intros Hi Hn. assert (ref (oldest t) ∈ refs t) as Hin.
  { rewrite (ti_refs _ _ _ Hi). apply list_elem_of_fmap_2, elem_of_seqZ.
    pose proof (ti_pend _ _ _ Hi). lia. }
  unfold refs in Hin. apply elem_of_app in Hin as [Hin|Hin]; [|by apply (oldest_not_linked _ _ _ Hi) in Hin].
  apply list_elem_of_In, in_map_iff in Hin as (pos & Hp & Hin). apply list_elem_of_In in Hin.
  apply entry_cell in Hin as (p & _ & Hc). by exists p, pos.
Qed.

Lemma points_to_once l pos :
  NoDup (map pindex (entries l)) -> pos ∈ entries l ->
  length (filter (points_to (pindex pos)) l) = 1%nat.
Proof.
  assert (forall q l, filter (points_to (pindex pos)) (q :: l) =
    if points_to (pindex pos) q then q :: filter (points_to (pindex pos)) l
    else filter (points_to (pindex pos)) l) as Hcons.
  { intros q l'. rewrite filter_cons. by destruct (points_to _ q). }
  assert (forall l, pindex pos ∉ map pindex (entries l) -> filter (points_to (pindex pos)) l = []) as Hnone.
  { clear l. induction l as [|[q|] l IH]; [done| |]; rewrite Hcons; simpl; intros Hn; [|by apply IH].
    apply not_elem_of_cons in Hn as [Hq Hn]. destruct (Z.eqb_spec (pindex q) (pindex pos)); [lia|by apply IH]. }
  induction l as [|[q|] l IH]; rewrite ?Hcons; simpl; intros Hnd Hin;
    [by apply not_elem_of_nil in Hin| |by apply IH].
  apply NoDup_cons in Hnd as [Hq Hnd]. apply elem_of_cons in Hin as [->|Hin].
  - rewrite Z.eqb_refl. simpl. by rewrite Hnone.
  - destruct (Z.eqb_spec (pindex q) (pindex pos)) as [He|]; [|by apply IH]. exfalso. apply Hq. rewrite He.
    by apply list_elem_of_In, in_map, list_elem_of_In.
Qed.

(** ** Eviction *)

(** What [prev_idx] is: [None] or the index of the last slot of the chain that is being
    extended by the field of the next number; the index refers to the new field as soon
    as that slot is gone. *)
Definition prev_inv N (prev : option Z) (pend : Z) (t : EncTable.t) : Prop :=
  match prev with
  | None => pend = 0
  | Some r =>
      ref r <= inserted t /\ N (inserted t + 1) = N (ref r) /\
      inserted t + 1 < 18446744073709551616 /\
      (pend = 0 /\ (exists s, slots t !! Z.to_nat (inserted t - ref r) = Some s /\ snext s = None) \/
       pend = 1 /\ ref r < oldest t)
  end.

(** Replacing an entry by one of the same hash changes no depth. *)
Lemma rehash_depth l p pos x q :
  0 < len l -> cell l p = Some pos -> depth (set_cell l p (Some (mkPos x (phash pos)))) q = depth l q.
Proof.
  intros Hl Hc. rewrite depth_set by done. destruct (decide _) as [He|]; [|done].
  by rewrite (depth_ring _ _ _ He), (depth_some _ _ _ Hc).
Qed.

Lemma unindex_spec t slot p pos prev v R0 :
  ring t -> robin_hood (indices t) -> cell (indices t) p = Some pos -> cell (indices t) v = None ->
  phash pos = shash slot -> map pindex (entries (indices t)) ≡ₚ pindex pos :: R0 -> pindex pos ∉ R0 ->
  0 <= inserted t + 1 < 18446744073709551616 ->
  returns (unindex t slot (pindex pos) prev) (fun t' => exists l R,
    t' = t <| indices := l |> /\ len l = len (indices t) /\ robin_hood l /\
    (forall q, depth l q <= depth (indices t) q) /\
    entries (indices t) ≡ₚ pos :: R /\
    entries l ≡ₚ (match snext slot with
      | Some r => [mkPos r (phash pos)]
      | None => if bool_decide (Some (pindex pos) = prev)
                then [mkPos (wrapping_sub 0 (inserted t + 1)) (phash pos)] else []
      end) ++ R).
Proof.
  intros Hr Hrh Hc Hv Hh Hnd Hni HT. pose proof (ring_len t Hr) as Hlen. set (l := indices t) in *.
  assert (forall p', cell l p' = Some pos -> exists R, entries l ≡ₚ pos :: R /\
    forall x, entries (set_cell l p' x) ≡ₚ option_list x ++ R) as Hset.
  { intros p' Hc'. destruct (entries_set l p') as (R & HR & HR'); [lia|]. exists R. by rewrite Hc' in HR. }
  assert (forall pos', pos' ∈ entries l -> pindex pos' = pindex pos -> pos' = pos) as Huniq.
  { intros pos' Hin' He. destruct (Hset p Hc) as (R & HR & _).
    rewrite HR in Hin', Hnd. apply elem_of_cons in Hin' as [|Hin']; [done|]. exfalso. apply Hni.
    cbn in Hnd. apply Permutation_cons_inv in Hnd. rewrite <-Hnd, <-He.
    by apply list_elem_of_In, in_map, list_elem_of_In. }
  unfold unindex. rewrite (ring_desired _ _ Hr). fold l.
  pose proof (depth_occupied l p pos ltac:(lia) Hc) as Hd0. pose proof (depth_bound l p ltac:(lia)) as Hdb.
  apply (probing_returns (len l) (depth l p + 1) _ (shash slot mod len l) _ _ (fun _ _ => True));
    [lia|lia|left; by rewrite Z.mod_mod by lia|lia|done|].
  intros i _ Hi _. rewrite <-Hh.
  destruct (before_entry t p pos i Hr Hrh Hc ltac:(fold l; lia)) as (pos' & Hc' & Hend). fold l in Hc', Hend.
  set (p' := phash pos mod len l + i) in *. fold l. rewrite get_cell by lia. rewrite Hc'. cbn [obind unwrap].
  destruct (Z.eqb_spec (pindex pos') (pindex pos)) as [He|Hne]; cycle 1.
  { apply returns_Done. split; [|done]. destruct (decide (i = depth l p)) as [Hx|]; [|lia].
    rewrite (Hend Hx) in Hne. done. }
  assert (pos' = pos) as -> by (apply Huniq; [by apply cell_entry in Hc'|done]). clear Hend He.
  destruct (Hset p' Hc') as (R & HR & HR').
  assert (forall x, robin_hood (set_cell l p' (Some (mkPos x (phash pos))))) as Hre.
  { intros x q. rewrite !rehash_depth by (done || lia). apply Hrh. }
  destruct (snext slot) as [r|].
  { rewrite put_cell by lia. apply returns_Done. eexists _, R. split_and!; [done|by rewrite len_set_cell|done| |done|by rewrite HR'].
    intros q. rewrite rehash_depth by (done || lia). done. }
  case_bool_decide as Hb.
  { rewrite checked_ok by (unfold_ints; lia). cbn [obind].
    rewrite put_cell by lia. apply returns_Done. eexists _, R. split_and!; [done|by rewrite len_set_cell|done| |done|by rewrite HR'].
    intros q. rewrite rehash_depth by (done || lia). done. }
  rewrite put_cell by lia. cbn [obind].
  eapply returns_bind; [|intros t' Ht'; apply returns_Done, Ht'].
  pose proof (remove_phase_two_spec (t <| indices := set_cell l p' None |>) p' v l) as Hrm.
  record. rewrite len_set_cell in Hrm. eapply returns_mono.
  { apply Hrm; try done.
    - apply (ring_set t); [done|by rewrite len_set_cell].
    - by apply vacate_holed; [lia|].
    - rewrite cell_set by lia. by destruct (decide _).
    - intros Heq. rewrite (cell_ring _ _ _ Heq) in Hv. congruence.
    - intros q. rewrite depth_set by lia. destruct (decide _); [|done]. cbn. apply depth_bound. lia. }
  intros t' (l' & -> & Hl' & Hrl' & Hp & Hd).
  exists l', R. split_and!; [done..|]. by rewrite Hp, HR'.
Qed.

(** What eviction leaves alone: the number of positions, the order; depths only shrink. *)
Record settled (t t' : EncTable.t) : Prop := {
  st_len : len (indices t') = len (indices t);
  st_depth q : depth (indices t') q <= depth (indices t) q;
  st_inserted : inserted t' = inserted t;
  st_max : max_size t' = max_size t
}.

#[global] Instance settled_preorder : PreOrder settled.
Proof.
  split; [by split|]. intros a b c [? Hd ? ?] [? Hd' ? ?]. split; [congruence| |congruence..].
  intros q. specialize (Hd q). specialize (Hd' q). lia.
Qed.

(** The references once the oldest slot is gone and its entry replaced by [pos'], if any. *)
Lemma table_inv_evicted N pend pend' t t' rest slot pos R (new : list Pos) :
  table_inv N pend t -> settled t t' -> ring t' -> robin_hood (indices t') ->
  slots t = rest ++ [slot] -> slots t' = rest ->
  pindex pos = ref (oldest t) -> entries (indices t) ≡ₚ pos :: R -> entries (indices t') ≡ₚ new ++ R ->
  pend' <= pend + 1 -> 0 <= pend' -> inserted t + 1 < 18446744073709551616 ->
  (forall pos', pos' ∈ new -> phash pos' = name_hash (N (ref (pindex pos')))) ->
  map pindex new ++ (ref <$> seqZ (oldest t + 1) (len rest + pend)) ≡ₚ
    option_list (snext slot) ++ (ref <$> seqZ (oldest t + 1) (len rest + pend')) ->
  inserted t + pend' < 18446744073709551616 ->
  table_inv N pend' t'.
Proof.
  intros Hi Hst Hr' Hrh' Hsl Hsl' Hpos HR HR' Hpe1 Hpe0 HT Hnew Hperm HTp.
  assert (len (slots t) = len rest + 1) as Hlen by (rewrite Hsl, len_app; done).
  assert (oldest t' = oldest t + 1) as Ho.
  { unfold oldest. rewrite (st_inserted _ _ Hst), Hlen, Hsl'. lia. }
  split; rewrite ?Hsl', ?(st_inserted _ _ Hst); try done.
  - rewrite Ho. pose proof (ti_refs _ _ _ Hi) as Hp. unfold refs in *. rewrite HR', Hsl'.
    rewrite Hlen, HR, Hsl, omap_app in Hp. cbn in Hp. rewrite Hpos in Hp.
    rewrite (seqZ_cons (oldest t)) in Hp by (pose proof (ti_pend _ _ _ Hi); pose proof (len_nonneg rest); lia).
    cbn in Hp. apply Permutation_cons_inv in Hp.
    replace (Z.pred (len rest + 1 + pend)) with (len rest + pend) in Hp by lia.
    replace (Z.succ (oldest t)) with (oldest t + 1) in Hp by lia.
    rewrite map_app. apply (Permutation_app_inv_l (option_list (snext slot))). rewrite <-Hperm, <-Hp.
    destruct (snext slot); cbn; rewrite ?app_nil_r; [|by rewrite app_assoc].
    rewrite !app_assoc. rewrite <-Permutation_cons_append. by rewrite <-!app_assoc.
  - intros pos' Hin. rewrite HR' in Hin. apply elem_of_app in Hin as [Hin|Hin]; [by apply Hnew|].
    apply (ti_hash _ _ _ Hi). rewrite HR. by right.
  - intros j s Hj. apply (ti_slot _ _ _ Hi). rewrite Hsl. by rewrite lookup_app_l by (by apply lookup_lt_Some in Hj).
  - pose proof (ti_count _ _ _ Hi) as Hc. unfold capacity in *. rewrite (st_len _ _ Hst). lia.
  - pose proof (ti_inserted _ _ _ Hi). lia.
Qed.

(** What becomes of [prev] when the slot it names stays or had gone before. *)
Lemma prev_kept N pend prev t t' rest slot :
  prev_inv N prev pend t -> slots t = rest ++ [slot] -> slots t' = rest -> inserted t' = inserted t ->
  prev <> Some (ref (oldest t)) \/ snext slot <> None -> prev_inv N prev pend t'.
Proof.
  intros Hpr Hsl Hsl' HT Hne. destruct prev as [r|]; [|done]. cbn in *. destruct Hpr as (Hle & HN & Hlt' & Hcase).
  assert (oldest t' = oldest t + 1) as Ho by (unfold oldest; rewrite Hsl, Hsl', HT, len_app; change (len [slot]) with 1; lia).
  rewrite HT, Hsl', Ho. split_and!; [done..|]. destruct Hcase as [(Hp0 & s & Hs & Hsn)|[Hp1 Hlt]]; [|right; split; [done|lia]].
  left. split; [done|]. exists s. split; [|done].
  rewrite Hsl in Hs. apply lookup_app_Some in Hs as [Hs|[Hge Hs]]; [done|]. exfalso.
  apply list_lookup_singleton_Some in Hs as [Hz ->]. destruct Hne as [Hne|Hne]; [|done].
  apply Hne. f_equal. rewrite <-(ref_ref r). f_equal. unfold oldest. rewrite Hsl, len_app. unfold len in *. cbn [length]. lia.
Qed.

(** The two invariants once the index refers to the successor of the oldest slot, or to the
    field that is to come, or no longer to its name. *)
Lemma evicted_inv N pend prev t t' rest slot pos R :
  table_inv N pend t -> prev_inv N prev pend t -> settled t t' -> ring t' -> robin_hood (indices t') ->
  slots t = rest ++ [slot] -> slots t' = rest -> pindex pos = ref (oldest t) -> phash pos = name_hash (N (oldest t)) ->
  entries (indices t) ≡ₚ pos :: R ->
  entries (indices t') ≡ₚ (match snext slot with
    | Some r => [mkPos r (phash pos)]
    | None => if bool_decide (Some (pindex pos) = prev)
              then [mkPos (wrapping_sub 0 (inserted t + 1)) (phash pos)] else []
    end) ++ R ->
  (forall r, snext slot = Some r -> N (ref r) = N (oldest t)) -> inserted t + 1 < 18446744073709551616 ->
  exists pend', table_inv N pend' t' /\ prev_inv N prev pend' t'.
Proof.
  intros Hi Hpr Hst Hr' Hrl Hsl Hsl' Hpi Hph HR HR' Hnext HT.
  pose proof (ti_pend _ _ _ Hi) as Hpe. pose proof (ti_inserted _ _ _ Hi) as Hin.
  assert (len (slots t) = len rest + 1) as Hlen by (rewrite Hsl, len_app; done). pose proof (len_nonneg rest) as Hr0.
  assert (forall pend' new, entries (indices t') ≡ₚ new ++ R -> pend' <= pend + 1 -> 0 <= pend' ->
    (forall pos', pos' ∈ new -> phash pos' = name_hash (N (ref (pindex pos')))) ->
    map pindex new ++ (ref <$> seqZ (oldest t + 1) (len rest + pend)) ≡ₚ
      option_list (snext slot) ++ (ref <$> seqZ (oldest t + 1) (len rest + pend')) ->
    inserted t + pend' < 18446744073709551616 -> table_inv N pend' t') as Hinv.
  { intros pend' new ??????. by eapply (table_inv_evicted N pend pend' t t' rest slot pos R new). }
  pose proof (prev_kept N pend prev t t' rest slot Hpr Hsl Hsl' (st_inserted _ _ Hst)) as Hkeep.
  destruct (snext slot) as [r|] eqn:Hsn; [|case_bool_decide as Hb].
  - exists pend. split; [|apply Hkeep; by right]. apply (Hinv pend [mkPos r (phash pos)]); [done|lia..| |done|apply Hi].
    intros pos' ->%list_elem_of_singleton. cbn. by rewrite (Hnext r eq_refl).
  - subst prev. cbn in Hpr. rewrite Hpi, ref_ref in *. destruct Hpr as (Hle & HN & HT' & Hcase).
    destruct Hcase as [[-> _]|[_ ?]]; [|lia]. exists 1. split.
    + apply (Hinv 1 _ HR'); [lia..| | |lia].
      * intros pos' ->%list_elem_of_singleton. cbn. rewrite ref_new, ref_ref by lia. by rewrite HN.
      * cbn. rewrite ref_new by lia. rewrite Z.add_0_r, ref_snoc by lia.
        replace (oldest t + 1 + len rest) with (inserted t + 1) by (unfold oldest; lia). done.
    + cbn. rewrite ref_ref, (st_inserted _ _ Hst). split_and!; [done..|]. right. split; [done|].
      unfold oldest. rewrite (st_inserted _ _ Hst), Hsl', Hlen. lia.
  - exists pend. split; [|apply Hkeep; left; congruence].
    apply (Hinv pend []); [done|lia..| | |]; [by intros ? ?%not_elem_of_nil|done|apply Hi].
Qed.

Lemma evict_spec N pend t prev rest slot :
  table_inv N pend t -> prev_inv N prev pend t -> slots t = rest ++ [slot] ->
  Header.len (sheader slot) <= size t <= usize_max -> inserted t + 1 < 18446744073709551616 ->
  returns (evict t prev) (fun t' =>
    slots t' = rest /\ size t' = size t - Header.len (sheader slot) /\ settled t t' /\
    exists pend', table_inv N pend' t' /\ prev_inv N prev pend' t').
Proof.
  intros Hi Hpr Hsl Hsz HT.
  assert (len (slots t) = len rest + 1) as Hlen by (rewrite Hsl, len_app; done). pose proof (len_nonneg rest) as Hr0.
  pose proof (ti_inserted _ _ _ Hi) as Hin. pose proof (ti_pend _ _ _ Hi) as Hpe.
  pose proof (ti_count _ _ _ Hi) as Hcount. pose proof (capacity_lt t (ti_ring _ _ _ Hi)) as Hcap.
  pose proof (ring_len t (ti_ring _ _ _ Hi)) as Hring.
  destruct (oldest_indexed _ _ _ Hi) as (p & pos & Hc & Hpi); [lia|].
  destruct (inv_vacant _ _ _ Hi) as (v & Hv).
  pose proof (refs_NoDup _ _ _ Hi) as Hnd. unfold refs in Hnd. apply NoDup_app in Hnd as (Hnd & _ & _).
  unfold evict. rewrite Hlen. replace (len rest + 1 - 1) with (len rest) by lia.
  assert (len rest <= usize_max) as Hru by (unfold_ints; lia).
  pose proof (header_len_pos (sheader slot)) as Hpos.
  rewrite checked_ok by lia. cbn [obind].
  rewrite Hsl at 1. rewrite pop_back_snoc. cbn [unwrap obind].
  rewrite checked_ok by lia. cbn [obind].
  assert (wrapping_sub (len rest) (inserted t) = pindex pos) as ->.
  { rewrite Hpi. replace (len rest) with (len (slots t) - 1) by lia. apply ref_oldest; lia. }
  record. rewrite (points_to_once _ _ Hnd (cell_entry _ _ _ Hc)). cbn [Nat.eqb assert obind].
  destruct (ti_slot _ _ _ Hi (length rest) slot) as (Hname & Hhash & Hnext).
  { by rewrite Hsl, list_lookup_middle. }
  assert (inserted t - Z.of_nat (length rest) = oldest t) as Hold by (unfold oldest; unfold len in *; lia).
  rewrite Hold in *.
  assert (phash pos = name_hash (N (oldest t))) as Hph.
  { rewrite (ti_hash _ _ _ Hi pos) by (by eapply cell_entry). by rewrite Hpi, ref_ref. }
  destruct (entries_set (indices t) p) as (R0 & HR0 & _); [lia|]. rewrite Hc in HR0. cbn in HR0.
  eapply returns_mono.
  { eapply (unindex_spec _ slot p pos prev v (map pindex R0)); record; [apply (ti_ring _ _ _ Hi)|apply Hi|done|done| | | |lia].
    - congruence.
    - by rewrite HR0.
    - rewrite HR0 in Hnd. cbn in Hnd. by apply NoDup_cons in Hnd as [??]. }
  record. intros t' (l & R & -> & Hl & Hrl & Hd & HR & HR').
  set (t' := mk (mask t) l rest (inserted t) (size t - Header.len (sheader slot)) (max_size t)).
  assert (settled t t') as Hst by (by split).
  split; [done|]. split; [done|]. split; [done|].
  eapply (evicted_inv N pend prev t t' rest slot pos R); try done.
  - by apply (ring_set t); [apply Hi|].
  - intros r Hr. by destruct (Hnext r Hr) as [_ ->].
Qed.

End inv.
