(* ===== verification/HpackTableOps.v ===== *)
(** * The operations of the encoder's table

    Every operation of [HpackTable] returns, keeps [table_wf], and does to the list of
    fields what the reference table of RFC 7541 does: a new field goes in front and the
    longest prefix that fits is kept ([fit]). *)

From S2P Require Import Prelude Effects FrameBase HpackHeader HpackDecoder HpackDecoderFacts HpackTable RobinHood HpackTableFacts HpackTableInv.
Import EncTable.

#[local] Arguments sizes : simpl never.
#[local] Arguments len : simpl never.
#[local] Arguments entries : simpl never.

Section ops.
Context `{HeaderPlz} `{!NameHash}.

Implicit Types (N : Z -> Header.Name) (pos : Pos).

(** The table as its clients see it: the fields fit, and the index is as it should be or
    was never allocated. *)
Record table_wf (t : EncTable.t) : Prop := {
  wf_size : size t = sizes (headers t);
  wf_fits : size t <= max_size t;
  wf_max : 0 <= max_size t <= u32_max;
  wf_index : (exists N, table_inv N 0 t) \/
    indices t = [] /\ slots t = [] /\ inserted t = 0
}.

(** ** Eviction to a size *)

Lemma fit_zero l : fit 0 l = [].
Proof. destruct l as [|h l]; [done|]. cbn. pose proof (header_len_pos h). by destruct (Z.leb_spec (Header.len h) 0); [lia|]. Qed.

Lemma fit_front max h l : Header.len h <= max -> fit max (h :: l) = h :: fit (max - Header.len h) l.
Proof. intros Hle. cbn. by rewrite (proj2 (Z.leb_le _ _)). Qed.

Record converged (N : Z -> Header.Name) (prev : option Z) (extra : Z) (t t' : EncTable.t) : Prop := {
  cv_headers : headers t' = fit (max_size t - extra) (headers t);
  cv_size : size t' = sizes (headers t') + extra;
  cv_fits : size t' <= max_size t';
  cv_prefix : slots t' `prefix_of` slots t;
  cv_settled : settled t t';
  cv_inv : exists pend, table_inv N pend t' /\ prev_inv N prev pend t'
}.

Lemma converge_loop_spec N prev extra fuel : forall t pend ret,
  table_inv N pend t -> prev_inv N prev pend t ->
  size t = sizes (headers t) + extra -> 0 <= extra <= max_size t -> size t <= usize_max ->
  inserted t + 1 < 18446744073709551616 -> (length (slots t) < fuel)%nat ->
  returns (converge_loop fuel t prev ret) (fun '(t', ret') =>
    converged N prev extra t t' /\ (ret' = false -> t' = t /\ ret = false)).
Proof.
  induction fuel as [|fuel IH]; intros t pend ret Hi Hpr Hsz Hex Hmax HT Hf; [lia|]. cbn [converge_loop].
  destruct (Z.gtb_spec (size t) (max_size t)) as [Hgt|Hle]; cycle 1.
  { apply returns_Done. split; [|done]. split; [|done|done|done|done|by exists pend].
    rewrite fit_all; [done|lia]. }
  destruct (slots t) as [|slot0 rest0 _] eqn:Hs using rev_ind.
  { unfold headers in Hsz. rewrite Hs in Hsz. change (sizes (map sheader [])) with 0 in Hsz. lia. }
  assert (headers t = map sheader rest0 ++ [sheader slot0]) as Hh by (unfold headers; rewrite Hs; apply map_app).
  rewrite Hh, sizes_snoc in Hsz. pose proof (sizes_nonneg (map sheader rest0)).
  eapply returns_bind.
  { apply (evict_spec N pend t prev rest0 slot0); [done|done|done|lia|lia]. }
  intros t1 (Hs1 & Hsz1 & Hst & pend1 & Hi1 & Hpr1).
  assert (headers t1 = map sheader rest0) as Hh1 by (unfold headers; by rewrite Hs1).
  assert (max_size t1 = max_size t) as Hm by apply Hst.
  eapply returns_mono.
  { apply (IH t1 pend1 true); [done|done| | | | |].
    - rewrite Hh1. lia.
    - lia.
    - pose proof (header_len_pos (sheader slot0)). lia.
    - rewrite (st_inserted _ _ Hst). lia.
    - rewrite Hs1. rewrite length_app in Hf. cbn in Hf. lia. }
  intros [t' ret'] [Hc Hret]. split; [|by intros [_ ?]%Hret].
  destruct Hc as [Hch Hcs Hcf Hcp Hct Hci]. split; [|done|done| |by transitivity t1|done].
  - rewrite Hch, Hm, Hh1, Hh. symmetry. apply fit_snoc. rewrite sizes_snoc. lia.
  - etransitivity; [done|]. rewrite Hs1, Hs. by apply prefix_app_r.
Qed.

Lemma converge_spec N prev extra t pend :
  table_inv N pend t -> prev_inv N prev pend t ->
  size t = sizes (headers t) + extra -> 0 <= extra <= max_size t -> size t <= usize_max ->
  inserted t + 1 < 18446744073709551616 ->
  returns (converge t prev) (fun '(t', ret) => converged N prev extra t t' /\ (ret = false -> t' = t)).
Proof.
  intros Hi Hpr Hsz Hex Hmax HT. unfold converge. eapply returns_mono.
  { by apply (converge_loop_spec N prev extra _ t pend false); [..|lia]. }
  intros [t' ret] [Hc Hr]. split; [done|]. by intros [? _]%Hr.
Qed.

(** [update_size] for a field that fits the table. *)
Lemma update_size_spec N prev t n :
  table_wf t -> table_inv N 0 t -> prev_inv N prev 0 t -> 0 <= n <= max_size t ->
  inserted t + 1 < 18446744073709551616 ->
  returns (update_size t n prev) (fun '(t', ret) =>
    converged N prev n t t' /\ (ret = false -> t' = t <| size := size t + n |>)).
Proof.
  intros Hwf Hi Hpr Hn HT. destruct Hwf as [Hsz Hfit Hmax _].
  pose proof (sizes_nonneg (headers t)). unfold update_size.
  rewrite checked_ok by (unfold_ints; lia). cbn [obind].
  eapply returns_mono.
  { apply (converge_spec N prev n (t <| size := size t + n |>) 0); record; [by destruct Hi|done|..].
    - unfold headers in *. cbn. lia.
    - lia.
    - unfold_ints. lia.
    - lia. }
  record. intros [t' ret] [Hc Hr]. split; [|done].
  destruct Hc as [? ? ? ? [] ?]. by split.
Qed.

Lemma table_inv_empty N t :
  ring t -> entries (indices t) = [] -> robin_hood (indices t) -> slots t = [] ->
  0 <= inserted t < 18446744073709551616 -> table_inv N 0 t.
Proof.
  intros Hr He Hrh Hs HT. pose proof (ring_len t Hr). split; rewrite ?Hs; try done; try (change (len []) with 0); try lia.
  - unfold refs. by rewrite He, Hs.
  - intros pos. rewrite He. by intros ?%not_elem_of_nil.
  - unfold capacity, usable_capacity. pose proof (Z.div_le_upper_bound (len (indices t)) 4 (len (indices t))). lia.
Qed.

Lemma map_none l : map (fun _ : option Pos => None) l = repeat (@None Pos) (length l).
Proof. induction l as [|x l IH]; [done|]. cbn. by f_equal. Qed.

Lemma resize_spec t sz :
  table_wf t -> 0 <= sz <= u32_max -> inserted t + 1 < 18446744073709551616 ->
  returns (resize t sz) (fun t' =>
    table_wf t' /\ headers t' = fit sz (headers t) /\ max_size t' = sz /\ inserted t' <= inserted t).
Proof.
  intros Hwf Hsz HT. destruct Hwf as [Hs Hfit Hmax Hix]. pose proof (sizes_nonneg (headers t)) as Hnn.
  unfold resize. destruct (Z.eqb_spec sz 0) as [->|Hne].
  { apply returns_Done. record. rewrite fit_zero. split_and!; [|done|done|].
    - split; record; [done|lia|lia|]. destruct Hix as [[N Hi]|(Hi1 & _ & _)]; [left; exists N|right; by rewrite Hi1].
      apply table_inv_empty; record; rewrite ?map_none.
      + destruct (ti_ring _ _ _ Hi) as (k & Hk & Hl & Hm). exists k. cbn.
        split; [done|]. split; [|done]. unfold len in *. by rewrite repeat_length.
      + apply entries_repeat.
      + apply robin_hood_repeat.
      + done.
      + lia.
    - destruct Hix as [[N Hi]|(_ & _ & ->)]; [|lia]. pose proof (ti_inserted _ _ _ Hi).
      pose proof (len_nonneg (slots t)). lia. }
  destruct Hix as [[N Hi]|(Hi1 & Hi2 & Hi3)].
  - assert (table_inv N 0 (t <| max_size := sz |>)) as Hi' by (by destruct Hi).
    eapply returns_bind.
    { apply (converge_spec N None 0 (t <| max_size := sz |>) 0 Hi'); record; unfold headers in *; cbn; [done|lia|lia|unfold_ints; lia|lia]. }
    record. intros [t' ret] [[Hh Hsz' Hf' _ Hst (pend & Hi'' & Hp)] _]. apply returns_Done.
    pose proof (st_max _ _ Hst) as Hm. pose proof (st_inserted _ _ Hst) as HT'. record. cbn in Hp. subst pend.
    rewrite Z.sub_0_r in Hh. split_and!; [|done|done|lia].
    split; [lia|done|lia|left; by exists N].
  - assert (headers t = []) as Hh by (unfold headers; by rewrite Hi2). rewrite Hh in *.
    change (sizes []) with 0 in Hs. unfold converge. record. rewrite Hi2. cbn [length converge_loop]. record.
    rewrite Hs. destruct (Z.gtb_spec 0 sz); [lia|]. apply returns_Done.
    split_and!; [|done..]. split; unfold headers; cbn; rewrite ?Hi2; [done|lia|lia|by right].
Qed.

(** ** Room for one more *)

(** Names of numbers that are not given yet do not matter. *)
Lemma table_inv_ext N N' t :
  (forall id, id <= inserted t -> N' id = N id) -> table_inv N 0 t -> table_inv N' 0 t.
Proof.
  intros HN [Hr Hrh Hp Hh Hs Hc Hpe Hi Hb]. split; try done.
  - intros pos Hin. rewrite HN; [by apply Hh|].
    assert (pindex pos ∈ refs t) as Hr'.
    { unfold refs. apply elem_of_app. left. by apply list_elem_of_In, in_map, list_elem_of_In. }
    rewrite Hp in Hr'. apply list_elem_of_fmap in Hr' as (id & -> & Hid). apply elem_of_seqZ in Hid.
    rewrite ref_ref. unfold oldest in Hid. lia.
  - intros j s Hj. destruct (Hs j s Hj) as (Hn & Hha & Hl). rewrite !(HN (inserted t - Z.of_nat j)) by lia.
    split_and!; [done..|]. intros r Hr'. destruct (Hl r Hr') as [Hlt He]. split; [done|]. by rewrite HN by lia.
Qed.

Lemma usable_bound n : 0 <= n -> usable_capacity n * 4 <= n * 3 + 3 /\ n * 3 <= usable_capacity n * 4.
Proof. intros Hn. unfold usable_capacity. pose proof (Z.div_mod n 4 ltac:(lia)). pose proof (Z.mod_pos_bound n 4). lia. Qed.

Lemma reserve_one_spec t :
  table_wf t ->
  returns (reserve_one t) (fun t' => exists l m,
    t' = t <| indices := l |> <| mask := m |> /\ table_wf t' /\
    (exists N, table_inv N 0 t') /\ len (slots t') + 1 <= capacity t').
Proof.
  intros Hwf. destruct Hwf as [Hs Hfit Hmax Hix]. unfold reserve_one.
  destruct Hix as [[N Hi]|(Hi1 & Hi2 & Hi3)]; cycle 1.
  { unfold capacity. rewrite Hi1, Hi2. change (len (@nil Slot)) with 0. cbn [Z.eqb]. record.
    apply returns_Done. exists (repeat None 8), 7. rewrite Hi2. split_and!; [done| | |done].
    all: assert (table_inv (fun _ => Header.NMethod) 0 (mk 7 (repeat None 8) [] (inserted t) (size t) (max_size t))) as Hi
      by (apply table_inv_empty; cbn; [by exists 3|done|apply (robin_hood_repeat 8)|done|lia]).
    - split; [|done|done|left; eexists; exact Hi]. unfold headers in *. by rewrite Hi2 in Hs.
    - eexists; exact Hi. }
  pose proof (ti_count _ _ _ Hi) as Hcount. pose proof (ring_len t (ti_ring _ _ _ Hi)) as Hlen.
  pose proof (usable_bound (len (indices t))) as Hu. fold (capacity t) in Hu.
  destruct (Z.eqb_spec (len (slots t)) (capacity t)) as [He|Hne]; cycle 1.
  { apply returns_Done. exists (indices t), (mask t). split_and!; [by destruct t| |by exists N|lia].
    split; [done..|]. left. by exists N. }
  destruct (Z.eqb_spec (len (slots t)) 0); [lia|].
  assert (32 * len (slots t) <= sizes (headers t)) as Hsz.
  { pose proof (sizes_length (headers t)) as Hsl. unfold headers in *. unfold len in *. by rewrite length_map in Hsl. }
  destruct (oldest_indexed _ _ _ Hi) as (p & pos & Hc & _); [pose proof (len_nonneg (slots t)); lia|].
  destruct (inv_vacant _ _ _ Hi) as (v & Hv).
  eapply returns_mono.
  { apply (grow_spec t p v); [apply Hi|unfold_ints; lia|apply Hi|by eapply depth_occupied; [lia|]|done]. }
  intros t' (l & m & -> & Hr' & Hl & Hrh & Hp). exists l, m. split; [done|].
  assert (table_inv N 0 (t <| indices := l |> <| mask := m |>)) as Hi'.
  { destruct Hi as [_ _ Hre Hh Hsl Hc' Hpe Hin Hb]. split; record; try done.
    - rewrite <-Hre. unfold refs. cbn. by rewrite Hp.
    - intros pos'. rewrite Hp. apply Hh.
    - pose proof (usable_bound (len l)). unfold capacity in *. cbn. lia. }
  split_and!; [|by exists N|].
  - split; [done..|]. left. by exists N.
  - pose proof (usable_bound (len l)). unfold capacity in *. record. lia.
Qed.

(** ** The new slot *)

(** The field [h] has the next number; [sl] are the old slots, of which one may have
    been linked to it. *)
Lemma table_inv_pushed N pend t t' h sl :
  table_inv N pend t -> ring t' -> robin_hood (indices t') -> len (indices t') = len (indices t) ->
  inserted t' = inserted t + 1 -> inserted t + 1 < 18446744073709551616 ->
  N (inserted t + 1) = Header.name h -> len (slots t) + 1 <= capacity t ->
  slots t' = mkSlot (hash_header h) h None :: sl -> length sl = length (slots t) ->
  (forall j s', sl !! j = Some s' -> exists s, slots t !! j = Some s /\
    sheader s' = sheader s /\ shash s' = shash s /\
    (snext s' = snext s \/ snext s' = Some (ref (inserted t + 1)) /\
      N (inserted t + 1) = N (inserted t - Z.of_nat j))) ->
  (forall pos, pos ∈ entries (indices t') ->
    pos ∈ entries (indices t) \/ pos = mkPos (ref (inserted t + 1)) (hash_header h)) ->
  refs t' ≡ₚ ref <$> seqZ (oldest t) (len (slots t) + 1) ->
  table_inv N 0 t'.
Proof.
  intros Hi Hr Hrh Hl HT HTb HN Hcap Hsl Hlen Hold Hent Hrefs.
  assert (len (slots t') = len (slots t) + 1) as Hlen' by (rewrite Hsl; unfold len in *; cbn; lia).
  split; rewrite ?Hlen', ?HT; try done; try lia.
  - rewrite Hrefs, Z.add_0_r. unfold oldest. rewrite Hlen', HT. by replace (inserted t + 1 - (len (slots t) + 1) + 1) with (inserted t - len (slots t) + 1) by lia.
  - intros pos [Hin| ->]%Hent; [by apply (ti_hash _ _ _ Hi)|]. cbn. rewrite ref_ref, HN. apply hash_header_name.
  - intros [|j] s Hj; rewrite Hsl in Hj; cbn in Hj.
    + simplify_eq. cbn. rewrite Z.sub_0_r, HN. by split_and!.
    + destruct (Hold j s Hj) as (s0 & Hs0 & Hhd & Hha & Hnx).
      destruct (ti_slot _ _ _ Hi _ _ Hs0) as (Hn0 & Hh0 & Hl0).
      replace (inserted t + 1 - Z.of_nat (S j)) with (inserted t - Z.of_nat j) by lia.
      rewrite Hhd, Hha. split_and!; [done..|]. intros r Hrr. destruct Hnx as [Hnx|[Hnx HNx]].
      * rewrite Hnx in Hrr. destruct (Hl0 r Hrr) as [? ?]. split; [lia|done].
      * rewrite Hnx in Hrr. simplify_eq. rewrite ref_ref. split; [lia|done].
  - unfold capacity in *. rewrite Hl. lia.
  - pose proof (ti_inserted _ _ _ Hi). lia.
Qed.

(** ** A field of a new name *)

Lemma back_position t p : ring t ->
  Z.land (wrapping_sub (p mod len (indices t)) 1) (mask t) = (p - 1) mod len (indices t).
Proof.
  intros (k & Hk & -> & ->). rewrite land_mask by lia. unfold wrapping_sub, wrap_u64.
  rewrite Z.mod_mod_divide by (apply pow2_divides_64; lia). by rewrite Zminus_mod_idemp_l.
Qed.

Lemma back_up_spec t pos fuel : forall p,
  ring t -> depth (indices t) p <= dist (len (indices t)) (phash pos) p ->
  dist (len (indices t)) (phash pos) p < Z.of_nat fuel ->
  returns (back_up fuel t (dist (len (indices t)) (phash pos) p) (p mod len (indices t)))
    (fun '(_, probe) => exists p', probe = p' mod len (indices t) /\ wants (indices t) p' pos).
Proof.
  induction fuel as [|fuel IH]; intros p Hr Hd Hf; pose proof (ring_len t Hr) as Hlen;
    pose proof (dist_bound (len (indices t)) (phash pos) p ltac:(lia)) as Hb; [lia|]. cbn [back_up].
  pose proof (depth_bound (indices t) (p - 1) ltac:(lia)) as Hb1.
  destruct (Z.eqb_spec (dist (len (indices t)) (phash pos) p) 0) as [He|Hne].
  { apply returns_Done. exists p. split; [done|]. split; lia. }
  rewrite (back_position _ _ Hr), get_cell by lia. cbn [obind].
  pose proof (dist_pred (len (indices t)) (phash pos) p ltac:(lia) ltac:(lia)) as Hp.
  destruct (cell (indices t) (p - 1)) as [pos'|] eqn:Hc.
  - rewrite (ring_distance _ _ _ Hr), dist_mod, <-(depth_some _ _ _ Hc).
    destruct (Z.ltb_spec (depth (indices t) (p - 1)) (dist (len (indices t)) (phash pos) p - 1)).
    + rewrite <-Hp. apply IH; [done|lia|lia].
    + apply returns_Done. exists p. split; [done|]. split; lia.
  - rewrite <-Hp. apply IH; [done| |lia]. rewrite (depth_none _ _ Hc). lia.
Qed.

Lemma place_bind {B} t probe pos (k : EncTable.t -> outcome B) :
  (let! prev := get_at (indices t) probe in
   let! l := put_at (indices t) probe (Some pos) in
   let! t := match prev with
             | Some prev => shift_forward (t <| indices := l |>) (probe + 1) prev
             | None => Done (t <| indices := l |>)
             end in k t) = obind (place t probe pos) k.
Proof. unfold place. destruct (get_at _ _) as [prev|]; [|done]. cbn. by destruct (put_at _ _ _). Qed.

(** What is known where a probe for [h] stopped: every entry passed is as deep as [h]
    would have been there, and the one there is not. *)
Definition stopped (t : EncTable.t) (h : Header.hd) (p d : Z) : Prop :=
  d = dist (len (indices t)) (hash_header h) p /\ depth (indices t) p <= d /\
  (d = 0 \/ d - 1 <= depth (indices t) (p - 1)).

Definition inserted_result (t : EncTable.t) (h : Header.hd) (t' : EncTable.t) : Prop :=
  table_wf t' /\ headers t' = fit (max_size t) (h :: headers t) /\ max_size t' = max_size t /\
  inserted t' = inserted t + 1.

(** A new field in front of what eviction left, in a table that keeps its invariant. *)
Lemma inserted_result_intro N N' prev t t1 h m idx sl :
  table_wf t -> Header.len h <= max_size t -> converged N prev (Header.len h) t t1 -> map sheader sl = headers t1 ->
  table_inv N' 0 (mk m idx (mkSlot (hash_header h) h None :: sl) (inserted t + 1) (size t1) (max_size t1)) ->
  inserted_result t h (mk m idx (mkSlot (hash_header h) h None :: sl) (inserted t + 1) (size t1) (max_size t1)).
Proof.
  intros Hwf Hlen [Hh Hsz Hfit _ Hst _] Hsame Hinv. pose proof (st_max _ _ Hst) as Hm1.
  assert (headers (mk m idx (mkSlot (hash_header h) h None :: sl) (inserted t + 1) (size t1) (max_size t1)) = h :: headers t1) as Hhd
    by (unfold headers at 1; cbn; by rewrite Hsame).
  split_and!; [| |done|done].
  - split; rewrite ?Hhd; [change (size t1 = Header.len h + sizes (headers t1)); lia|done|cbn; rewrite Hm1; apply Hwf|left; by exists N'].
  - rewrite Hhd, fit_front by lia. by rewrite Hh.
Qed.

(** The entry of the new field is placed in the index. *)
Lemma table_inv_placed N t1 h l sz mx :
  table_inv N 0 t1 -> N (inserted t1 + 1) = Header.name h -> inserted t1 + 1 < 18446744073709551616 ->
  len (slots t1) + 1 <= capacity t1 -> len l = len (indices t1) -> robin_hood l ->
  entries l ≡ₚ mkPos (ref (inserted t1 + 1)) (hash_header h) :: entries (indices t1) ->
  table_inv N 0 (mk (mask t1) l (mkSlot (hash_header h) h None :: slots t1) (inserted t1 + 1) sz mx).
Proof.
  intros Hi1 HN HT Hcap Hl Hrh Hp. pose proof (ti_ring _ _ _ Hi1) as (k & ? & ? & ?).
  pose proof (ti_inserted _ _ _ Hi1).
  eapply (table_inv_pushed N 0 t1 _ h (slots t1) Hi1); cbn; try done.
  - exists k. cbn. by rewrite Hl.
  - intros j s' Hj. exists s'. split_and!; [done..|by left].
  - intros pos. rewrite Hp. intros [->|?]%elem_of_cons; [by right|by left].
  - unfold refs. cbn. rewrite Hp. cbn. fold (refs t1).
    pose proof (ti_refs _ _ _ Hi1) as Hr1. unfold refs in Hr1. rewrite Hr1, Z.add_0_r.
    rewrite ref_snoc by apply len_nonneg. unfold oldest.
    by replace (inserted t1 - len (slots t1) + 1 + len (slots t1)) with (inserted t1 + 1) by lia.
Qed.

Lemma vacant_place t t1 h p d evicted x :
  stopped t h p d -> ring t1 -> settled t t1 -> (evicted = false -> indices t1 = indices t) ->
  returns (if evicted : bool then back_up (S (Z.to_nat d)) t1 d (p mod len (indices t)) else Done (d, p mod len (indices t)))
    (fun '(_, probe) => exists p', probe = p' mod len (indices t1) /\ wants (indices t1) p' (mkPos x (hash_header h))).
Proof.
  intros (-> & Hd & Hprev) Hr Hst Hsame. rewrite <-(st_len _ _ Hst). pose proof (ring_len t1 Hr).
  pose proof (dist_bound (len (indices t1)) (hash_header h) p ltac:(lia)) as Hb.
  pose proof (st_depth _ _ Hst p) as Hdp.
  destruct evicted.
  - apply (back_up_spec t1 (mkPos x (hash_header h))); cbn; [done|rewrite (st_len _ _ Hst) in *; lia|lia].
  - apply returns_Done. exists p. split; [done|]. rewrite Hsame in * by done. unfold wants. cbn.
    pose proof (depth_bound (indices t) (p - 1) ltac:(lia)). lia.
Qed.

Lemma index_vacant_spec t h p d statik N :
  table_wf t -> table_inv N 0 t -> len (slots t) + 1 <= capacity t ->
  N (inserted t + 1) = Header.name h -> Header.len h <= max_size t ->
  inserted t + 1 < 18446744073709551616 -> stopped t h p d ->
  returns (index_vacant t h (hash_header h) d (p mod len (indices t)) statik) (fun '(r, t') =>
    inserted_result t h t' /\ r = match statik with Some (n, _) => InsertedValue n 0 | None => Inserted 0 end).
Proof.
  intros Hwf Hi Hcap HN Hlen HT Hstop. pose proof (ti_ring _ _ _ Hi) as Hr. pose proof (ring_len t Hr) as Hring.
  unfold index_vacant. unfold Header.is_sensitive at 1. cbn [negb].
  eapply (returns_bind _ _ (fun _ => True)).
  { destruct (Z.eqb_spec d 0); [by apply returns_Done|]. rewrite (back_position _ _ Hr), get_cell by lia. cbn [obind].
    destruct Hstop as (-> & _ & Hprev).
    pose proof (dist_bound (len (indices t)) (hash_header h) p ltac:(lia)).
    destruct (cell (indices t) (p - 1)) eqn:Hc; [by apply returns_Done|].
    rewrite (depth_none _ _ Hc) in Hprev. lia. }
  intros _ _. pose proof (header_len_pos h) as Hpos.
  eapply returns_bind; [by apply (update_size_spec N None t (Header.len h) Hwf Hi); [|lia|]|].
  intros [t1 evicted] [Hcv Hev]. pose proof Hcv as [_ _ _ Hpre Hst (pend & Hi1 & Hp)]. cbn in Hp. subst pend.
  eapply returns_bind.
  { apply (vacant_place t t1 h p d evicted (wrapping_sub 0 (wrapping_add (inserted t1) 1)) Hstop); [apply Hi1|done|].
    by intros ->%Hev. }
  intros [d' probe] (p' & -> & Hw). unfold insert. record.
  assert (inserted t1 = inserted t) as HT1 by apply Hst. rewrite HT1 in *.
  assert (max_size t1 = max_size t) as Hm1 by apply Hst.
  pose proof (ti_inserted _ _ _ Hi) as Hins. pose proof (len_nonneg (slots t)).
  assert (wrapping_add (inserted t) 1 = inserted t + 1) as HTw by (apply Z.mod_small; lia).
  rewrite HTw in *. rewrite ref_new in * by lia.
  destruct (inv_vacant _ _ _ Hi1) as (v & Hv).
  set (t2 := mk (mask t1) (indices t1) (mkSlot (hash_header h) h None :: slots t1) (inserted t + 1) (size t1) (max_size t1)).
  refine (eq_ind_r (fun o => returns o _) _ (place_bind t2 _ (mkPos (ref (inserted t + 1)) (hash_header h))
    (fun t => Done (_, t)))).
  eapply returns_bind.
  { apply (place_spec t2 p' v); [|apply Hi1|done|done].
    by destruct (ti_ring _ _ _ Hi1) as (k & ? & ? & ?); exists k. }
  intros t3 (l & -> & Hl & Hrh & Hp). apply returns_Done. split; [|done]. unfold t2 in *. record.
  assert (len (slots t1) <= len (slots t)) as Hsl by (apply prefix_length in Hpre; unfold len; lia).
  apply (inserted_result_intro N N None t t1 h _ l (slots t1)); [done..|].
  rewrite <-HT1. apply (table_inv_placed N t1 h l); rewrite ?HT1; try done.
  unfold capacity in *. rewrite (st_len _ _ Hst). lia.
Qed.

(** ** A field of a name that is there *)

(** The fields that share the name, where the code refers to the position [i]. *)
Definition named_at (t : EncTable.t) (h : Header.hd) (i : Z) (e : Header.hd) : Prop :=
  0 <= i < len (slots t) /\ headers t !! Z.to_nat i = Some e /\ Header.name e = Header.name h.

Lemma live_slot N pend t id :
  table_inv N pend t -> oldest t <= id <= inserted t ->
  exists s, get_at (slots t) (wrapping_add (ref id) (inserted t)) = Done s /\
    slots t !! Z.to_nat (inserted t - id) = Some s /\ Header.name (sheader s) = N id /\
    forall r, snext s = Some r -> id < ref r <= inserted t /\ N (ref r) = N id.
Proof.
  intros Hi Hid. pose proof (ti_bound _ _ _ Hi). pose proof (ti_pend _ _ _ Hi). pose proof (ti_inserted _ _ _ Hi).
  unfold oldest in Hid. rewrite real_idx by lia.
  destruct (lookup_lt_is_Some_2 (slots t) (Z.to_nat (inserted t - id))) as [s Hs]; [unfold len in *; lia|].
  exists s. unfold get_at. rewrite Hs. destruct (ti_slot _ _ _ Hi _ _ Hs) as (Hn & _ & Hl).
  replace (inserted t - Z.of_nat (Z.to_nat (inserted t - id))) with id in * by lia. done.
Qed.

Lemma pushed_linked N t t' h k s :
  table_inv N 0 t -> inserted t' = inserted t + 1 -> mask t' = mask t -> indices t' = indices t ->
  inserted t + 1 < 18446744073709551616 -> N (inserted t + 1) = Header.name h -> len (slots t) + 1 <= capacity t ->
  slots t !! k = Some s -> snext s = None -> Header.name (sheader s) = Header.name h ->
  slots t' = mkSlot (hash_header h) h None ::
    <[k := mkSlot (shash s) (sheader s) (Some (ref (inserted t + 1)))]> (slots t) ->
  table_inv N 0 t'.
Proof.
  intros Hi HT Hm Hix HTb HN Hcap Hs Hsn Hname Hsl. pose proof (lookup_lt_Some _ _ _ Hs) as Hlt.
  eapply (table_inv_pushed N 0 t t' h _ Hi); rewrite ?Hix; try done.
  - destruct (ti_ring _ _ _ Hi) as (k' & ? & ? & ?). exists k'. by rewrite Hix, Hm.
  - apply Hi.
  - by rewrite length_insert.
  - intros j s' Hj. destruct (decide (j = k)) as [->|].
    + rewrite list_lookup_insert_eq in Hj by done. simplify_eq. exists s. split_and!; [done..|]. right. split; [done|].
      rewrite HN, <-Hname. by destruct (ti_slot _ _ _ Hi _ _ Hs) as (-> & _).
    + rewrite list_lookup_insert_ne in Hj by done. exists s'. split_and!; [done..|by left].
  - intros pos ?. by left.
  - unfold refs. rewrite Hsl, Hix. cbn. rewrite ref_snoc by apply len_nonneg.
    destruct (omap_split snext (slots t) k s Hs) as (R & HR & HR'). rewrite HR'. rewrite Hsn in HR. cbn in *.
    pose proof (ti_refs _ _ _ Hi) as Hr. unfold refs in Hr. rewrite HR, Z.add_0_r in Hr. rewrite <-Hr.
    rewrite <-Permutation_middle. unfold oldest. 
    by replace (inserted t - len (slots t) + 1 + len (slots t)) with (inserted t + 1) by lia.
Qed.

Lemma pushed_pending N t t' h :
  table_inv N 1 t -> inserted t' = inserted t + 1 -> mask t' = mask t -> indices t' = indices t ->
  inserted t + 1 < 18446744073709551616 -> N (inserted t + 1) = Header.name h -> 
  slots t' = mkSlot (hash_header h) h None :: slots t ->
  table_inv N 0 t'.
Proof.
  intros Hi HT Hm Hix HTb HN Hsl.
  eapply (table_inv_pushed N 1 t t' h _ Hi); rewrite ?Hix; try done.
  - destruct (ti_ring _ _ _ Hi) as (k' & ? & ? & ?). exists k'. by rewrite Hix, Hm.
  - apply Hi.
  - apply Hi.
  - intros j s' Hj. exists s'. split_and!; [done..|by left].
  - intros pos ?. by left.
  - unfold refs. rewrite Hsl, Hix. cbn. apply (ti_refs _ _ _ Hi).
Qed.

Lemma lookup_cons_S {A} (x : A) l i : (x :: l) !! S i = l !! i.
Proof. done. Qed.

Lemma insert_cons_S {A} (x y : A) l i : <[S i := y]> (x :: l) = x :: <[i := y]> l.
Proof. done. Qed.

Lemma occupied_loop_spec N t h statik fuel : forall id,
  table_wf t -> table_inv N 0 t -> len (slots t) + 1 <= capacity t ->
  N (inserted t + 1) = Header.name h -> Header.len h <= max_size t ->
  inserted t + 1 < 18446744073709551616 ->
  oldest t <= id <= inserted t -> N id = Header.name h -> inserted t - id < Z.of_nat fuel ->
  returns (occupied_loop fuel t h (hash_header h) (ref id) statik) (fun '(r, t') => exists i e,
    named_at t h i e /\
    (r = Indexed (i + DYN_OFFSET) h /\ t' = t /\ Header.value_eq e h = true \/
     r = InsertedValue (match statik with Some n => n | None => i + DYN_OFFSET end) 0 /\
     inserted_result t h t')).
Proof.
  induction fuel as [|fuel IH]; intros id Hwf Hi Hcap HN Hlen HT Hid HNid Hf; [lia|]. cbn [occupied_loop].
  destruct (live_slot N 0 t id Hi Hid) as (s & -> & Hs & Hname & Hnext). cbn [obind].
  pose proof (ti_inserted _ _ _ Hi) as Hins.
  assert (wrapping_add (ref id) (inserted t) = inserted t - id) as -> by (apply real_idx; unfold oldest in Hid; lia).
  assert (named_at t h (inserted t - id) (sheader s)) as Hat.
  { split; [unfold oldest in Hid; lia|]. split; [unfold headers; by rewrite list_lookup_fmap, Hs|congruence]. }
  destruct (Header.value_eq (sheader s) h) eqn:Hv.
  { apply returns_Done. eexists _, _. split; [done|]. by left. }
  destruct (snext s) as [r|] eqn:Hsn.
  { destruct (Hnext r eq_refl) as [Hlt HNr]. rewrite <-(ref_ref r). apply IH; try done; [lia|congruence|lia]. }
  unfold Header.is_sensitive. cbn [negb]. pose proof (header_len_pos h) as Hpos.
  eapply returns_bind.
  { apply (update_size_spec N (Some (ref id)) t (Header.len h) Hwf Hi); [|lia|done].
    cbn. rewrite ref_ref. split_and!; [lia|congruence|lia|]. left. split; [done|]. by exists s. }
  intros [t1 evicted] [Hcv _]. pose proof Hcv as [_ _ _ Hpre Hst (pend & Hi1 & Hp)]. unfold insert. record.
  assert (inserted t1 = inserted t) as HT1 by apply Hst. assert (max_size t1 = max_size t) as Hm1 by apply Hst.
  pose proof (len_nonneg (slots t)). cbn in Hp. rewrite HT1, ref_ref in *.
  assert (wrapping_add (inserted t) 1 = inserted t + 1) as HTw by (apply Z.mod_small; lia).
  rewrite HTw. rewrite real_idx by (unfold oldest in Hid; lia).
  assert (len (slots t1) <= len (slots t)) as Hsl by (apply prefix_length in Hpre; unfold len; lia).
  pose proof (fun sl => inserted_result_intro N N _ t t1 h (mask t1) (indices t1) sl Hwf Hlen Hcv) as Hres.
  destruct Hp as (_ & _ & _ & [(-> & s1 & Hs1 & Hsn1)|[-> Hgone]]).
  - assert (inserted t + 1 - id < len (mkSlot (hash_header h) h None :: slots t1)) as Hlt.
    { apply lookup_lt_Some in Hs1. unfold len in *. cbn. lia. }
    rewrite (proj2 (Z.ltb_lt _ _)) by done.
    assert (Z.to_nat (inserted t + 1 - id) = S (Z.to_nat (inserted t - id))) as Hnat by lia.
    unfold get_at, put_at. rewrite (proj2 (Z.ltb_lt _ _)) by done. rewrite Hnat.
    rewrite lookup_cons_S, Hs1. cbn [unwrap obind]. rewrite insert_cons_S.
    apply returns_Done. eexists _, _. split; [done|]. right. split; [by destruct statik|].
    rewrite ref_new by lia. apply Hres.
    + unfold headers. rewrite list_fmap_insert. cbn. apply list_insert_id. by rewrite list_lookup_fmap, Hs1.
    + assert (Header.name (sheader s1) = Header.name h) as Hn1.
      { rewrite <-HNid. destruct (live_slot N 0 t1 id Hi1) as (s2 & _ & Hs2 & Hn2 & _).
        - apply lookup_lt_Some in Hs1. unfold oldest, len in *. lia.
        - rewrite HT1 in Hs2. congruence. }
      eapply (pushed_linked N t1 _ h _ s1 Hi1); cbn; rewrite ?HT1; try done.
      unfold capacity in *. rewrite (st_len _ _ Hst). lia.
  - rewrite (proj2 (Z.ltb_ge _ _)) by (unfold oldest, len in *; cbn; lia). cbn [obind]. apply returns_Done.
    eexists _, _. split; [done|]. right. split; [by destruct statik|]. apply Hres; [done|].
    eapply (pushed_pending N t1 _ h Hi1); cbn; by rewrite ?HT1.
Qed.

(** ** Indexing *)

(** The table is as it was, as its clients see it. *)
Definition kept (t t' : EncTable.t) : Prop :=
  table_wf t' /\ headers t' = headers t /\ max_size t' = max_size t /\ inserted t' = inserted t.

(** What [index] answers for [h]: an index that means [h], and the table unchanged; or an
    index whose name is that of [h], and [h] inserted. *)
Definition index_ok (t : EncTable.t) (h : Header.hd) (r : Index) (t' : EncTable.t) : Prop :=
  kept t t' /\
    (r = new_index (index_static h) h \/
     (forall n, index_static h <> Some (n, true)) /\
     exists i e, named_at t h i e /\ Header.value_eq e h = true /\ r = Indexed (i + DYN_OFFSET) h) \/
  inserted_result t h t' /\ Header.len h <= max_size t /\ (forall n, index_static h <> Some (n, true)) /\
    (r = Inserted 0 /\ index_static h = None \/
     (exists n, index_static h = Some (n, false) /\ r = InsertedValue n 0) \/
     exists i e, named_at t h i e /\ r = InsertedValue (i + DYN_OFFSET) 0).

(** The same, with the static index the code has at hand. *)
Definition probe_ok (t : EncTable.t) (h : Header.hd) (statik : option (Z * bool)) (r : Index) (t' : EncTable.t) : Prop :=
  inserted_result t h t' /\ r = match statik with Some (n, _) => InsertedValue n 0 | None => Inserted 0 end \/
  exists i e, named_at t h i e /\
    (r = Indexed (i + DYN_OFFSET) h /\ t' = t /\ Header.value_eq e h = true \/
     r = InsertedValue (match option_map fst statik with Some n => n | None => i + DYN_OFFSET end) 0 /\
     inserted_result t h t').

Lemma probe_index_spec t h statik N :
  table_wf t -> table_inv N 0 t -> len (slots t) + 1 <= capacity t ->
  N (inserted t + 1) = Header.name h -> Header.len h <= max_size t ->
  inserted t + 1 < 18446744073709551616 ->
  returns (probe_index t h (hash_header h) statik) (fun '(r, t') => probe_ok t h statik r t').
Proof.
  intros Hwf Hi Hcap HN Hlen HT. pose proof (ti_ring _ _ _ Hi) as Hr. pose proof (ring_len t Hr) as Hring.
  unfold probe_index. set (c := len (indices t)) in *. set (hash := hash_header h) in *.
  destruct (inv_vacant _ _ _ Hi) as (v & Hv). set (iv := (v - hash) mod c).
  pose proof (Z.mod_pos_bound (v - hash) c ltac:(lia)) as Hiv. fold iv in Hiv.
  rewrite (ring_desired _ _ Hr). fold c.
  apply (probing_returns c (iv + 1) _ hash _ _ (fun i dist => dist = i /\
    (i = 0 \/ i - 1 <= depth (indices t) (hash + (i - 1))))); [lia|lia|by left|lia|split; [done|by left]|].
  intros i dist Hb [-> Hprev]. rewrite (get_ring _ c) by (done || lia). cbn [obind].
  set (p := hash + i) in *.
  assert (stopped t h p i \/ i <= depth (indices t) p) as Hwhere.
  { destruct (decide (i <= depth (indices t) p)) as [|Hlt]; [by right|left]. split; [|split; [lia|]].
    - unfold RobinHood.dist, p. fold c hash. replace (hash + i - hash) with i by lia. symmetry. apply Z.mod_small. lia.
    - replace (p - 1) with (hash + (i - 1)) by (unfold p; lia). done. }
  match goal with |- returns _ ?Q => assert (stopped t h p i ->
    returns (let! r := index_vacant t h hash i (p mod c) statik in Done (inr r)) Q) as Hvacant end.
  { intros Hs. eapply returns_bind; [by apply (index_vacant_spec t h p i statik N)|].
    intros [r t'] Hres. apply returns_Done. by left. }
  destruct (cell (indices t) p) as [pos|] eqn:Hc; cycle 1.
  { destruct Hwhere as [Hs|Hd]; [by apply Hvacant|]. rewrite (depth_none _ _ Hc) in Hd. lia. }
  rewrite (ring_distance _ _ _ Hr). fold c. rewrite dist_mod. fold c. 
  pose proof (depth_some _ _ _ Hc) as Hd. fold c in Hd. rewrite <-Hd.
  destruct (Z.ltb_spec (depth (indices t) p) i) as [Hlt|Hge].
  { destruct Hwhere as [Hs|]; [by apply Hvacant|lia]. }
  assert (pindex pos ∈ refs t) as Hin.
  { unfold refs. apply elem_of_app. left. apply cell_entry in Hc. by apply list_elem_of_In, in_map, list_elem_of_In. }
  rewrite (ti_refs _ _ _ Hi) in Hin. apply list_elem_of_fmap in Hin as (id & Hid & Hrange). apply elem_of_seqZ in Hrange.
  assert (oldest t <= id <= inserted t) as Hlive by (unfold oldest in *; lia).
  destruct (live_slot N 0 t id Hi Hlive) as (s & Hs & _ & Hname & _). rewrite Hid, Hs.
  eapply (returns_bind _ _ (fun same : bool => same = true -> N id = Header.name h)).
  { destruct (_ =? _); apply returns_Done; [|done]. rewrite <-Hname. by intros ?%bool_decide_eq_true. }
  intros [] Hsame.
  - eapply returns_bind.
    { apply (occupied_loop_spec N t h (option_map fst statik) (length (slots t)) id); try done; [by apply Hsame|].
      unfold oldest, len in *. lia. }
    intros [r t'] Hres. apply returns_Done. by right.
  - apply returns_Done. split; [|split; [done|right]].
    + destruct (decide (i = iv)) as [Hx|]; [|lia]. exfalso.
      rewrite (cell_ring _ p v) in Hc; [congruence|]. unfold p. rewrite Hx. apply steps_to. fold c. lia.
    + by replace (i + 1 - 1) with i by lia.
Qed.

Lemma index_dynamic_spec t h :
  table_wf t -> Header.len h <= max_size t -> inserted t + 1 < 18446744073709551616 ->
  (forall n, index_static h <> Some (n, true)) ->
  returns (index_dynamic t h (index_static h)) (fun '(r, t') => index_ok t h r t').
Proof.
  intros Hwf Hlen HT Hst. unfold index_dynamic. pose proof (header_len_pos h) as Hpos.
  assert (0 <= size t <= u32_max) as Hsz.
  { rewrite (wf_size _ Hwf). pose proof (sizes_nonneg (headers t)). destruct Hwf as [? ? ? _]. lia. }
  pose proof (wf_max _ Hwf). rewrite checked_ok by (unfold_ints; lia). cbn [obind].
  unfold Header.is_sensitive at 1. cbn [negb]. rewrite orb_true_r.
  eapply returns_bind; [by apply reserve_one_spec|].
  intros t1 (l & m & -> & Hwf1 & (N & Hi) & Hcap). set (t1 := t <| indices := l |> <| mask := m |>) in *.
  destruct (indices t1) as [|x0 l0] eqn:Hl.
  { pose proof (ring_len t1 (ti_ring _ _ _ Hi)) as Hr. rewrite Hl in Hr. change (len []) with 0 in Hr. lia. }
  set (N' := fun id => if id =? inserted t1 + 1 then Header.name h else N id).
  assert (N' (inserted t1 + 1) = Header.name h) as HN' by (unfold N'; by rewrite Z.eqb_refl).
  assert (table_inv N' 0 t1) as Hi'.
  { apply (table_inv_ext N); [|done]. intros id Hid. unfold N'. by destruct (Z.eqb_spec id (inserted t1 + 1)); [lia|]. }
  eapply returns_mono; [by apply (probe_index_spec t1 h (index_static h) N')|].
  intros [r t'] [[Hres ->]|(i & e & Hat & [(-> & -> & Hv)|[-> Hres]])].
  - right. split_and!; [done..|]. destruct (index_static h) as [[n []]|]; [by destruct (Hst n)|right; left; by exists n|by left].
  - left. split; [done|]. right. split; [done|]. by exists i, e.
  - right. split_and!; [done..|]. destruct (index_static h) as [[n []]|]; [by destruct (Hst n)|right; left; by exists n|].
    right. right. by exists i, e.
Qed.

Lemma static_name_found c : In c (map fst static_names) -> static_field (const_header c) <> None.
Proof.
  intros (q & <- & Hq)%in_map_iff. unfold static_field.
  destruct (find _ static_names) as [x|] eqn:Hf; [done|]. exfalso.
  apply (find_none _ _ Hf) in Hq. destruct q as [c n]. cbn in Hq. by apply bool_decide_eq_false in Hq.
Qed.

(** The names whose values are not worth indexing have a static index. *)
Lemma skipped_static h : Header.skip_value_index h = true -> index_static h <> None.
Proof.
  destruct h as [n v| | | |p| |]; try done; [|intros _; cbn; by repeat case_on].
  unfold Header.skip_value_index, index_static. intros (c & Hc & ->%bool_decide_eq_true)%existsb_exists.
  assert (static_field (const_header c) <> None) as Hs.
  { apply static_name_found. vm_compute in Hc |- *. tauto. }
  destruct (static_field _); [|done]. by repeat case_on.
Qed.

Lemma index_spec t h :
  table_wf t -> Header.len h <= u32_max -> inserted t + 1 < 18446744073709551616 ->
  returns (index t h) (fun '(r, t') => index_ok t h r t').
Proof.
  intros Hwf Hlen HT. unfold index. pose proof (header_len_pos h) as Hpos. pose proof (wf_max _ Hwf) as Hm.
  assert (forall r, r = new_index (index_static h) h -> index_ok t h r t) as Hnew by (intros r ->; left; by split; [|left]).
  destruct (Header.skip_value_index h) eqn:Hskip.
  { apply skipped_static in Hskip. destruct (index_static h) eqn:Hs; [|done]. cbn [assert obind].
    apply returns_Done. by apply Hnew. }
  destruct (index_static h) as [[n []]|] eqn:Hs; [apply returns_Done; by apply Hnew|..].
  all: rewrite !checked_ok by (unfold_ints; lia); cbn [obind].
  all: destruct (Z.gtb_spec (Header.len h * 4) (max_size t * 3)); [by apply returns_Done, Hnew|].
  all: rewrite <-Hs; apply index_dynamic_spec; [done|lia|done|congruence].
Qed.

(** ** The component *)

Lemma raw_capacity_bound n : 0 < n <= 2 ^ 61 -> 0 < to_raw_capacity n <= 2 ^ 62.
Proof.
  intros Hn. unfold to_raw_capacity. pose proof (Z.div_mod n 3 ltac:(lia)). pose proof (Z.mod_pos_bound n 3). lia.
Qed.

Lemma next_power_of_two_spec n : 0 < n <= 2 ^ 62 -> exists k, 0 <= k <= 62 /\ next_power_of_two n = 2 ^ k.
Proof.
  intros Hn. unfold next_power_of_two. destruct (Z.leb_spec n 1); [by exists 0|].
  exists (Z.log2_up n). split; [|done]. split; [apply Z.log2_up_nonneg|].
  apply Z.log2_up_le_pow2; lia.
Qed.

Lemma new_wf max_size cap : 0 <= max_size <= u32_max -> 0 <= cap <= 2 ^ 61 -> table_wf (new max_size cap).
Proof.
  intros Hm Hcap. unfold new. destruct (Z.eqb_spec cap 0) as [|Hne].
  { split; cbn; [done|lia|lia|by right]. }
  destruct (next_power_of_two_spec (to_raw_capacity cap)) as (k & Hk & ->); [apply raw_capacity_bound; lia|].
  assert (exists k', 3 <= k' <= 62 /\ Z.max (2 ^ k) 8 = 2 ^ k') as (k' & Hk' & ->).
  { destruct (decide (3 <= k)).
    - exists k. split; [lia|]. apply Z.max_l. change 8 with (2 ^ 3). apply Z.pow_le_mono_r; lia.
    - exists 3. split; [lia|]. apply Z.max_r. change 8 with (2 ^ 3). apply Z.pow_le_mono_r; lia. }
  assert (0 < 2 ^ k' <= 2 ^ 62) as Hb by (split; [lia|apply Z.pow_le_mono_r; lia]).
  split; cbn; [done|lia|lia|]. left. exists (fun _ => Header.NMethod). apply table_inv_empty; cbn.
  - exists k'. cbn. rewrite len_repeat by lia. split; [done|]. split; [done|].
    unfold wrapping_sub, wrap_u64. apply Z.mod_small. lia.
  - apply entries_repeat.
  - apply robin_hood_repeat.
  - done.
  - lia.
Qed.

(** C17: the encoder's table implements the dynamic table of RFC 7541: from a new table,
    and after any operation, indexing a field and resizing never panic; indexing leaves
    the fields alone or puts the new one in front and evicts the oldest until the rest
    fits, and answers an index that is right about the field (its position in the static
    or dynamic table when name and value are there, a position of its name when it was
    inserted under a name that is there); resizing keeps the newest fields that fit. *)
Theorem enc_table_fifo t h sz :
  table_wf t -> Header.len h <= u32_max -> 0 <= sz <= u32_max -> inserted t + 1 < 18446744073709551616 ->
  (forall cap, 0 <= cap <= 2 ^ 61 -> table_wf (new sz cap)) /\
  (exists r t', index t h = Done (r, t') /\ table_wf t' /\ max_size t' = max_size t /\ index_ok t h r t' /\
     (headers t' = headers t \/ headers t' = fit (max_size t) (h :: headers t))) /\
  (exists t', resize t sz = Done t' /\ table_wf t' /\ max_size t' = sz /\ headers t' = fit sz (headers t)).
Proof.
  intros Hwf Hlen Hsz HT. split_and!.
  - intros cap Hcap. by apply new_wf.
  - destruct (index_spec t h Hwf Hlen HT) as ([r t'] & He & Hok). exists r, t'.
    assert (table_wf t' /\ max_size t' = max_size t /\
      (headers t' = headers t \/ headers t' = fit (max_size t) (h :: headers t))) as (? & ? & ?); [|done].
    destruct Hok as [[(? & ? & ? & _) _]|((? & ? & ? & _) & _)]; (split_and!; [done..|]); [by left|by right].
  - destruct (resize_spec t sz Hwf Hsz HT) as (t' & He & Hwf' & Hh & Hm & _). by exists t'.
Qed.

End ops.
