(* ===== verification/HpackEncoder.v ===== *)
(** * The HPACK encoder

    Models [Encoder] of [src/src/hpack/encoder.rs]: the table, the size update that is
    due, and the encoding of a header list.  The iterator of a header list is the list of
    its items. *)

From S2P Require Import Prelude FrameBase HpackInt HpackHeader HpackDecoder HpackStrings HpackTable.

(** [enum SizeUpdate] *)
Inductive SizeUpdate : Type :=
| One (val : Z)
| Two (min max : Z).

Module Encoder.

Section encoder.
Context `{HeaderPlz} `{!NameHash}.

Record t : Type := mk {
  table : EncTable.t;
  size_update : option SizeUpdate
}.

#[global] Instance eta_t : Eta t := fun e => mk (table e) (size_update e).

Definition new (max_size capacity : Z) : t := mk (EncTable.new max_size capacity) None.

(** [impl Default] *)
Definition default : t := new 4096 0.

Definition update_max_size (self : t) (val : Z) : t :=
  match size_update self with
  | Some (One old) =>
      if val >? old then
        if old >? EncTable.max_size (table self) then self <| size_update := Some (One val) |>
        else self <| size_update := Some (Two old val) |>
      else self <| size_update := Some (One val) |>
  | Some (Two min _) =>
      if val <? min then self <| size_update := Some (One val) |>
      else self <| size_update := Some (Two min val) |>
  | None =>
      if negb (val =? EncTable.max_size (table self)) then self <| size_update := Some (One val) |>
      else self
  end.

Definition encode_size_updates (self : t) (dst : bytes) : outcome (t * bytes) :=
  let update := size_update self in
  let self := self <| size_update := None |> in
  match update with
  | Some (One val) =>
      let! tb := EncTable.resize (table self) val in
      let! dst := encode_size_update val dst in
      Done (self <| table := tb |>, dst)
  | Some (Two min max) =>
      let! tb := EncTable.resize (table self) min in
      let! tb := EncTable.resize tb max in
      let! dst := encode_size_update min dst in
      let! dst := encode_size_update max dst in
      Done (self <| table := tb |>, dst)
  | None => Done (self, dst)
  end.

Definition encode_header (self : t) (index : Index) (dst : bytes) : outcome bytes :=
  match index with
  | Indexed idx _ => encode_int idx 7 128 dst
  | IName idx _ =>
      let! header := EncTable.resolve (table self) index in
      encode_not_indexed idx (Header.value_slice header) (Header.is_sensitive header) dst
  | Inserted _ =>
      let! header := EncTable.resolve (table self) index in
      let! _ := assert (negb (Header.is_sensitive header)) in
      let dst := dst ++ [64] in
      let! dst := encode_str (Header.as_slice (Header.name header)) dst in
      encode_str (Header.value_slice header) dst
  | InsertedValue idx _ =>
      let! header := EncTable.resolve (table self) index in
      let! _ := assert (negb (Header.is_sensitive header)) in
      let! dst := encode_int idx 6 64 dst in
      encode_str (Header.value_slice header) dst
  | NotIndexed _ =>
      let! header := EncTable.resolve (table self) index in
      encode_not_indexed2 (Header.as_slice (Header.name header)) (Header.value_slice header)
        (Header.is_sensitive header) dst
  end.

Definition encode_header_without_name (self : t) (last : Index) (value : BytesStr.t) (dst : bytes) :
    outcome bytes :=
  match last with
  | Indexed _ _ | IName _ _ | Inserted _ | InsertedValue _ _ =>
      let! idx := EncTable.resolve_idx last in
      encode_not_indexed idx value false dst
  | NotIndexed _ =>
      let! last := EncTable.resolve (table self) last in
      encode_not_indexed2 (Header.as_slice (Header.name last)) value false dst
  end.

(** The [for] loop of [encode]. *)
Fixpoint encode_loop (self : t) (last_index : option Index)
    (headers : list (Header.t (option BytesStr.t))) (dst : bytes) : outcome (t * bytes) :=
  match headers with
  | [] => Done (self, dst)
  | header :: headers =>
      match Header.reify header with
      | Ok header =>
          let! (index, tb) := EncTable.index (table self) header in
          let self := self <| table := tb |> in
          let! dst := encode_header self index dst in
          encode_loop self (Some index) headers dst
      | Err value =>
          let! last := unwrap last_index in
          let! dst := encode_header_without_name self last value dst in
          encode_loop self last_index headers dst
      end
  end.

Definition encode (self : t) (headers : list (Header.t (option BytesStr.t))) (dst : bytes) :
    outcome (t * bytes) :=
  let! (self, dst) := encode_size_updates self dst in
  encode_loop self None headers dst.

End encoder.

End Encoder.
