(* ===== verification/HpackEncoderFacts.v ===== *)
(** * The encoder against the decoder

    What [Encoder.encode] writes is read back by [Decoder.decode], and the two dynamic
    tables stay equal.  The proof goes representation by representation: the octets of
    each are decoded in one round of the loop ([decodes]), or, cut before their end, make
    the decoder ask for more; a block is a sequence of such rounds ([good]), wherever it is
    cut into fragments. *)

From Stdlib Require Import String.
From S2P Require Import Prelude Effects FrameBase HpackInt Huffman HpackHeader HpackDecoder HpackDecoderFacts HpackStrings HpackCut HpackTable HpackTableInv HpackTableOps HpackEncoder.
Local Open Scope Z_scope.

Section facts.
Context `{HeaderPlz} `{!NameHash} `{!HeaderPlzLaws _} `{!NameHashLaws _}.

Implicit Types (d : Decoder.t) (h : Header.hd).

(** ** One representation *)

Lemma int_octets_first v p first :
  1 <= p <= 8 -> 0 <= v ->
  exists b rest, int_octets v p first = Z.lor first b :: rest /\ 0 <= b < 2 ^ p.
Proof.
  intros Hp Hv. unfold int_octets, encode_int_one_byte.
  assert (Z.shiftl 1 p = 2 ^ p) as Hsh by (rewrite Z.shiftl_mul_pow2; lia).
  assert (2 ^ p <= 2 ^ 8) as Hle by (apply Z.pow_le_mono_r; lia). change (2 ^ 8) with 256 in Hle.
  assert (0 < 2 ^ p) by lia. rewrite Hsh.
  destruct (Z.ltb_spec v (2 ^ p - 1)); eexists _, _; (split; [reflexivity|]); rewrite wrap_u8_id by ilia; lia.
Qed.

#[local] Instance representation_eq_dec : EqDecision Representation.t.
Proof. solve_decision. Defined.

(** The first octet tells the representation, whatever the low bits. *)
Lemma load_first p first b r :
  forallb (fun n => match Representation.load (Z.lor first (Z.of_nat n)) with
    | Ok x => bool_decide (x = r) | Err _ => false end) (seq 0 (2 ^ p)) = true ->
  0 <= b < Z.of_nat (2 ^ p) -> Representation.load (Z.lor first b) = Ok r.
Proof.
  intros Hall Hb. rewrite forallb_forall in Hall.
  specialize (Hall (Z.to_nat b)). rewrite Z2Nat.id in Hall by lia.
  specialize (Hall ltac:(apply in_seq; lia)).
  destruct (Representation.load _); [|done]. by apply bool_decide_eq_true in Hall as ->.
Qed.

(** One round of the decoder over the octets, whatever follows them: [d] becomes [d'],
    [out] is answered. *)
Definition round (octets : bytes) (b b' : bool) d d' (out : list Header.hd) : Prop :=
  forall rest out0, exists ty, peek_u8 (octets ++ rest) = Some ty /\
    Decoder.decode_one ty b (Decoder.st d (Cursor.mk (octets ++ rest) 0) out0) =
      Done (Ok b', Decoder.st d' (Cursor.mk rest 0) (out0 ++ out)).

(** Cut before their end, they make the decoder ask for more, and nothing has changed. *)
Definition stalls (octets : bytes) (b : bool) d : Prop :=
  forall p q out, octets = p ++ q -> p <> [] -> q <> [] ->
    exists ty, peek_u8 p = Some ty /\ wants (Decoder.decode_one ty b) d [] p out.

(** The octets of the representation of a field. *)
Definition decodes (octets : bytes) d d' h : Prop :=
  forall b, round octets b false d d' [h] /\ stalls octets b d.

Lemma decode_string_at d pre val huff rest out :
  all_u8 val -> huffman_of val huff -> Decoder.buffer d = [] ->
  exists pre', Decoder.decode_string (Decoder.st d
      (Cursor.mk (pre ++ str_octets val huff ++ rest) (length pre)) out) =
    Done (Ok val, Decoder.st d (Cursor.mk (pre' ++ rest) (length pre')) out).
Proof.
  intros Hval Hh Hbuf. unfold Decoder.decode_string. rewrite (bind_ok _ _ _ _ _ eq_refl).
  erewrite bind_ok; [|by apply try_decode_string_at].
  unfold Decoder.set_position.
  erewrite bind_ok; [|unfold Decoder.on_cursor, Decoder.modify; done].
  cbn [Decoder.cur Decoder.dec Decoder.out Cursor.set_position Cursor.buf Cursor.pos]. rewrite <-app_assoc.
  destruct (consume_marker_at d pre val huff rest out Hval Hh) as (pre' & rest' & Hc & ->). by exists pre'.
Qed.

(** A literal whose name is the entry [idx]. *)
Definition named_octets (index : bool) (idx : Z) (value vh : bytes) : bytes :=
  int_octets idx (literal_prefix index) (literal_flag index) ++ str_octets value vh.

Lemma decode_literal_named index d idx e value vh rest out :
  1 <= idx < 2 ^ 28 -> DecTable.get (Decoder.table d) idx = Done (Ok e) ->
  all_u8 value -> huffman_of value vh -> Decoder.buffer d = [] ->
  exists pre', Decoder.decode_literal index (Decoder.st d
      (Cursor.mk (named_octets index idx value vh ++ rest) 0) out) =
    Done (Header.into_entry (Header.name e) value, Decoder.st d (Cursor.mk (pre' ++ rest) (length pre')) out).
Proof.
  intros Hidx Hget Hv Hvh Hbuf. unfold named_octets, Decoder.decode_literal. rewrite <-app_assoc.
  erewrite bind_ok.
  2: { apply (decode_int_at d [] idx (literal_prefix index) (literal_flag index) (str_octets value vh ++ rest) out);
    [by destruct index|by destruct index|ilia|].
    assert (2 ^ 28 <= 2 ^ literal_prefix index - 1 + 2 ^ 28) by (by destruct index). lia. }
  cbv beta. destruct (Z.eqb_spec idx 0); [lia|].
  erewrite bind_ok; [|unfold Decoder.table_get; cbn [Decoder.dec]; rewrite Hget; reflexivity].
  destruct (decode_string_at d ([] ++ int_octets idx (literal_prefix index) (literal_flag index)) value vh rest out Hv Hvh Hbuf)
    as (pre' & Hs).
  erewrite bind_ok; [|exact Hs]. by exists pre'.
Qed.

Lemma decodes_indexed d idx h :
  1 <= idx < 2 ^ 28 -> DecTable.get (Decoder.table d) idx = Done (Ok h) ->
  decodes (int_octets idx 7 128) d d h.
Proof.
  intros Hidx Hget b. destruct (int_octets_first idx 7 128) as (x & tl & Hx & Hb); [lia..|].
  split; [intros rest out|intros p q out Ho Hp Hq]; exists (Z.lor 128 x).
  2: { split; [destruct p; [done|]; rewrite Hx in Ho; by injection Ho as -> _|].
    unfold wants, Decoder.decode_one.
    erewrite bind_ok; [|unfold Decoder.lift_result; by rewrite (load_first 7 128 x Representation.Indexed)].
    cbv beta iota. apply wants_bind, wants_bind. apply (wants_int d [] p q idx 7 128); done || (try ilia). }
  rewrite Hx at 1. split; [done|]. unfold Decoder.decode_one.
  erewrite bind_ok.
  2: { unfold Decoder.lift_result. by rewrite (load_first 7 128 x Representation.Indexed). }
  cbv beta iota. unfold Decoder.decode_indexed.
  rewrite (bind_ok (Decoder.bind _ _) _ _ h (Decoder.st d (Cursor.mk (([] ++ int_octets idx 7 128) ++ rest)
    (length ([] ++ int_octets idx 7 128))) out)).
  - cbv beta. erewrite bind_ok; [|apply consume_at]. done.
  - erewrite bind_ok; [|apply (decode_int_at d [] idx 7 128 rest out); done || (try ilia)].
    unfold Decoder.table_get. cbn [Decoder.dec]. by rewrite Hget.
Qed.

(** Literals, with and without indexing; [m] is what reads the field. *)
Lemma decodes_literal_of index octets d h :
  (exists x tl, octets = Z.lor (literal_flag index) x :: tl /\ 0 <= x < 2 ^ literal_prefix index) ->
  (forall rest out, exists pre', Decoder.decode_literal index (Decoder.st d (Cursor.mk (octets ++ rest) 0) out) =
     Done (Ok h, Decoder.st d (Cursor.mk (pre' ++ rest) (length pre')) out)) ->
  (forall p q out, octets = p ++ q -> p <> [] -> q <> [] -> wants (Decoder.decode_literal index) d [] p out) ->
  forall tb, (if index then DecTable.insert (Decoder.table d) h = Done tb else tb = Decoder.table d) ->
  decodes octets d (Decoder.with_table d tb) h.
Proof.
  intros (x & tl & -> & Hx) Hlit Hcut tb Htb b.
  assert (Representation.load (Z.lor (literal_flag index) x) =
    Ok (if index then Representation.LiteralWithIndexing else Representation.LiteralWithoutIndexing)) as Hload
    by (destruct index; [by apply (load_first 6 64)|by apply (load_first 4 0)]).
  split; [intros rest out|intros p q out Ho Hp Hq]; exists (Z.lor (literal_flag index) x).
  2: { split; [destruct p; [done|]; by injection Ho as -> _|]. specialize (Hcut p q out Ho Hp Hq).
    unfold wants, Decoder.decode_one. erewrite bind_ok; [|unfold Decoder.lift_result; by rewrite Hload].
    destruct index; by apply wants_bind. }
  split; [done|]. unfold Decoder.decode_one. destruct (Hlit rest out) as (pre' & Hl).
  destruct index; cbn [literal_flag literal_prefix] in *.
  - erewrite bind_ok; [|unfold Decoder.lift_result; by rewrite (load_first 6 64 x Representation.LiteralWithIndexing)].
    cbv beta iota. erewrite bind_ok; [|exact Hl]. cbv beta.
    erewrite bind_ok.
    2: { unfold Decoder.on_table, Decoder.modify. cbn [Decoder.dec]. rewrite Htb. done. }
    cbn [Decoder.cur Decoder.out]. erewrite bind_ok; [|apply consume_at]. done.
  - erewrite bind_ok; [|unfold Decoder.lift_result; by rewrite (load_first 4 0 x Representation.LiteralWithoutIndexing)].
    cbv beta iota. erewrite bind_ok; [|exact Hl]. cbv beta.
    erewrite bind_ok; [|apply consume_at]. subst tb. by destruct d.
Qed.

Lemma decodes_named index d idx e value vh h tb :
  1 <= idx < 2 ^ 28 -> DecTable.get (Decoder.table d) idx = Done (Ok e) ->
  all_u8 value -> huffman_of value vh -> Decoder.buffer d = [] ->
  Header.into_entry (Header.name e) value = Ok h ->
  (if index : bool then DecTable.insert (Decoder.table d) h = Done tb else tb = Decoder.table d) ->
  decodes (named_octets index idx value vh) d (Decoder.with_table d tb) h.
Proof.
  intros Hidx Hget Hv Hvh Hbuf Hent Htb. apply (decodes_literal_of index); [| | |done].
  - destruct (int_octets_first idx (literal_prefix index) (literal_flag index)) as (x & tl & Hx & Hb);
      [by destruct index|lia|]. unfold named_octets. rewrite Hx. by exists x, (tl ++ str_octets value vh).
  - intros rest out. rewrite <-Hent. by apply decode_literal_named.
  - intros p q out Ho _ Hq. by apply (wants_literal_named index d p q idx e value vh).
Qed.

Lemma decodes_new index d name nh value vh h tb :
  all_u8 name -> all_u8 value -> huffman_of name nh -> huffman_of value vh -> Decoder.buffer d = [] ->
  Header.new name value = Ok h ->
  (if index : bool then DecTable.insert (Decoder.table d) h = Done tb else tb = Decoder.table d) ->
  decodes (literal_octets index name nh value vh) d (Decoder.with_table d tb) h.
Proof.
  intros Hn Hv Hnh Hvh Hbuf Hnew Htb. apply (decodes_literal_of index); [| | |done].
  - exists 0. eexists. split; [|by destruct index]. unfold literal_octets. by destruct index.
  - intros rest out. rewrite <-Hnew. by apply decode_literal_at.
  - intros p q out. by apply wants_literal_new.
Qed.

(** The value of a well-formed field, with the name of the field, is the field. *)
Lemma into_entry_wf h : Header.wf h -> Header.into_entry (Header.name h) (Header.value_slice h) = Ok h.
Proof.
  intros [Hv Hw]. destruct h; cbn in *; unfold Protocol.try_from, BytesStr.try_from; rewrite ?Hw; try done.
  - by rewrite method_from_as_ref.
  - by destruct v.
  - by rewrite status_from_as_str.
Qed.

(** ** The static table *)

(** The value the static entry has, for a field whose value equals it but for case. *)
Definition canon h : Header.hd :=
  match h, index_static h with
  | Header.Field n _, Some (16, true) => Header.Field n (str "gzip, deflate")
  | _, _ => h
  end.

Lemma index_static_field n v :
  index_static (Header.Field n v) = option_map (fun i => (i, (i =? 16) && BytesStr.eq_str v (str "gzip, deflate"))) (static_field n).
Proof.
  unfold index_static. destruct (static_field n) as [i|]; [|done]. cbn [option_map].
  destruct (Z.eqb_spec i 16) as [->|Hne]; [done|]. cbn [andb]. by repeat case_on.
Qed.

Lemma canon_field n v :
  canon (Header.Field n v) =
    if bool_decide (static_field n = Some 16) && BytesStr.eq_str v (str "gzip, deflate")
    then Header.Field n (str "gzip, deflate") else Header.Field n v.
Proof.
  unfold canon. rewrite index_static_field. destruct (static_field n) as [i|]; [|done]. cbn [option_map].
  destruct (Z.eqb_spec i 16) as [->|Hne].
  - rewrite bool_decide_true by done. cbn [andb]. by destruct (BytesStr.eq_str _ _).
  - rewrite bool_decide_false by congruence. cbn [andb]. by repeat case_on.
Qed.

Lemma canon_pseudo h : (forall n v, h <> Header.Field n v) -> canon h = h.
Proof. intros Hn. destruct h as [n v| | | | | |]; [by destruct (Hn n v)|done..]. Qed.

Lemma canon_name h : Header.name (canon h) = Header.name h.
Proof. destruct h as [n v| | | | | |]; [rewrite canon_field; by destruct (_ && _)|done..]. Qed.

(** [canon] changes a value only in the case of its letters. *)
Lemma canon_value h : BytesStr.eq_str (Header.value_slice (canon h)) (Header.value_slice h) = true.
Proof.
  assert (forall v, BytesStr.eq_str v v = true) as Hr by (intros v; apply bool_decide_eq_true; done).
  destruct h as [n v| | | | | |]; [|apply Hr..]. rewrite canon_field.
  destruct (_ && _) eqn:Hb; [|apply Hr]. apply andb_true_iff in Hb as [_ Hv].
  apply bool_decide_eq_true in Hv. apply bool_decide_eq_true. done.
Qed.

Lemma static_field_spec n i :
  static_field n = Some i ->
  15 <= i <= 61 /\ exists v, Header.get_static i = Done (Header.Field n v) /\
    (i = 16 -> v = str "gzip, deflate").
Proof.
  unfold static_field. destruct (find _ static_names) as [[c j]|] eqn:Hf; [|done]. intros [= ->].
  apply find_some in Hf as [Hin ->%bool_decide_eq_true].
  repeat (destruct Hin as [[= <- <-]|Hin]; [split; [lia|]; eexists; split; [reflexivity|done]|]). done.
Qed.

(** The seven status codes of the static table. *)
Lemma status_constants s :
  (status_u16 s = 200 /\ exists e, Header.get_static 8 = Done (Header.Status e) /\ e = s) \/
  (status_u16 s = 204 /\ exists e, Header.get_static 9 = Done (Header.Status e) /\ e = s) \/
  (status_u16 s = 206 /\ exists e, Header.get_static 10 = Done (Header.Status e) /\ e = s) \/
  (status_u16 s = 304 /\ exists e, Header.get_static 11 = Done (Header.Status e) /\ e = s) \/
  (status_u16 s = 400 /\ exists e, Header.get_static 12 = Done (Header.Status e) /\ e = s) \/
  (status_u16 s = 404 /\ exists e, Header.get_static 13 = Done (Header.Status e) /\ e = s) \/
  (status_u16 s = 500 /\ exists e, Header.get_static 14 = Done (Header.Status e) /\ e = s) \/
  ~ In (status_u16 s) [200; 204; 206; 304; 400; 404; 500].
Proof.
  assert (forall k e, status_u16 e = k -> status_u16 s = k -> e = s) as Hinj.
  { intros k e Hk Hs. apply status_u16_inj. congruence. }
  pose proof (Hinj _ _ status_u16_OK). pose proof (Hinj _ _ status_u16_NO_CONTENT).
  pose proof (Hinj _ _ status_u16_PARTIAL_CONTENT). pose proof (Hinj _ _ status_u16_NOT_MODIFIED).
  pose proof (Hinj _ _ status_u16_BAD_REQUEST). pose proof (Hinj _ _ status_u16_NOT_FOUND).
  pose proof (Hinj _ _ status_u16_INTERNAL_SERVER_ERROR).
  destruct (in_dec Z.eq_dec (status_u16 s) [200; 204; 206; 304; 400; 404; 500]) as [Hin|]; [|tauto].
  cbn in Hin |- *. intuition eauto 6.
Qed.

Ltac static_cases :=
  repeat case_bool_decide; intros [= <- <-]; (split; [lia|]); eexists; subst;
  (split; [reflexivity|]); by split_and!.

Lemma index_static_spec h i b :
  index_static h = Some (i, b) ->
  1 <= i <= 61 /\ exists e, Header.get_static i = Done e /\ Header.name e = Header.name h /\
    (b = true -> e = canon h).
Proof.
  destruct h as [n v| | | | | |s].
  { rewrite index_static_field, canon_field. destruct (static_field n) as [j|] eqn:Hj; [|done]. intros [= <- <-].
    destruct (static_field_spec _ _ Hj) as (Hr & w & Hg & H16). split; [lia|]. eexists. split; [exact Hg|]. split; [done|].
    intros [->%Z.eqb_eq Hv]%andb_true_iff. rewrite bool_decide_true, Hv by done. by rewrite H16. }
  all: cbn [index_static]; change (canon ?h) with h.
  - intros [= <- <-]. split; [lia|]. eexists. by split_and!.
  - static_cases.
  - static_cases.
  - static_cases.
  - done.
  - pose proof (status_constants s) as Hs. intros Heq.
    repeat (destruct Hs as [(Hu & e & Hg & He)|Hs];
      [rewrite Hu in Heq; injection Heq as <- <-; split; [lia|]; exists (Header.Status e); split_and!; [done..|by intros _; rewrite He]|]).
    assert (Some (8, false) = Some (i, b)) as [= <- <-].
    { rewrite <-Heq. clear Heq. revert Hs. generalize (status_u16 s). intros z Hz.
      repeat case_on; try done; exfalso; apply Hz; cbn; tauto. }
    split; [lia|]. exists (Header.Status status_OK). by split_and!.
Qed.

(** ** Two tables in agreement *)

Record agree (tb : EncTable.t) d : Prop := {
  ag_wf : table_wf tb;
  ag_entries : DecTable.entries (Decoder.table d) = headers tb;
  ag_ok : table_ok (Decoder.table d);
  ag_max : DecTable.max_size (Decoder.table d) = EncTable.max_size tb;
  ag_buffer : Decoder.buffer d = []
}.

(** The entry [i] of the address space of static and dynamic table. *)
Definition entry_at (tb : EncTable.t) (i : Z) (e : Header.hd) : Prop :=
  1 <= i <= 61 /\ Header.get_static i = Done e \/
  62 <= i < 2 ^ 28 /\ headers tb !! Z.to_nat (i - DYN_OFFSET) = Some e.

Lemma agree_get tb d i e :
  agree tb d -> entry_at tb i e -> 1 <= i < 2 ^ 28 /\ DecTable.get (Decoder.table d) i = Done (Ok e).
Proof.
  intros Hag [[Hi Hs]|[Hi He]]; (split; [lia|]); unfold DecTable.get; destruct (Z.eqb_spec i 0); try lia.
  - rewrite (proj2 (Z.leb_le _ _)) by lia. by rewrite Hs.
  - rewrite (proj2 (Z.leb_gt _ _)) by lia. unfold DYN_OFFSET in He. by rewrite (ag_entries _ _ Hag), He.
Qed.

Lemma headers_bound tb : table_wf tb -> 32 * len (headers tb) <= u32_max.
Proof.
  intros Hwf. pose proof (sizes_length (headers tb)). destruct Hwf as [Hs Hf Hm _]. lia.
Qed.

Lemma entry_dynamic tb i e :
  table_wf tb -> 0 <= i -> headers tb !! Z.to_nat i = Some e -> entry_at tb (i + DYN_OFFSET) e.
Proof.
  intros Hwf Hi He. right. unfold DYN_OFFSET. pose proof (headers_bound tb Hwf) as Hb.
  pose proof (lookup_lt_Some _ _ _ He) as Hlt. split; [unfold len in *; ilia|].
  by replace (i + 62 - 62) with i by lia.
Qed.

Lemma entry_static tb h i b : index_static h = Some (i, b) ->
  exists e, entry_at tb i e /\ Header.name e = Header.name h /\ (b = true -> e = canon h).
Proof.
  intros Hs. destruct (index_static_spec _ _ _ Hs) as (Hi & e & Hg & Hn & Hc). exists e. split; [by left|done].
Qed.

(** [r] can stand for the name [n]. *)
Definition refers (tb : EncTable.t) (r : Index) (n : Header.Name) : Prop :=
  match r with
  | NotIndexed h => Header.name h = n
  | _ => exists i e, EncTable.resolve_idx r = Done i /\ entry_at tb i e /\ Header.name e = n
  end.

(** A field of the same name and value is the same field. *)
Lemma value_eq_same (e h : Header.hd) : Header.name e = Header.name h -> Header.value_eq e h = true -> e = h.
Proof. destruct e, h; cbn; intros Hn Hv; simplify_eq; apply bool_decide_eq_true in Hv; congruence. Qed.

Lemma agree_kept tb tb' d : agree tb d -> kept tb tb' -> agree tb' d.
Proof. intros [] (? & Hh & Hm & _). split; congruence. Qed.

Lemma agree_inserted tb tb' d h :
  agree tb d -> inserted_result tb h tb' ->
  exists dt, DecTable.insert (Decoder.table d) h = Done dt /\ agree tb' (Decoder.with_table d dt).
Proof.
  intros [Hwf He Hok Hm Hb] (Hwf' & Hh & Hm' & _).
  destruct (dec_table_insert_spec (Decoder.table d) h Hok) as (dt & Hins & Hok' & Hmd & Hed).
  { rewrite Hm. apply Hwf. }
  exists dt. split; [done|]. split; cbn; try done; congruence.
Qed.

Lemma header_len_short h : header_short h -> Header.len h <= u32_max.
Proof. intros [Hn Hv]. unfold short in *. destruct h; cbn in *; unfold_ints; lia. Qed.

Definition with_room (h : Header.hd) : Prop := Header.wf h /\ header_short h.

Lemma canon_id h : (forall n, index_static h <> Some (n, true)) -> canon h = h.
Proof.
  intros Hn. destruct h as [n v| | | | | |]; [|done..]. rewrite canon_field.
  destruct (bool_decide_reflect (static_field n = Some 16)) as [Hs|]; [|done]. cbn [andb].
  destruct (BytesStr.eq_str v _) eqn:Hv; [|done]. exfalso. apply (Hn 16).
  by rewrite index_static_field, Hs; cbn [option_map]; rewrite Hv.
Qed.

(** What is written for [r] in the table [tb] is read as [h], and [d] becomes [d']. *)
Definition writes (tb : EncTable.t) (r : Index) (dst : bytes) d d' h : Prop :=
  exists octets, (forall su, Encoder.encode_header (Encoder.mk tb su) r dst = Done (dst ++ octets)) /\
    decodes octets d d' h.

Lemma writes_indexed tb tb' d i h h' dst :
  agree tb d -> entry_at tb i h -> writes tb' (Indexed i h') dst d d h.
Proof.
  intros Hag Hat. destruct (agree_get _ _ _ _ Hag Hat) as [Hi Hg].
  exists (int_octets i 7 128). split; [|by apply decodes_indexed].
  intros su. cbn [Encoder.encode_header]. by rewrite encode_int_octets by ilia.
Qed.

Lemma with_same_table d : Decoder.with_table d (Decoder.table d) = d.
Proof. by destruct d. Qed.

(** A literal with the name of the entry [i]. *)
Lemma writes_named (index : bool) tb tb' d i e h r dst dt :
  agree tb d -> with_room h -> entry_at tb i e -> Header.name e = Header.name h ->
  EncTable.resolve tb' r = Done h ->
  (r = if index then InsertedValue i 0 else IName i h) ->
  (if index then DecTable.insert (Decoder.table d) h = Done dt else dt = Decoder.table d) ->
  writes tb' r dst d (Decoder.with_table d dt) h.
Proof.
  intros Hag [Hwf [_ Hsv]] Hat Hn Hres Hr Hdt. destruct (agree_get _ _ _ _ Hag Hat) as [Hi Hg].
  pose proof (proj1 Hwf) as Hv.
  destruct (encode_str_octets _ (dst ++ int_octets i (literal_prefix index) (literal_flag index)) Hv Hsv) as (vh & Hvh & He).
  exists (named_octets index i (Header.value_slice h) vh). split.
  - intros su. unfold named_octets. rewrite app_assoc. destruct index; subst r; cbn [Encoder.encode_header Encoder.table];
      rewrite Hres; cbn [obind assert]; unfold Header.is_sensitive, encode_not_indexed; cbn [negb assert obind];
      rewrite encode_int_octets by ilia; exact He.
  - apply (decodes_named index d i e); try done; [apply Hag|]. rewrite Hn. by apply into_entry_wf.
Qed.

(** A literal with its name written out. *)
Lemma writes_new (index : bool) tb' d h r dst dt :
  Decoder.buffer d = [] -> with_room h -> EncTable.resolve tb' r = Done h ->
  (r = if index then Inserted 0 else NotIndexed h) ->
  (if index then DecTable.insert (Decoder.table d) h = Done dt else dt = Decoder.table d) ->
  writes tb' r dst d (Decoder.with_table d dt) h.
Proof.
  intros Hbuf [Hwf [Hsn Hsv]] Hres Hr Hdt. pose proof (proj1 Hwf) as Hv. pose proof (name_slice_u8 h Hwf) as Hn.
  destruct (encode_str_octets _ (dst ++ [literal_flag index]) Hn Hsn) as (nh & Hnh & He1).
  destruct (encode_str_octets _ ((dst ++ [literal_flag index]) ++ str_octets (Header.as_slice (Header.name h)) nh) Hv Hsv)
    as (vh & Hvh & He2).
  exists (literal_octets index (Header.as_slice (Header.name h)) nh (Header.value_slice h) vh). split.
  - intros su. unfold literal_octets. rewrite !app_assoc. destruct index; subst r; cbn [Encoder.encode_header Encoder.table];
      rewrite Hres; cbn [obind assert]; unfold Header.is_sensitive, encode_not_indexed2; cbn [negb assert obind];
      cbn [literal_flag] in *; rewrite He1; cbn [obind]; exact He2.
  - apply decodes_new; try done. by apply header_new_wf.
Qed.

Lemma named_entry tb h i e : table_wf tb -> named_at tb h i e -> entry_at tb (i + DYN_OFFSET) e.
Proof. intros Hwf (Hi & He & _). apply entry_dynamic; [done|lia|done]. Qed.

Lemma entry_kept tb tb' i e : kept tb tb' -> entry_at tb i e -> entry_at tb' i e.
Proof. intros (_ & Hh & _) [|[? He]]; [by left|right]. by rewrite Hh. Qed.

(** The header line [r] that [index] answered is written so that the decoder reads
    [canon h] and follows with its table. *)
Lemma encode_header_decodes tb tb' d r h dst :
  agree tb d -> with_room h -> index_ok tb h r tb' ->
  exists dt, writes tb' r dst d (Decoder.with_table d dt) (canon h) /\
    agree tb' (Decoder.with_table d dt) /\ refers tb' r (Header.name h).
Proof.
  intros Hag Hroom [[Hkept Hr]|(Hins & Hfit & Hns & Hr)].
  - exists (Decoder.table d).
    enough (writes tb' r dst d (Decoder.with_table d (Decoder.table d)) (canon h) /\ refers tb' r (Header.name h)) as [? ?].
    { split_and!; [done| |done]. rewrite with_same_table. by apply (agree_kept tb). }
    destruct Hr as [->|(Hns & i & e & Hat & Hv & ->)].
    + destruct (index_static h) as [[i []]|] eqn:Hs; cbn [new_index].
      * destruct (entry_static tb h i true Hs) as (e & Hat & Hn & Hc). specialize (Hc eq_refl). subst e.
        rewrite with_same_table. split; [by apply (writes_indexed tb)|]. exists i, (canon h).
        split_and!; [done|by apply (entry_kept tb)|done].
      * destruct (entry_static tb h i false Hs) as (e & Hat & Hn & _). rewrite canon_id by congruence.
        split; [by apply (writes_named false tb tb' d i e)|]. exists i, e. split_and!; [done|by apply (entry_kept tb)|done].
      * rewrite canon_id by congruence. split; [|done]. by apply (writes_new false); [apply Hag|..].
    + rewrite canon_id by done. pose proof (named_entry _ _ _ _ (ag_wf _ _ Hag) Hat) as Hent.
      destruct Hat as (_ & _ & Hn). rewrite with_same_table. apply value_eq_same in Hv as ->; [|done].
      split; [by apply (writes_indexed tb)|]. eexists _, h. split_and!; [done|by apply (entry_kept tb)|done].
  - destruct (agree_inserted _ _ _ _ Hag Hins) as (dt & Hdt & Hag'). exists dt. rewrite canon_id by done.
    assert (headers tb' !! 0%nat = Some h) as Hfront.
    { destruct Hins as (_ & Hh & _). by rewrite Hh, fit_front by done. }
    assert (forall i, EncTable.resolve tb' (Inserted 0) = Done h /\ EncTable.resolve tb' (InsertedValue i 0) = Done h) as Hres.
    { intros i. unfold headers in Hfront. rewrite list_lookup_fmap in Hfront.
      unfold EncTable.resolve, get_at. change (Z.to_nat 0) with 0%nat.
      destruct (EncTable.slots tb' !! 0%nat) as [s0|]; [|done]. cbn in Hfront |- *. by injection Hfront as ->. }
    assert (forall r', EncTable.resolve_idx r' = Done (0 + DYN_OFFSET) -> (forall x, r' <> NotIndexed x) -> refers tb' r' (Header.name h)) as Href.
    { intros r' Hr' Hnot. destruct r'; try (by destruct (Hnot h0)); exists (0 + DYN_OFFSET), h;
        (split_and!; [done|apply entry_dynamic; [apply Hins|done|done]|done]). }
    destruct Hr as [[-> Hs]|[(n & Hs & ->)|(i & e & Hat & ->)]].
    + split_and!; [apply (writes_new true); try done; [apply Hag|apply (Hres 0)]|done|by apply Href].
    + destruct (entry_static tb h n false Hs) as (e & Hat & Hn & _).
      split_and!; [apply (writes_named true tb tb' d n e); try done; apply Hres|done|by apply Href].
    + pose proof (named_entry _ _ _ _ (ag_wf _ _ Hag) Hat) as Hent. destruct Hat as (_ & _ & Hn).
      split_and!; [eapply (writes_named true tb tb' d _ e); try done; apply Hres|done|by apply Href].
Qed.

(** A further value of the last name, never indexed. *)
Lemma encode_nameless_decodes tb d r n v dst :
  agree tb d -> with_room (Header.Field n v) -> refers tb r (Header.NField n) ->
  exists octets, (forall su, Encoder.encode_header_without_name (Encoder.mk tb su) r v dst = Done (dst ++ octets)) /\
    decodes octets d d (Header.Field n v).
Proof.
  intros Hag [Hwf [Hsn Hsv]] Href. pose proof (proj1 Hwf) as Hv. pose proof (name_slice_u8 _ Hwf) as Hn. cbn in Hv, Hn, Hsn, Hsv.
  assert ((exists i e, EncTable.resolve_idx r = Done i /\ entry_at tb i e /\ Header.name e = Header.NField n /\
    forall su, Encoder.encode_header_without_name (Encoder.mk tb su) r v dst = encode_not_indexed i v false dst) \/
    exists h, r = NotIndexed h /\ Header.name h = Header.NField n) as [(i & e & _ & Hat & Hne & He)|(h & -> & Hh)].
  { destruct r; try (destruct Href as (i' & e & Hi & Hat & Hne); left; exists i', e; split_and!; [done..|];
      intros su; unfold Encoder.encode_header_without_name; by rewrite Hi). right. by exists h. }
  - destruct (agree_get _ _ _ _ Hag Hat) as [Hi Hg].
    destruct (encode_str_octets v (dst ++ int_octets i 4 0) Hv Hsv) as (vh & Hvh & Hes).
    exists (named_octets false i v vh). split.
    + intros su. rewrite He. unfold encode_not_indexed, named_octets. rewrite encode_int_octets by ilia. cbn [obind].
      rewrite app_assoc. exact Hes.
    + rewrite <-(with_same_table d) at 2. apply (decodes_named false d i e); try done; [apply Hag|]. by rewrite Hne.
  - destruct (encode_not_indexed2_octets n v dst Hn Hv Hsn Hsv) as (nh & vh & Hnh & Hvh & Hes).
    exists (literal_octets false n nh v vh). split.
    + intros su. cbn [Encoder.encode_header_without_name EncTable.resolve obind]. by rewrite Hh.
    + rewrite <-(with_same_table d) at 2. apply (decodes_new false); try done; [apply Hag|].
      exact (header_new_wf (Header.Field n v) Hwf).
Qed.

(** ** The loop *)

(** The rounds of the decoder over [octets], whatever follows them. *)
Definition runs (octets : bytes) (b : bool) d out (b' : bool) d' out' : Prop :=
  forall fuel rest, (length (octets ++ rest) < fuel)%nat ->
    exists fuel', (length rest < fuel')%nat /\
      Decoder.decode_loop fuel b (Decoder.st d (Cursor.mk (octets ++ rest) 0) out) =
      Decoder.decode_loop fuel' b' (Decoder.st d' (Cursor.mk rest 0) out').

Lemma runs_nil b d out : runs [] b d out b d out.
Proof. intros fuel rest Hf. by exists fuel. Qed.

Lemma runs_app o1 o2 b d out b1 d1 out1 b2 d2 out2 :
  runs o1 b d out b1 d1 out1 -> runs o2 b1 d1 out1 b2 d2 out2 -> runs (o1 ++ o2) b d out b2 d2 out2.
Proof.
  intros H1 H2 fuel rest Hf. rewrite <-app_assoc in *. destruct (H1 _ _ Hf) as (f1 & Hf1 & ->). by apply H2.
Qed.

Lemma runs_one octets ty b d out b' d' out' :
  (forall rest, peek_u8 (octets ++ rest) = Some ty /\
    Decoder.decode_one ty b (Decoder.st d (Cursor.mk (octets ++ rest) 0) out) =
      Done (Ok b', Decoder.st d' (Cursor.mk rest 0) out')) ->
  runs octets b d out b' d' out'.
Proof.
  intros Hone fuel rest Hf. destruct fuel as [|fuel]; [lia|]. destruct (Hone rest) as [Hp Hd].
  exists fuel. split.
  - destruct octets as [|x l]; [|cbn in Hf; rewrite length_app in Hf; lia]. exfalso.
    destruct (Hone []) as [Hp0 _]. done.
  - cbn [Decoder.decode_loop]. rewrite (bind_ok _ _ _ _ _ eq_refl). cbn [Decoder.cur].
    unfold Cursor.chunk. cbn [Cursor.buf Cursor.pos drop]. rewrite drop_0, Hp. cbv iota.
    by erewrite bind_ok; [|exact Hd].
Qed.

Lemma round_runs octets d d' l out b b' : round octets b b' d d' l -> runs octets b d out b' d' (out ++ l).
Proof.
  intros Hr. destruct (Hr [] out) as (ty & Hty & Hd0). apply (runs_one octets ty).
  intros rest. destruct (Hr rest out) as (ty' & Hty' & Hd).
  assert (ty' = ty) as ->; [|done].
  destruct octets as [|x l']; [by destruct (Hr [] out) as (? & ? & _)|]. cbn in *. congruence.
Qed.

(** The octets of a block: rounds that answer the fields [out] and turn [d] into [d'];
    size updates come first, where [b] still allows them. *)
Inductive good : bool -> bytes -> Decoder.t -> Decoder.t -> list Header.hd -> Prop :=
| good_nil b d : good b [] d d []
| good_field b o l d d1 d2 h out :
    decodes o d d1 h -> Decoder.max_size_update d1 = Decoder.max_size_update d ->
    good false l d1 d2 out -> good b (o ++ l) d d2 (h :: out)
| good_size o l d d1 d2 out :
    round o true true d d1 [] -> stalls o true d -> Decoder.max_size_update d1 = Decoder.max_size_update d ->
    good true l d1 d2 out -> good true (o ++ l) d d2 out.

Lemma good_true b l d d' out : good b l d d' out -> good true l d d' out.
Proof. intros Hg. destruct Hg; [constructor|by eapply good_field|by eapply good_size]. Qed.

Lemma good_runs b l d d' out : good b l d d' out -> forall out0, exists b', runs l b d out0 b' d' (out0 ++ out).
Proof.
  induction 1 as [b d|b o l d d1 d2 h out Hd Hm Hg IH|o l d d1 d2 out Hr Hs Hm Hg IH]; intros out0.
  - exists b. rewrite app_nil_r. apply runs_nil.
  - destruct (IH (out0 ++ [h])) as (b' & Hb). exists b'. rewrite <-app_assoc in Hb.
    eapply runs_app; [|exact Hb]. apply round_runs, (Hd b).
  - destruct (IH (out0 ++ [])) as (b' & Hb). exists b'. rewrite <-app_assoc in Hb.
    eapply runs_app; [|exact Hb]. by apply round_runs.
Qed.

(** A whole round at the head of what has arrived. *)
Lemma round_step o b b1 d d1 l rest fuel out0 :
  round o b b1 d d1 l -> (length (o ++ rest) < fuel)%nat ->
  exists fuel', (length rest < fuel')%nat /\
    Decoder.decode_loop fuel b (Decoder.st d (Cursor.mk (o ++ rest) 0) out0) =
    Decoder.decode_loop fuel' b1 (Decoder.st d1 (Cursor.mk rest 0) (out0 ++ l)).
Proof. intros Hr. apply (round_runs o d d1 l out0 b b1 Hr). Qed.

Definition more_or_done (r : result unit DecoderError) (rest : bytes) : Prop :=
  r = Ok tt /\ rest = [] \/ exists n, r = Err (NeedMoreError n).

(** The first part [p] of a block: the fields that are whole are answered, and what is
    left of [p] makes, with the rest of the block, a block again. *)
Definition halts (p q : bytes) (fuel : nat) (b : bool) d d' (out out0 : list Header.hd) : Prop :=
  exists r d1 rest pos out1 out2,
    Decoder.decode_loop fuel b (Decoder.st d (Cursor.mk p 0) out0) =
      Done (r, Decoder.st d1 (Cursor.mk rest pos) (out0 ++ out1)) /\
    out = out1 ++ out2 /\ good true (rest ++ q) d1 d' out2 /\ more_or_done r rest /\
    Decoder.max_size_update d1 = Decoder.max_size_update d.

Lemma halts_nothing q fuel b d d' out out0 : good true q d d' out -> (0 < fuel)%nat -> halts [] q fuel b d d' out out0.
Proof.
  intros Hg Hf. destruct fuel as [|fuel]; [lia|]. exists (Ok tt), d, [], 0%nat, [], out. rewrite app_nil_r. split_and!; try done. by left.
Qed.

Lemma halts_stalled p q o l fuel b d d' out out0 :
  stalls o b d -> o = p ++ q -> p <> [] -> q <> [] -> good true (p ++ q ++ l) d d' out -> (0 < fuel)%nat ->
  halts p (q ++ l) fuel b d d' out out0.
Proof.
  intros Hs Ho Hp Hq Hg Hf. destruct fuel as [|fuel]; [lia|]. destruct (Hs p q out0 Ho Hp Hq) as (ty & Hty & n & pos & Hw).
  exists (Err (NeedMoreError n)), d, p, pos, [], out. rewrite app_nil_r. split_and!; try done; [|by right; exists n].
  cbn [Decoder.decode_loop]. rewrite (bind_ok _ _ _ _ _ eq_refl). cbn [Decoder.cur].
  unfold Cursor.chunk. cbn [Cursor.buf Cursor.pos]. rewrite drop_0, Hty. cbv iota.
  cbn [app length] in Hw. unfold Decoder.bind. by rewrite Hw.
Qed.

Lemma halts_round o k q b b1 d d1 d' l out fuel out0 :
  round o b b1 d d1 l -> Decoder.max_size_update d1 = Decoder.max_size_update d ->
  (forall fuel out0, (length k < fuel)%nat -> halts k q fuel b1 d1 d' out out0) ->
  (length (o ++ k) < fuel)%nat -> halts (o ++ k) q fuel b d d' (l ++ out) out0.
Proof.
  intros Hr Hm Hk Hf. destruct (round_step _ _ _ _ _ _ k fuel out0 Hr Hf) as (f' & Hf' & Hl).
  destruct (Hk f' (out0 ++ l) Hf') as (r & d2 & rest & pos & o1 & o2 & He & -> & Hg' & Hmd & Hmx).
  exists r, d2, rest, pos, (l ++ o1), o2. rewrite Hl, He, <-!app_assoc. split_and!; try done. congruence.
Qed.

Lemma good_halts b o d d' out : good b o d d' out -> forall p q fuel out0,
  o = p ++ q -> (length p < fuel)%nat -> halts p q fuel b d d' out out0.
Proof.
  induction 1 as [b d|b o l d d1 d2 h out Hd Hm Hg IH|o l d d1 d2 out Hr Hs Hm Hg IH]; intros p q fuel out0 Ho Hf.
  - destruct p, q; try done. apply halts_nothing; [constructor|done].
  - destruct (Hd b) as [Hr Hs]. destruct p as [|x p].
    { cbn in Ho. subst q. apply halts_nothing; [by eapply good_field|done]. }
    destruct (cut_two _ _ _ _ Ho) as [(k & Hk & Hok & ->)|(k & Hp & ->)].
    + eapply halts_stalled; [exact Hs|exact Hok|done|done| |lia]. rewrite app_assoc, <-Hok. by eapply good_field.
    + rewrite Hp in *. apply (halts_round o k q b false d d1 d2 [h]); [done|done| |done]. intros f o0 Hf0. by apply IH.
  - destruct p as [|x p].
    { cbn in Ho. subst q. apply halts_nothing; [by eapply good_size|done]. }
    destruct (cut_two _ _ _ _ Ho) as [(k & Hk & Hok & ->)|(k & Hp & ->)].
    + eapply halts_stalled; [exact Hs|exact Hok|done|done| |lia]. rewrite app_assoc, <-Hok. by eapply good_size.
    + rewrite Hp in *. apply (halts_round o k q true true d d1 d2 []); [done|done| |done]. intros f o0 Hf0. by apply IH.
Qed.

Definition field_name h : option bytes :=
  match h with Header.Field n _ => Some n | _ => None end.

(** The fields a header list stands for: a value without a name has the name of the
    field before it. *)
Fixpoint expand (f : Header.hd -> Header.hd) (last : option bytes)
    (l : list (Header.t (option BytesStr.t))) : option (list Header.hd) :=
  match l with
  | [] => Some []
  | x :: l =>
      match Header.reify x with
      | Ok h => option_map (cons (f h)) (expand f (field_name h) l)
      | Err v =>
          match last with
          | Some n => option_map (cons (Header.Field n v)) (expand f last l)
          | None => None
          end
      end
  end.

(** What else of the decoder an encoded block leaves alone. *)
Definition same_limits d d' : Prop :=
  Decoder.max_size_update d' = Decoder.max_size_update d /\ Decoder.last_max_update d' = Decoder.last_max_update d.

Lemma encode_loop_decodes hs : forall tb su d last n dst sent,
  agree tb d -> expand id n hs = Some sent -> Forall with_room sent ->
  (forall m, n = Some m -> exists r, last = Some r /\ refers tb r (Header.NField m)) ->
  EncTable.inserted tb + len hs < 18446744073709551616 ->
  exists octets tb' d' received,
    Encoder.encode_loop (Encoder.mk tb su) last hs dst = Done (Encoder.mk tb' su, dst ++ octets) /\
    expand canon n hs = Some received /\
    (forall b, good b octets d d' received) /\
    agree tb' d' /\ same_limits d d' /\ EncTable.inserted tb' <= EncTable.inserted tb + len hs.
Proof.
  induction hs as [|x hs IH]; intros tb su d last n dst sent Hag Hexp Hroom Hlast HT.
  { exists [], tb, d, []. rewrite !app_nil_r. split_and!; [done..|intros b; constructor|done|done|change (len []) with 0; lia]. }
  assert (len (x :: hs) = len hs + 1) as Hl by (unfold len; cbn; lia). pose proof (len_nonneg hs).
  rewrite Hl in *. clear Hl. cbn [expand Encoder.encode_loop] in *. destruct (Header.reify x) as [h|v] eqn:Hx.
  - set (n' := field_name h) in *.
    destruct (expand id n' hs) as [sent'|] eqn:Hexp'; [|done]. cbn in Hexp. simplify_eq.
    apply Forall_cons in Hroom as [Hh Hroom].
    destruct (index_spec tb h (ag_wf _ _ Hag)) as ([r tb1] & He & Hok); [|lia|].
    { apply header_len_short, Hh. }
    cbn [Encoder.table]. rewrite He. cbn [obind].
    destruct (encode_header_decodes tb tb1 d r h dst Hag Hh Hok) as (dt & (o1 & Ho1 & Hd1) & Hag1 & Href1).
    record. rewrite Ho1. cbn [obind].
    assert (EncTable.inserted tb1 <= EncTable.inserted tb + 1) as HT1.
    { destruct Hok as [[(_ & _ & _ & ->) _]|((_ & _ & _ & ->) & _)]; lia. }
    destruct (IH tb1 su (Decoder.with_table d dt) (Some r) n' (dst ++ o1) sent' Hag1 Hexp' Hroom)
      as (o2 & tb2 & d2 & rec2 & -> & Hexp2 & Hgood & Hag2 & Hlim & HT2); [|lia|].
    { intros m Hm. exists r. split; [done|]. destruct h; simplify_eq. by cbn in *; simplify_eq. }
    exists (o1 ++ o2), tb2, d2, (canon h :: rec2). rewrite Hexp2, app_assoc. split_and!; [done..| |done| |lia].
    + intros b. by eapply good_field.
    + done.
  - destruct n as [m|]; [|done]. destruct (expand id (Some m) hs) as [sent'|] eqn:Hexp'; [|done]. cbn in Hexp. simplify_eq.
    apply Forall_cons in Hroom as [Hh Hroom]. destruct (Hlast m eq_refl) as (r & -> & Href). cbn [unwrap obind].
    destruct (encode_nameless_decodes tb d r m v dst Hag Hh Href) as (o1 & Ho1 & Hd1).
    rewrite Ho1. cbn [obind].
    destruct (IH tb su d (Some r) (Some m) (dst ++ o1) sent' Hag Hexp' Hroom)
      as (o2 & tb2 & d2 & rec2 & -> & Hexp2 & Hgood & Hag2 & Hlim & HT2); [|lia|].
    { intros m' [= <-]. by exists r. }
    exists (o1 ++ o2), tb2, d2, (Header.Field m v :: rec2). rewrite Hexp2, app_assoc. split_and!; [done..| |done|done|lia].
    intros b. by eapply good_field.
Qed.

(** ** Size updates *)

(** The largest table size the decoder accepts in the next block. *)
Definition limit d : Z :=
  match Decoder.max_size_update d with Some s => s | None => Decoder.last_max_update d end.

Definition pending_sizes (u : option SizeUpdate) : list Z :=
  match u with None => [] | Some (One v) => [v] | Some (Two a b) => [a; b] end.

Lemma size_update_good v tb d :
  agree tb d -> EncTable.inserted tb + 1 < 18446744073709551616 ->
  0 <= v <= Decoder.last_max_update d -> v <= 2 ^ 28 ->
  exists tb' dt, EncTable.resize tb v = Done tb' /\ agree tb' (Decoder.with_table d dt) /\
    (forall dst, encode_size_update v dst = Done (dst ++ int_octets v 5 32)) /\
    (forall l d2 out, good true l (Decoder.with_table d dt) d2 out -> good true (int_octets v 5 32 ++ l) d d2 out) /\
    EncTable.inserted tb' <= EncTable.inserted tb.
Proof.
  intros [Hwf He [Hsz Hfit] Hm Hb] HT Hv Hv28.
  destruct (resize_spec tb v Hwf) as (tb' & Hr & Hwf' & Hh & Hm' & Hins); [ilia|done|].
  destruct (dec_table_set_max_size_spec (Decoder.table d) v) as (dt & Hs & Hok & Hmd & Hed); [lia|done|].
  exists tb', dt. split_and!; [done| | | |done].
  - split; cbn; [done|congruence|done|congruence|done].
  - intros dst. unfold encode_size_update. by rewrite encode_int_octets by ilia.
  - destruct (int_octets_first v 5 32) as (x & tl & Hx & Hxb); [lia..|].
    assert (Representation.load (Z.lor 32 x) = Ok Representation.SizeUpdate) as Hload by by apply (load_first 5 32).
    intros l d2 out Hg. apply (good_size _ l d (Decoder.with_table d dt)); [| |done|done].
    2: { intros p q o0 Ho Hp Hq. exists (Z.lor 32 x). split; [destruct p; [done|]; rewrite Hx in Ho; by injection Ho as -> _|].
      unfold wants, Decoder.decode_one. erewrite bind_ok; [|unfold Decoder.lift_result; by rewrite Hload].
      cbv beta iota. cbn [negb]. apply wants_bind, wants_bind. apply (wants_int d [] p q v 5 32); done || (try ilia). }
    intros rest o0. exists (Z.lor 32 x). rewrite Hx at 1. split; [done|]. unfold Decoder.decode_one.
    erewrite bind_ok; [|unfold Decoder.lift_result; by rewrite Hload].
    cbv beta iota. cbn [negb]. rewrite app_nil_r.
    rewrite (bind_ok Decoder.process_size_update _ _ tt (Decoder.st (Decoder.with_table d dt)
      (Cursor.mk (([] ++ int_octets v 5 32) ++ rest) (length ([] ++ int_octets v 5 32))) o0)).
    + cbv beta. erewrite bind_ok; [|apply consume_at]. done.
    + unfold Decoder.process_size_update.
      erewrite bind_ok; [|apply (decode_int_at d [] v 5 32 rest o0); done || (try ilia)].
      rewrite (bind_ok _ _ _ _ _ eq_refl). cbn [Decoder.dec].
      destruct (Z.gtb_spec v (Decoder.last_max_update d)); [lia|].
      unfold Decoder.on_table, Decoder.modify. cbn [Decoder.dec]. by rewrite Hs.
Qed.

Lemma encode_size_updates_decodes tb u d dst :
  agree tb d -> EncTable.inserted tb + 1 < 18446744073709551616 ->
  Forall (fun v => 0 <= v <= Decoder.last_max_update d) (pending_sizes u) -> Decoder.last_max_update d <= 2 ^ 28 ->
  exists octets tb' dt, Encoder.encode_size_updates (Encoder.mk tb u) dst = Done (Encoder.mk tb' None, dst ++ octets) /\
    agree tb' (Decoder.with_table d dt) /\
    (forall l d2 out, good true l (Decoder.with_table d dt) d2 out -> good true (octets ++ l) d d2 out) /\
    EncTable.inserted tb' <= EncTable.inserted tb.
Proof.
  intros Hag HT Hall Hlim. unfold Encoder.encode_size_updates. record.
  destruct u as [[v|a b]|]; cbn [pending_sizes] in Hall.
  - apply Forall_cons in Hall as [Hv _].
    destruct (size_update_good v tb d Hag HT Hv ltac:(lia)) as (tb' & dt & Hr & Hag' & He & Hgood & Hins).
    rewrite Hr. cbn [obind]. rewrite He. cbn [obind]. by exists (int_octets v 5 32), tb', dt.
  - apply Forall_cons in Hall as [Ha Hall]. apply Forall_cons in Hall as [Hb _].
    destruct (size_update_good a tb d Hag HT Ha ltac:(lia)) as (tb1 & dt1 & Hr1 & Hag1 & He1 & Hgood1 & Hins1).
    destruct (size_update_good b tb1 (Decoder.with_table d dt1) Hag1 ltac:(lia) Hb ltac:(lia))
      as (tb2 & dt2 & Hr2 & Hag2 & He2 & Hgood2 & Hins2).
    rewrite Hr1. cbn [obind]. rewrite Hr2. cbn [obind]. rewrite He1. cbn [obind]. rewrite He2. cbn [obind].
    exists (int_octets a 5 32 ++ int_octets b 5 32), tb2, dt2. rewrite app_assoc.
    split_and!; [done|done| |lia]. intros l d2 out Hg. rewrite <-app_assoc. by apply Hgood1, Hgood2.
  - exists [], tb, (Decoder.table d). rewrite app_nil_r, with_same_table. by split_and!.
Qed.

(** ** Encoder and decoder of one direction *)

(** Both have the same table; every size the encoder is going to announce is one the
    decoder was told to accept. *)
Record in_sync (e : Encoder.t) d : Prop := {
  sy_agree : agree (Encoder.table e) d;
  sy_limit : 0 <= limit d <= 2 ^ 28;
  sy_sizes : Forall (fun v => 0 <= v <= limit d) (pending_sizes (Encoder.size_update e));
  sy_told : Encoder.size_update e <> None -> Decoder.max_size_update d <> None
}.

(** The decoder as it begins a block: the size it advertised last is the limit. *)
Definition begin d : Decoder.t :=
  match Decoder.max_size_update d with
  | Some size => Decoder.mk None size (Decoder.table d) (Decoder.buffer d)
  | None => d
  end.

Lemma begin_begun d : Decoder.max_size_update (begin d) = None.
Proof. unfold begin. by destruct (Decoder.max_size_update d) eqn:Hm. Qed.

Lemma begin_id d : Decoder.max_size_update d = None -> begin d = d.
Proof. unfold begin. by intros ->. Qed.

(** Decoding the first part of a block. *)
Lemma good_decode d p q d' out :
  good true (p ++ q) (begin d) d' out ->
  exists r d1 rest out1 out2, Decoder.decode d p = Done (r, d1, rest, out1) /\ out = out1 ++ out2 /\
    good true (rest ++ q) d1 d' out2 /\ more_or_done r rest /\ Decoder.max_size_update d1 = None.
Proof.
  intros Hg. destruct (good_halts _ _ _ _ _ Hg p q (S (length p)) [] eq_refl ltac:(lia))
    as (r & d1 & rest & pos & o1 & o2 & He & Ho & Hg' & Hmd & Hm).
  exists r, d1, rest, o1, o2. unfold Decoder.decode. fold (begin d). rewrite He. split_and!; try done.
  rewrite Hm. apply begin_begun.
Qed.

(** Decoding a whole block. *)
Lemma good_decode_all d l d' out :
  good true l (begin d) d' out -> Decoder.decode d l = Done (Ok tt, d', [], out).
Proof.
  intros Hg. destruct (good_runs _ _ _ _ _ Hg []) as (b' & Hrun).
  unfold Decoder.decode. fold (begin d). destruct (Hrun (S (length l)) []) as (fuel & Hf & Hdec); [rewrite app_nil_r; lia|].
  rewrite app_nil_r in Hdec. rewrite Hdec. destruct fuel as [|fuel]; [lia|]. done.
Qed.

Lemma encode_good e d hs sent :
  in_sync e d -> expand id None hs = Some sent -> Forall with_room sent ->
  EncTable.inserted (Encoder.table e) + len hs + 1 < 18446744073709551616 ->
  exists block e' d' received,
    Encoder.encode e hs [] = Done (e', block) /\ good true block (begin d) d' received /\
    expand canon None hs = Some received /\ in_sync e' d' /\
    EncTable.inserted (Encoder.table e') <= EncTable.inserted (Encoder.table e) + len hs.
Proof.
  intros [Hag Hlim Hsizes Htold] Hexp Hroom HT. pose proof (len_nonneg hs). set (d0 := begin d).
  assert (agree (Encoder.table e) d0 /\ Decoder.last_max_update d0 = limit d /\ Decoder.max_size_update d0 = None)
    as (Hag0 & Hl0 & Hn0).
  { unfold d0, begin, limit. destruct (Decoder.max_size_update d) eqn:Hm; [|done]. destruct Hag. by split. }
  destruct e as [tb u]. cbn [Encoder.table Encoder.size_update] in *. rewrite <-Hl0 in *.
  destruct (encode_size_updates_decodes tb u d0 [] Hag0 ltac:(lia) Hsizes ltac:(lia))
    as (o1 & tb1 & dt1 & He1 & Hag1 & Hgood1 & Hins1).
  destruct (encode_loop_decodes hs tb1 None (Decoder.with_table d0 dt1) None None o1 sent Hag1 Hexp Hroom)
    as (o2 & tb2 & d2 & received & He2 & Hexp2 & Hgood & Hag2 & [Hlm2 Hlu2] & Hins2); [done|lia|].
  exists (o1 ++ o2), (Encoder.mk tb2 None), d2, received. cbn [Encoder.table].
  split_and!; [|by apply Hgood1|done| |lia].
  - unfold Encoder.encode. rewrite He1. cbn [obind app]. exact He2.
  - cbn in Hlm2, Hlu2. split; [done| |constructor|done]. unfold limit. rewrite Hlm2, Hn0, Hlu2. lia.
Qed.

(** Both sides are told a new size. *)
Lemma in_sync_announce e d v :
  in_sync e d -> 0 <= v <= 2 ^ 28 ->
  in_sync (Encoder.update_max_size e v) (Decoder.queue_size_update d v).
Proof.
  intros [Hag Hlim Hsizes Htold] Hv.
  assert (limit (Decoder.queue_size_update d v) = match Decoder.max_size_update d with Some s => Z.max s v | None => v end) as Hl
    by (unfold limit; cbn; by destruct (Decoder.max_size_update d)).
  assert (forall u, Forall (fun x => 0 <= x <= limit (Decoder.queue_size_update d v)) (pending_sizes u) ->
    in_sync (Encoder.mk (Encoder.table e) u) (Decoder.queue_size_update d v)) as Hnew.
  { intros u Hu. split; [|rewrite Hl; unfold limit in *; destruct (Decoder.max_size_update d); lia|done|by intros _].
    destruct Hag. by split. }
  assert (v <= limit (Decoder.queue_size_update d v)) as Hvl by (rewrite Hl; destruct (Decoder.max_size_update d); lia).
  assert (Encoder.size_update e <> None -> limit d <= limit (Decoder.queue_size_update d v)) as Hgrow.
  { intros Hne%Htold. rewrite Hl. unfold limit. destruct (Decoder.max_size_update d); [lia|done]. }
  destruct e as [tb u]. unfold Encoder.update_max_size. cbn [Encoder.table Encoder.size_update] in *. record.
  destruct u as [[old|min max]|]; cbn [pending_sizes] in *.
  - specialize (Hgrow ltac:(done)). apply Forall_cons in Hsizes as [Ho _].
    repeat case_match; apply Hnew; repeat constructor; lia.
  - specialize (Hgrow ltac:(done)). apply Forall_cons in Hsizes as [Ho _].
    repeat case_match; apply Hnew; repeat constructor; lia.
  - repeat case_match; apply Hnew; repeat constructor; lia.
Qed.

Lemma in_sync_new m : 0 <= m <= 2 ^ 28 -> in_sync (Encoder.new m 0) (Decoder.new m).
Proof.
  intros Hm. split; [|done|constructor|done]. split; cbn; [|done|split; cbn; lia|done|done].
  split; cbn; [done|lia|ilia|by right].
Qed.

(** ** A conversation

    One direction of a connection: table sizes announced to both ends and header blocks
    encoded by one and decoded by the other. *)
Inductive event : Type :=
| Announce (size : Z)
| Block (headers : list (Header.t (option BytesStr.t))).

Fixpoint converse (events : list event) (e : Encoder.t) d :
    outcome (list (result unit DecoderError * list Header.hd)) :=
  match events with
  | [] => Done []
  | Announce v :: events => converse events (Encoder.update_max_size e v) (Decoder.queue_size_update d v)
  | Block hs :: events =>
      let! (e, block) := Encoder.encode e hs [] in
      let! (r, d, _, received) := Decoder.decode d block in
      let! rest := converse events e d in
      Done ((r, received) :: rest)
  end.

(** The answers the receiver should have. *)
Fixpoint answers (events : list event) : list (result unit DecoderError * list Header.hd) :=
  match events with
  | [] => []
  | Announce _ :: events => answers events
  | Block hs :: events => (Ok tt, default [] (expand canon None hs)) :: answers events
  end.

Definition event_ok (ev : event) : Prop :=
  match ev with
  | Announce v => 0 <= v <= 2 ^ 28
  | Block hs => exists sent, expand id None hs = Some sent /\ Forall with_room sent
  end.

Fixpoint fields (events : list event) : Z :=
  match events with
  | [] => 0
  | Announce _ :: events => fields events
  | Block hs :: events => len hs + fields events
  end.

Lemma fields_nonneg events : 0 <= fields events.
Proof. induction events as [|[v|hs] events IH]; cbn; [lia|done|]. pose proof (len_nonneg hs). lia. Qed.

(** C5: the encoder and the decoder of a connection stay in agreement over every
    conversation: whatever table sizes (up to 2^28) are announced and whatever
    well-formed header lists (strings below 64 MiB) are sent, encoding never panics,
    every block is decoded without an error and entirely, and the receiver gets the
    fields that were sent, in order, values without a name under the last name - up to
    the case of an accept-encoding value that equals the static entry's ([canon]). *)
Theorem hpack_conversation events m :
  0 <= m <= 2 ^ 28 -> Forall event_ok events -> fields events + 1 < 18446744073709551616 ->
  converse events (Encoder.new m 0) (Decoder.new m) = Done (answers events).
Proof.
  intros Hm Hok Hcount.
  assert (forall e d, in_sync e d -> EncTable.inserted (Encoder.table e) + fields events + 1 < 18446744073709551616 ->
    converse events e d = Done (answers events)) as Hgen; [|apply Hgen; [by apply in_sync_new|done]].
  clear Hcount. induction Hok as [|[v|hs] events Hev Hok IH]; intros e d Hsync HT; cbn [converse answers fields] in *; [done| |].
  - apply IH; [by apply in_sync_announce|].
    assert (Encoder.table (Encoder.update_max_size e v) = Encoder.table e) as ->; [|done].
    unfold Encoder.update_max_size. by repeat case_match.
  - destruct Hev as (sent & Hexp & Hroom). pose proof (fields_nonneg events).
    destruct (encode_good e d hs sent Hsync Hexp Hroom) as (block & e' & d' & received & -> & Hdec%good_decode_all & -> & Hsync' & Hins); [lia|].
    cbn [obind]. rewrite Hdec. cbn [obind]. rewrite (IH e' d' Hsync') by lia. done.
Qed.

End facts.
