(* ===== verification/HeadersFrame.v ===== *)
(** * HEADERS, PUSH_PROMISE and CONTINUATION frames

    Models [src/src/frame/headers.rs].  Payload parsing ([load]) is separate from
    HPACK decoding ([HeaderBlock.load], which feeds the headers the decoder emits
    to the validating callback).  On the sending side [EncodingHeaderBlock.encode]
    cuts an encoded block into one HEADERS or PUSH_PROMISE frame and CONTINUATION
    frames.  The header map belongs to the crate [header-plz]: its operations are
    the parameters of [HeaderMapOps]. *)

From Stdlib Require Import String.
From S2P Require Import Prelude FrameBase ControlFrames HpackInt HpackHeader HpackDecoder.

Class HeaderMapOps : Type := {
  HeaderMap : Type;
  hm_new : HeaderMap;
  hm_is_empty : HeaderMap -> bool;
  hm_insert : bytes -> bytes -> HeaderMap -> HeaderMap;
  (** [map.iter().map(|h| h.len())] *)
  hm_entry_lens : HeaderMap -> list Z;
  (** [has_key], [value_of_key] *)
  hm_has_key : bytes -> HeaderMap -> bool;
  hm_value_of_key : bytes -> HeaderMap -> option bytes
}.

Class HeaderMapLaws (O : HeaderMapOps) : Prop := {
  hm_is_empty_new : hm_is_empty hm_new = true;
  hm_is_empty_insert : forall n v m, hm_is_empty (hm_insert n v m) = false
}.

(** ** Flags *)

Module HeadersFlag.

Definition t : Type := byte.

Definition END_STREAM : byte := 1.
Definition END_HEADERS : byte := 4.
Definition PADDED : byte := 8.
Definition PRIORITY : byte := 32.
Definition ALL : byte := Z.lor (Z.lor (Z.lor END_STREAM END_HEADERS) PADDED) PRIORITY.

Definition empty : t := 0.
Definition load (bits : byte) : t := Z.land bits ALL.
Definition is_end_stream (f : t) : bool := Z.land f END_STREAM =? END_STREAM.
Definition set_end_stream (f : t) : t := Z.lor f END_STREAM.
Definition unset_end_stream (f : t) : t := Z.land f (Z.lxor 255 END_STREAM).
Definition is_end_headers (f : t) : bool := Z.land f END_HEADERS =? END_HEADERS.
Definition set_end_headers (f : t) : t := Z.lor f END_HEADERS.
Definition is_padded (f : t) : bool := Z.land f PADDED =? PADDED.
Definition is_priority (f : t) : bool := Z.land f PRIORITY =? PRIORITY.
(** [impl Default]: END_HEADERS set. *)
Definition default : t := END_HEADERS.

End HeadersFlag.

(** [PushPromiseFlag] shares the constants of [HeadersFlag]. *)
Module PushPromiseFlag.

Definition t : Type := byte.

Definition empty : t := 0.
Definition load (bits : byte) : t := Z.land bits HeadersFlag.ALL.
Definition is_end_headers (f : t) : bool :=
  Z.land f HeadersFlag.END_HEADERS =? HeadersFlag.END_HEADERS.
Definition set_end_headers (f : t) : t := Z.lor f HeadersFlag.END_HEADERS.
Definition is_padded (f : t) : bool := Z.land f HeadersFlag.PADDED =? HeadersFlag.PADDED.
Definition default : t := HeadersFlag.END_HEADERS.

End PushPromiseFlag.

(** [parse_u64]: decimal digits, at most 19 of them. *)
Fixpoint parse_digits (ret : Z) (src : bytes) : outcome (result Z unit) :=
  match src with
  | [] => Done (Ok ret)
  | d :: src =>
      if negb (in_range 48 57 d) then Done (Err tt)
      else
        let! _ := assert (ret * 10 + (d - 48) <=? u64_max) in
        parse_digits (ret * 10 + (d - 48)) src
  end.

Definition parse_u64 (src : bytes) : outcome (result Z unit) :=
  if (19 <? length src)%nat then Done (Err tt) else parse_digits 0 src.

Definition decoded_header_size (name value : Z) : Z := name + value + 32.

Section headers.
Context `{HeaderPlz} `{HeaderMapOps}.

Definition calculate_headermap_size (map : HeaderMap) : Z :=
  foldr (fun l n => l + 32 + n) 0 (hm_entry_lens map).

End headers.

Module Pseudo.

Section pseudo.
Context `{HeaderPlz}.

Record t : Type := mk {
  method : option PlzMethod;
  scheme : option BytesStr.t;
  authority : option BytesStr.t;
  path : option BytesStr.t;
  protocol : option Protocol.t;
  status : option PlzStatus
}.

Definition default : t := mk None None None None None None.

Definition response (s : PlzStatus) : t := mk None None None None None (Some s).

Definition is_informational (p : t) : bool :=
  match status p with Some s => status_is_informational s | None => false end.

Definition set_method (v : PlzMethod) (p : t) : t :=
  mk (Some v) (scheme p) (authority p) (path p) (protocol p) (status p).
Definition set_scheme (v : BytesStr.t) (p : t) : t :=
  mk (method p) (Some v) (authority p) (path p) (protocol p) (status p).
Definition set_authority (v : BytesStr.t) (p : t) : t :=
  mk (method p) (scheme p) (Some v) (path p) (protocol p) (status p).
Definition set_path (v : BytesStr.t) (p : t) : t :=
  mk (method p) (scheme p) (authority p) (Some v) (protocol p) (status p).
Definition set_protocol (v : Protocol.t) (p : t) : t :=
  mk (method p) (scheme p) (authority p) (path p) (Some v) (status p).
Definition set_status (v : PlzStatus) (p : t) : t :=
  mk (method p) (scheme p) (authority p) (path p) (protocol p) (Some v).

End pseudo.

End Pseudo.

Module HeaderBlock.

Section block.
Context `{HeaderPlz} `{HeaderMapOps}.

Record t : Type := mk {
  fields : HeaderMap;
  field_size : Z;
  is_over_size : bool;
  pseudo : Pseudo.t
}.

Definition empty : t := mk hm_new 0 false Pseudo.default.

Definition pseudo_size {A} (name_len : Z) (text : A -> bytes) (v : option A) : Z :=
  match v with Some m => decoded_header_size (name_len + 1) (len (text m)) | None => 0 end.

(** [calculate_header_list_size]; the source leaves [protocol] out. *)
Definition calculate_header_list_size (self : t) : Z :=
  pseudo_size 6 method_as_ref (Pseudo.method (pseudo self))
  + pseudo_size 6 id (Pseudo.scheme (pseudo self))
  + pseudo_size 6 status_as_str (Pseudo.status (pseudo self))
  + pseudo_size 9 id (Pseudo.authority (pseudo self))
  + pseudo_size 4 id (Pseudo.path (pseudo self))
  + field_size self.

(** The variables the callback of [load] captures. *)
Record Loading : Type := loading {
  block : t;
  reg : bool;
  malformed : bool;
  headers_size : Z
}.

Definition set_malformed (s : Loading) : Loading :=
  loading (block s) (reg s) true (headers_size s).

Definition over_size (b : t) : t := mk (fields b) (field_size b) true (pseudo b).

(** The macro [set_pseudo!]: [is_set] tells whether the field is already there,
    [set] stores it. *)
Definition set_pseudo (max_header_list_size : Z) (name_len : Z) (text : bytes)
    (is_set : bool) (set : Pseudo.t -> Pseudo.t) (s : Loading) : Loading :=
  if reg s then set_malformed s
  else if is_set then set_malformed s
  else
    let size := headers_size s + decoded_header_size (name_len + 1) (len text) in
    let b := block s in
    if size <? max_header_list_size then
      loading (mk (fields b) (field_size b) (is_over_size b) (set (pseudo b)))
        (reg s) (malformed s) size
    else if negb (is_over_size b) then loading (over_size b) (reg s) (malformed s) size
    else loading b (reg s) (malformed s) size.

Definition is_some {A} (o : option A) : bool := match o with Some _ => true | None => false end.

(** Connection-level fields. *)
Definition connection_level (name : bytes) : bool :=
  bool_decide (name = const_header CONNECTION)
  || bool_decide (name = const_header TRANSFER_ENCODING)
  || bool_decide (name = const_header UPGRADE)
  || bool_decide (name = str "keep-alive")
  || bool_decide (name = str "proxy-connection").

(** The callback of [load]. *)
Definition on_header (max_header_list_size : Z) (s : Loading) (header : Header.hd) : Loading :=
  let b := block s in
  match header with
  | Header.Field name value =>
      if connection_level name then set_malformed s
      else if bool_decide (name = const_header TE) && negb (BytesStr.eq_str value (str "trailers"))
      then set_malformed s
      else
        let size := headers_size s + decoded_header_size (len name) (len value) in
        if size <? max_header_list_size then
          loading (mk (hm_insert name value (fields b))
                      (field_size b + decoded_header_size (len name) (len value))
                      (is_over_size b) (pseudo b)) true (malformed s) size
        else if negb (is_over_size b) then loading (over_size b) true (malformed s) size
        else loading b true (malformed s) size
  | Header.Authority v =>
      set_pseudo max_header_list_size 9 v (is_some (Pseudo.authority (pseudo b))) (Pseudo.set_authority v) s
  | Header.Method v =>
      set_pseudo max_header_list_size 6 (method_as_ref v) (is_some (Pseudo.method (pseudo b)))
        (Pseudo.set_method v) s
  | Header.Scheme v =>
      set_pseudo max_header_list_size 6 v (is_some (Pseudo.scheme (pseudo b))) (Pseudo.set_scheme v) s
  | Header.Path v =>
      set_pseudo max_header_list_size 4 v (is_some (Pseudo.path (pseudo b))) (Pseudo.set_path v) s
  | Header.Protocol v =>
      set_pseudo max_header_list_size 8 (Protocol.as_str v) (is_some (Pseudo.protocol (pseudo b)))
        (Pseudo.set_protocol v) s
  | Header.Status v =>
      set_pseudo max_header_list_size 6 (status_as_str v) (is_some (Pseudo.status (pseudo b)))
        (Pseudo.set_status v) s
  end.

(** [load]: decode the block and validate what comes out.  Also returned: the
    block of headers, what is left of [src], and the decoder. *)
Definition load (self : t) (src : bytes) (max_header_list_size : Z) (decoder : Decoder.t) :
    outcome (result unit FrameError * t * bytes * Decoder.t) :=
  let s := loading self (negb (hm_is_empty (fields self))) false (calculate_header_list_size self) in
  let! (res, decoder, rest, out) := Decoder.decode decoder src in
  let s := fold_left (on_header max_header_list_size) out s in
  match res with
  | Err e => Done (Err (Hpack e), block s, rest, decoder)
  | Ok _ =>
      if malformed s then Done (Err MalformedMessage, block s, rest, decoder)
      else Done (Ok tt, block s, rest, decoder)
  end.

End block.

End HeaderBlock.

(** ** Payload parsing *)

(** [if pad > 0 { .. truncate .. }] *)
Definition drop_padding (pad : Z) (src : bytes) : result bytes FrameError :=
  if 0 <? pad then
    if len src <? pad then Err TooMuchPadding
    else Ok (take (length src - Z.to_nat pad) src)
  else Ok src.

Module Headers.

Section headers.
Context `{HeaderPlz} `{HeaderMapOps}.

Record t : Type := mk {
  stream_id : StreamId.t;
  stream_dep : option StreamDependency.t;
  header_block : HeaderBlock.t;
  flags : HeadersFlag.t
}.

Definition new (stream_id : StreamId.t) (pseudo : Pseudo.t) (fields : HeaderMap) : t :=
  mk stream_id None (HeaderBlock.mk fields (calculate_headermap_size fields) false pseudo)
     HeadersFlag.default.

Definition trailers (stream_id : StreamId.t) (fields : HeaderMap) : t :=
  mk stream_id None
     (HeaderBlock.mk fields (calculate_headermap_size fields) false Pseudo.default)
     (HeadersFlag.set_end_stream HeadersFlag.default).

Definition load_dep (head : Head.t) (src : bytes) :
    outcome (result (StreamDependency.t * bytes) FrameError) :=
  if (length src <? 5)%nat then Done (Err MalformedMessage)
  else
    let! front := slice_to src 5 in
    let!? dep := StreamDependency.load front in
    if StreamDependency.dependency_id dep =? Head.stream_id head then Done (Err InvalidDependencyId)
    else Done (Ok (dep, drop 5 src)).

Definition load (head : Head.t) (src : bytes) : outcome (result (t * bytes) FrameError) :=
  let flags := Head.flag head in
  if StreamId.is_zero (Head.stream_id head) then Done (Err InvalidStreamId)
  else
    let!? (pad, src) :=
      if HeadersFlag.is_padded flags then
        match src with
        | [] => Done (Err MalformedMessage)
        | b :: src => Done (Ok (b, src))
        end
      else Done (Ok (0, src)) in
    let!? (dep, src) :=
      if HeadersFlag.is_priority flags then
        let!? (dep, src) := load_dep head src in
        Done (Ok (Some dep, src))
      else Done (Ok (None, src)) in
    match drop_padding pad src with
    | Err e => Done (Err e)
    | Ok src => Done (Ok (mk (Head.stream_id head) dep HeaderBlock.empty flags, src))
    end.

Definition load_hpack (self : t) (src : bytes) (max_header_list_size : Z) (decoder : Decoder.t) :
    outcome (result unit FrameError * t * bytes * Decoder.t) :=
  let! (r, b, rest, d) := HeaderBlock.load (header_block self) src max_header_list_size decoder in
  Done (r, mk (stream_id self) (stream_dep self) b (flags self), rest, d).

Definition is_end_headers (f : t) : bool := HeadersFlag.is_end_headers (flags f).
Definition set_end_headers (f : t) : t :=
  mk (stream_id f) (stream_dep f) (header_block f) (HeadersFlag.set_end_headers (flags f)).
Definition is_end_stream (f : t) : bool := HeadersFlag.is_end_stream (flags f).
Definition set_end_stream (f : t) : t :=
  mk (stream_id f) (stream_dep f) (header_block f) (HeadersFlag.set_end_stream (flags f)).
Definition is_over_size (f : t) : bool := HeaderBlock.is_over_size (header_block f).
Definition is_informational (f : t) : bool :=
  Pseudo.is_informational (HeaderBlock.pseudo (header_block f)).
Definition into_parts (f : t) : Pseudo.t * HeaderMap :=
  (HeaderBlock.pseudo (header_block f), HeaderBlock.fields (header_block f)).
Definition get_pseudo (f : t) : Pseudo.t := HeaderBlock.pseudo (header_block f).
Definition get_fields (f : t) : HeaderMap := HeaderBlock.fields (header_block f).
Definition into_fields (f : t) : HeaderMap := HeaderBlock.fields (header_block f).
Definition unset_end_stream (f : t) : t :=
  mk (stream_id f) (stream_dep f) (header_block f) (HeadersFlag.unset_end_stream (flags f)).

Definition head (f : t) : Head.t := Head.new Kind.Headers (flags f) (stream_id f).

End headers.

End Headers.

Module PushPromise.

Section push.
Context `{HeaderPlz} `{HeaderMapOps}.

Record t : Type := mk {
  stream_id : StreamId.t;
  promised_id : StreamId.t;
  header_block : HeaderBlock.t;
  flags : PushPromiseFlag.t
}.

Definition new (stream_id promised_id : StreamId.t) (pseudo : Pseudo.t) (fields : HeaderMap) : t :=
  mk stream_id promised_id
     (HeaderBlock.mk fields (calculate_headermap_size fields) false pseudo)
     PushPromiseFlag.default.

Definition load (head : Head.t) (src : bytes) : outcome (result (t * bytes) FrameError) :=
  let flags := Head.flag head in
  if StreamId.is_zero (Head.stream_id head) then Done (Err InvalidStreamId)
  else
    let!? (pad, src) :=
      if PushPromiseFlag.is_padded flags then
        match src with
        | [] => Done (Err MalformedMessage)
        | b :: src => Done (Ok (b, src))
        end
      else Done (Ok (0, src)) in
    if (length src <? 5)%nat then Done (Err MalformedMessage)
    else
      let! front := slice_to src 4 in
      let! (promised_id, _) := StreamId.parse front in
      let src := drop 4 src in
      match drop_padding pad src with
      | Err e => Done (Err e)
      | Ok src => Done (Ok (mk (Head.stream_id head) promised_id HeaderBlock.empty flags, src))
      end.

Definition load_hpack (self : t) (src : bytes) (max_header_list_size : Z) (decoder : Decoder.t) :
    outcome (result unit FrameError * t * bytes * Decoder.t) :=
  let! (r, b, rest, d) := HeaderBlock.load (header_block self) src max_header_list_size decoder in
  Done (r, mk (stream_id self) (promised_id self) b (flags self), rest, d).

Definition is_end_headers (f : t) : bool := PushPromiseFlag.is_end_headers (flags f).
Definition set_end_headers (f : t) : t :=
  mk (stream_id f) (promised_id f) (header_block f) (PushPromiseFlag.set_end_headers (flags f)).
Definition is_over_size (f : t) : bool := HeaderBlock.is_over_size (header_block f).
Definition head (f : t) : Head.t := Head.new Kind.PushPromise (flags f) (stream_id f).

(** [safe_and_cacheable]: GET or HEAD; the constant HEAD is a parameter. *)
Definition safe_and_cacheable (method_HEAD method : PlzMethod) : bool :=
  bool_decide (method = method_GET) || bool_decide (method = method_HEAD).

End push.

End PushPromise.
