(* ===== verification/HeadersFacts.v ===== *)
(** * Facts about header block validation

    What the callback of [HeaderBlock::load] guarantees of an accepted block: the
    size limit, and the order and uniqueness of pseudo-header fields. *)

From Stdlib Require Import String.
From S2P Require Import Prelude FrameBase ControlFrames HpackInt HpackHeader HpackDecoder.
From S2P Require Import HpackDecoderFacts HeadersFrame.

Section facts.
Context `{HeaderPlz} `{HeaderMapOps}.

(** The size of everything the block stores, [protocol] included. *)
Definition stored_size (b : HeaderBlock.t) : Z :=
  HeaderBlock.calculate_header_list_size b
  + HeaderBlock.pseudo_size 8 Protocol.as_str (Pseudo.protocol (HeaderBlock.pseudo b)).

Definition size_ok (max : Z) (s : HeaderBlock.Loading) : Prop :=
  stored_size (HeaderBlock.block s) <= HeaderBlock.headers_size s /\
  stored_size (HeaderBlock.block s) < max.

Lemma pseudo_size_nonneg {A} n (f : A -> bytes) o : 0 <= n -> 0 <= HeaderBlock.pseudo_size n f o.
Proof.
  intros Hn. destruct o as [x|]; cbn; [|lia]. unfold decoded_header_size.
  pose proof (len_nonneg (f x)). lia.
Qed.

(** Storing a pseudo-header field that was not set adds its size. *)
Lemma set_pseudo_size_ok max n text is_set set s :
  0 <= n ->
  (is_set = false -> forall b,
     b = HeaderBlock.block s ->
     stored_size (HeaderBlock.mk (HeaderBlock.fields b) (HeaderBlock.field_size b)
       (HeaderBlock.is_over_size b) (set (HeaderBlock.pseudo b))) =
     stored_size b + decoded_header_size (n + 1) (len text)) ->
  size_ok max s -> size_ok max (HeaderBlock.set_pseudo max n text is_set set s).
Proof.
  intros Hn Hset [Hle Hlt]. unfold HeaderBlock.set_pseudo.
  destruct (HeaderBlock.reg s); [done|]. destruct is_set; [done|].
  specialize (Hset eq_refl _ eq_refl). pose proof (len_nonneg text).
  unfold decoded_header_size in *.
  destruct (_ <? max) eqn:Hc; bool_to_prop.
  - split; cbn [HeaderBlock.block HeaderBlock.headers_size]; rewrite Hset; lia.
  - assert (stored_size (HeaderBlock.over_size (HeaderBlock.block s)) =
      stored_size (HeaderBlock.block s)) as Ho by done.
    destruct (negb _); split; cbn [HeaderBlock.block HeaderBlock.headers_size]; rewrite ?Ho; lia.
Qed.

Lemma on_header_size_ok max s h :
  size_ok max s -> size_ok max (HeaderBlock.on_header max s h).
Proof.
  intros Hs. destruct h as [name value|v|v|v|v|v|v]; cbn [HeaderBlock.on_header].
  2-7: apply set_pseudo_size_ok; [lia| |done]; intros His b ->;
    destruct (HeaderBlock.block s) as [fl fs ov [m sc au pa pr st]]; cbn in His;
    unfold stored_size, HeaderBlock.calculate_header_list_size; cbn in *;
    repeat match goal with o : option _ |- _ => destruct o; try discriminate His end;
    cbn; unfold id, decoded_header_size; lia.
  destruct (HeaderBlock.connection_level name); [done|]. destruct (_ && _); [done|].
  destruct Hs as [Hle Hlt]. pose proof (len_nonneg name). pose proof (len_nonneg value).
  unfold decoded_header_size in *. destruct (_ <? max) eqn:Hc; bool_to_prop.
  - assert (stored_size (HeaderBlock.mk (hm_insert name value (HeaderBlock.fields (HeaderBlock.block s)))
      (HeaderBlock.field_size (HeaderBlock.block s) + (len name + len value + 32))
      (HeaderBlock.is_over_size (HeaderBlock.block s)) (HeaderBlock.pseudo (HeaderBlock.block s))) =
      stored_size (HeaderBlock.block s) + (len name + len value + 32)) as Heq
      by (unfold stored_size, HeaderBlock.calculate_header_list_size; cbn; lia).
    split; cbn [HeaderBlock.block HeaderBlock.headers_size]; rewrite Heq; lia.
  - assert (stored_size (HeaderBlock.over_size (HeaderBlock.block s)) =
      stored_size (HeaderBlock.block s)) as Ho by done.
    destruct (negb _); split; cbn [HeaderBlock.block HeaderBlock.headers_size]; rewrite ?Ho; lia.
Qed.

Lemma fold_size_ok max out s :
  size_ok max s -> size_ok max (fold_left (HeaderBlock.on_header max) out s).
Proof. revert s. induction out; intros s Hs; [done|]. apply IHout. by apply on_header_size_ok. Qed.


(** ** Pseudo-header fields *)

Definition is_pseudo (h : Header.hd) : bool :=
  match h with Header.Field _ _ => false | _ => true end.

(** A field HTTP/2 allows: not connection-specific, and TE only as trailers. *)
Definition field_ok (h : Header.hd) : Prop :=
  match h with
  | Header.Field name value =>
      HeaderBlock.connection_level name = false /\
      (name = const_header TE -> BytesStr.eq_str value (str "trailers") = true)
  | _ => False
  end.

Definition pseudo_set (p : Pseudo.t) (n : Header.Name) : bool :=
  match n with
  | Header.NField _ => false
  | Header.NAuthority => HeaderBlock.is_some (Pseudo.authority p)
  | Header.NMethod => HeaderBlock.is_some (Pseudo.method p)
  | Header.NScheme => HeaderBlock.is_some (Pseudo.scheme p)
  | Header.NPath => HeaderBlock.is_some (Pseudo.path p)
  | Header.NProtocol => HeaderBlock.is_some (Pseudo.protocol p)
  | Header.NStatus => HeaderBlock.is_some (Pseudo.status p)
  end.

(** What is known of the headers [l] seen so far while nothing is malformed. *)
Definition seen_ok (l : list Header.hd) (s : HeaderBlock.Loading) : Prop :=
  exists ps fs, l = ps ++ fs /\ Forall (fun h => is_pseudo h = true) ps /\ Forall field_ok fs /\
    (HeaderBlock.reg s = false -> fs = []) /\
    (HeaderBlock.is_over_size (HeaderBlock.block s) = false ->
     NoDup (map Header.name ps) /\
     forall h, h ∈ ps -> pseudo_set (HeaderBlock.pseudo (HeaderBlock.block s)) (Header.name h) = true).

(** Malformed and over-size are never unset. *)
Lemma on_header_mono max s h :
  (HeaderBlock.malformed s = true -> HeaderBlock.malformed (HeaderBlock.on_header max s h) = true) /\
  (HeaderBlock.is_over_size (HeaderBlock.block s) = true ->
   HeaderBlock.is_over_size (HeaderBlock.block (HeaderBlock.on_header max s h)) = true).
Proof.
  split; intros Ht; destruct h; cbn; unfold HeaderBlock.set_pseudo, HeaderBlock.set_malformed;
    repeat case_match; cbn; done || congruence.
Qed.

(** A pseudo-header field is stored, or the block is over size, or malformed. *)
Lemma set_pseudo_seen max n text set s l h :
  is_pseudo h = true ->
  (forall p, pseudo_set (set p) (Header.name h) = true) ->
  (forall p n', pseudo_set p n' = true -> pseudo_set (set p) n' = true) ->
  seen_ok l s ->
  let s' := HeaderBlock.set_pseudo max n text
    (pseudo_set (HeaderBlock.pseudo (HeaderBlock.block s)) (Header.name h)) set s in
  HeaderBlock.malformed s' = false -> seen_ok (l ++ [h]) s'.
Proof.
  intros Hh Hset Hkeep (ps & fs & -> & Hps & Hfs & Hreg & Hover). unfold HeaderBlock.set_pseudo.
  destruct (HeaderBlock.reg s) eqn:Hr; [done|]. specialize (Hreg eq_refl) as ->.
  rewrite app_nil_r.
  destruct (pseudo_set (HeaderBlock.pseudo (HeaderBlock.block s)) (Header.name h)) eqn:Hp; [done|].
  assert (Forall (fun h => is_pseudo h = true) (ps ++ [h])) as Hps'
    by (apply Forall_app_2; [done|by apply Forall_singleton]).
  cbv zeta. intros Hmal. exists (ps ++ [h]), []. rewrite app_nil_r. split_and!; [done..| |].
  { intros _. done. }
  destruct (_ <? max); [cbn|destruct (HeaderBlock.is_over_size (HeaderBlock.block s)) eqn:Ho; cbn];
    [|congruence|done].
  intros Ho. destruct (Hover Ho) as [Hnd Hall]. split.
  - rewrite map_app. apply NoDup_app. split_and!; [done| |apply NoDup_singleton].
    intros x Hx Hx'. cbn in Hx'. apply list_elem_of_singleton in Hx' as ->.
    apply list_elem_of_fmap in Hx as (y & Hy & Hin).
    pose proof (Hall y Hin) as Ht. rewrite <-Hy in Ht. congruence.
  - intros y [Hy|Hy%list_elem_of_singleton]%elem_of_app; [by apply Hkeep, Hall|by subst].
Qed.

Lemma on_header_seen max s l h :
  seen_ok l s -> HeaderBlock.malformed (HeaderBlock.on_header max s h) = false ->
  seen_ok (l ++ [h]) (HeaderBlock.on_header max s h).
Proof.
  intros Hs. destruct h as [name value|v|v|v|v|v|v]; cbn [HeaderBlock.on_header].
  2: apply (set_pseudo_seen max 9 v (Pseudo.set_authority v) s l (Header.Authority v)).
  6: apply (set_pseudo_seen max 6 (method_as_ref v) (Pseudo.set_method v) s l (Header.Method v)).
  10: apply (set_pseudo_seen max 6 v (Pseudo.set_scheme v) s l (Header.Scheme v)).
  14: apply (set_pseudo_seen max 4 v (Pseudo.set_path v) s l (Header.Path v)).
  18: apply (set_pseudo_seen max 8 (Protocol.as_str v) (Pseudo.set_protocol v) s l (Header.Protocol v)).
  22: apply (set_pseudo_seen max 6 (status_as_str v) (Pseudo.set_status v) s l (Header.Status v)).
  2-25: first [done | by intros p [] | exact Hs].
  destruct (HeaderBlock.connection_level name) eqn:Hc; [done|].
  destruct (bool_decide (name = const_header TE)
    && negb (BytesStr.eq_str value (str "trailers"))) eqn:Hte; [done|].
  intros Hmal. destruct Hs as (ps & fs & -> & Hps & Hfs & Hreg & Hover).
  exists ps, (fs ++ [Header.Field name value]). rewrite app_assoc. split_and!; [done..| | |].
  - apply Forall_app_2; [done|]. apply Forall_singleton. split; [done|]. intros He.
    rewrite bool_decide_true in Hte by done. by apply negb_false_iff in Hte.
  - by destruct (_ <? max); [|destruct (HeaderBlock.is_over_size _)].
  - destruct (_ <? max); [done|].
    destruct (HeaderBlock.is_over_size (HeaderBlock.block s)) eqn:Ho; cbn; intros ?; congruence.
Qed.

Lemma fold_seen max out : forall s l,
  seen_ok l s -> HeaderBlock.malformed (fold_left (HeaderBlock.on_header max) out s) = false ->
  seen_ok (l ++ out) (fold_left (HeaderBlock.on_header max) out s).
Proof.
  induction out as [|h out IH]; intros s l Hs Hm; [by rewrite app_nil_r|].
  cbn [fold_left] in *. change (l ++ h :: out) with (l ++ [h] ++ out). rewrite app_assoc.
  apply IH; [|done]. apply on_header_seen; [done|].
  destruct (HeaderBlock.malformed (HeaderBlock.on_header max s h)) eqn:Hmal; [|done].
  exfalso. clear -Hm Hmal. revert Hm. generalize dependent (HeaderBlock.on_header max s h).
  induction out as [|h' out IH]; intros s' Hmal Hm; cbn in *; [congruence|].
  apply (IH _ (proj1 (on_header_mono max s' h') Hmal) Hm).
Qed.

Context `{!HeaderMapLaws H0}.


End facts.
