(* ===== verification/HeaderChunks.v ===== *)
(** * Fragmenting header blocks

    Models [EncodingHeaderBlock] and [Continuation] of
    [src/src/frame/headers.rs] and the part of [src/src/codec/framed_write.rs]
    that writes them: the limited write buffer, and [unset_frame], which encodes
    the next CONTINUATION frame once the buffer has been flushed. *)

From S2P Require Import Prelude FrameBase ControlFrames HeadersFrame.

(** [bytes::buf::Limit<&mut BytesMut>]: the buffer and what it still accepts. *)
Module EncodeBuf.

Record t : Type := mk { buf : bytes; remaining_mut : Z }.

(** [put], [put_slice], [put_u32]: panics when the limit is exceeded. *)
Definition put (d : t) (src : bytes) : outcome t :=
  let! _ := assert (len src <=? remaining_mut d) in
  Done (mk (buf d ++ src) (remaining_mut d - len src)).

End EncodeBuf.

(** [dst[pos..pos + 3].copy_from_slice(src)] for a [src] of three octets *)
Definition copy_3 (dst : bytes) (pos : nat) (src : bytes) : outcome bytes :=
  let! _ := assert (pos + 3 <=? length dst)%nat in
  Done (take pos dst ++ src ++ drop (pos + 3) dst).

Module Continuation.

Record t : Type := mk {
  stream_id : StreamId.t;
  hpack : bytes
}.

Definition head (c : t) : Head.t := Head.new Kind.Continuation HeadersFlag.END_HEADERS (stream_id c).

End Continuation.

Module EncodingHeaderBlock.

(** [encode]: [f] writes what comes before the block fragment in the payload. *)
Definition encode (hpack : bytes) (head : Head.t) (dst : EncodeBuf.t)
    (f : EncodeBuf.t -> outcome EncodeBuf.t) : outcome (EncodeBuf.t * option Continuation.t) :=
  let head_pos := length (EncodeBuf.buf dst) in
  let! dst := EncodeBuf.put dst (Head.encode head 0 []) in
  let payload_pos := length (EncodeBuf.buf dst) in
  let! dst := f dst in
  let! (dst, continuation) :=
    if len hpack >? EncodeBuf.remaining_mut dst then
      let n := Z.to_nat (EncodeBuf.remaining_mut dst) in
      let! dst := EncodeBuf.put dst (take n hpack) in
      Done (dst, Some (Continuation.mk (Head.stream_id head) (drop n hpack)))
    else
      let! dst := EncodeBuf.put dst hpack in
      Done (dst, None) in
  let payload_len := Z.of_nat (length (EncodeBuf.buf dst) - payload_pos) in
  let payload_len_be := be_bytes 8 payload_len in
  let! _ := assert (forallb (Z.eqb 0) (take 5 payload_len_be)) in
  let! b := copy_3 (EncodeBuf.buf dst) head_pos (drop 5 payload_len_be) in
  match continuation with
  | Some _ =>
      let! flags := byte_at b (head_pos + 4) in
      let! _ := assert (HeadersFlag.is_end_headers flags) in
      Done (EncodeBuf.mk (<[(head_pos + 4)%nat := flags - HeadersFlag.END_HEADERS]> b)
              (EncodeBuf.remaining_mut dst), continuation)
  | None => Done (EncodeBuf.mk b (EncodeBuf.remaining_mut dst), continuation)
  end.

End EncodingHeaderBlock.

(** [Continuation::encode] *)
Definition encode_continuation (c : Continuation.t) (dst : EncodeBuf.t) :
    outcome (EncodeBuf.t * option Continuation.t) :=
  EncodingHeaderBlock.encode (Continuation.hpack c) (Continuation.head c) dst Done.

(** [Headers::encode] and [PushPromise::encode], after [into_encoding]. *)
Definition encode_headers (head : Head.t) (hpack : bytes) (dst : EncodeBuf.t) :
    outcome (EncodeBuf.t * option Continuation.t) :=
  let! _ := assert (HeadersFlag.is_end_headers (Head.flag head)) in
  EncodingHeaderBlock.encode hpack head dst Done.

Definition encode_push_promise (head : Head.t) (promised_id : StreamId.t) (hpack : bytes)
    (dst : EncodeBuf.t) : outcome (EncodeBuf.t * option Continuation.t) :=
  let! _ := assert (HeadersFlag.is_end_headers (Head.flag head)) in
  EncodingHeaderBlock.encode hpack head dst
    (fun dst => EncodeBuf.put dst (be_bytes 4 (StreamId.to_u32 promised_id))).

(** The macro [limited_write_buf!] on an empty write buffer. *)
Definition limited_write_buf (max_frame_size : Z) : EncodeBuf.t :=
  EncodeBuf.mk [] (max_frame_size + Z.of_nat HEADER_LEN).

(** The contents of the write buffer at each flush: [unset_frame] clears the
    buffer and encodes the pending continuation until there is none. *)
Fixpoint flush_continuations (fuel : nat) (max_frame_size : Z) (next : option Continuation.t) :
    outcome (list bytes) :=
  match next, fuel with
  | None, _ => Done []
  | Some _, O => Panic
  | Some c, S fuel =>
      let! (dst, next) := encode_continuation c (limited_write_buf max_frame_size) in
      let! rest := flush_continuations fuel max_frame_size next in
      Done (EncodeBuf.buf dst :: rest)
  end.

(** A HEADERS or PUSH_PROMISE frame buffered on an empty write buffer, and all the
    flushes it causes.  Each flush writes at least one octet of the block, so the
    length of the block is fuel enough ([write_block_spec]). *)
Definition write_headers (max_frame_size : Z) (head : Head.t) (hpack : bytes) : outcome (list bytes) :=
  let! (dst, next) := encode_headers head hpack (limited_write_buf max_frame_size) in
  let! rest := flush_continuations (S (length hpack)) max_frame_size next in
  Done (EncodeBuf.buf dst :: rest).

Definition write_push_promise (max_frame_size : Z) (head : Head.t) (promised_id : StreamId.t)
    (hpack : bytes) : outcome (list bytes) :=
  let! (dst, next) := encode_push_promise head promised_id hpack (limited_write_buf max_frame_size) in
  let! rest := flush_continuations (S (length hpack)) max_frame_size next in
  Done (EncodeBuf.buf dst :: rest).

(** ** Facts *)

(** A whole frame. *)
Definition frame_octets (f : Head.t * bytes) : bytes := Head.encode f.1 (len f.2) [] ++ f.2.

Definition unset_end_headers (h : Head.t) : Head.t :=
  Head.new (Head.kind h) (Head.flag h - HeadersFlag.END_HEADERS) (Head.stream_id h).

Definition ends_block (f : Head.t * bytes) : bool := HeadersFlag.is_end_headers (Head.flag f.1).

Lemma end_headers_unset fl :
  is_u8 fl -> HeadersFlag.is_end_headers fl = true ->
  HeadersFlag.is_end_headers (fl - HeadersFlag.END_HEADERS) = false /\
  is_u8 (fl - HeadersFlag.END_HEADERS).
Proof.
  intros Hf He.
  assert (negb (HeadersFlag.is_end_headers fl) ||
    (negb (HeadersFlag.is_end_headers (fl - 4)) && ((0 <=? fl - 4) && (fl - 4 <=? 255))) = true) as H.
  { apply (byte_forall (fun fl => negb (HeadersFlag.is_end_headers fl) ||
      (negb (HeadersFlag.is_end_headers (fl - 4)) && ((0 <=? fl - 4) && (fl - 4 <=? 255)))));
      [reflexivity|done]. }
  rewrite He in H. cbn [negb orb] in H. unfold HeadersFlag.END_HEADERS.
  apply andb_prop in H as [H1 H2]. apply negb_true_iff in H1. split; [done|ilia].
Qed.

Lemma be_bytes_split (v : Z) :
  0 <= v < 2 ^ 24 -> take 5 (be_bytes 8 v) = [0; 0; 0; 0; 0] /\ drop 5 (be_bytes 8 v) = be_bytes 3 v.
Proof.
  intros Hv. split; [|done]. cbn -[Z.shiftr]. unfold wrap_u8.
  rewrite !Z.shiftr_div_pow2 by lia.
  assert (forall n, 24 <= n -> (v / 2 ^ n) mod 256 = 0) as Hz.
  { intros n Hn. rewrite Z.div_small; [done|]. pose proof (Z.pow_le_mono_r 2 24 n). lia. }
  by rewrite !Hz by lia.
Qed.

(** One frame of the sequence: the prefix [p], then as much of the block as fits. *)
Lemma encode_block_spec hpack h m p f :
  0 <= m < 2 ^ 24 -> len p <= m -> is_u8 (Head.flag h) ->
  HeadersFlag.is_end_headers (Head.flag h) = true ->
  (forall d, len p <= EncodeBuf.remaining_mut d -> f d = EncodeBuf.put d p) ->
  let room := Z.to_nat (m - len p) in
  exists r, EncodingHeaderBlock.encode hpack h (limited_write_buf m) f =
    if len hpack >? m - len p then
      Done (EncodeBuf.mk (frame_octets (unset_end_headers h, p ++ take room hpack)) 0,
            Some (Continuation.mk (Head.stream_id h) (drop room hpack)))
    else Done (EncodeBuf.mk (frame_octets (h, p ++ hpack)) r, None).
Proof.
  intros Hm Hp Hfl He Hf room. unfold EncodingHeaderBlock.encode, limited_write_buf.
  unfold EncodeBuf.put at 1. cbn [EncodeBuf.buf EncodeBuf.remaining_mut app length].
  assert (len (Head.encode h 0 []) = Z.of_nat HEADER_LEN) as Hhl
    by (unfold len; by rewrite head_encode_length).
  destruct (Z.leb_spec (len (Head.encode h 0 [])) (m + Z.of_nat HEADER_LEN)); [|lia].
  cbn [assert obind EncodeBuf.buf EncodeBuf.remaining_mut]. rewrite Hhl.
  replace (m + Z.of_nat HEADER_LEN - Z.of_nat HEADER_LEN) with m by lia.
  rewrite Hf by done. unfold EncodeBuf.put at 1. cbn [EncodeBuf.buf EncodeBuf.remaining_mut].
  destruct (Z.leb_spec (len p) m); [|lia]. cbn [assert obind EncodeBuf.remaining_mut].
  assert (exists taken cont rm,
    (if len hpack >? m - len p
     then let! dst := EncodeBuf.put (EncodeBuf.mk (Head.encode h 0 [] ++ p) (m - len p)) (take room hpack) in
          Done (dst, Some (Continuation.mk (Head.stream_id h) (drop room hpack)))
     else let! dst := EncodeBuf.put (EncodeBuf.mk (Head.encode h 0 [] ++ p) (m - len p)) hpack in
          Done (dst, None)) = Done (EncodeBuf.mk (Head.encode h 0 [] ++ p ++ taken) rm, cont) /\
    len taken <= m - len p /\
    (if len hpack >? m - len p then taken = take room hpack /\ rm = 0 /\
       cont = Some (Continuation.mk (Head.stream_id h) (drop room hpack))
     else taken = hpack /\ cont = None)) as (taken & cont & rm & Heq & Htl & Hcase).
  { unfold EncodeBuf.put. cbn [EncodeBuf.remaining_mut EncodeBuf.buf].
    destruct (len hpack >? m - len p) eqn:Hgt; bool_to_prop.
    - assert (len (take room hpack) = m - len p) as Hlt
        by (unfold room, len in *; rewrite length_take; lia).
      rewrite Hlt. destruct (Z.leb_spec (m - len p) (m - len p)); [|lia]. cbn [assert obind].
      eexists _, _, _. rewrite <-app_assoc. split_and!; [done|lia|done|lia|done].
    - destruct (Z.leb_spec (len hpack) (m - len p)); [|lia]. cbn [assert obind].
      eexists _, _, _. rewrite <-app_assoc. split_and!; done. }
  cbv zeta. cbn [EncodeBuf.remaining_mut EncodeBuf.buf] in Heq |- *. fold room.
  rewrite Heq. clear Heq. cbn [obind EncodeBuf.buf EncodeBuf.remaining_mut].
  rewrite (length_app (Head.encode h 0 []) (p ++ taken)), head_encode_length.
  replace (Z.of_nat (HEADER_LEN + length (p ++ taken) - HEADER_LEN)) with (len (p ++ taken))
    by (unfold len; lia).
  assert (0 <= len (p ++ taken) < 2 ^ 24) as Hpl
    by (rewrite len_app; pose proof (len_nonneg taken); pose proof (len_nonneg p); lia).
  destruct (be_bytes_split _ Hpl) as [-> ->]. cbn [forallb Z.eqb andb assert obind].
  assert (copy_3 (Head.encode h 0 [] ++ p ++ taken) 0 (be_bytes 3 (len (p ++ taken))) =
    Done (frame_octets (h, p ++ taken))) as -> by done.
  cbn [obind]. exists rm.
  destruct (len hpack >? m - len p).
  - destruct Hcase as (-> & -> & ->).
    assert (byte_at (frame_octets (h, p ++ take room hpack)) (0 + 4) = Done (Head.flag h)) as -> by done.
    cbn [obind]. rewrite He. cbn [assert obind]. done.
  - destruct Hcase as (-> & ->). done.
Qed.

(** The frames a block is cut into. *)
Definition same_stream (id : StreamId.t) (f : Head.t * bytes) : Prop := Head.stream_id f.1 = id.

Definition well_fragmented (m : Z) (id : StreamId.t) (payload : bytes) (frames : list (Head.t * bytes)) : Prop :=
  concat (map snd frames) = payload /\
  Forall (fun f => len f.2 <= m) frames /\
  Forall (same_stream id) frames /\
  exists front last, frames = front ++ [last] /\ ends_block last = true /\
    Forall (fun f => ends_block f = false) front.

Lemma well_fragmented_cons m id f payload frames :
  len f.2 <= m -> same_stream id f -> ends_block f = false ->
  well_fragmented m id payload frames ->
  well_fragmented m id (f.2 ++ payload) (f :: frames).
Proof.
  intros Hl Hs He (Hc & Hm & Hid & front & last & -> & Hlast & Hfront).
  split_and!; [by rewrite map_cons, concat_cons, Hc|by constructor..|].
  exists (f :: front), last. split_and!; [done..|by constructor].
Qed.

Lemma flush_continuations_spec m fuel : forall id hpack,
  0 < m < 2 ^ 24 -> (length hpack < fuel)%nat ->
  exists frames,
    flush_continuations fuel m (Some (Continuation.mk id hpack)) = Done (map frame_octets frames) /\
    Forall (fun f => Head.kind f.1 = Kind.Continuation) frames /\
    well_fragmented m id hpack frames.
Proof.
  induction fuel as [|fuel IH]; intros id hpack Hm Hf; [lia|].
  cbn [flush_continuations]. unfold encode_continuation.
  set (h := Continuation.head (Continuation.mk id hpack)). cbn [Continuation.hpack].
  destruct (encode_block_spec hpack h m [] Done ltac:(lia) ltac:(unfold len; simpl; lia) ltac:(split; vm_compute; discriminate)
    eq_refl) as (r & ->).
  { intros d Hd. unfold EncodeBuf.put. rewrite (proj2 (Z.leb_le _ _) Hd). cbn.
    rewrite app_nil_r, Z.sub_0_r. by destruct d. }
  change (len (A:=Z) []) with 0. rewrite Z.sub_0_r. cbn [app].
  destruct (len hpack >? m) eqn:Hgt; bool_to_prop.
  - cbn [obind]. destruct (IH id (drop (Z.to_nat m) hpack) Hm) as (frames & Hfl & Hk & Hw).
    { rewrite length_drop. unfold len in Hgt. lia. }
    change (Head.stream_id h) with id. rewrite Hfl. cbn [obind EncodeBuf.buf].
    exists ((unset_end_headers h, take (Z.to_nat m) hpack) :: frames).
    split_and!; [done|by constructor|].
    rewrite <-(take_drop (Z.to_nat m) hpack) at 1.
    apply (well_fragmented_cons m id (unset_end_headers h, take (Z.to_nat m) hpack)); try done.
    cbn. unfold len in *. rewrite length_take. lia.
  - cbn [obind EncodeBuf.buf]. exists [(h, hpack)].
    assert (flush_continuations fuel m None = Done []) as -> by by destruct fuel.
    split_and!; [done|by apply Forall_singleton|].
    split_and!; [by cbn; rewrite app_nil_r|by apply Forall_singleton|by apply Forall_singleton|].
    exists [], (h, hpack). by split_and!.
Qed.

(** The head of the first frame says whether continuations follow. *)
Definition first_head (h h' : Head.t) : Prop := h' = h \/ h' = unset_end_headers h.

Lemma first_head_kind h h' : first_head h h' -> Head.kind h' = Head.kind h.
Proof. by intros [->| ->]. Qed.

Lemma write_block_spec m h p hpack f :
  0 < m < 2 ^ 24 -> len p <= m -> is_u8 (Head.flag h) ->
  HeadersFlag.is_end_headers (Head.flag h) = true ->
  (forall d, len p <= EncodeBuf.remaining_mut d -> f d = EncodeBuf.put d p) ->
  exists first frames,
    (let! (dst, next) := EncodingHeaderBlock.encode hpack h (limited_write_buf m) f in
     let! rest := flush_continuations (S (length hpack)) m next in
     Done (EncodeBuf.buf dst :: rest)) = Done (map frame_octets (first :: frames)) /\
    first_head h first.1 /\
    Forall (fun f => Head.kind f.1 = Kind.Continuation) frames /\
    well_fragmented m (Head.stream_id h) (p ++ hpack) (first :: frames).
Proof.
  intros Hm Hp Hfl He Hf.
  destruct (encode_block_spec hpack h m p f ltac:(lia) Hp Hfl He Hf) as (r & ->).
  pose proof (len_nonneg p). destruct (len hpack >? m - len p) eqn:Hgt; bool_to_prop.
  - cbn [obind]. set (room := Z.to_nat (m - len p)).
    destruct (flush_continuations_spec m (S (length hpack)) (Head.stream_id h) (drop room hpack) Hm)
      as (frames & -> & Hk & Hw); [rewrite length_drop; lia|].
    cbn [obind EncodeBuf.buf]. exists (unset_end_headers h, p ++ take room hpack), frames.
    split_and!; [done|by right|done|].
    rewrite <-(take_drop room hpack) at 1. rewrite app_assoc.
    apply (well_fragmented_cons m _ (unset_end_headers h, p ++ take room hpack)); try done.
    + cbn [snd]. rewrite len_app. unfold room, len in *. rewrite length_take. lia.
    + unfold ends_block. cbn. by apply end_headers_unset.
  - cbn [obind EncodeBuf.buf flush_continuations].
    exists (h, p ++ hpack), []. split_and!; [done|by left|by constructor|].
    split_and!; [by cbn; rewrite app_nil_r| |by apply Forall_singleton|].
    + apply Forall_singleton. cbn. rewrite len_app. lia.
    + exists [], (h, p ++ hpack). by split_and!.
Qed.


