(* ===== verification/ProtoErrors.v ===== *)
(** * Protocol errors and the role of the endpoint

    Models [src/src/proto/error.rs] and the error vocabulary shared by the
    connection and stream layers. *)

From S2P Require Import Prelude FrameBase.

Module Initiator.

Inductive t : Type := User | Library | Remote.

#[global] Instance t_eq_dec : EqDecision t.
Proof. solve_decision. Defined.

Definition is_local (i : t) : bool :=
  match i with User | Library => true | Remote => false end.

Definition is_library (i : t) : bool :=
  match i with Library => true | _ => false end.

End Initiator.

(** [std::io::ErrorKind]: the kinds the crate constructs, and the others. *)
Inductive ErrorKind : Type :=
| BrokenPipe
| UnexpectedEof
| InvalidData
| OtherKind (code : Z).

#[export] Instance ErrorKind_eq_dec : EqDecision ErrorKind.
Proof. solve_decision. Defined.

Module ProtoError.

Inductive t : Type :=
| Reset (id : StreamId.t) (reason : Reason.t) (initiator : Initiator.t)
| GoAway (debug_data : bytes) (reason : Reason.t) (initiator : Initiator.t)
| Io (kind : ErrorKind) (msg : option bytes).

#[global] Instance t_eq_dec : EqDecision t.
Proof. solve_decision. Defined.

Definition is_local (e : t) : bool :=
  match e with
  | Reset _ _ initiator | GoAway _ _ initiator => Initiator.is_local initiator
  | Io _ _ => true
  end.

Definition user_go_away (reason : Reason.t) : t := GoAway [] reason Initiator.User.
Definition library_reset (id : StreamId.t) (reason : Reason.t) : t := Reset id reason Initiator.Library.
Definition library_go_away (reason : Reason.t) : t := GoAway [] reason Initiator.Library.
Definition library_go_away_data (reason : Reason.t) (debug_data : bytes) : t :=
  GoAway debug_data reason Initiator.Library.
Definition remote_reset (id : StreamId.t) (reason : Reason.t) : t := Reset id reason Initiator.Remote.
Definition remote_go_away (debug_data : bytes) (reason : Reason.t) : t :=
  GoAway debug_data reason Initiator.Remote.

End ProtoError.

(** [codec::UserError] *)
Module UserError.

Inductive t : Type :=
| InactiveStreamId
| UnexpectedFrameType
| PayloadTooBig
| Rejected
| ReleaseCapacityTooBig
| OverflowedStreamId
| MalformedHeaders
| MissingUriSchemeAndAuthority
| PollResetAfterSendResponse
| SendPingWhilePending
| SendSettingsWhilePending
| PeerDisabledServerPush
| BufferLimitExceeded.

#[global] Instance t_eq_dec : EqDecision t.
Proof. solve_decision. Defined.

End UserError.

(** [proto::streams::Open] *)
Module Open.

Inductive t : Type := PushPromise | Headers.

Definition is_push_promise (o : t) : bool :=
  match o with PushPromise => true | Headers => false end.

End Open.

Module Role.

Inductive t : Type := Client | Server.

#[global] Instance t_eq_dec : EqDecision t.
Proof. solve_decision. Defined.

Definition is_server (r : t) : bool := match r with Server => true | Client => false end.
Definition is_client (r : t) : bool := match r with Client => true | Server => false end.

Definition is_local_init (r : t) (id : StreamId.t) : outcome bool :=
  let! _ := assert (negb (StreamId.is_zero id)) in
  Done (Bool.eqb (is_server r) (StreamId.is_server_initiated id)).

Definition ensure_can_open (r : t) (id : StreamId.t) (mode : Open.t) : result unit ProtoError.t :=
  if is_server r then
    if Open.is_push_promise mode || negb (StreamId.is_client_initiated id) then
      Err (ProtoError.library_go_away Reason.PROTOCOL_ERROR)
    else Ok tt
  else
    if negb (Open.is_push_promise mode) || negb (StreamId.is_server_initiated id) then
      Err (ProtoError.library_go_away Reason.PROTOCOL_ERROR)
    else Ok tt.

End Role.

(** ** Facts *)

(** An identifier a peer may open is of the peer's parity: never one of ours. *)
Lemma can_open_not_local r id mode :
  Role.ensure_can_open r id mode = Ok tt -> Role.is_local_init r id = Done false.
Proof.
  unfold Role.ensure_can_open, Role.is_local_init, StreamId.is_client_initiated,
    StreamId.is_server_initiated, StreamId.is_zero.
  pose proof (Z.mod_pos_bound id 2 ltac:(lia)).
  destruct r, mode; cbn [Role.is_server Open.is_push_promise orb negb]; try done;
    destruct (Z.eqb_spec id 0), (Z.eqb_spec (id mod 2) 1), (Z.eqb_spec (id mod 2) 0);
    cbn; done || lia.
Qed.
