(* ===== verification/FramedRead.v ===== *)
(** * Reading frames

    Models [decode_frame], [calc_max_continuation_frames] and [Continuable] of
    [src/src/codec/framed_read.rs] and the frame enumeration of
    [src/src/frame/mod.rs].  The length-delimited framing that cuts the byte
    stream into frames is the crate [tokio-util]: [decode_frame] is given whole
    frames, head included. *)

From Stdlib Require Import String.
From S2P Require Import Prelude FrameBase ControlFrames SettingsFrame DataFrame.
From S2P Require Import HpackInt HpackHeader HpackDecoder HeadersFrame ProtoErrors.

(** [frame::Frame]; the DATA payload type is [Bytes] on the reading side. *)
Module Frame.

Section frame.
Context `{HeaderPlz} `{HeaderMapOps}.

Inductive t : Type :=
| Data (f : Data.t bytes)
| Headers (f : Headers.t)
| Priority (f : Priority.t)
| PushPromise (f : PushPromise.t)
| Settings (f : Settings.t)
| Ping (f : Ping.t)
| GoAway (f : GoAway.t)
| WindowUpdate (f : WindowUpdate.t)
| Reset (f : Reset.t).

Definition kind (f : t) : Kind.t :=
  match f with
  | Data _ => Kind.Data
  | Headers _ => Kind.Headers
  | Priority _ => Kind.Priority
  | PushPromise _ => Kind.PushPromise
  | Settings _ => Kind.Settings
  | Ping _ => Kind.Ping
  | GoAway _ => Kind.GoAway
  | WindowUpdate _ => Kind.WindowUpdate
  | Reset _ => Kind.Reset
  end.

End frame.

End Frame.

Module Continuable.

Section continuable.
Context `{HeaderPlz} `{HeaderMapOps}.

Inductive t : Type :=
| Headers (h : Headers.t)
| PushPromise (p : PushPromise.t).

Definition stream_id (c : t) : StreamId.t :=
  match c with
  | Headers h => Headers.stream_id h
  | PushPromise p => PushPromise.stream_id p
  end.

Definition is_over_size (c : t) : bool :=
  match c with
  | Headers h => Headers.is_over_size h
  | PushPromise p => PushPromise.is_over_size p
  end.

Definition is_end_headers (c : t) : bool :=
  match c with
  | Headers h => Headers.is_end_headers h
  | PushPromise p => PushPromise.is_end_headers p
  end.

Definition load_hpack (c : t) (src : bytes) (max_header_list_size : Z) (decoder : Decoder.t) :
    outcome (result unit FrameError * t * bytes * Decoder.t) :=
  match c with
  | Headers h =>
      let! (r, h, rest, d) := Headers.load_hpack h src max_header_list_size decoder in
      Done (r, Headers h, rest, d)
  | PushPromise p =>
      let! (r, p, rest, d) := PushPromise.load_hpack p src max_header_list_size decoder in
      Done (r, PushPromise p, rest, d)
  end.

(** The frame itself, as [frame.into()] makes it. *)
Definition frame (c : t) : Frame.t :=
  match c with
  | Headers h => Frame.Headers h
  | PushPromise p => Frame.PushPromise p
  end.

(** [impl From<Continuable> for Frame<T>] *)
Definition into_frame (c : t) : Frame.t :=
  match c with
  | Headers h => Frame.Headers (Headers.set_end_headers h)
  | PushPromise p => Frame.PushPromise (PushPromise.set_end_headers p)
  end.

End continuable.

End Continuable.

Module FramedRead.

Definition DEFAULT_SETTINGS_MAX_HEADER_LIST_SIZE : Z := Z.shiftl 16 20.

(** [calc_max_continuation_frames]; a zero [frame_max] is a division by zero. *)
Definition calc_max_continuation_frames (header_max frame_max : Z) : outcome Z :=
  let! _ := assert (negb (frame_max =? 0)) in
  let min_frames_for_list := Z.max (header_max / frame_max) 1 in
  let padding := Z.shiftr min_frames_for_list 2 in
  Done (Z.max (Z.min (min_frames_for_list + padding) usize_max) 5).

Section read.
Context `{HeaderPlz} `{HeaderMapOps}.

Record Partial : Type := partial {
  pframe : Continuable.t;
  pbuf : bytes;
  continuation_frames_count : Z
}.

(** What [decode_frame] gets by [&mut]: the HPACK decoder and the partial block. *)
Record State : Type := state {
  hpack : Decoder.t;
  partial_inout : option Partial
}.

Definition Result : Type := result (option Frame.t) ProtoError.t.

Definition protocol_error : ProtoError.t := ProtoError.library_go_away Reason.PROTOCOL_ERROR.

(** Errors of the frame parsers are connection errors. *)
Definition or_protocol_error {A} (f : A -> Frame.t) (r : result A FrameError) : Result :=
  match r with
  | Ok a => Ok (Some (f a))
  | Err _ => Err protocol_error
  end.

(** The [match] on the result of [load_hpack], common to the macro
    [header_block!] and to CONTINUATION: [None] when the block is accepted. *)
Definition hpack_error (id : StreamId.t) (is_end_headers : bool) (r : result unit FrameError) :
    option ProtoError.t :=
  match r with
  | Ok _ => None
  | Err (Hpack (NeedMoreError _)) => if negb is_end_headers then None else Some protocol_error
  | Err MalformedMessage => Some (ProtoError.library_reset id Reason.PROTOCOL_ERROR)
  | Err _ => Some protocol_error
  end.

(** The macro [header_block!], after [$frame::load]. *)
Definition header_block (s : State) (head : Head.t) (max_header_list_size : Z)
    (loaded : result (Continuable.t * bytes) FrameError) : outcome (Result * State) :=
  match loaded with
  | Err InvalidDependencyId =>
      Done (Err (ProtoError.library_reset (Head.stream_id head) Reason.PROTOCOL_ERROR), s)
  | Err _ => Done (Err protocol_error, s)
  | Ok (frame, payload) =>
      let is_end_headers := Continuable.is_end_headers frame in
      let! (r, frame, payload, d) :=
        Continuable.load_hpack frame payload max_header_list_size (hpack s) in
      match hpack_error (Head.stream_id head) is_end_headers r with
      | Some e => Done (Err e, state d (partial_inout s))
      | None =>
          if is_end_headers then Done (Ok (Some (Continuable.frame frame)), state d (partial_inout s))
          else Done (Ok None, state d (Some (partial frame payload 0)))
      end
  end.

(** [Kind::Continuation], with [bytes] the whole frame. *)
Definition continuation (s : State) (head : Head.t) (max_header_list_size max_continuation_frames : Z)
    (bytes : bytes) : outcome (Result * State) :=
  let is_end_headers := Z.land (Head.flag head) 4 =? 4 in
  match partial_inout s with
  | None => Done (Err protocol_error, s)
  | Some p =>
      let s := state (hpack s) None in
      if negb (Continuable.stream_id (pframe p) =? Head.stream_id head) then
        Done (Err protocol_error, s)
      else
        let cnt := if is_end_headers then 0 else continuation_frames_count p + 1 in
        if negb is_end_headers && (cnt >? max_continuation_frames) then
          Done (Err (ProtoError.library_go_away_data Reason.ENHANCE_YOUR_CALM
                       (str "too_many_continuations")), s)
        else
          let! payload := slice_from bytes HEADER_LEN in
          if negb (len (pbuf p) =? 0) && Continuable.is_over_size (pframe p)
             && (len (pbuf p) + len bytes >? max_header_list_size)
          then Done (Err (ProtoError.library_go_away Reason.COMPRESSION_ERROR), s)
          else
            let! (r, frame, rest, d) :=
              Continuable.load_hpack (pframe p) (pbuf p ++ payload) max_header_list_size (hpack s) in
            match hpack_error (Head.stream_id head) is_end_headers r with
            | Some e => Done (Err e, state d None)
            | None =>
                if is_end_headers then Done (Ok (Some (Continuable.into_frame frame)), state d None)
                else Done (Ok None, state d (Some (partial frame rest cnt)))
            end
  end.

Definition lift_load {A} (f : A -> Continuable.t) (o : outcome (result (A * bytes) FrameError)) :
    outcome (result (Continuable.t * bytes) FrameError) :=
  let! r := o in
  Done (result_map (fun p => (f p.1, p.2)) r).

Definition decode_frame (s : State) (max_header_list_size max_continuation_frames : Z)
    (bytes : bytes) : outcome (Result * State) :=
  let! head := Head.parse bytes in
  match partial_inout s, bool_decide (Head.kind head = Kind.Continuation) with
  | Some _, false => Done (Err protocol_error, s)
  | _, _ =>
      let simple {A} (o : outcome (result A FrameError)) (f : A -> Frame.t) :
          outcome (Result * State) :=
        let! r := o in Done (or_protocol_error f r, s) in
      let! payload := slice_from bytes HEADER_LEN in
      match Head.kind head with
      | Kind.Settings => simple (Settings.load head payload) Frame.Settings
      | Kind.Ping => simple (Ping.load head payload) Frame.Ping
      | Kind.WindowUpdate => simple (WindowUpdate.load head payload) Frame.WindowUpdate
      | Kind.Data => simple (Data.load head payload) Frame.Data
      | Kind.Headers =>
          let! loaded := lift_load Continuable.Headers (Headers.load head payload) in
          header_block s head max_header_list_size loaded
      | Kind.Reset => simple (Reset.load head payload) Frame.Reset
      | Kind.GoAway => simple (GoAway.load payload) Frame.GoAway
      | Kind.PushPromise =>
          let! loaded := lift_load Continuable.PushPromise (PushPromise.load head payload) in
          header_block s head max_header_list_size loaded
      | Kind.Priority =>
          if StreamId.is_zero (Head.stream_id head) then Done (Err protocol_error, s)
          else
            let! r := Priority.load head payload in
            match r with
            | Ok frame => Done (Ok (Some (Frame.Priority frame)), s)
            | Err InvalidDependencyId =>
                Done (Err (ProtoError.library_reset (Head.stream_id head) Reason.PROTOCOL_ERROR), s)
            | Err _ => Done (Err protocol_error, s)
            end
      | Kind.Continuation => continuation s head max_header_list_size max_continuation_frames bytes
      | Kind.Unknown => Done (Ok None, s)
      end
  end.

(** [FramedRead::poll_next] over the frames the framing layer delivered: frames
    that are absorbed ([Ok(None)]) are followed by the next one. *)
Fixpoint decode_frames (s : State) (max_header_list_size max_continuation_frames : Z)
    (l : list bytes) : outcome (Result * State * list bytes) :=
  match l with
  | [] => Done (Ok None, s, [])
  | b :: l =>
      let! (r, s) := decode_frame s max_header_list_size max_continuation_frames b in
      match r with
      | Ok None => decode_frames s max_header_list_size max_continuation_frames l
      | _ => Done (r, s, l)
      end
  end.

End read.

End FramedRead.
