(* ===== verification/Instances.v ===== *)
(** * Concrete instances of the library parameters

    A concrete [HeaderPlz] and [HeaderMapOps], with their laws: they show that the
    hypotheses on the crate [header-plz] can hold, and let the definitions be
    evaluated on concrete inputs. *)

From Stdlib Require Import String.
From S2P Require Import Prelude FrameBase HpackHeader HeadersFrame.

Definition is_byte (b : Z) : bool := (0 <=? b) && (b <=? 255).

(** Methods: byte strings, as [Method::from(&[u8])] keeps any token. *)
Definition CMethod : Type := { b : bytes | Is_true (forallb is_byte b) }.

Definition cmethod_get : CMethod := exist _ (str "GET") I.
Definition cmethod_post : CMethod := exist _ (str "POST") I.

Definition cmethod_from (b : bytes) : CMethod :=
  match decide (Is_true (forallb is_byte b)) with
  | left H => exist _ b H
  | right _ => cmethod_get
  end.

(** Status codes: three digits, from 100 to 999. *)
Definition CStatus : Type := { z : Z | Is_true ((100 <=? z) && (z <=? 999)) }.

Definition cstatus_as_str (s : CStatus) : bytes :=
  let z := proj1_sig s in [48 + z / 100; 48 + (z / 10) mod 10; 48 + z mod 10].

Definition cstatus_from_bytes (b : bytes) : result CStatus unit :=
  match b with
  | [x; y; z] =>
      if in_range 48 57 x && in_range 48 57 y && in_range 48 57 z then
        match decide (Is_true ((100 <=? (x - 48) * 100 + (y - 48) * 10 + (z - 48))
                               && ((x - 48) * 100 + (y - 48) * 10 + (z - 48) <=? 999))) with
        | left H => Ok (exist _ ((x - 48) * 100 + (y - 48) * 10 + (z - 48)) H)
        | right _ => Err tt
        end
      else Err tt
  | _ => Err tt
  end.

Definition cstatus (z : Z) (H : Is_true ((100 <=? z) && (z <=? 999))) : CStatus := exist _ z H.

Definition cconst_header (c : ConstHeader) : bytes :=
  match c with
  | ACCEPT_CHARSET => str "accept-charset" | ACCEPT_ENCODING => str "accept-encoding"
  | ACCEPT_LANGUAGE => str "accept-language" | ACCEPT_RANGES => str "accept-ranges"
  | ACCEPT => str "accept"
  | ACCESS_CONTROL_ALLOW_ORIGIN => str "access-control-allow-origin"
  | AGE => str "age" | ALLOW => str "allow" | AUTHORIZATION => str "authorization"
  | CACHE_CONTROL => str "cache-control" | CONTENT_DISPOSITION => str "content-disposition"
  | CONTENT_ENCODING => str "content-encoding" | CONTENT_LANGUAGE => str "content-language"
  | CONTENT_LENGTH => str "content-length" | CONTENT_LOCATION => str "content-location"
  | CONTENT_RANGE => str "content-range" | CONTENT_TYPE => str "content-type"
  | COOKIE => str "cookie" | DATE => str "date" | ETAG => str "etag" | EXPECT => str "expect"
  | EXPIRES => str "expires" | FROM => str "from" | HOST => str "host"
  | IF_MATCH => str "if-match" | IF_MODIFIED_SINCE => str "if-modified-since"
  | IF_NONE_MATCH => str "if-none-match" | IF_RANGE => str "if-range"
  | IF_UNMODIFIED_SINCE => str "if-unmodified-since" | LAST_MODIFIED => str "last-modified"
  | LINK => str "link" | LOCATION => str "location" | MAX_FORWARDS => str "max-forwards"
  | PROXY_AUTHENTICATE => str "proxy-authenticate"
  | PROXY_AUTHORIZATION => str "proxy-authorization"
  | RANGE => str "range" | REFERER => str "referer" | REFRESH => str "refresh"
  | RETRY_AFTER => str "retry-after" | SERVER => str "server" | SET_COOKIE => str "set-cookie"
  | STRICT_TRANSPORT_SECURITY => str "strict-transport-security"
  | TRANSFER_ENCODING => str "transfer-encoding" | USER_AGENT => str "user-agent"
  | VARY => str "vary" | VIA => str "via" | WWW_AUTHENTICATE => str "www-authenticate"
  | CONNECTION => str "connection" | UPGRADE => str "upgrade" | TE => str "te"
  end.

#[export] Instance concrete_plz : HeaderPlz := {
  PlzMethod := CMethod;
  method_from := cmethod_from;
  method_as_ref := @proj1_sig _ _;
  method_GET := cmethod_get;
  method_POST := cmethod_post;
  PlzStatus := CStatus;
  status_from_bytes := cstatus_from_bytes;
  status_as_str := cstatus_as_str;
  status_is_informational := fun s => proj1_sig s <? 200;
  status_OK := cstatus 200 I;
  status_NO_CONTENT := cstatus 204 I;
  status_PARTIAL_CONTENT := cstatus 206 I;
  status_NOT_MODIFIED := cstatus 304 I;
  status_BAD_REQUEST := cstatus 400 I;
  status_NOT_FOUND := cstatus 404 I;
  status_INTERNAL_SERVER_ERROR := cstatus 500 I;
  const_header := cconst_header
}.

Lemma is_byte_u8 b : Is_true (is_byte b) <-> is_u8 b.
Proof. unfold is_byte. rewrite Is_true_true, andb_true_iff, !Z.leb_le. unfold_ints. lia. Qed.

Lemma all_bytes_u8 l : Is_true (forallb is_byte l) <-> all_u8 l.
Proof.
  rewrite Is_true_true, forallb_forall. unfold all_u8. rewrite Forall_forall. split; intros Hl b Hb.
  - apply is_byte_u8, Is_true_true, Hl. by apply list_elem_of_In.
  - apply Is_true_true, is_byte_u8, Hl. by apply list_elem_of_In.
Qed.

#[export] Instance concrete_plz_laws : HeaderPlzLaws concrete_plz.
Proof.
  split.
  - intros [m Hm]. cbn. unfold cmethod_from. destruct (decide _) as [H|H]; [|done].
    by apply (sig_eq_pi _).
  - intros [m Hm]. cbn. by apply all_bytes_u8.
  - intros [z Hz]. cbn -[Z.div Z.modulo Z.mul Z.leb].
    assert (100 <= z <= 999) as Hr by (apply Is_true_true in Hz; ilia).
    unfold in_range.
    pose proof (Z.div_mod z 10 ltac:(lia)). pose proof (Z.div_mod (z / 10) 10 ltac:(lia)).
    pose proof (Z.mod_pos_bound z 10 ltac:(lia)).
    pose proof (Z.mod_pos_bound (z / 10) 10 ltac:(lia)).
    assert (z / 100 = z / 10 / 10) as Hdd by (by rewrite Z.div_div by lia).
    assert ((48 + z / 100 - 48) * 100 + (48 + (z / 10) mod 10 - 48) * 10 + (48 + z mod 10 - 48) = z)
      as Hv by lia.
    assert ((48 <=? 48 + z / 100) && (48 + z / 100 <=? 57) &&
      ((48 <=? 48 + (z / 10) mod 10) && (48 + (z / 10) mod 10 <=? 57)) &&
      ((48 <=? 48 + z mod 10) && (48 + z mod 10 <=? 57)) = true) as ->.
    { rewrite !andb_true_iff, !Z.leb_le. lia. }
    destruct (decide _) as [H'|H'].
    + f_equal. apply (sig_eq_pi _). exact Hv.
    + exfalso. apply H'. by rewrite Hv.
  - done.
  - intros [z Hz]. cbn -[Z.div Z.modulo].
    assert (100 <= z <= 999) as Hr by (apply Is_true_true in Hz; ilia).
    pose proof (Z.mod_pos_bound z 10 ltac:(lia)).
    pose proof (Z.mod_pos_bound (z / 10) 10 ltac:(lia)).
    assert (0 <= z / 100 < 10) by (split; [apply Z.div_pos; lia|apply Z.div_lt_upper_bound; lia]).
    change (all_u8 [48 + z / 100; 48 + (z / 10) mod 10; 48 + z mod 10]). clear Hz. solve_bytes.
  - intros c. destruct c; eexists _, _; by split.
  - intros c. apply all_bytes_u8. by destruct c.
Qed.

(** A header map as the list of its entries, in order of insertion. *)
#[export] Instance concrete_map : HeaderMapOps := {
  HeaderMap := list (bytes * bytes);
  hm_new := [];
  hm_is_empty := fun m => match m with [] => true | _ => false end;
  hm_insert := fun n v m => m ++ [(n, v)];
  hm_entry_lens := map (fun h => len h.1 + len h.2);
  hm_has_key := fun k m => existsb (fun h => bool_decide (h.1 = k)) m;
  hm_value_of_key := fun k m => option_map snd (find (fun h => bool_decide (h.1 = k)) m)
}.

#[export] Instance concrete_map_laws : HeaderMapLaws concrete_map.
Proof. split; [done|]. intros n v m. by destruct m. Qed.
