(* ===== verification/FramedReadFacts.v ===== *)
(** * Facts about the frame reader

    Totality and the reader's invariant, the CONTINUATION limit, and the round
    trip with the frame encoders. *)

From Stdlib Require Import String.
From S2P Require Import Prelude FrameBase ControlFrames SettingsFrame DataFrame.
From S2P Require Import HpackInt HpackHeader HpackDecoder HpackDecoderFacts HeadersFrame ProtoErrors.
From S2P Require Import FramedRead Instances.

(** ** The parsers do not panic *)

Lemma stream_id_parse_total b : (4 <= length b)%nat -> exists r, StreamId.parse b = Done r.
Proof.
  intros Hb. unfold StreamId.parse, slice_to. apply Nat.leb_le in Hb. rewrite Hb. cbn [obind]. eauto.
Qed.

Lemma slice_from_total {A} (b : list A) n : (n <= length b)%nat -> slice_from b n = Done (drop n b).
Proof. intros Hb. unfold slice_from. apply Nat.leb_le in Hb. by rewrite Hb. Qed.

Lemma slice_to_total {A} (b : list A) n : (n <= length b)%nat -> slice_to b n = Done (take n b).
Proof. intros Hb. unfold slice_to. apply Nat.leb_le in Hb. by rewrite Hb. Qed.

Lemma byte_at_total b i : (i < length b)%nat -> exists x, byte_at b i = Done x.
Proof.
  intros Hi. unfold byte_at. destruct (lookup_lt_is_Some_2 b i Hi) as [x ->]. cbn. eauto.
Qed.

Lemma unpack_total b o : (o + 4 <= length b)%nat -> exists v, unpack_octets_4 b o = Done v.
Proof.
  intros Hb. unfold unpack_octets_4.
  destruct (byte_at_total b (o + 0)) as [? ->]; [lia|].
  destruct (byte_at_total b (o + 1)) as [? ->]; [lia|].
  destruct (byte_at_total b (o + 2)) as [? ->]; [lia|].
  destruct (byte_at_total b (o + 3)) as [? ->]; [lia|]. cbn. eauto.
Qed.

Lemma head_parse_total b : (HEADER_LEN <= length b)%nat -> exists h, Head.parse b = Done h.
Proof.
  unfold HEADER_LEN. intros Hb. unfold Head.parse. rewrite slice_from_total by lia. cbn [obind].
  destruct (stream_id_parse_total (drop 5 b)) as [[id r] ->]; [rewrite length_drop; lia|].
  destruct (byte_at_total b 3) as [? ->]; [lia|]. destruct (byte_at_total b 4) as [? ->]; [lia|].
  cbn. eauto.
Qed.

Lemma settings_load_chunks_total raws : forall st,
  Forall (fun r => length r = 6%nat) raws -> exists r, Settings.load_chunks st raws = Done r.
Proof.
  induction raws as [|raw raws IH]; intros st Hr; [by eexists|].
  apply Forall_cons in Hr as [Hr Hrs]. cbn [Settings.load_chunks]. unfold Setting.load.
  destruct (byte_at_total raw 0) as [? ->]; [lia|]. destruct (byte_at_total raw 1) as [? ->]; [lia|].
  destruct (unpack_total raw 2) as [v ->]; [lia|]. cbn [obind].
  destruct (Settings.record _ _); [by apply IH|by eexists].
Qed.

Lemma chunks_fuel_exact {A} n k : forall fuel (l : list A),
  (0 < n)%nat -> length l = (k * n)%nat -> (length l <= fuel)%nat ->
  Forall (fun c => length c = n) (chunks_fuel n fuel l).
Proof.
  induction k as [|k IH]; intros fuel l Hn Hl Hf.
  - apply nil_length_inv in Hl as ->. by destruct fuel; constructor.
  - destruct l as [|x l]; [destruct fuel; constructor|].
    destruct fuel as [|fuel]; [simpl in Hf; lia|]. cbn [chunks_fuel].
    constructor; [rewrite length_take; lia|].
    apply IH; [done|rewrite length_drop; lia|rewrite length_drop; simpl length in *; lia].
Qed.

Lemma settings_load_total h p :
  Head.kind h = Kind.Settings -> exists r, Settings.load h p = Done r.
Proof.
  intros Hk. unfold Settings.load. rewrite bool_decide_true by done. cbn [assert obind].
  destruct (negb _); [by eexists|]. destruct (SettingsFlags.is_ack _); [destruct p; by eexists|].
  destruct (length p mod 6 =? 0)%nat eqn:Hm; cbn [negb]; [|by eexists].
  apply Nat.eqb_eq in Hm. apply settings_load_chunks_total.
  apply Nat.Div0.mod_divides in Hm as [k Hk']. unfold chunks.
  apply (chunks_fuel_exact 6 k); lia.
Qed.

Lemma dep_load_total b : exists r, StreamDependency.load b = Done r.
Proof.
  unfold StreamDependency.load. destruct (length b =? 5)%nat eqn:Hl; cbn [negb]; [|by eexists].
  apply Nat.eqb_eq in Hl. rewrite slice_to_total by lia. cbn [obind].
  destruct (stream_id_parse_total (take 4 b)) as [[id r] ->]; [rewrite length_take; lia|].
  destruct (byte_at_total b 4) as [? ->]; [lia|]. cbn. eauto.
Qed.

Section facts.
Context `{HeaderPlz} `{HeaderMapOps}.

Lemma drop_padding_u8 pad src src' :
  drop_padding pad src = Ok src' -> all_u8 src -> all_u8 src'.
Proof.
  unfold drop_padding. intros Hd Hs. repeat case_on; simplify_eq; [|done]. by apply Forall_take.
Qed.

Lemma headers_load_total h p :
  all_u8 p -> exists r, Headers.load h p = Done r /\
    forall f rest, r = Ok (f, rest) -> all_u8 rest /\ Headers.stream_id f = Head.stream_id h.
Proof.
  intros Hp. unfold Headers.load. destruct (StreamId.is_zero _); [by eexists|].
  set (o1 := if HeadersFlag.is_padded _ then _ else _).
  assert (exists r1, o1 = Done r1 /\ forall pad s, r1 = Ok (pad, s) -> all_u8 s) as (r1 & -> & H1).
  { unfold o1. destruct (HeadersFlag.is_padded _); [destruct p as [|b p]|]; eexists; split; try done;
      intros ? ? [= <- <-]; [by destruct_bytes|done]. }
  destruct r1 as [[pad s]|e]; [|by eexists]. specialize (H1 pad s eq_refl). cbn [orbind].
  set (o2 := if HeadersFlag.is_priority _ then _ else _).
  assert (exists r2, o2 = Done r2 /\ forall dep s', r2 = Ok (dep, s') -> all_u8 s') as (r2 & -> & H2).
  { unfold o2, Headers.load_dep. destruct (HeadersFlag.is_priority _).
    - destruct (length s <? 5)%nat eqn:Hl; [by eexists|]. apply Nat.ltb_ge in Hl.
      rewrite slice_to_total by lia. cbn [obind].
      destruct (dep_load_total (take 5 s)) as [[d|e] ->]; cbn [orbind]; [|by eexists].
      destruct (_ =? _); [by eexists|]. eexists. split; [done|]. intros ? ? [= <- <-].
      by apply Forall_drop.
    - eexists. split; [done|]. by intros ? ? [= <- <-]. }
  destruct r2 as [[dep s2]|e]; [|by eexists]. specialize (H2 dep s2 eq_refl). cbn [orbind].
  destruct (drop_padding pad s2) as [s3|e] eqn:Hd; [|by eexists].
  eexists. split; [done|]. intros f rest [= <- <-]. split; [by eapply drop_padding_u8|done].
Qed.

Lemma push_promise_load_total h p :
  all_u8 p -> exists r, PushPromise.load h p = Done r /\
    forall f rest, r = Ok (f, rest) -> all_u8 rest /\ PushPromise.stream_id f = Head.stream_id h.
Proof.
  intros Hp. unfold PushPromise.load. destruct (StreamId.is_zero _); [by eexists|].
  set (o1 := if PushPromiseFlag.is_padded _ then _ else _).
  assert (exists r1, o1 = Done r1 /\ forall pad s, r1 = Ok (pad, s) -> all_u8 s) as (r1 & -> & H1).
  { unfold o1. destruct (PushPromiseFlag.is_padded _); [destruct p as [|b p]|]; eexists;
      split; try done; intros ? ? [= <- <-]; [by destruct_bytes|done]. }
  destruct r1 as [[pad s]|e]; [|by eexists]. specialize (H1 pad s eq_refl). cbn [orbind].
  destruct (length s <? 5)%nat eqn:Hl; [by eexists|]. apply Nat.ltb_ge in Hl.
  rewrite slice_to_total by lia. cbn [obind].
  destruct (stream_id_parse_total (take 4 s)) as [[id r] ->]; [rewrite length_take; lia|].
  cbn [obind]. destruct (drop_padding pad (drop 4 s)) as [s3|e] eqn:Hd; [|by eexists].
  eexists. split; [done|]. intros f rest [= <- <-].
  split; [eapply drop_padding_u8; [done|by apply Forall_drop]|done].
Qed.

Lemma header_block_load_total m b src max d :
  dec_ok m d -> all_u8 src ->
  exists r b' rest d', HeaderBlock.load b src max d = Done (r, b', rest, d') /\
    dec_ok m d' /\ all_u8 rest.
Proof.
  intros Hd Hs. unfold HeaderBlock.load.
  destruct (decode_ok m d src Hd Hs) as (r & d' & rest & out & -> & Hd' & Hrest & _). cbn [obind].
  destruct r; [destruct (HeaderBlock.malformed _)|]; by eexists _, _, _, _.
Qed.

Lemma continuable_load_total m c src max d :
  dec_ok m d -> all_u8 src ->
  exists r c' rest d', Continuable.load_hpack c src max d = Done (r, c', rest, d') /\
    dec_ok m d' /\ all_u8 rest /\ Continuable.is_end_headers c' = Continuable.is_end_headers c /\
    Continuable.stream_id c' = Continuable.stream_id c.
Proof.
  intros Hd Hs. destruct c as [h|p]; cbn; unfold Headers.load_hpack, PushPromise.load_hpack.
  - destruct (header_block_load_total m (Headers.header_block h) src max d Hd Hs)
      as (r & b' & rest & d' & -> & Hd' & Hr). cbn. by eexists _, _, _, _.
  - destruct (header_block_load_total m (PushPromise.header_block p) src max d Hd Hs)
      as (r & b' & rest & d' & -> & Hd' & Hr). cbn. by eexists _, _, _, _.
Qed.

(** ** The reader's invariant *)

(** A partial block waits for CONTINUATION: its frame has not ended its headers,
    and no more than [limit] CONTINUATION frames were accepted for it. *)
Definition partial_ok (limit : Z) (o : option FramedRead.Partial) : Prop :=
  match o with
  | Some p =>
      all_u8 (FramedRead.pbuf p) /\ 0 <= FramedRead.continuation_frames_count p <= limit /\
      Continuable.is_end_headers (FramedRead.pframe p) = false
  | None => True
  end.

Definition reader_ok (m limit : Z) (s : FramedRead.State) : Prop :=
  dec_ok m (FramedRead.hpack s) /\ partial_ok limit (FramedRead.partial_inout s).

Lemma header_block_total m limit s head max loaded :
  reader_ok m limit s -> 0 <= limit ->
  (forall f rest, loaded = Ok (f, rest) -> all_u8 rest) ->
  exists r s', FramedRead.header_block s head max loaded = Done (r, s') /\ reader_ok m limit s'.
Proof.
  intros [Hd Hp] Hlim Hl. unfold FramedRead.header_block.
  destruct loaded as [[f rest]|e].
  - destruct (continuable_load_total m f rest max (FramedRead.hpack s) Hd (Hl _ _ eq_refl))
      as (r & f' & rest' & d' & -> & Hd' & Hr' & He' & _). cbn [obind].
    destruct (FramedRead.hpack_error _ _ _); [by eexists _, _|].
    destruct (Continuable.is_end_headers f) eqn:He; eexists _, _; (split; [done|]); [done|].
    split; [done|]. cbn. by rewrite He'.
  - destruct e; eexists _, _; (split; [done|]); by split.
Qed.

Lemma continuation_total m limit now s head max bytes :
  reader_ok m limit s -> 0 <= limit -> now <= limit -> all_u8 bytes -> (HEADER_LEN <= length bytes)%nat ->
  exists r s', FramedRead.continuation s head max now bytes = Done (r, s') /\ reader_ok m limit s'.
Proof.
  intros [Hd Hp] Hlim Hnow Hb Hlen. unfold FramedRead.continuation.
  destruct (FramedRead.partial_inout s) as [p|] eqn:Hpart;
    [|eexists _, _; split; [done|]; split; [done|by rewrite Hpart]].
  destruct Hp as (Hbuf & Hcnt & He).
  assert (forall d', dec_ok m d' -> reader_ok m limit (FramedRead.state d' None)) as Hnone
    by (intros d' Hd'; by split).
  destruct (negb (_ =? _)); [eexists _, _; split; [done|auto]|].
  set (e := Z.land (Head.flag head) 4 =? 4).
  destruct (negb e && _) eqn:Hflood; [eexists _, _; split; [done|auto]|].
  rewrite slice_from_total by done. cbn [obind].
  destruct (negb (len (FramedRead.pbuf p) =? 0) && _ && _); [eexists _, _; split; [done|auto]|].
  cbn [FramedRead.hpack].
  destruct (continuable_load_total m (FramedRead.pframe p)
    (FramedRead.pbuf p ++ drop HEADER_LEN bytes) max (FramedRead.hpack s) Hd)
    as (r & f' & rest' & d' & -> & Hd' & Hr' & He' & _);
    [by apply Forall_app_2, Forall_drop|]. cbn [obind].
  destruct (FramedRead.hpack_error _ _ _); [eexists _, _; split; [done|auto]|].
  destruct e; [eexists _, _; split; [done|auto]|]. cbn [negb andb] in Hflood.
  eexists _, _. split; [done|]. split; [done|]. cbn. rewrite He'. split_and!; [done|lia|ilia|done].
Qed.

(** Whatever the peer sends, decoding a frame does not panic and keeps the reader's
    invariant; the limit may have been lowered to [now] since. *)
Lemma decode_frame_ok m limit now s max bytes :
  reader_ok m limit s -> 0 <= limit -> now <= limit -> all_u8 bytes -> (HEADER_LEN <= length bytes)%nat ->
  exists r s', FramedRead.decode_frame s max now bytes = Done (r, s') /\ reader_ok m limit s'.
Proof.
  intros Hok Hlim Hnow Hb Hlen. unfold FramedRead.decode_frame.
  destruct (head_parse_total bytes Hlen) as [h ->]. cbn [obind].
  rewrite slice_from_total by done. cbn [obind].
  assert (all_u8 (drop HEADER_LEN bytes)) as Hp by by apply Forall_drop.
  destruct (decide (Head.kind h = Kind.Continuation)) as [Hc|Hc].
  { rewrite bool_decide_true, Hc by done.
    destruct (FramedRead.partial_inout s) eqn:Hpart; by apply continuation_total. }
  rewrite bool_decide_false by done.
  destruct (FramedRead.partial_inout s) eqn:Hpart; [by eexists _, _|].
  set (p := drop HEADER_LEN bytes) in *.
  destruct (Head.kind h) eqn:Hk.
  - unfold Data.load. destruct (StreamId.is_zero _); [by eexists _, _|].
    destruct (DataFlags.is_padded _); [|by eexists _, _].
    destruct (strip_padding p) as [[[n d]|e]|] eqn:Hs; [by eexists _, _..|].
    by destruct (strip_padding_no_panic p).
  - destruct (headers_load_total h p Hp) as (r & -> & Hr). cbn.
    apply header_block_total; [done..|]. intros f rest Heq.
    destruct r as [[f' rest']|e]; [|done]. simplify_eq/=. by apply (Hr _ _ eq_refl).
  - destruct (StreamId.is_zero _); [by eexists _, _|]. unfold Priority.load.
    destruct (dep_load_total p) as [[d|e] ->]; cbn [orbind obind];
      [destruct (_ =? _)|destruct e]; by eexists _, _.
  - unfold Reset.load. destruct (length p =? 4)%nat eqn:Hl; cbn [negb]; [|by eexists _, _].
    apply Nat.eqb_eq in Hl. destruct (unpack_total p 0) as [v ->]; [lia|]. by eexists _, _.
  - destruct (settings_load_total h p Hk) as [r ->]. by eexists _, _.
  - destruct (push_promise_load_total h p Hp) as (r & -> & Hr). cbn.
    apply header_block_total; [done..|]. intros f rest Heq.
    destruct r as [[f' rest']|e]; [|done]. simplify_eq/=. by apply (Hr _ _ eq_refl).
  - unfold Ping.load. rewrite bool_decide_true by done. cbn [assert obind].
    destruct (negb _); [by eexists _, _|]. destruct (negb _); by eexists _, _.
  - unfold GoAway.load. destruct (length p <? 8)%nat eqn:Hl; [by eexists _, _|].
    apply Nat.ltb_ge in Hl. rewrite slice_to_total by lia. cbn [obind].
    destruct (stream_id_parse_total (take 4 p)) as [[id r] ->]; [rewrite length_take; lia|].
    destruct (unpack_total p 4) as [v ->]; [lia|]. cbn [obind].
    rewrite slice_from_total by lia. by eexists _, _.
  - unfold WindowUpdate.load. rewrite bool_decide_true by done. cbn [assert obind].
    destruct (length p =? 4)%nat eqn:Hl; cbn [negb]; [|by eexists _, _].
    apply Nat.eqb_eq in Hl. destruct (unpack_total p 0) as [v ->]; [lia|]. cbn [obind].
    destruct (_ =? 0); by eexists _, _.
  - done.
  - by eexists _, _.
Qed.

(** ** Frames are read back as written *)

(** The octets written for a frame that is not a header block. *)
Definition wire (f : Frame.t) : option bytes :=
  match f with
  | Frame.Data f =>
      match Data.encode_chunk f usize_max [] with
      | Done (_, b) => Some b
      | Panic => None
      end
  | Frame.Settings f => Some (Settings.encode f [])
  | Frame.Ping f => Some (Ping.encode f [])
  | Frame.GoAway f => Some (GoAway.encode f [])
  | Frame.WindowUpdate f => Some (WindowUpdate.encode f [])
  | Frame.Reset f => Some (Reset.encode f [])
  | _ => None
  end.

(** What the constructors of the frames guarantee. *)
Definition frame_wf (f : Frame.t) : Prop :=
  match f with
  | Frame.Data f =>
      StreamId.valid (Data.stream_id f) /\ Data.stream_id f <> 0 /\ Data.pad_len f = None /\
      (Data.flags f = 0 \/ Data.flags f = DataFlags.END_STREAM) /\ len (Data.data f) < 2 ^ 24
  | Frame.Settings f =>
      f = Settings.ack \/ (Settings.legal f /\ Settings.flags f = SettingsFlags.empty)
  | Frame.Ping f => Ping.wf f
  | Frame.GoAway f => GoAway.wf f /\ len (GoAway.debug_data f) < 2 ^ 24 - 8
  | Frame.WindowUpdate f => WindowUpdate.wf f
  | Frame.Reset f => Reset.wf f
  | _ => False
  end.

Lemma head_encode_payload h n p rest :
  0 <= n < 2 ^ 24 -> len p = n ->
  be_value (take 3 (Head.encode h n [] ++ p ++ rest)) + Z.of_nat HEADER_LEN =
    len (Head.encode h n [] ++ p).
Proof.
  intros Hn Hp. unfold Head.encode at 1. cbn [app]. rewrite <-app_assoc.
  rewrite take_app_length' by done.
  rewrite be_value_be_bytes_small by done. unfold len in *.
  rewrite length_app, head_encode_length. lia.
Qed.

Lemma decode_frame_payload h n p :
  StreamId.valid (Head.stream_id h) ->
  Head.parse (Head.encode h n [] ++ p) = Done h /\
  slice_from (Head.encode h n [] ++ p) HEADER_LEN = Done p.
Proof.
  intros Hid. split; [by apply head_parse_encode|]. apply slice_from_app, head_encode_length.
Qed.

(** [b] is the head and the payload of [f], and read as [f]. *)
Definition reads_as (f : Frame.t) (b : bytes) : Prop :=
  exists h p, b = Head.encode h (len p) [] ++ p /\ StreamId.valid (Head.stream_id h) /\
    len p < 2 ^ 24 /\
    forall s max limit, FramedRead.partial_inout s = None ->
      FramedRead.decode_frame s max limit b = Done (Ok (Some f), s).

Lemma reads_as_payload f b h p :
  b = Head.encode h (len p) [] ++ p -> StreamId.valid (Head.stream_id h) -> len p < 2 ^ 24 ->
  (forall s max limit, FramedRead.partial_inout s = None -> Head.parse b = Done h -> slice_from b HEADER_LEN = Done p ->
    FramedRead.decode_frame s max limit b = Done (Ok (Some f), s)) ->
  reads_as f b.
Proof.
  intros Hb Hid Hl Hdec. exists h, p. split_and!; [done..|]. intros s max limit Hs.
  destruct (decode_frame_payload h (len p) p Hid). apply Hdec; by rewrite ?Hb.
Qed.

Lemma zero_valid : StreamId.valid 0.
Proof. unfold StreamId.valid. rewrite stream_id_MAX_val. ilia. Qed.

Lemma settings_payload_bound f : Settings.payload_len f <= 42.
Proof.
  rewrite settings_payload_len_eq. unfold len, Settings.for_each. rewrite !length_app.
  assert (forall F o, (length (Settings.opt_list (A:=Setting.t) F o) <= 1)%nat) as Ho by (intros F []; simpl; lia).
  repeat match goal with |- context [length (Settings.opt_list ?F ?o)] =>
    pose proof (Ho F o); generalize dependent (length (Settings.opt_list F o)); intros end.
  lia.
Qed.

Lemma data_reads_as f b : frame_wf (Frame.Data f) -> wire (Frame.Data f) = Some b -> reads_as (Frame.Data f) b.
Proof.
  cbn [wire frame_wf]. intros (Hid & Hnz & Hpad & Hfl & Hlen) Hw. unfold Data.encode_chunk in Hw.
  destruct (Z.leb_spec (len (Data.data f)) usize_max); [|unfold_ints; lia].
  cbn [assert obind app] in Hw. injection Hw as <-.
  apply (reads_as_payload _ _ (Data.head f) (Data.data f)); [done..|]. intros s max limit Hs. unfold FramedRead.decode_frame. intros -> ->.
  cbn [obind]. rewrite Hs. cbn [Data.head Head.kind]. unfold Data.load. cbn [Head.stream_id Head.flag].
  unfold StreamId.is_zero. destruct f as [id d fl pad]; cbn in *; subst pad.
  destruct (Z.eqb_spec id 0); [done|]. destruct Hfl as [-> | ->]; done.
Qed.

Lemma settings_reads_as f b : frame_wf (Frame.Settings f) -> wire (Frame.Settings f) = Some b -> reads_as (Frame.Settings f) b.
Proof.
  cbn [wire frame_wf]. intros Hwf [= <-]. rewrite settings_encode_split.
  set (l := concat (map (fun x => Setting.encode x []) (Settings.for_each f))).
  assert (len l = Settings.payload_len f) as Hl.
  { unfold l, len. rewrite settings_payload_length, settings_payload_len_eq. unfold len. lia. }
  rewrite <-Hl. apply (reads_as_payload _ _ (Head.new Kind.Settings (Settings.flags f) StreamId.ZERO) l); [done|apply zero_valid| |].
  { pose proof (settings_payload_bound f). lia. }
  intros s max limit Hs. unfold FramedRead.decode_frame. intros -> ->. cbn [obind]. rewrite Hs. cbn [Head.kind].
  destruct Hwf as [-> |[Hleg Hfl]]; [done|]. unfold l.
  rewrite settings_load_payload; [done|done|done|done|done|]. cbn. by rewrite Hfl.
Qed.

Lemma go_away_reads_as f b : frame_wf (Frame.GoAway f) -> wire (Frame.GoAway f) = Some b -> reads_as (Frame.GoAway f) b.
Proof.
  cbn [wire frame_wf]. intros [Hwf Hlen] [= <-]. unfold GoAway.encode.
  set (p := be_bytes 4 (StreamId.to_u32 (GoAway.last_stream_id f)) ++
    be_bytes 4 (GoAway.error_code f) ++ GoAway.debug_data f).
  assert (len p = 8 + len (GoAway.debug_data f)) as Hl
    by (unfold p, len; rewrite !length_app, !length_be_bytes; lia).
  rewrite <-Hl. apply (reads_as_payload _ _ (Head.new Kind.GoAway 0 StreamId.ZERO) p); [done|apply zero_valid|lia|].
  intros s max limit Hs. unfold FramedRead.decode_frame. intros -> ->. cbn [obind]. rewrite Hs. cbn [Head.kind].
  unfold p, StreamId.to_u32. by rewrite go_away_load_payload.
Qed.

(** A frame is the head and the payload of [wire]. *)
Lemma wire_split f b : frame_wf f -> wire f = Some b -> reads_as f b.
Proof.
  intros Hwf Hw. destruct f as [f| | | |f|f|f|f|f]; try done.
  - by apply data_reads_as.
  - by apply settings_reads_as.
  - cbn [wire frame_wf] in *. injection Hw as <-. pose proof Hwf as [Hl8 _].
    apply (reads_as_payload _ _ (Head.new Kind.Ping (if Ping.ack f then Ping.ACK_FLAG else 0) StreamId.ZERO)
      (Ping.payload f)); [unfold Ping.encode, len; by rewrite Hl8|apply zero_valid|unfold len; lia|].
    intros s max limit Hs. unfold FramedRead.decode_frame. intros -> ->. cbn [obind]. rewrite Hs. cbn [Head.kind]. by rewrite ping_load_payload.
  - by apply go_away_reads_as.
  - cbn [wire frame_wf] in *. injection Hw as <-. pose proof Hwf as [Hid _].
    apply (reads_as_payload _ _ (Head.new Kind.WindowUpdate 0 (WindowUpdate.stream_id f))
      (be_bytes 4 (WindowUpdate.size_increment f))); [done..|].
    intros s max limit Hs. unfold FramedRead.decode_frame. intros -> ->. cbn [obind]. rewrite Hs. cbn [Head.kind].
    by rewrite window_update_load_payload.
  - cbn [wire frame_wf] in *. injection Hw as <-. pose proof Hwf as [Hid _].
    apply (reads_as_payload _ _ (Head.new Kind.Reset 0 (Reset.stream_id f))
      (be_bytes 4 (Reset.error_code f))); [done..|].
    intros s max limit Hs. unfold FramedRead.decode_frame. intros -> ->. cbn [obind]. rewrite Hs. cbn [Head.kind].
    by rewrite reset_load_payload.
Qed.

(** C11: every DATA, SETTINGS, PING, GOAWAY, WINDOW_UPDATE and RST_STREAM frame the
    library can write is read back as the same frame, and its length field is the
    length of its payload. *)
Theorem frame_roundtrip f b s max limit :
  frame_wf f -> wire f = Some b -> FramedRead.partial_inout s = None ->
  FramedRead.decode_frame s max limit b = Done (Ok (Some f), s) /\
  be_value (take 3 b) + Z.of_nat HEADER_LEN = len b.
Proof.
  intros Hwf Hw Hs. destruct (wire_split f b Hwf Hw) as (h & p & Hb & _ & Hl & Hdec).
  split; [by apply Hdec|]. rewrite Hb at 1.
  pose proof (head_encode_payload h (len p) p [] (conj (len_nonneg p) Hl) eq_refl) as Hh.
  by rewrite app_nil_r in Hh; rewrite Hh, Hb.
Qed.



End facts.

(** The CONTINUATION limit leaves room for the advertised header list: at
    least five frames, at least the frames the list needs, and at most a quarter
    more. *)
Theorem max_continuation_bounds header_max frame_max n :
  is_usize header_max -> 1 <= frame_max ->
  FramedRead.calc_max_continuation_frames header_max frame_max = Done n ->
  5 <= n <= Z.max 5 (Z.max 1 (header_max / frame_max) * 5 / 4) /\
  Z.max 1 (header_max / frame_max) <= n.
Proof.
  unfold FramedRead.calc_max_continuation_frames. intros Hh Hf.
  destruct (Z.eqb_spec frame_max 0); [lia|]. cbn [negb assert obind]. intros [= <-].
  rewrite Z.shiftr_div_pow2 by lia. change (2 ^ 2) with 4.
  rewrite (Z.max_comm _ 1). set (k := Z.max 1 (header_max / frame_max)).
  assert (1 <= k <= usize_max) as Hk.
  { unfold k. split; [lia|]. apply Z.max_lub; [ilia|].
    apply Z.div_le_upper_bound; [lia|]. unfold_ints. nia. }
  assert (k * 5 / 4 = k + k / 4) as ->
    by (replace (k * 5) with (k + k * 4) by lia; rewrite Z.div_add by lia; lia).
  pose proof (Z.div_pos k 4 ltac:(lia) ltac:(lia)). lia.
Qed.

Lemma max_continuation_bounds_witness :
  FramedRead.calc_max_continuation_frames 16777216 16384 = Done 1280 /\
  (5 <= 1280 <= Z.max 5 (Z.max 1 (16777216 / 16384) * 5 / 4) /\
   Z.max 1 (16777216 / 16384) <= 1280).
Proof.
  split; [reflexivity|].
  apply (max_continuation_bounds 16777216 16384 1280); [|lia|reflexivity].
  split; vm_compute; discriminate.
Defined.

(** ** A malformed block is accepted when it is cut inside a field

    The two fields [connection: x] and [a: b], as literals without indexing. *)

Definition field_connection : bytes := [0; 10] ++ str "connection" ++ [1] ++ str "x".
Definition field_a : bytes := [0; 1] ++ str "a" ++ [1] ++ str "b".

Definition frame_of (kind : Kind.t) (flags : Z) (payload : bytes) : bytes :=
  Head.encode (Head.new kind flags 1) (len payload) [] ++ payload.

Definition fresh_reader : FramedRead.State := FramedRead.state (Decoder.new 4096) None.

(** What a run of frames gives: the error code of the frame decoded at the end, or
    whether a HEADERS frame came out. *)
Definition outcome_of (o : outcome (FramedRead.Result * FramedRead.State * list bytes)) :
    option (result bool Reason.t) :=
  match o with
  | Done (Ok (Some (Frame.Headers _)), _, _) => Some (Ok true)
  | Done (Ok _, _, _) => Some (Ok false)
  | Done (Err (ProtoError.Reset _ r _), _, _) | Done (Err (ProtoError.GoAway _ r _), _, _) =>
      Some (Err r)
  | _ => None
  end.

(** The connection-level field that makes a HEADERS frame malformed goes
    unnoticed when the block is cut inside the field that follows it: [load]
    returns the decoder's "need more" error before it looks at [malformed], and
    the flag is not kept for the CONTINUATION frame.  The same block in one frame
    is refused with PROTOCOL_ERROR. *)
Lemma malformed_split_accepted :
  outcome_of (FramedRead.decode_frames fresh_reader 65536 5
    [frame_of Kind.Headers 4 (field_connection ++ field_a)]) = Some (Err Reason.PROTOCOL_ERROR) /\
  outcome_of (FramedRead.decode_frames fresh_reader 65536 5
    [frame_of Kind.Headers 0 (field_connection ++ take 1 field_a);
     frame_of Kind.Continuation 4 (drop 1 field_a)]) = Some (Ok true).
Proof. split; vm_compute; reflexivity. Qed.
