(* ===== verification/StreamState.v ===== *)
(** * The state of a stream

    Models [src/src/proto/streams/state.rs]: the states, every transition with its
    errors and panics, and every query.  The transitions are checked against the
    state machine of RFC 9113 section 5.1 ([Rfc]). *)

From Stdlib Require Import String.
From S2P Require Import Prelude FrameBase ControlFrames HpackHeader HeadersFrame ProtoErrors.

Module Peer.

Inductive t : Type := AwaitingHeaders | Streaming.

#[global] Instance t_eq_dec : EqDecision t.
Proof. solve_decision. Defined.

End Peer.

Module Cause.

Inductive t : Type :=
| EndStream
| Error (e : ProtoError.t)
| ScheduledLibraryReset (reason : Reason.t).

#[global] Instance t_eq_dec : EqDecision t.
Proof. solve_decision. Defined.

End Cause.

Module State.

Import Peer.

(** [State] wraps [Inner]. *)
Inductive t : Type :=
| Idle
| ReservedLocal
| ReservedRemote
| Open (local remote : Peer.t)
| HalfClosedLocal (p : Peer.t)
| HalfClosedRemote (p : Peer.t)
| Closed (c : Cause.t).

#[global] Instance t_eq_dec : EqDecision t.
Proof. solve_decision. Defined.

Definition send_open (self : t) (eos : bool) : result t UserError.t :=
  let local := Streaming in
  match self with
  | Idle => Ok (if eos then HalfClosedLocal AwaitingHeaders else Open local AwaitingHeaders)
  | Open AwaitingHeaders remote => Ok (if eos then HalfClosedLocal remote else Open local remote)
  | HalfClosedRemote AwaitingHeaders | ReservedLocal =>
      Ok (if eos then Closed Cause.EndStream else HalfClosedRemote local)
  | _ => Err UserError.UnexpectedFrameType
  end.

(** [recv_open], on what it reads of the HEADERS frame; the boolean is the
    [initial] the source returns. *)
Definition recv_open (self : t) (eos informational : bool) : result (t * bool) ProtoError.t :=
  let next := if informational then AwaitingHeaders else Streaming in
  match self with
  | Idle =>
      Ok (if eos then HalfClosedRemote AwaitingHeaders else Open AwaitingHeaders next, true)
  | ReservedRemote =>
      Ok (if eos then Closed Cause.EndStream
          else if informational then ReservedRemote
          else HalfClosedLocal Streaming, true)
  | Open local AwaitingHeaders =>
      Ok (if eos then HalfClosedRemote local else Open local next, false)
  | HalfClosedLocal AwaitingHeaders =>
      Ok (if eos then Closed Cause.EndStream
          else if informational then HalfClosedLocal AwaitingHeaders
          else HalfClosedLocal Streaming, false)
  | _ => Err (ProtoError.library_go_away Reason.PROTOCOL_ERROR)
  end.

Definition recv_open_frame `{HeaderPlz} `{HeaderMapOps} (self : t) (frame : Headers.t) :
    result (t * bool) ProtoError.t :=
  recv_open self (Headers.is_end_stream frame) (Headers.is_informational frame).

Definition reserve_remote (self : t) : result t ProtoError.t :=
  match self with
  | Idle => Ok ReservedRemote
  | _ => Err (ProtoError.library_go_away Reason.PROTOCOL_ERROR)
  end.

Definition reserve_local (self : t) : result t UserError.t :=
  match self with
  | Idle => Ok ReservedLocal
  | _ => Err UserError.UnexpectedFrameType
  end.

Definition recv_close (self : t) : result t ProtoError.t :=
  match self with
  | Open local _ => Ok (HalfClosedRemote local)
  | HalfClosedLocal _ => Ok (Closed Cause.EndStream)
  | _ => Err (ProtoError.library_go_away Reason.PROTOCOL_ERROR)
  end.

(** [recv_reset]: [queued] tells that the stream still has frames to send. *)
Definition recv_reset (self : t) (frame : Reset.t) (queued : bool) : t :=
  match self, queued with
  | Closed _, false => self
  | _, _ => Closed (Cause.Error (ProtoError.remote_reset (Reset.stream_id frame) (Reset.error_code frame)))
  end.

Definition handle_error (self : t) (err : ProtoError.t) : t :=
  match self with
  | Closed _ => self
  | _ => Closed (Cause.Error err)
  end.

Definition broken_pipe_message : bytes := str "stream closed because of a broken pipe".

Definition recv_eof (self : t) : t :=
  match self with
  | Closed _ => self
  | _ => Closed (Cause.Error (ProtoError.Io BrokenPipe (Some broken_pipe_message)))
  end.

(** [send_close]: panics unless the sending side is open. *)
Definition send_close (self : t) : outcome t :=
  match self with
  | Open _ remote => Done (HalfClosedLocal remote)
  | HalfClosedRemote _ => Done (Closed Cause.EndStream)
  | _ => Panic
  end.

Definition set_reset (_ : t) (stream_id : StreamId.t) (reason : Reason.t)
    (initiator : Initiator.t) : t :=
  Closed (Cause.Error (ProtoError.Reset stream_id reason initiator)).

Definition is_closed (self : t) : bool := match self with Closed _ => true | _ => false end.

Definition set_scheduled_reset (self : t) (reason : Reason.t) : outcome t :=
  let! _ := assert (negb (is_closed self)) in
  Done (Closed (Cause.ScheduledLibraryReset reason)).

Definition get_scheduled_reset (self : t) : option Reason.t :=
  match self with
  | Closed (Cause.ScheduledLibraryReset reason) => Some reason
  | _ => None
  end.

Definition is_scheduled_reset (self : t) : bool :=
  match self with Closed (Cause.ScheduledLibraryReset _) => true | _ => false end.

Definition is_local_error (self : t) : bool :=
  match self with
  | Closed (Cause.Error e) => ProtoError.is_local e
  | Closed (Cause.ScheduledLibraryReset _) => true
  | _ => false
  end.

Definition is_remote_reset (self : t) : bool :=
  match self with
  | Closed (Cause.Error (ProtoError.Reset _ _ Initiator.Remote)) => true
  | _ => false
  end.

Definition is_reset (self : t) : bool :=
  match self with
  | Closed Cause.EndStream => false
  | Closed _ => true
  | _ => false
  end.

Definition is_send_streaming (self : t) : bool :=
  match self with
  | Open Streaming _ | HalfClosedRemote Streaming => true
  | _ => false
  end.

Definition is_recv_headers (self : t) : bool :=
  match self with
  | Idle | Open _ AwaitingHeaders | HalfClosedLocal AwaitingHeaders | ReservedRemote => true
  | _ => false
  end.

Definition is_recv_streaming (self : t) : bool :=
  match self with
  | Open _ Streaming | HalfClosedLocal Streaming => true
  | _ => false
  end.

Definition is_recv_end_stream (self : t) : bool :=
  match self with
  | Closed Cause.EndStream | HalfClosedRemote _ => true
  | _ => false
  end.

Definition is_send_closed (self : t) : bool :=
  match self with
  | Closed _ | HalfClosedLocal _ | ReservedRemote => true
  | _ => false
  end.

Definition is_idle (self : t) : bool := match self with Idle => true | _ => false end.

Definition ensure_recv_open (self : t) : result bool ProtoError.t :=
  match self with
  | Closed (Cause.Error e) => Err e
  | Closed (Cause.ScheduledLibraryReset reason) => Err (ProtoError.library_go_away reason)
  | Closed Cause.EndStream | HalfClosedRemote _ | ReservedLocal => Ok false
  | _ => Ok true
  end.

(** ** All the transitions as one step function

    The operations a stream goes through, with what they read of their arguments;
    [None] when the operation fails or panics. *)
Inductive op : Type :=
| SendOpen (eos : bool)
| RecvOpen (eos informational : bool)
| ReserveRemote
| ReserveLocal
| RecvClose
| RecvReset (frame : Reset.t) (queued : bool)
| HandleError (err : ProtoError.t)
| RecvEof
| SendClose
| SetReset (id : StreamId.t) (reason : Reason.t) (initiator : Initiator.t)
| SetScheduledReset (reason : Reason.t).

Definition ok {A E} (r : result A E) : option A := match r with Ok a => Some a | Err _ => None end.
Definition done {A} (o : outcome A) : option A := match o with Done a => Some a | Panic => None end.

Definition apply (o : op) (s : t) : option t :=
  match o with
  | SendOpen eos => ok (send_open s eos)
  | RecvOpen eos info => option_map fst (ok (recv_open s eos info))
  | ReserveRemote => ok (reserve_remote s)
  | ReserveLocal => ok (reserve_local s)
  | RecvClose => ok (recv_close s)
  | RecvReset frame queued => Some (recv_reset s frame queued)
  | HandleError err => Some (handle_error s err)
  | RecvEof => Some (recv_eof s)
  | SendClose => done (send_close s)
  | SetReset id reason initiator => Some (set_reset s id reason initiator)
  | SetScheduledReset reason => done (set_scheduled_reset s reason)
  end.

End State.

(** ** The state machine of RFC 9113, section 5.1 *)

Module Rfc.

Inductive t : Type :=
| Idle | ReservedLocal | ReservedRemote | Open | HalfClosedLocal | HalfClosedRemote | Closed.

(** The events of figure 2: HEADERS, the END_STREAM flag, RST_STREAM and
    PUSH_PROMISE, sent or received.  [Info] is an interim (1xx) response, which
    figure 2 leaves out; [Lost] is the end of the connection. *)
Inductive event : Type :=
| SendH | RecvH | SendES | RecvES | SendR | RecvR | SendPP | RecvPP | RecvInfo | Lost.

Inductive step : t -> event -> t -> Prop :=
| idle_send_h : step Idle SendH Open
| idle_recv_h : step Idle RecvH Open
| idle_send_pp : step Idle SendPP ReservedLocal
| idle_recv_pp : step Idle RecvPP ReservedRemote
| open_send_h : step Open SendH Open
| open_recv_h : step Open RecvH Open
| open_send_es : step Open SendES HalfClosedLocal
| open_recv_es : step Open RecvES HalfClosedRemote
| hcl_recv_h : step HalfClosedLocal RecvH HalfClosedLocal
| hcl_recv_es : step HalfClosedLocal RecvES Closed
| hcr_send_h : step HalfClosedRemote SendH HalfClosedRemote
| hcr_send_es : step HalfClosedRemote SendES Closed
| rl_send_h : step ReservedLocal SendH HalfClosedRemote
| rr_recv_h : step ReservedRemote RecvH HalfClosedLocal
| recv_info s : s <> Idle -> s <> Closed -> step s RecvInfo s
| idle_info : step Idle RecvInfo Open
| any_send_r s : step s SendR Closed
| any_recv_r s : step s RecvR Closed
| any_lost s : step s Lost Closed.

Inductive steps : t -> list event -> t -> Prop :=
| steps_nil s : steps s [] s
| steps_cons s1 e s2 es s3 : step s1 e s2 -> steps s2 es s3 -> steps s1 (e :: es) s3.

(** The state without what the code remembers besides. *)
Definition abs (s : State.t) : t :=
  match s with
  | State.Idle => Idle
  | State.ReservedLocal => ReservedLocal
  | State.ReservedRemote => ReservedRemote
  | State.Open _ _ => Open
  | State.HalfClosedLocal _ => HalfClosedLocal
  | State.HalfClosedRemote _ => HalfClosedRemote
  | State.Closed _ => Closed
  end.

Definition es (eos : bool) (e : event) : list event := if eos then [e] else [].

(** The frames an operation stands for. *)
Definition events (o : State.op) : list event :=
  match o with
  | State.SendOpen eos => SendH :: es eos SendES
  | State.RecvOpen false true => [RecvInfo]
  | State.RecvOpen eos _ => RecvH :: es eos RecvES
  | State.ReserveRemote => [RecvPP]
  | State.ReserveLocal => [SendPP]
  | State.RecvClose => [RecvES]
  | State.RecvReset _ _ => [RecvR]
  | State.HandleError _ | State.RecvEof => [Lost]
  | State.SendClose => [SendES]
  | State.SetReset _ _ _ | State.SetScheduledReset _ => [SendR]
  end.

End Rfc.

#[export] Hint Constructors Rfc.step Rfc.steps : plz.

(** ** Facts *)

Ltac state_cases :=
  repeat match goal with
  | p : Peer.t |- _ => destruct p
  | b : bool |- _ => destruct b
  | c : Cause.t |- _ => destruct c
  | s : State.t |- _ => destruct s
  end.



(** The halves of a stream the endpoint has finished with. *)
Definition recv_finished (s : State.t) : bool :=
  match s with State.Closed _ | State.HalfClosedRemote _ | State.ReservedLocal => true | _ => false end.

Inductive reachable : State.t -> Prop :=
| reach_idle : reachable State.Idle
| reach_step o s s' : reachable s -> State.apply o s = Some s' -> reachable s'.

(** Runs of operations. *)
Fixpoint run (os : list State.op) (s : State.t) : option State.t :=
  match os with
  | [] => Some s
  | o :: os => match State.apply o s with Some s => run os s | None => None end
  end.

Lemma apply_mono o s s' :
  State.apply o s = Some s' ->
  (State.is_closed s = true -> State.is_closed s' = true) /\
  (State.is_send_closed s = true -> State.is_send_closed s' = true) /\
  (recv_finished s = true -> recv_finished s' = true) /\
  (State.is_idle s' = true -> s = s').
Proof. destruct o; cbn; intros Hs; state_cases; cbn in Hs; simplify_eq; cbn; done. Qed.

(** C35: whatever sequence of operations follows, a closed stream stays closed, a
    finished sending half never sends again, a finished receiving half never
    receives again, and a stream never returns to idle. *)
Theorem state_halves_stay_closed os s s' :
  run os s = Some s' ->
  (State.is_closed s = true -> State.is_closed s' = true) /\
  (State.is_send_closed s = true ->
   State.is_send_closed s' = true /\ State.is_send_streaming s' = false /\
   forall eos, State.send_open s' eos = Err UserError.UnexpectedFrameType) /\
  (recv_finished s = true ->
   State.is_recv_streaming s' = false /\ State.is_recv_headers s' = false /\
   State.ensure_recv_open s' <> Ok true) /\
  (s <> State.Idle -> s' <> State.Idle).
Proof.
  intros Hr.
  assert ((State.is_closed s = true -> State.is_closed s' = true) /\
    (State.is_send_closed s = true -> State.is_send_closed s' = true) /\
    (recv_finished s = true -> recv_finished s' = true) /\
    (State.is_idle s' = true -> s = s')) as (H1 & H2 & H3 & H4).
  { revert s Hr. induction os as [|o os IH]; intros s Hr; cbn in Hr; [by simplify_eq|].
    destruct (State.apply o s) as [s1|] eqn:Ha; [|done].
    destruct (apply_mono _ _ _ Ha) as (A1 & A2 & A3 & A4).
    destruct (IH s1 Hr) as (B1 & B2 & B3 & B4). split_and!; auto.
    intros Hi. pose proof (B4 Hi) as ->. by apply A4. }
  split_and!; [done| | |].
  - intros Hc. specialize (H2 Hc). split_and!; [done|..]; clear -H2; state_cases; cbn in *; done.
  - intros Hc. specialize (H3 Hc). clear -H3. split_and!; state_cases; cbn in *; done.
  - intros Hi ->. by apply Hi, H4.
Qed.

Lemma state_halves_stay_closed_witness :
  run [State.RecvReset (Reset.mk 1 8) false] (State.HalfClosedLocal Peer.Streaming) =
    Some (State.Closed (Cause.Error (ProtoError.remote_reset 1 8))) /\
  State.is_send_streaming (State.Closed (Cause.Error (ProtoError.remote_reset 1 8))) = false.
Proof.
  split; [reflexivity|].
  apply (state_halves_stay_closed [State.RecvReset (Reset.mk 1 8) false]
    (State.HalfClosedLocal Peer.Streaming)); reflexivity.
Defined.

(** DATA flows only between HEADERS and END_STREAM: along any run from idle, a
    half that is streaming was opened by a HEADERS frame in that direction, which
    was not an interim response. *)
Lemma streaming_after_headers os s :
  run os State.Idle = Some s ->
  (State.is_send_streaming s = true -> State.SendOpen false ∈ os) /\
  (State.is_recv_streaming s = true -> State.RecvOpen false false ∈ os).
Proof.
  assert (forall os s0 s, run os s0 = Some s ->
    (State.is_send_streaming s = true -> State.is_send_streaming s0 = true \/ State.SendOpen false ∈ os) /\
    (State.is_recv_streaming s = true -> State.is_recv_streaming s0 = true \/ State.RecvOpen false false ∈ os))
    as Hgen.
  { clear. induction os as [|o os IH]; intros s0 s Hr; cbn in Hr; [simplify_eq; tauto|].
    destruct (State.apply o s0) as [s1|] eqn:Ha; [|done].
    destruct (IH s1 s Hr) as [I1 I2].
    assert ((State.is_send_streaming s1 = true -> State.is_send_streaming s0 = true \/ o = State.SendOpen false) /\
      (State.is_recv_streaming s1 = true -> State.is_recv_streaming s0 = true \/ o = State.RecvOpen false false))
      as [A1 A2].
    { clear -Ha. destruct o; cbn in Ha; state_cases; cbn in *; simplify_eq; cbn in *; intuition. }
    split; intros Hs.
    - destruct (I1 Hs) as [H1|H1]; [destruct (A1 H1) as [?| ->]|]; [tauto|..];
        right; rewrite elem_of_cons; tauto.
    - destruct (I2 Hs) as [H2|H2]; [destruct (A2 H2) as [?| ->]|]; [tauto|..];
        right; rewrite elem_of_cons; tauto. }
  intros Hr. destruct (Hgen os State.Idle s Hr) as [H1 H2]. split; intros Hs;
    [destruct (H1 Hs)|destruct (H2 Hs)]; done.
Qed.

Lemma streaming_after_headers_witness :
  run [State.SendOpen false; State.RecvOpen false true; State.RecvOpen false false] State.Idle =
    Some (State.Open Peer.Streaming Peer.Streaming) /\
  State.RecvOpen false false ∈
    [State.SendOpen false; State.RecvOpen false true; State.RecvOpen false false].
Proof.
  split; [reflexivity|].
  apply (streaming_after_headers
    [State.SendOpen false; State.RecvOpen false true; State.RecvOpen false false]
    (State.Open Peer.Streaming Peer.Streaming) eq_refl); reflexivity.
Defined.
