(* ===== verification/FlowWindow.v ===== *)
(** * Flow control windows

    Models [src/src/proto/streams/flow_control.rs]: windows as [i32] with their
    wrap-around and checked arithmetic, and the rule for sending WINDOW_UPDATE. *)

From S2P Require Import Prelude FrameBase.

(** [proto::MAX_WINDOW_SIZE] *)
Definition MAX_WINDOW_SIZE : Z := Z.shiftl 1 31 - 1.

(** Two's complement wrap-around of an [i32] addition or subtraction. *)
Definition fits_i32 (z : Z) : bool := (i32_min <=? z) && (z <=? i32_max).

Module Window.

(** [Window(i32)] *)
Definition t : Type := Z.

Definition as_size (w : t) : Z := if w <? 0 then 0 else as_u32 w.

(** [decrease_by]: the window afterwards, unchanged on an error. *)
Definition decrease_by (w : t) (sz : Z) : result unit Reason.t * t :=
  let v := w - as_i32 sz in
  if fits_i32 v then (Ok tt, v) else (Err Reason.FLOW_CONTROL_ERROR, w).

Definition increase_by (w : t) (sz : Z) : result unit Reason.t * t :=
  let sum := w + as_i32 sz in
  let overflow := negb (fits_i32 sum) in
  let val := as_i32 sum in
  if overflow || (val >? as_i32 MAX_WINDOW_SIZE) then (Err Reason.FLOW_CONTROL_ERROR, w)
  else (Ok tt, val).

End Window.

Module FlowControl.

Record t : Type := mk {
  window : Window.t;
  capacity : Window.t
}.

Definition UNCLAIMED_NUMERATOR : Z := 1.
Definition UNCLAIMED_DENOMINATOR : Z := 2.

Definition new (init_window_sz : Z) : t := mk (as_i32 init_window_sz) (as_i32 init_window_sz).

Definition window_size (self : t) : Z := Window.as_size (window self).
Definition available (self : t) : Z := Window.as_size (window self).

Definition dec_window (self : t) (sz : Z) : result unit Reason.t * t :=
  let (r, w) := Window.decrease_by (window self) sz in (r, mk w (capacity self)).

Definition inc_window (self : t) (sz : Z) : result unit Reason.t * t :=
  let (r, w) := Window.increase_by (window self) sz in (r, mk w (capacity self)).

(** [should_send_window_update]; the subtraction of the two [i32] is checked, the
    division truncates towards zero. *)
Definition should_send_window_update (self : t) : outcome (option Z) :=
  if window self >=? capacity self then Done None
  else
    let unclaimed := capacity self - window self in
    let! _ := assert (fits_i32 unclaimed) in
    let threshold := Z.quot (capacity self) UNCLAIMED_DENOMINATOR * UNCLAIMED_NUMERATOR in
    Done (if unclaimed <? threshold then None else Some (as_u32 unclaimed)).

End FlowControl.

(** ** Facts *)

Lemma fits_i32_spec z : fits_i32 z = true <-> is_i32 z.
Proof. unfold fits_i32. rewrite andb_true_iff, !Z.leb_le. done. Qed.

Lemma as_i32_of_i32 z : is_i32 z -> as_i32 z = z.
Proof.
  intros Hz. unfold as_i32, wrap_u32.
  destruct (Z.leb_spec (z mod 4294967296) i32_max) as [Hle|Hgt]; unfold_ints.
  - destruct (Z.le_gt_cases 0 z); [apply Z.mod_small; lia|].
    rewrite <-(Z_mod_plus_full z 1), Z.mod_small in Hle by lia. lia.
  - destruct (Z.le_gt_cases 0 z); [rewrite Z.mod_small in Hgt; lia|].
    rewrite <-(Z_mod_plus_full z 1), Z.mod_small by lia. lia.
Qed.

Lemma increase_by_spec w sz :
  is_i32 w -> 0 <= sz <= i32_max ->
  Window.increase_by w sz =
    if w + sz <=? MAX_WINDOW_SIZE then (Ok tt, w + sz) else (Err Reason.FLOW_CONTROL_ERROR, w).
Proof.
  intros Hw Hsz. unfold Window.increase_by. rewrite (as_i32_id sz) by done.
  change MAX_WINDOW_SIZE with i32_max. rewrite (as_i32_id i32_max) by (unfold_ints; lia).
  destruct (Z.leb_spec (w + sz) i32_max) as [Hle|Hgt].
  - assert (is_i32 (w + sz)) as Hs by (unfold_ints; lia).
    rewrite (proj2 (fits_i32_spec _) Hs), as_i32_of_i32 by done. cbn [negb orb].
    destruct (w + sz >? i32_max) eqn:Hc; [ilia|done].
  - destruct (fits_i32 (w + sz)) eqn:Hf; [apply fits_i32_spec in Hf; unfold_ints; lia|done].
Qed.

Lemma decrease_by_spec w sz :
  is_i32 w -> 0 <= sz <= i32_max ->
  Window.decrease_by w sz =
    if i32_min <=? w - sz then (Ok tt, w - sz) else (Err Reason.FLOW_CONTROL_ERROR, w).
Proof.
  intros Hw Hsz. unfold Window.decrease_by. rewrite as_i32_id by done.
  destruct (Z.leb_spec i32_min (w - sz)).
  - by rewrite (proj2 (fits_i32_spec _)) by (unfold_ints; lia).
  - destruct (fits_i32 (w - sz)) eqn:Hf; [apply fits_i32_spec in Hf; unfold_ints; lia|done].
Qed.

Lemma as_size_spec w : is_i32 w -> Window.as_size w = Z.max w 0.
Proof.
  intros Hw. unfold Window.as_size. destruct (Z.ltb_spec w 0); [lia|].
  rewrite as_u32_id by (unfold_ints; lia). lia.
Qed.

(** C20: window arithmetic is exact for every increment and decrement HTTP/2 allows
    (at most 2^31 - 1): a WINDOW_UPDATE is refused with FLOW_CONTROL_ERROR exactly
    when it would push the window past 2^31 - 1, a decrement only when the window
    would leave [i32] (a SETTINGS change may make it negative), a refused change
    leaves the window as it was, and the size seen by a sender is never negative. *)
Theorem flow_window_exact f sz :
  is_i32 (FlowControl.window f) -> 0 <= sz <= i32_max ->
  FlowControl.inc_window f sz =
    (if FlowControl.window f + sz <=? MAX_WINDOW_SIZE
     then (Ok tt, FlowControl.mk (FlowControl.window f + sz) (FlowControl.capacity f))
     else (Err Reason.FLOW_CONTROL_ERROR, f)) /\
  FlowControl.dec_window f sz =
    (if i32_min <=? FlowControl.window f - sz
     then (Ok tt, FlowControl.mk (FlowControl.window f - sz) (FlowControl.capacity f))
     else (Err Reason.FLOW_CONTROL_ERROR, f)) /\
  is_i32 (FlowControl.window (FlowControl.inc_window f sz).2) /\
  is_i32 (FlowControl.window (FlowControl.dec_window f sz).2) /\
  FlowControl.window_size f = Z.max (FlowControl.window f) 0.
Proof.
  intros Hw Hsz. unfold FlowControl.inc_window, FlowControl.dec_window, FlowControl.window_size.
  rewrite increase_by_spec, decrease_by_spec, as_size_spec by done.
  destruct f as [w c]; cbn in *. change MAX_WINDOW_SIZE with i32_max.
  destruct (Z.leb_spec (w + sz) i32_max), (Z.leb_spec i32_min (w - sz)); cbn;
    split_and!; try done; unfold_ints; lia.
Qed.

Lemma flow_window_exact_witness :
  FlowControl.inc_window (FlowControl.new 65535) 2147418113 =
    (Err Reason.FLOW_CONTROL_ERROR, FlowControl.new 65535).
Proof.
  apply (flow_window_exact (FlowControl.new 65535) 2147418113); vm_compute; split; discriminate.
Defined.

(** An announced WINDOW_UPDATE is at least half of the capacity, and applying it
    is accepted and brings the window back to the capacity exactly; afterwards no
    update is due. *)
Theorem window_update_restores f inc :
  is_i32 (FlowControl.window f) -> 0 <= FlowControl.capacity f <= i32_max ->
  FlowControl.should_send_window_update f = Done (Some inc) ->
  0 < inc <= u32_max /\ FlowControl.capacity f / 2 <= inc /\
  FlowControl.inc_window f inc =
    (Ok tt, FlowControl.mk (FlowControl.capacity f) (FlowControl.capacity f)) /\
  FlowControl.should_send_window_update
    (FlowControl.mk (FlowControl.capacity f) (FlowControl.capacity f)) = Done None.
Proof.
  intros Hw Hc. unfold FlowControl.should_send_window_update. destruct f as [w c]; cbn in *.
  destruct (w >=? c) eqn:Hge; [done|]. bool_to_prop.
  destruct (fits_i32 (c - w)) eqn:Hf; [cbn [assert obind]|done]. apply fits_i32_spec in Hf.
  unfold FlowControl.UNCLAIMED_DENOMINATOR, FlowControl.UNCLAIMED_NUMERATOR.
  rewrite Z.mul_1_r, Z.quot_div_nonneg by lia.
  destruct (Z.ltb_spec (c - w) (c / 2)); [done|]. intros [= <-].
  rewrite as_u32_id by (unfold_ints; lia). split_and!; [unfold_ints; lia..|lia| |].
  - unfold FlowControl.inc_window. cbn. rewrite increase_by_spec by (unfold_ints; lia).
    replace (w + (c - w)) with c by lia. change MAX_WINDOW_SIZE with i32_max.
    by destruct (Z.leb_spec c i32_max); [|lia].
  - by rewrite (proj2 (Z.geb_le c c)) by lia.
Qed.

Lemma window_update_restores_witness :
  FlowControl.should_send_window_update (FlowControl.mk 20000 65535) = Done (Some 45535) /\
  FlowControl.inc_window (FlowControl.mk 20000 65535) 45535 = (Ok tt, FlowControl.mk 65535 65535).
Proof.
  split; [reflexivity|].
  apply (window_update_restores (FlowControl.mk 20000 65535) 45535);
    [vm_compute; split; discriminate|vm_compute; split; discriminate|reflexivity].
Defined.
