(* ===== verification/SlabLib.v ===== *)
(** * The containers of the crates [slab] and [indexmap]

    [Slab<T>] allocates values and returns keys; [IndexMap<K, V>] is a map that
    remembers an order.  Neither crate is part of the repository: each is a class
    of operations with its documented behaviour as laws over an observer ([slab_map],
    [im_list]), and a concrete instance that satisfies them. *)

From S2P Require Import Prelude.

Class SlabOps : Type := {
  slab : Type -> Type;
  slab_new {T} : slab T;
  (** The key is vacant before the call. *)
  slab_insert {T} : T -> slab T -> nat * slab T;
  (** [remove] panics on a vacant key: [None]. *)
  slab_remove {T} : nat -> slab T -> option (T * slab T);
  slab_get {T} : nat -> slab T -> option T;
  (** Assignment through [IndexMut] / [get_mut]. *)
  slab_set {T} : nat -> T -> slab T -> slab T;
  slab_len {T} : slab T -> nat;
  slab_map {T} : slab T -> gmap nat T
}.

Class SlabLaws (S : SlabOps) : Prop := {
  slab_map_new {T} : slab_map (slab_new (T:=T)) = empty;
  slab_insert_fresh {T} (v : T) s : slab_map s !! (slab_insert v s).1 = None;
  slab_map_insert {T} (v : T) s :
    slab_map (slab_insert v s).2 = <[(slab_insert v s).1 := v]> (slab_map s);
  slab_remove_none {T} k (s : slab T) : slab_remove k s = None <-> slab_map s !! k = None;
  slab_remove_some {T} k (s : slab T) v s' :
    slab_remove k s = Some (v, s') -> slab_map s !! k = Some v /\ slab_map s' = delete k (slab_map s);
  slab_get_map {T} k (s : slab T) : slab_get k s = slab_map s !! k;
  slab_map_set {T} k (v : T) s :
    slab_map s !! k <> None -> slab_map (slab_set k v s) = <[k := v]> (slab_map s);
  slab_len_map {T} (s : slab T) : slab_len s = size (slab_map s)
}.

(** An ordered map with integer keys. *)
Class IndexMapOps : Type := {
  index_map : Type -> Type;
  im_new {V} : index_map V;
  im_list {V} : index_map V -> list (Z * V);
  im_get {V} : Z -> index_map V -> option V;
  (** [insert]: the value the key had, and the map. *)
  im_insert {V} : Z -> V -> index_map V -> option V * index_map V;
  im_swap_remove {V} : Z -> index_map V -> index_map V;
  im_get_index {V} : nat -> index_map V -> option (Z * V);
  im_len {V} : index_map V -> nat
}.

(** The documented behaviour, on lists with distinct keys: a new key goes last,
    [swap_remove] moves the last entry into the hole. *)
Fixpoint list_get {V} (k : Z) (l : list (Z * V)) : option V :=
  match l with
  | [] => None
  | (k', v) :: l => if k =? k' then Some v else list_get k l
  end.

Fixpoint list_index {V} (k : Z) (l : list (Z * V)) : option nat :=
  match l with
  | [] => None
  | (k', _) :: l => if k =? k' then Some 0%nat else option_map S (list_index k l)
  end.

Definition list_swap_remove {V} (k : Z) (l : list (Z * V)) : list (Z * V) :=
  match list_index k l, rev l with
  | Some i, x :: r =>
      if (i =? length l - 1)%nat then rev r else <[i := x]> (rev r)
  | _, _ => l
  end.

Class IndexMapLaws (M : IndexMapOps) : Prop := {
  im_keys_nodup {V} (m : index_map V) : NoDup (im_list m).*1;
  im_list_new {V} : im_list (im_new (V:=V)) = [];
  im_get_list {V} k (m : index_map V) : im_get k m = list_get k (im_list m);
  im_insert_vacant {V} k (v : V) m :
    list_get k (im_list m) = None ->
    (im_insert k v m).1 = None /\ im_list (im_insert k v m).2 = im_list m ++ [(k, v)];
  im_insert_occupied {V} k (v : V) m i old :
    list_index k (im_list m) = Some i -> list_get k (im_list m) = Some old ->
    (im_insert k v m).1 = Some old /\ im_list (im_insert k v m).2 = <[i := (k, v)]> (im_list m);
  im_list_swap_remove {V} k (m : index_map V) :
    im_list (im_swap_remove k m) = list_swap_remove k (im_list m);
  im_get_index_list {V} i (m : index_map V) : im_get_index i m = im_list m !! i;
  im_len_list {V} (m : index_map V) : im_len m = length (im_list m)
}.

(** ** A concrete slab: a finite map and a key that is not in it *)

#[export] Instance concrete_slab : SlabOps := {
  slab := fun T => gmap nat T;
  slab_new := fun T => empty;
  slab_insert := fun T v s => let k := fresh (dom s) in (k, <[k := v]> s);
  slab_remove := fun T k s => option_map (fun v => (v, delete k s)) (s !! k);
  slab_get := fun T k s => s !! k;
  slab_set := fun T k v s => <[k := v]> s;
  slab_len := fun T s => size s;
  slab_map := fun T s => s
}.

#[export] Instance concrete_slab_laws : SlabLaws concrete_slab.
Proof.
  split; cbn; try done.
  - intros T v s. apply not_elem_of_dom. apply is_fresh.
  - intros T k s. destruct (s !! k); cbn; done.
  - intros T k s v s' Hr. by destruct (s !! k) eqn:Hk; cbn in Hr; simplify_eq.
Qed.

(** ** Lists of entries with distinct keys *)

Section entries.
Context {V : Type}.
Implicit Types (l : list (Z * V)).

Lemma list_get_elem k v l : NoDup l.*1 -> list_get k l = Some v <-> (k, v) ∈ l.
Proof.
  induction l as [|[k' v'] l IH]; cbn; intros Hnd.
  - split; [done|]. by intros ?%not_elem_of_nil.
  - apply NoDup_cons in Hnd as [Hnin Hnd]. rewrite elem_of_cons.
    destruct (Z.eqb_spec k k') as [->|Hne].
    + split; [intros [= ->]; by left|]. intros [[= ->]|Hin]; [done|].
      destruct Hnin. by apply (list_elem_of_fmap_2 fst _ (k', v)).
    + rewrite IH by done. split; [by right|]. intros [[= ]|]; done.
Qed.

Lemma list_get_none k l : list_get k l = None <-> k ∉ l.*1.
Proof.
  induction l as [|[k' v'] l IH]; cbn; [split; [intros _; apply not_elem_of_nil|done]|].
  rewrite not_elem_of_cons. destruct (Z.eqb_spec k k') as [->|]; [naive_solver|].
  rewrite IH. naive_solver.
Qed.

Lemma list_get_app k l l' :
  list_get k (l ++ l') = match list_get k l with Some v => Some v | None => list_get k l' end.
Proof. induction l as [|[k' v'] l IH]; cbn; [done|]. by destruct (k =? k'). Qed.

Lemma list_index_app k v l1 l2 :
  k ∉ l1.*1 -> list_index k (l1 ++ (k, v) :: l2) = Some (length l1).
Proof.
  induction l1 as [|[k' v'] l1 IH]; cbn.
  - by rewrite Z.eqb_refl.
  - rewrite not_elem_of_cons. intros [Hne Hnin].
    rewrite (proj2 (Z.eqb_neq _ _) Hne), IH by done. done.
Qed.

Lemma list_index_none k l : k ∉ l.*1 -> list_index k l = None.
Proof.
  induction l as [|[k' v'] l IH]; cbn; [done|].
  rewrite not_elem_of_cons. intros [Hne Hnin].
  by rewrite (proj2 (Z.eqb_neq _ _) Hne), IH.
Qed.

(** The hole is filled with the last entry. *)
Lemma swap_remove_split k v l1 l2 :
  k ∉ l1.*1 ->
  exists l2', list_swap_remove k (l1 ++ (k, v) :: l2) = l1 ++ l2' /\ l2' ≡ₚ l2.
Proof.
  intros Hnin. unfold list_swap_remove. rewrite list_index_app by done.
  destruct l2 as [|x l2 _] using rev_ind.
  - exists []. rewrite rev_app_distr. cbn. rewrite length_app. cbn.
    rewrite (proj2 (Nat.eqb_eq _ _)) by lia. by rewrite rev_involutive, app_nil_r.
  - exists (x :: l2). replace (l1 ++ (k, v) :: l2 ++ [x]) with ((l1 ++ (k, v) :: l2) ++ [x])
      by (by rewrite <-app_assoc).
    rewrite rev_app_distr. cbn [rev app]. rewrite !length_app. cbn [length].
    rewrite (proj2 (Nat.eqb_neq _ _)) by lia. rewrite rev_involutive.
    split; [|by rewrite (comm _ l2)].
    rewrite insert_app_r_alt by lia. by rewrite Nat.sub_diag.
Qed.

Lemma swap_remove_absent k l : k ∉ l.*1 -> list_swap_remove k l = l.
Proof. intros Hk. unfold list_swap_remove. by rewrite list_index_none. Qed.

Lemma split_at_key k l :
  k ∈ l.*1 -> exists l1 v l2, l = l1 ++ (k, v) :: l2 /\ k ∉ l1.*1.
Proof.
  induction l as [|[k' v'] l IH]; cbn; [by intros ?%not_elem_of_nil|].
  destruct (decide (k = k')) as [->|Hne].
  - intros _. exists [], v', l. split; [done|]. apply not_elem_of_nil.
  - intros [?|Hin]%elem_of_cons; [done|].
    destruct (IH Hin) as (l1 & v & l2 & -> & Hn). exists ((k', v') :: l1), v, l2.
    split; [done|]. cbn. by apply not_elem_of_cons.
Qed.

Lemma swap_remove_get k k' l :
  NoDup l.*1 ->
  list_get k' (list_swap_remove k l) = if k' =? k then None else list_get k' l.
Proof.
  intros Hnd. destruct (decide (k ∈ l.*1)) as [Hin|Hnin].
  - destruct (split_at_key k l Hin) as (l1 & v & l2 & -> & Hn).
    destruct (swap_remove_split k v l1 l2 Hn) as (l2' & -> & Hp).
    rewrite fmap_app, fmap_cons in Hnd. cbn [fst] in Hnd.
    assert (NoDup (l1 ++ l2').*1) as Hnd'.
    { rewrite fmap_app, Hp. apply NoDup_app in Hnd as (?&?&[? ?]%NoDup_cons).
      apply NoDup_app. split_and!; [done| |done]. intros x Hx Hx'. eapply H0; [done|by right]. }
    destruct (Z.eqb_spec k' k) as [->|Hne].
    + apply list_get_none. rewrite fmap_app, Hp, elem_of_app.
      apply NoDup_app in Hnd as (_&_&[? ?]%NoDup_cons). tauto.
    + apply option_eq. intros w.
      rewrite (list_get_elem k' w (l1 ++ l2')), list_get_elem; [|by rewrite fmap_app|done].
      rewrite Hp, !elem_of_app, elem_of_cons. naive_solver.
  - rewrite swap_remove_absent by done. destruct (Z.eqb_spec k' k) as [->|]; [|done].
    by apply list_get_none.
Qed.

Definition list_insert k v l : list (Z * V) :=
  match list_index k l with Some i => <[i := (k, v)]> l | None => l ++ [(k, v)] end.

Lemma list_index_fst k l i : list_index k l = Some i -> l.*1 !! i = Some k.
Proof.
  revert i. induction l as [|[k' v'] l IH]; cbn; intros i; [done|].
  destruct (Z.eqb_spec k k') as [->|]; [by intros [= <-]|].
  destruct (list_index k l) as [j|]; [|done]. intros [= <-]. by apply IH.
Qed.

Lemma list_insert_nodup k v l : NoDup l.*1 -> NoDup (list_insert k v l).*1.
Proof.
  intros Hnd. unfold list_insert. destruct (list_index k l) as [i|] eqn:Hi.
  - rewrite list_fmap_insert. cbn. by rewrite list_insert_id by (by apply list_index_fst).
  - rewrite fmap_app. apply NoDup_app. split_and!; [done| |apply NoDup_singleton].
    intros x Hx ->%list_elem_of_singleton. destruct (split_at_key k l Hx) as (l1 & w & l2 & -> & Hn).
    by rewrite list_index_app in Hi.
Qed.

Lemma list_index_get k l : list_index k l = None <-> list_get k l = None.
Proof.
  rewrite list_get_none. split; [|apply list_index_none]. intros Hi Hin.
  destruct (split_at_key k l Hin) as (l1 & w & l2 & -> & Hn). by rewrite list_index_app in Hi.
Qed.

Lemma swap_remove_nodup k l : NoDup l.*1 -> NoDup (list_swap_remove k l).*1.
Proof.
  intros Hnd. destruct (decide (k ∈ l.*1)) as [Hin|Hnin]; [|by rewrite swap_remove_absent].
  destruct (split_at_key k l Hin) as (l1 & v & l2 & -> & Hn).
  destruct (swap_remove_split k v l1 l2 Hn) as (l2' & -> & Hp).
  rewrite fmap_app, fmap_cons in Hnd. rewrite fmap_app, Hp.
  apply NoDup_app in Hnd as (?&Hd&[? ?]%NoDup_cons).
  apply NoDup_app. split_and!; [done| |done]. intros x Hx Hx'. apply (Hd x Hx). by right.
Qed.

End entries.

(** ** A concrete index map: a list of entries with distinct keys *)

Record nodup_list (V : Type) : Type := nd {
  nd_list : list (Z * V);
  nd_proof : bool_decide (NoDup nd_list.*1) = true
}.
Arguments nd {V}.
Arguments nd_list {V}.
Arguments nd_proof {V}.

Definition nd_lift {V} (f : list (Z * V) -> list (Z * V))
    (Hf : forall l, NoDup l.*1 -> NoDup (f l).*1) (m : nodup_list V) : nodup_list V :=
  nd (f (nd_list m))
     (bool_decide_eq_true_2 _ (Hf _ (bool_decide_eq_true_1 _ (nd_proof m)))).

#[export] Instance concrete_im : IndexMapOps := {
  index_map := nodup_list;
  im_new := fun V => nd [] eq_refl;
  im_list := fun V m => nd_list m;
  im_get := fun V k m => list_get k (nd_list m);
  im_insert := fun V k v m =>
    (list_get k (nd_list m), nd_lift (list_insert k v) (list_insert_nodup k v) m);
  im_swap_remove := fun V k m => nd_lift (list_swap_remove k) (swap_remove_nodup k) m;
  im_get_index := fun V i m => nd_list m !! i;
  im_len := fun V m => length (nd_list m)
}.

#[export] Instance concrete_im_laws : IndexMapLaws concrete_im.
Proof.
  split; cbn; try done.
  - intros V m. apply (bool_decide_eq_true_1 _ (nd_proof m)).
  - intros V k v m Hn. split; [done|]. unfold list_insert.
    by rewrite (proj2 (list_index_get k _)).
  - intros V k v m i old Hi Ho. split; [done|]. unfold list_insert. by rewrite Hi.
Qed.
