(* ===== verification/FrameBuffer.v ===== *)
(** * Frame queues in a shared buffer

    Models [src/src/proto/streams/buffer.rs]: a [Buffer] is a slab of slots shared
    by all the streams, a [Deque] is a linked list in it, known by its head and
    tail keys. *)

From S2P Require Import Prelude SlabLib.

Record Slot (T : Type) : Type := slot { svalue : T; snext : option nat }.
Arguments slot {T}.
Arguments svalue {T}.
Arguments snext {T}.

Record Indices : Type := indices { head : nat; tail : nat }.

Module Buffer.

Section buffer.
Context `{SlabOps} {T : Type}.

(** [Buffer<T>] wraps its slab. *)
Definition t : Type := slab (Slot T).

Definition new : t := slab_new.

Definition is_empty (b : t) : bool := (slab_len b =? 0)%nat.

(** [buf.slab[key].next = next]; panics on a vacant key. *)
Definition set_next (b : t) (key : nat) (next : option nat) : outcome t :=
  let! s := unwrap (slab_get key b) in
  Done (slab_set key (slot (svalue s) next) b).

End buffer.

End Buffer.

Module Deque.

Section deque.
Context `{SlabOps} {T : Type}.

Record t : Type := mk { didx : option Indices }.

Definition new : t := mk None.

Definition is_empty (d : t) : bool := match didx d with None => true | Some _ => false end.

Definition push_back (d : t) (buf : Buffer.t (T:=T)) (value : T) : outcome (t * Buffer.t (T:=T)) :=
  let (key, buf) := slab_insert (slot value None) buf in
  match didx d with
  | Some idxs =>
      let! buf := Buffer.set_next buf (tail idxs) (Some key) in
      Done (mk (Some (indices (head idxs) key)), buf)
  | None => Done (mk (Some (indices key key)), buf)
  end.

Definition push_front (d : t) (buf : Buffer.t (T:=T)) (value : T) : outcome (t * Buffer.t (T:=T)) :=
  let (key, buf) := slab_insert (slot value None) buf in
  match didx d with
  | Some idxs =>
      let! buf := Buffer.set_next buf key (Some (head idxs)) in
      Done (mk (Some (indices key (tail idxs))), buf)
  | None => Done (mk (Some (indices key key)), buf)
  end.

Definition pop_front (d : t) (buf : Buffer.t (T:=T)) : outcome (option T * t * Buffer.t (T:=T)) :=
  match didx d with
  | Some idxs =>
      let! (s, buf) := unwrap (slab_remove (head idxs) buf) in
      if (head idxs =? tail idxs)%nat then
        let! _ := assert (match snext s with None => true | Some _ => false end) in
        Done (Some (svalue s), mk None, buf)
      else
        let! h := unwrap (snext s) in
        Done (Some (svalue s), mk (Some (indices h (tail idxs))), buf)
  | None => Done (None, d, buf)
  end.

End deque.

End Deque.

(** ** The sequence a deque stands for *)

Section facts.
Context `{SlabOps} `{!SlabLaws H} {T : Type}.

Implicit Types (m : gmap nat (Slot T)) (l : list T).

(** [chain m ks l]: the slots [ks] of [m], linked in order, hold [l]; the last one
    has no successor. *)
Fixpoint chain m (ks : list nat) l : Prop :=
  match ks, l with
  | [], [] => True
  | k :: ks, v :: l => m !! k = Some (slot v (hd_error ks)) /\ chain m ks l
  | _, _ => False
  end.

(** [owns buf d ks l]: [d] is the sequence [l], stored in the slots [ks]. *)
Definition owns (buf : Buffer.t (T:=T)) (d : Deque.t) (ks : list nat) l : Prop :=
  NoDup ks /\ chain (slab_map buf) ks l /\
  match Deque.didx d with
  | None => ks = []
  | Some i => hd_error ks = Some (head i) /\ last ks = Some (tail i)
  end.

Lemma chain_ext m m' ks l :
  (forall k, k ∈ ks -> m' !! k = m !! k) -> chain m ks l -> chain m' ks l.
Proof.
  revert l. induction ks as [|k ks IH]; intros [|v l] Hm Hc; try done. destruct Hc as [Hk Hc].
  split; [rewrite Hm; [done|by left]|]. apply IH; [|done]. intros k' Hk'. apply Hm. by right.
Qed.

Lemma chain_length m ks l : chain m ks l -> length ks = length l.
Proof. revert l. induction ks; intros [|v l] Hc; cbn in *; try done. f_equal. apply IHks, Hc. Qed.

Lemma chain_in_map m ks l k : chain m ks l -> k ∈ ks -> is_Some (m !! k).
Proof.
  revert l. induction ks as [|k' ks IH]; intros [|v l] Hc Hk; try done; [by inversion Hk|].
  destruct Hc as [Hk' Hc]. apply elem_of_cons in Hk as [->|Hk]; eauto.
Qed.

(** Linking a new last slot. *)
Lemma chain_snoc m ks l t k v :
  chain m ks l -> NoDup ks -> last ks = Some t -> k ∉ ks -> m !! k = None ->
  exists vt nt, m !! t = Some (slot vt nt) /\
    chain (<[t := slot vt (Some k)]> (<[k := slot v None]> m)) (ks ++ [k]) (l ++ [v]).
Proof.
  revert l. induction ks as [|k' ks IH]; intros [|v' l] Hc Hnd Hl Hk Hm; cbn in Hl; try done.
  destruct Hc as [Hk' Hc]. apply NoDup_cons in Hnd as [Hnin Hnd].
  apply not_elem_of_cons in Hk as [Hkk' Hk].
  destruct ks as [|k'' ks].
  - injection Hl as <-. destruct l; [|done]. exists v', None. split; [exact Hk'|]. cbn.
    split_and!; [by simplify_map_eq|by simplify_map_eq|done].
  - destruct (IH l Hc Hnd Hl Hk Hm) as (vt & nt & Ht & Hch).
    exists vt, nt. split; [done|]. cbn [app chain]. split; [|done].
    assert (t ∈ k'' :: ks) as Htin by (by apply last_Some_elem_of).
    rewrite lookup_insert_ne by (intros ->; done). by rewrite lookup_insert_ne by done.
Qed.

Lemma slab_get_some (buf : Buffer.t (T:=T)) k s :
  slab_map buf !! k = Some s -> slab_get k buf = Some s.
Proof. by rewrite slab_get_map. Qed.

Lemma owns_frame buf buf' d ks l :
  (forall k, k ∈ ks -> slab_map buf' !! k = slab_map buf !! k) -> owns buf d ks l -> owns buf' d ks l.
Proof. intros Hm (Hnd & Hc & Hd). split_and!; [done| |done]. by eapply chain_ext. Qed.

Lemma deque_push_back_spec buf d ks l v :
  owns buf d ks l ->
  exists d' buf' ks', Deque.push_back d buf v = Done (d', buf') /\ owns buf' d' ks' (l ++ [v]) /\
    (forall k, is_Some (slab_map buf !! k) -> k ∉ ks -> slab_map buf' !! k = slab_map buf !! k /\ k ∉ ks').
Proof.
  intros (Hnd & Hc & Hd). unfold Deque.push_back.
  pose proof (slab_insert_fresh (slot v None) buf) as Hfresh.
  pose proof (slab_map_insert (slot v None) buf) as Hins.
  destruct (slab_insert (slot v None) buf) as [key buf1]. cbn [fst snd] in *.
  assert (key ∉ ks) as Hnin.
  { intros Hin. destruct (chain_in_map _ _ _ _ Hc Hin) as [? Hs]. congruence. }
  destruct (Deque.didx d) as [i|] eqn:Hi.
  - destruct Hd as [Hh Ht].
    destruct (chain_snoc _ _ _ _ key v Hc Hnd Ht Hnin Hfresh) as (vt & nt & Hvt & Hch).
    assert (tail i ∈ ks) as Htin by (by apply last_Some_elem_of).
    assert (tail i <> key) as Hne by (intros He; rewrite He in Htin; done).
    assert (slab_map buf1 !! tail i = Some (slot vt nt)) as Hg
      by (by rewrite Hins, lookup_insert_ne by done).
    unfold Buffer.set_next. rewrite (slab_get_some _ _ _ Hg). cbn [unwrap obind svalue].
    eexists _, _, (ks ++ [key]). split_and!; [done| |].
    + split_and!.
      * apply NoDup_app. split_and!; [done| |apply NoDup_singleton].
        intros k Hk ->%list_elem_of_singleton. done.
      * rewrite slab_map_set by congruence. by rewrite Hins.
      * cbn. split; [by destruct ks|by rewrite last_snoc].
    + intros k Hk Hkn. rewrite slab_map_set, Hins by congruence.
      assert (k <> key) by (intros He; destruct Hk; congruence).
      assert (k <> tail i) by (intros He; rewrite He in Hkn; done).
      split; [by simplify_map_eq|]. rewrite elem_of_app, list_elem_of_singleton. tauto.
  - subst ks. destruct l; [|done]. eexists _, _, [key]. split_and!; [done| |].
    + split_and!; [apply NoDup_singleton| |done]. cbn. split; [|done]. rewrite Hins. by simplify_map_eq.
    + intros k Hk _. assert (k <> key) by (intros He; destruct Hk; congruence).
      split; [rewrite Hins; by simplify_map_eq|]. by rewrite list_elem_of_singleton.
Qed.

Lemma deque_push_front_spec buf d ks l v :
  owns buf d ks l ->
  exists d' buf' ks', Deque.push_front d buf v = Done (d', buf') /\ owns buf' d' ks' (v :: l) /\
    (forall k, is_Some (slab_map buf !! k) -> k ∉ ks -> slab_map buf' !! k = slab_map buf !! k /\ k ∉ ks').
Proof.
  intros (Hnd & Hc & Hd). unfold Deque.push_front.
  pose proof (slab_insert_fresh (slot v None) buf) as Hfresh.
  pose proof (slab_map_insert (slot v None) buf) as Hins.
  destruct (slab_insert (slot v None) buf) as [key buf1]. cbn [fst snd] in *.
  assert (key ∉ ks) as Hnin.
  { intros Hin. destruct (chain_in_map _ _ _ _ Hc Hin) as [? Hs]. congruence. }
  assert (slab_map buf1 !! key = Some (slot v None)) as Hg by (rewrite Hins; by simplify_map_eq).
  assert (forall x k, k ∈ ks -> <[key := x]> (slab_map buf1) !! k = slab_map buf !! k) as Hsame.
  { intros x k Hk. assert (k <> key) by (intros ->; done). rewrite Hins. by simplify_map_eq. }
  destruct (Deque.didx d) as [i|] eqn:Hi.
  - destruct Hd as [Hh Ht]. unfold Buffer.set_next. rewrite (slab_get_some _ _ _ Hg).
    cbn [unwrap obind svalue]. eexists _, _, (key :: ks). split_and!; [done| |].
    + split_and!; [by constructor| |].
      * cbn. rewrite slab_map_set by congruence. split; [rewrite Hh; by simplify_map_eq|].
        eapply chain_ext; [|exact Hc]. auto.
      * cbn. split; [done|]. destruct ks; [done|]. exact Ht.
    + intros k Hk Hkn. assert (k <> key) by (intros He; destruct Hk; congruence).
      rewrite slab_map_set, Hins by congruence. split; [by simplify_map_eq|].
      by apply not_elem_of_cons.
  - subst ks. destruct l; [|done]. eexists _, _, [key]. split_and!; [done| |].
    + split_and!; [apply NoDup_singleton| |done]. cbn. split; [|done]. done.
    + intros k Hk _. assert (k <> key) by (intros He; destruct Hk; congruence).
      split; [rewrite Hins; by simplify_map_eq|]. by rewrite list_elem_of_singleton.
Qed.

Lemma deque_pop_front_spec buf d ks l :
  owns buf d ks l ->
  exists d' buf' ks', Deque.pop_front d buf = Done (hd_error l, d', buf') /\
    owns buf' d' ks' (List.tl l) /\
    (forall k, k ∉ ks -> slab_map buf' !! k = slab_map buf !! k /\ k ∉ ks').
Proof.
  intros (Hnd & Hc & Hd). unfold Deque.pop_front.
  destruct (Deque.didx d) as [i|] eqn:Hi.
  - destruct Hd as [Hh Ht]. destruct ks as [|k ks]; [done|]. destruct l as [|v l]; [done|].
    cbn in Hh. injection Hh as ->. destruct Hc as [Hk Hc]. apply NoDup_cons in Hnd as [Hnin Hnd].
    destruct (slab_remove (head i) buf) as [[s buf1]|] eqn:Hr;
      [|apply slab_remove_none in Hr; congruence].
    apply slab_remove_some in Hr as [Hs Hdel]. rewrite Hk in Hs. injection Hs as <-.
    cbn [unwrap obind snext svalue].
    assert (forall k', k' ∈ ks -> slab_map buf1 !! k' = slab_map buf !! k') as Hsame.
    { intros k' Hk'. rewrite Hdel, lookup_delete_ne; [done|]. intros He. by rewrite He in Hnin. }
    assert (forall k', k' ∉ head i :: ks -> slab_map buf1 !! k' = slab_map buf !! k') as Hother.
    { intros k' [Hk' _]%not_elem_of_cons. by rewrite Hdel, lookup_delete_ne by done. }
    destruct ks as [|k2 ks].
    + injection Ht as Ht. rewrite <-Ht, Nat.eqb_refl. cbn. destruct l; [|done].
      eexists _, _, []. split_and!; [done|by split_and!; [constructor|..]|].
      intros k' Hk'. split; [by apply Hother|by apply not_elem_of_nil].
    + assert (head i <> tail i) as Hne.
      { intros He. apply Hnin. rewrite He. apply last_Some_elem_of. exact Ht. }
      rewrite (proj2 (Nat.eqb_neq _ _) Hne). cbn [hd_error unwrap obind].
      eexists _, _, (k2 :: ks). split_and!; [done| |].
      * split_and!; [done| |done]. by eapply chain_ext.
      * intros k' Hk'. split; [by apply Hother|]. by apply not_elem_of_cons in Hk' as [_ ?].
  - subst ks. destruct l; [|done]. eexists _, _, []. split_and!; [done| |done].
    split_and!; [constructor|done|]. by rewrite Hi.
Qed.

(** C26: deques that share a buffer are independent FIFO sequences: pushing at the
    back or at the front and popping act on the sequence of one deque as on a
    list, never panic, and leave every other deque of the buffer as it was. *)
Theorem deque_is_sequence buf d ks l d2 ks2 l2 v :
  owns buf d ks l -> owns buf d2 ks2 l2 -> ks ## ks2 ->
  (exists d' buf' ks', Deque.push_back d buf v = Done (d', buf') /\
     owns buf' d' ks' (l ++ [v]) /\ owns buf' d2 ks2 l2 /\ ks' ## ks2) /\
  (exists d' buf' ks', Deque.push_front d buf v = Done (d', buf') /\
     owns buf' d' ks' (v :: l) /\ owns buf' d2 ks2 l2 /\ ks' ## ks2) /\
  (exists d' buf' ks', Deque.pop_front d buf = Done (hd_error l, d', buf') /\
     owns buf' d' ks' (List.tl l) /\ owns buf' d2 ks2 l2 /\ ks' ## ks2).
Proof.
  intros Ho Ho2 Hdisj.
  assert (forall k, k ∈ ks2 -> is_Some (slab_map buf !! k) /\ k ∉ ks) as Hk2.
  { intros k Hk. split; [|intros Hk'; by apply (Hdisj k)].
    destruct Ho2 as (_ & Hc2 & _). by eapply chain_in_map. }
  split_and!.
  - destruct (deque_push_back_spec buf d ks l v Ho) as (d' & buf' & ks' & Hp & Ho' & Hf).
    exists d', buf', ks'. split_and!; [done..| |].
    + eapply owns_frame; [|exact Ho2]. intros k Hk. by apply Hf; apply Hk2.
    + intros k Hk Hk'. by apply (Hf k); [apply Hk2|apply Hk2|].
  - destruct (deque_push_front_spec buf d ks l v Ho) as (d' & buf' & ks' & Hp & Ho' & Hf).
    exists d', buf', ks'. split_and!; [done..| |].
    + eapply owns_frame; [|exact Ho2]. intros k Hk. by apply Hf; apply Hk2.
    + intros k Hk Hk'. by apply (Hf k); [apply Hk2|apply Hk2|].
  - destruct (deque_pop_front_spec buf d ks l Ho) as (d' & buf' & ks' & Hp & Ho' & Hf).
    exists d', buf', ks'. split_and!; [done..| |].
    + eapply owns_frame; [|exact Ho2]. intros k Hk. by apply Hf; apply Hk2.
    + intros k Hk Hk'. by apply (Hf k); [apply Hk2|].
Qed.

End facts.
