(* ===== verification/FrameSink.v ===== *)
(** * The sending side of the codec, as its users see it

    The handlers of a connection send frames through [Codec::poll_ready] and
    [Codec::buffer] ([src/src/codec/mod.rs] 153-165).  [FrameSink] is that interface:
    its operations, and as laws over an observer (the frames accepted so far) what
    the handlers rely on: once [poll_ready] answers ready there is room, and a control
    frame is then accepted, in order, without an error. *)

From S2P Require Import Prelude FrameBase ControlFrames SettingsFrame DataFrame HpackHeader HeadersFrame.
From S2P Require Import ProtoErrors FramedRead.

(** [std::task::Poll] *)
Inductive poll (A : Type) : Type :=
| Ready (a : A)
| Pending.
Arguments Ready {A} a.
Arguments Pending {A}.

(** [std::io::Error], what the crate reads of it. *)
Record io_error : Type := IoError { io_kind : ErrorKind; io_msg : option bytes }.

(** [impl From<io::Error> for ProtoError] *)
Definition proto_of_io (e : io_error) : ProtoError.t := ProtoError.Io (io_kind e) (io_msg e).

(** The frames without a header block and without data. *)
Definition is_control `{HeaderPlz} `{HeaderMapOps} (f : Frame.t) : bool :=
  match f with
  | Frame.Settings _ | Frame.Ping _ | Frame.GoAway _ | Frame.WindowUpdate _ | Frame.Reset _ => true
  | _ => false
  end.

Class FrameSink `{HeaderPlz} `{HeaderMapOps} : Type := {
  sink : Type;
  (** The frames accepted so far, in order. *)
  sink_frames : sink -> list Frame.t;
  sink_has_capacity : sink -> bool;
  poll_ready : sink -> poll (result unit io_error) * sink;
  sink_buffer : sink -> Frame.t -> outcome (result unit UserError.t * sink);
  flush : sink -> poll (result unit io_error) * sink;
  write_buf_empty : sink -> bool;
  inc_write_buffer : sink -> Z -> sink;
  max_send_frame_size : sink -> Z;
  set_max_send_frame_size : sink -> Z -> outcome sink;
  set_send_header_table_size : sink -> Z -> sink
}.

(** The frames that are accepted whatever their contents: control frames, and data that
    fits a frame of [max] octets. *)
Definition is_sendable `{HeaderPlz} `{HeaderMapOps} (max : Z) (f : Frame.t) : bool :=
  match f with
  | Frame.Data d => len (Data.data d) <=? max
  | f => is_control f
  end.

Class FrameSinkLaws `{HeaderPlz} `{HeaderMapOps} (S : FrameSink) : Prop := {
  poll_ready_frames s : sink_frames (poll_ready s).2 = sink_frames s;
  flush_frames s : sink_frames (flush s).2 = sink_frames s;
  inc_write_buffer_frames s n : sink_frames (inc_write_buffer s n) = sink_frames s;
  poll_ready_capacity s s' :
    poll_ready s = (Ready (Ok tt), s') -> sink_has_capacity s' = true;
  sink_buffer_control s f :
    sink_has_capacity s = true -> is_control f = true ->
    exists s', sink_buffer s f = Done (Ok tt, s') /\ sink_frames s' = sink_frames s ++ [f];
  sink_buffer_sendable s f :
    sink_has_capacity s = true -> is_sendable (max_send_frame_size s) f = true ->
    exists s', sink_buffer s f = Done (Ok tt, s') /\ sink_frames s' = sink_frames s ++ [f] /\
      max_send_frame_size s' = max_send_frame_size s;
  sink_buffer_accepted s f s' :
    sink_buffer s f = Done (Ok tt, s') -> sink_frames s' = sink_frames s ++ [f];
  poll_ready_max s : max_send_frame_size (poll_ready s).2 = max_send_frame_size s;
  flush_max s : max_send_frame_size (flush s).2 = max_send_frame_size s;
  set_max_send_frame_size_ok s v :
    DEFAULT_MAX_FRAME_SIZE <= v <= MAX_MAX_FRAME_SIZE ->
    exists s', set_max_send_frame_size s v = Done s' /\ sink_frames s' = sink_frames s;
  set_send_header_table_size_frames s v :
    sink_frames (set_send_header_table_size s v) = sink_frames s
}.

(** ** A concrete sink: the answers of the transport, in order, and the trace *)

Section trace.
Context `{HeaderPlz} `{HeaderMapOps}.

Record trace : Type := mkTrace {
  answers : list (poll (result unit io_error));
  accepted : list Frame.t
}.

(** Its largest frame is fixed. *)
Definition trace_max : Z := DEFAULT_MAX_FRAME_SIZE.

#[export] Instance trace_sink : FrameSink := {
  sink := trace;
  sink_frames := accepted;
  sink_has_capacity := fun _ => true;
  poll_ready := fun s =>
    match answers s with
    | a :: l => (a, mkTrace l (accepted s))
    | [] => (Pending, s)
    end;
  flush := fun s =>
    match answers s with
    | a :: l => (a, mkTrace l (accepted s))
    | [] => (Pending, s)
    end;
  write_buf_empty := fun _ => true;
  inc_write_buffer := fun s _ => s;
  sink_buffer := fun s f => Done (Ok tt, mkTrace (answers s) (accepted s ++ [f]));
  max_send_frame_size := fun _ => trace_max;
  set_max_send_frame_size := fun s v =>
    let! _ := assert (v <=? MAX_MAX_FRAME_SIZE) in Done s;
  set_send_header_table_size := fun s v => s
}.

#[export] Instance trace_sink_laws : FrameSinkLaws trace_sink.
Proof.
  split; cbn; try done.
  - intros [[|a l] fs]; done.
  - intros [[|a l] fs]; done.
  - intros [a fs] f _ _. by eexists.
  - intros [a fs] f _ _. by eexists.
  - by intros [a fs] f s' [= <-].
  - intros s v [_ Hv]. rewrite (proj2 (Z.leb_le _ _) Hv). by eexists.
Qed.

End trace.
