(* ===== verification/OpError.v ===== *)
(** * The errors of the public interface

    Models [src/src/error.rs]: what an operation of the library reports, made of protocol
    errors, reasons and errors of the user, and what can be asked of it.  What it shows is in
    [Describe]. *)

From S2P Require Import Prelude FrameBase ProtoErrors HpackHeader HeadersFrame FramedRead FrameSink.

Module OpError.

Inductive Kind : Type :=
| Reset (id : StreamId.t) (reason : Reason.t) (initiator : Initiator.t)
| GoAway (debug_data : bytes) (reason : Reason.t) (initiator : Initiator.t)
| FromReason (reason : Reason.t)
| User (e : UserError.t)
| Io (e : io_error).

Record t : Type := mk { kind : Kind }.

(** [impl From<..> for OpError] *)
Definition from_io (err : io_error) : t := mk (Io err).

Definition from_proto (src : ProtoError.t) : t :=
  mk match src with
     | ProtoError.Reset stream_id reason initiator => Reset stream_id reason initiator
     | ProtoError.GoAway debug_data reason initiator => GoAway debug_data reason initiator
     | ProtoError.Io kind inner => Io (IoError kind inner)
     end.

Definition from_reason (src : Reason.t) : t := mk (FromReason src).
Definition from_user (src : UserError.t) : t := mk (User src).

Definition reason (e : t) : option Reason.t :=
  match kind e with
  | Reset _ reason _ | GoAway _ reason _ | FromReason reason => Some reason
  | _ => None
  end.

Definition is_io (e : t) : bool := match kind e with Io _ => true | _ => false end.
Definition get_io (e : t) : option io_error := match kind e with Io e => Some e | _ => None end.
Definition into_io (e : t) : option io_error := match kind e with Io e => Some e | _ => None end.
Definition is_go_away (e : t) : bool := match kind e with GoAway _ _ _ => true | _ => false end.
Definition is_reset (e : t) : bool := match kind e with Reset _ _ _ => true | _ => false end.

Definition is_remote (e : t) : bool :=
  match kind e with
  | GoAway _ _ Initiator.Remote | Reset _ _ Initiator.Remote => true
  | _ => false
  end.

Definition is_library (e : t) : bool :=
  match kind e with
  | GoAway _ _ Initiator.Library | Reset _ _ Initiator.Library => true
  | _ => false
  end.

Definition is_buffer_limit_error (e : t) : bool :=
  match kind e with User UserError.BufferLimitExceeded => true | _ => false end.

End OpError.

(** ** Facts *)

(** A protocol error keeps its reason and its author. *)
Lemma from_proto_remote e :
  OpError.is_remote (OpError.from_proto e) = true -> ProtoError.is_local e = false.
Proof. by destruct e as [id r []|d r []|]. Qed.

Lemma from_proto_io e io : OpError.get_io (OpError.from_proto e) = Some io <-> e = proto_of_io io.
Proof. destruct e, io; unfold proto_of_io; cbn; split; intros; by simplify_eq. Qed.
