(* ===== verification/FramedWrite.v ===== *)
(** * Writing frames

    Models [src/src/codec/framed_write.rs]: the encoder of frames with its write buffer,
    and [FramedWrite], which moves the buffer to the transport; and of
    [src/src/frame/headers.rs] the encoding of HEADERS and PUSH_PROMISE frames, from the
    header map to the block.

    The transport ([AsyncWrite] behind [tokio_util::io::poll_write_buf]), the growth of a
    [BytesMut] and the iterator of [HeaderMap] are third-party: parameters with the laws
    the writer relies on. *)

From S2P Require Import Prelude FrameBase ControlFrames SettingsFrame DataFrame HpackHeader HpackDecoder.
From S2P Require Import HpackTable HpackEncoder HeadersFrame HeaderChunks ProtoErrors FramedRead FrameSink.

(** ** Third-party code *)

Class Transport : Type := {
  io : Type;
  (** All the octets written so far. *)
  io_written : io -> bytes;
  is_write_vectored : io -> bool;
  (** [poll_write_buf] of a [Buf] of these octets: how many were taken from its front. *)
  poll_write_buf : io -> bytes -> poll (result Z io_error) * io;
  io_poll_flush : io -> poll (result unit io_error) * io;
  io_poll_shutdown : io -> poll (result unit io_error) * io;
  (** The capacity of a [BytesMut] of capacity [c] after appending to a length of [n]. *)
  bytesmut_grow : Z -> Z -> Z
}.

Class TransportLaws (T : Transport) : Prop := {
  write_ready s b n s' :
    poll_write_buf s b = (Ready (Ok n), s') ->
    0 <= n <= len b /\ io_written s' = io_written s ++ take (Z.to_nat n) b;
  (** A write that succeeds takes something ([AsyncWrite]: 0 means no more can be written). *)
  write_progress s b n s' : poll_write_buf s b = (Ready (Ok n), s') -> b <> [] -> 0 < n;
  write_pending s b s' : poll_write_buf s b = (Pending, s') -> io_written s' = io_written s;
  write_error s b e s' : poll_write_buf s b = (Ready (Err e), s') -> io_written s' = io_written s;
  flush_written s : io_written (io_poll_flush s).2 = io_written s;
  shutdown_written s : io_written (io_poll_shutdown s).2 = io_written s;
  grow_enough c n : c < n -> n <= bytesmut_grow c n
}.

(** [HeaderMap::into_iter], each entry taken apart by [into_inner]. *)
Class HeaderMapIter `{HeaderMapOps} : Type := {
  hm_into_iter : HeaderMap -> list (bytes * bytes)
}.

(** ** Header blocks *)

Section headers.
Context `{HeaderPlz} `{!NameHash} `{!HeaderMapOps} `{!HeaderMapIter}.

(** [Iter::next] on the fields: name and value must be UTF-8. *)
Definition iter_field (h : bytes * bytes) : outcome (Header.t (option BytesStr.t)) :=
  let unwrap_str b := match BytesStr.try_from b with Ok s => Done s | Err _ => Panic end in
  let! name := unwrap_str h.1 in
  let! value := unwrap_str h.2 in
  Done (Header.Field (Some name) value).

Fixpoint iter_fields (l : list (bytes * bytes)) : outcome (list (Header.t (option BytesStr.t))) :=
  match l with
  | [] => Done []
  | h :: l =>
      let! x := iter_field h in
      let! xs := iter_fields l in
      Done (x :: xs)
  end.

(** [Iter::next] on the pseudo-header fields. *)
Definition iter_pseudo (p : Pseudo.t) : list (Header.t (option BytesStr.t)) :=
  let item {A} (f : A -> Header.t (option BytesStr.t)) (o : option A) := option_list (option_map f o) in
  item Header.Method (Pseudo.method p) ++ item Header.Scheme (Pseudo.scheme p) ++
  item Header.Authority (Pseudo.authority p) ++ item Header.Path (Pseudo.path p) ++
  item Header.Protocol (Pseudo.protocol p) ++ item Header.Status (Pseudo.status p).

(** The items of [Iter]. *)
Definition iter (p : Pseudo.t) (fields : HeaderMap) : outcome (list (Header.t (option BytesStr.t))) :=
  let! l := iter_fields (hm_into_iter fields) in
  Done (iter_pseudo p ++ l).

Definition into_encoding (b : HeaderBlock.t) (encoder : Encoder.t) : outcome (Encoder.t * bytes) :=
  let! headers := iter (HeaderBlock.pseudo b) (HeaderBlock.fields b) in
  Encoder.encode encoder headers [].

(** [Headers::encode] *)
Definition headers_encode (f : Headers.t) (encoder : Encoder.t) (dst : EncodeBuf.t) :
    outcome (Encoder.t * EncodeBuf.t * option Continuation.t) :=
  let! _ := assert (HeadersFlag.is_end_headers (Headers.flags f)) in
  let head := Headers.head f in
  let! (encoder, hpack) := into_encoding (Headers.header_block f) encoder in
  let! (dst, continuation) := EncodingHeaderBlock.encode hpack head dst Done in
  Done (encoder, dst, continuation).

(** [PushPromise::encode] *)
Definition push_promise_encode (f : PushPromise.t) (encoder : Encoder.t) (dst : EncodeBuf.t) :
    outcome (Encoder.t * EncodeBuf.t * option Continuation.t) :=
  let! _ := assert (PushPromiseFlag.is_end_headers (PushPromise.flags f)) in
  let head := PushPromise.head f in
  let promised_id := PushPromise.promised_id f in
  let! (encoder, hpack) := into_encoding (PushPromise.header_block f) encoder in
  let! (dst, continuation) := EncodingHeaderBlock.encode hpack head dst
    (fun dst => EncodeBuf.put dst (be_bytes 4 (StreamId.to_u32 promised_id))) in
  Done (encoder, dst, continuation).

End headers.

(** ** The write buffer: [Cursor<BytesMut>] *)

Module WriteBuf.

Section buf.
Context `{Transport}.

Record t : Type := mk { data : bytes; position : nat; capacity : Z }.

#[global] Instance eta_t : Eta t := fun b => mk (data b) (position b) (capacity b).

(** [with_capacity] *)
Definition new (c : Z) : t := mk [] 0 c.

Definition grown (b : t) (n : Z) : Z := if n <=? capacity b then capacity b else bytesmut_grow (capacity b) n.

(** The buffer once appending made its contents [l]. *)
Definition set_data (b : t) (l : bytes) : t := mk l (position b) (grown b (len l)).
Definition put (b : t) (src : bytes) : t := set_data b (data b ++ src).
Definition reserve (b : t) (additional : Z) : t := b <| capacity := grown b (len (data b) + additional) |>.
Definition clear (b : t) : t := b <| data := [] |>.
Definition set_position (b : t) (p : nat) : t := b <| position := p |>.

(** [Buf for Cursor]: what is left after the position. *)
Definition chunk (b : t) : bytes := drop (position b) (data b).
Definition has_remaining (b : t) : bool := (position b <? length (data b))%nat.
Definition advance (b : t) (n : nat) : outcome t :=
  let! _ := assert (position b + n <=? length (data b))%nat in
  Done (b <| position := (position b + n)%nat |>).

End buf.

End WriteBuf.

(** ** The encoder of frames *)

Inductive ControlFlow : Type := Continue | Break.

(** [enum Next] *)
Inductive Next : Type :=
| NData (f : Data.t bytes)
| NContinuation (c : Continuation.t).

Definition CHAIN_THRESHOLD : Z := 256.
Definition CHAIN_THRESHOLD_WITHOUT_VECTORED_IO : Z := 1024.
Definition DEFAULT_BUFFER_CAPACITY : Z := 16 * 1024.

Module FrameEncoder.

Section encoder.
Context `{HeaderPlz} `{!NameHash} `{!HeaderMapOps} `{!HeaderMapIter} `{!Transport}.

(** [struct Encoder<B>] *)
Record t : Type := mk {
  hpack : Encoder.t;
  buf : WriteBuf.t;
  next : option Next;
  last_data_frame : option (Data.t bytes);
  max_frame_size : Z;
  chain_threshold : Z;
  min_buffer_capacity : Z
}.

#[global] Instance eta_t : Eta t := fun e =>
  mk (hpack e) (buf e) (next e) (last_data_frame e) (max_frame_size e) (chain_threshold e) (min_buffer_capacity e).

(** The macro [limited_write_buf!], and the buffer once the frame is written. *)
Definition limited_write_buf (e : t) : EncodeBuf.t :=
  EncodeBuf.mk (WriteBuf.data (buf e)) (max_frame_size e + Z.of_nat HEADER_LEN).
Definition written (e : t) (dst : EncodeBuf.t) (c : option Continuation.t) : t :=
  let e := e <| buf := WriteBuf.set_data (buf e) (EncodeBuf.buf dst) |> in
  match c with
  | Some c => e <| next := Some (NContinuation c) |>
  | None => e
  end.

Definition is_empty (e : t) : bool :=
  match next e with
  | Some (NData f) => match Data.payload f with [] => true | _ => false end
  | _ => negb (WriteBuf.has_remaining (buf e))
  end.

Definition has_capacity (e : t) : bool :=
  match next e with
  | None => WriteBuf.capacity (buf e) - len (WriteBuf.data (buf e)) >=? min_buffer_capacity e
  | Some _ => false
  end.

Definition unset_frame (e : t) : outcome (ControlFlow * t) :=
  let e := e <| buf ::= (fun b => WriteBuf.clear (WriteBuf.set_position b 0)) |> in
  let taken := next e in
  let e := e <| next := None |> in
  match taken with
  | Some (NData frame) =>
      let e := e <| last_data_frame := Some frame |> in
      let! _ := assert (is_empty e) in
      Done (Break, e)
  | Some (NContinuation frame) =>
      let! (dst, c) := encode_continuation frame (limited_write_buf e) in
      Done (Continue, written e dst c)
  | None => Done (Break, e)
  end.

(** [buf.put(payload.take(n))]: the frame keeps the rest of its payload. *)
Definition drain (n : Z) (v : Data.t bytes) : bytes * Data.t bytes :=
  (take (Z.to_nat n) (Data.payload v), Data.map (drop (Z.to_nat n)) v).

Definition put (e : t) (src : bytes) : t := e <| buf ::= (fun b => WriteBuf.put b src) |>.

Definition buffer (e : t) (item : Frame.t) : outcome (result unit UserError.t * t) :=
  match item with
  | Frame.Data v =>
      let n := len (Data.payload v) in
      if n >? max_frame_size e then Done (Err UserError.PayloadTooBig, e)
      else if n >=? chain_threshold e then
        let e := put e (Head.encode (Data.head v) n []) in
        let! (e, v) :=
          if len (WriteBuf.data (buf e)) <? chain_threshold e then
            let remaining := len (WriteBuf.chunk (buf e)) in
            let! _ := assert (remaining <=? chain_threshold e) in
            let (octets, v) := drain (chain_threshold e - remaining) v in
            Done (put e octets, v)
          else Done (e, v) in
        Done (Ok tt, e <| next := Some (NData v) |>)
      else
        let! (v, octets) := Data.encode_chunk v usize_max [] in
        let e := put e octets in
        let! _ := assert (len (Data.payload v) =? 0) in
        Done (Ok tt, e <| last_data_frame := Some v |>)
  | Frame.Headers v =>
      let! (h, dst, c) := headers_encode v (hpack e) (limited_write_buf e) in
      Done (Ok tt, written (e <| hpack := h |>) dst c)
  | Frame.PushPromise v =>
      let! (h, dst, c) := push_promise_encode v (hpack e) (limited_write_buf e) in
      Done (Ok tt, written (e <| hpack := h |>) dst c)
  | Frame.Settings v => Done (Ok tt, put e (Settings.encode v []))
  | Frame.GoAway v => Done (Ok tt, put e (GoAway.encode v []))
  | Frame.Ping v => Done (Ok tt, put e (Ping.encode v []))
  | Frame.WindowUpdate v => Done (Ok tt, put e (WindowUpdate.encode v []))
  | Frame.Priority _ => Panic
  | Frame.Reset v => Done (Ok tt, put e (Reset.encode v []))
  end.

End encoder.

End FrameEncoder.

(** ** [FramedWrite] *)

Module FramedWrite.

Section write.
Context `{HeaderPlz} `{!NameHash} `{!HeaderMapOps} `{!HeaderMapIter} `{!Transport}.

Record t : Type := mk {
  inner : io;
  final_flush_done : bool;
  encoder : FrameEncoder.t
}.

#[global] Instance eta_t : Eta t := fun w => mk (inner w) (final_flush_done w) (encoder w).

Definition new (inner : io) : t :=
  let chain_threshold :=
    if is_write_vectored inner then CHAIN_THRESHOLD else CHAIN_THRESHOLD_WITHOUT_VECTORED_IO in
  mk inner false
    (FrameEncoder.mk Encoder.default (WriteBuf.new DEFAULT_BUFFER_CAPACITY) None None
       DEFAULT_MAX_FRAME_SIZE chain_threshold (chain_threshold + Z.of_nat HEADER_LEN)).

Definition buffer (self : t) (item : Frame.t) : outcome (result unit UserError.t * t) :=
  let! (r, e) := FrameEncoder.buffer (encoder self) item in
  Done (r, self <| encoder := e |>).

(** One [poll_write_buf] of [flush]: of the buffer and the payload chained to it, or of
    the buffer alone; what was written is taken off. *)
Definition write (self : t) : outcome (poll (result Z io_error) * t) :=
  let e := encoder self in
  match FrameEncoder.next e with
  | Some (NData frame) =>
      let chunk := WriteBuf.chunk (FrameEncoder.buf e) in
      let (r, io) := poll_write_buf (inner self) (chunk ++ Data.payload frame) in
      let self := self <| inner := io |> in
      match r with
      | Ready (Ok n) =>
          let k := Nat.min (Z.to_nat n) (length chunk) in
          let! b := WriteBuf.advance (FrameEncoder.buf e) k in
          let! _ := assert (Z.to_nat n - k <=? length (Data.payload frame))%nat in
          let frame := Data.map (drop (Z.to_nat n - k)) frame in
          Done (r, self <| encoder := e <| FrameEncoder.buf := b |> <| FrameEncoder.next := Some (NData frame) |> |>)
      | _ => Done (r, self)
      end
  | _ =>
      let (r, io) := poll_write_buf (inner self) (WriteBuf.chunk (FrameEncoder.buf e)) in
      let self := self <| inner := io |> in
      match r with
      | Ready (Ok n) =>
          let! b := WriteBuf.advance (FrameEncoder.buf e) (Z.to_nat n) in
          Done (r, self <| encoder := e <| FrameEncoder.buf := b |> |>)
      | _ => Done (r, self)
      end
  end.

(** The loops of [flush]: the inner one while the buffer is not empty, the outer one for
    the CONTINUATION frames. *)
Fixpoint flush_loop (fuel : nat) (self : t) : outcome (poll (result unit io_error) * t) :=
  match fuel with
  | O => Panic
  | S fuel =>
      if negb (FrameEncoder.is_empty (encoder self)) then
        let! (r, self) := write self in
        match r with
        | Ready (Ok _) => flush_loop fuel self
        | Ready (Err e) => Done (Ready (Err e), self)
        | Pending => Done (Pending, self)
        end
      else
        let! (cf, e) := FrameEncoder.unset_frame (encoder self) in
        let self := self <| encoder := e |> in
        match cf with
        | Continue => flush_loop fuel self
        | Break =>
            let (r, io) := io_poll_flush (inner self) in
            Done (r, self <| inner := io |>)
        end
  end.

(** Every round writes an octet or begins the next CONTINUATION frame. *)
Definition flush_fuel (e : FrameEncoder.t) : nat :=
  S (length (WriteBuf.chunk (FrameEncoder.buf e)) +
     match FrameEncoder.next e with
     | Some (NData f) => length (Data.payload f)
     | Some (NContinuation c) => 11 * length (Continuation.hpack c) + 12
     | None => 0
     end).

Definition flush (self : t) : outcome (poll (result unit io_error) * t) :=
  flush_loop (flush_fuel (encoder self)) self.

Definition poll_ready (self : t) : outcome (poll (result unit io_error) * t) :=
  if negb (FrameEncoder.has_capacity (encoder self)) then
    let! (r, self) := flush self in
    match r with
    | Ready (Ok _) =>
        if negb (FrameEncoder.has_capacity (encoder self)) then Done (Pending, self)
        else Done (Ready (Ok tt), self)
    | _ => Done (r, self)
    end
  else Done (Ready (Ok tt), self).

Definition shutdown (self : t) : outcome (poll (result unit io_error) * t) :=
  let close self :=
    let (r, io) := io_poll_shutdown (inner self) in Done (r, self <| inner := io |>) in
  if negb (final_flush_done self) then
    let! (r, self) := flush self in
    match r with
    | Ready (Ok _) => close (self <| final_flush_done := true |>)
    | _ => Done (r, self)
    end
  else close self.

Definition max_frame_size (self : t) : Z := FrameEncoder.max_frame_size (encoder self).

Definition set_max_frame_size (self : t) (val : Z) : outcome t :=
  let! _ := assert (val <=? MAX_MAX_FRAME_SIZE) in
  Done (self <| encoder ::= (fun e => e <| FrameEncoder.max_frame_size := wrap_u32 val |>) |>).

Definition set_header_table_size (self : t) (val : Z) : t :=
  self <| encoder ::= (fun e => e <| FrameEncoder.hpack ::= (fun h => Encoder.update_max_size h val) |>) |>.

Definition take_last_data_frame (self : t) : option (Data.t bytes) * t :=
  (FrameEncoder.last_data_frame (encoder self),
   self <| encoder ::= (fun e => e <| FrameEncoder.last_data_frame := None |>) |>).

Definition inc_write_buffer (self : t) (size : Z) : t :=
  self <| encoder ::= (fun e => e <| FrameEncoder.buf ::= (fun b => WriteBuf.reserve b size) |>) |>.

Definition buf_is_empty (self : t) : bool :=
  match WriteBuf.data (FrameEncoder.buf (encoder self)) with [] => true | _ => false end.

End write.

End FramedWrite.
