(* ===== verification/FramedWriteFacts.v ===== *)
(** * What goes out on the wire

    The octets written to the transport, followed by what the writer still holds
    ([outstanding]), are the octets of the frames it accepted, in order: this is the
    invariant [on_wire] of [FramedWrite], which every operation keeps and accepting a frame
    extends.  Flushing terminates and leaves nothing outstanding. *)

From S2P Require Import Prelude Effects FrameBase ControlFrames SettingsFrame DataFrame HpackHeader HpackDecoder.
From S2P Require Import HpackTable HpackTableOps HpackEncoder HeadersFrame HeaderChunks ProtoErrors FramedRead FrameSink FramedWrite.

(** ** Encoding behind octets that are there *)

Definition under (pre : bytes) (d : EncodeBuf.t) : EncodeBuf.t :=
  EncodeBuf.mk (pre ++ EncodeBuf.buf d) (EncodeBuf.remaining_mut d).

Lemma put_under pre d src d' : EncodeBuf.put d src = Done d' -> EncodeBuf.put (under pre d) src = Done (under pre d').
Proof.
  unfold EncodeBuf.put, under. cbn. destruct (_ <=? _); [|done]. cbn. intros [= <-]. cbn. by rewrite app_assoc.
Qed.

Lemma copy_3_under pre dst pos src out :
  copy_3 dst pos src = Done out -> copy_3 (pre ++ dst) (length pre + pos) src = Done (pre ++ out).
Proof.
  unfold copy_3. rewrite length_app. destruct (Nat.leb_spec (pos + 3) (length dst)); [|done]. cbn. intros [= <-].
  destruct (Nat.leb_spec (length pre + pos + 3) (length pre + length dst)); [|lia]. cbn. f_equal.
  rewrite take_app_ge by lia. rewrite drop_app_ge by lia. rewrite <-app_assoc.
  do 3 f_equal; [f_equal; lia|]. do 2 f_equal. lia.
Qed.

Lemma encode_under pre hpack h r f dst c :
  (forall d d', f d = Done d' -> f (under pre d) = Done (under pre d')) ->
  EncodingHeaderBlock.encode hpack h (EncodeBuf.mk [] r) f = Done (dst, c) ->
  EncodingHeaderBlock.encode hpack h (EncodeBuf.mk pre r) f = Done (under pre dst, c).
Proof.
  intros Hf He. unfold EncodingHeaderBlock.encode in *.
  apply obind_Done in He as (d1 & H1 & He). apply (put_under pre) in H1 as H1'.
  unfold under at 1 in H1'. cbn [EncodeBuf.buf EncodeBuf.remaining_mut] in H1'. rewrite app_nil_r in H1'. rewrite H1'. cbn [obind].
  apply obind_Done in He as (d2 & H2 & He). rewrite (Hf _ _ H2). cbn [obind].
  apply obind_Done in He as ([d3 cont] & H3 & He).
  assert ((if len hpack >? EncodeBuf.remaining_mut (under pre d2)
     then let! dst := EncodeBuf.put (under pre d2) (take (Z.to_nat (EncodeBuf.remaining_mut (under pre d2))) hpack) in
          Done (dst, Some (Continuation.mk (Head.stream_id h) (drop (Z.to_nat (EncodeBuf.remaining_mut (under pre d2))) hpack)))
     else let! dst := EncodeBuf.put (under pre d2) hpack in Done (dst, None)) = Done (under pre d3, cont)) as ->.
  { unfold under at 1 3 4. cbn [EncodeBuf.remaining_mut].
    destruct (_ >? _); apply obind_Done in H3 as (d & Hd & [= <- <-]); by rewrite (put_under _ _ _ _ Hd). }
  unfold under. cbn [obind EncodeBuf.buf EncodeBuf.remaining_mut] in *. rewrite !length_app.
  replace (length pre + length (EncodeBuf.buf d3) - (length pre + length (EncodeBuf.buf d1)))%nat
    with (length (EncodeBuf.buf d3) - length (EncodeBuf.buf d1))%nat by lia.
  apply obind_Done in He as ([] & Ha & He). rewrite Ha. cbn [obind].
  apply obind_Done in He as (b & Hb & He). apply (copy_3_under pre) in Hb. rewrite Nat.add_0_r in Hb.
  rewrite Hb. cbn [obind].
  destruct cont as [cont|]; [|by simplify_eq].
  apply obind_Done in He as (fl & Hfl & He). cbn [length Nat.add] in *.
  unfold byte_at in *. rewrite lookup_app_offset, Hfl. cbn [obind].
  apply obind_Done in He as ([] & Hasrt & He). rewrite Hasrt. cbn [obind]. simplify_eq.
  by rewrite insert_app_r.
Qed.

Lemma put_longer d src d' : EncodeBuf.put d src = Done d' -> length (EncodeBuf.buf d') = (length (EncodeBuf.buf d) + length src)%nat.
Proof. unfold EncodeBuf.put. destruct (_ <=? _); [|done]. intros [= <-]. cbn. by rewrite length_app. Qed.

Lemma encode_longer hpack h d f dst c :
  (forall d d', f d = Done d' -> (length (EncodeBuf.buf d) <= length (EncodeBuf.buf d'))%nat) ->
  EncodingHeaderBlock.encode hpack h d f = Done (dst, c) ->
  (length (EncodeBuf.buf d) < length (EncodeBuf.buf dst))%nat.
Proof.
  intros Hf He. unfold EncodingHeaderBlock.encode in He.
  apply obind_Done in He as (d1 & H1 & He). apply put_longer in H1. rewrite head_encode_length in H1. unfold HEADER_LEN in H1.
  apply obind_Done in He as (d2 & H2 & He). apply Hf in H2.
  apply obind_Done in He as ([d3 cont] & H3 & He).
  assert (length (EncodeBuf.buf d2) <= length (EncodeBuf.buf d3))%nat as Hd3.
  { destruct (_ >? _); apply obind_Done in H3 as (d4 & H4%put_longer & [= <- <-]); lia. }
  apply obind_Done in He as (u & _ & He). apply obind_Done in He as (b & Hb & He).
  assert (length b = length (EncodeBuf.buf d3)) as Hlb.
  { unfold copy_3 in Hb. destruct (Nat.leb_spec (length (EncodeBuf.buf d) + 3) (length (EncodeBuf.buf d3))); [|done]. injection Hb as <-.
    rewrite length_app, length_take. cbn [length]. rewrite length_drop. lia. }
  enough (length (EncodeBuf.buf dst) = length b) by lia.
  destruct cont; [|by injection He as <- _]. apply obind_Done in He as (fl & _ & He). apply obind_Done in He as (v & _ & He).
  injection He as <- _. cbn. by rewrite length_insert.
Qed.

(** ** The CONTINUATION frames to come *)

Lemma flush_continuations_more m f : forall f' next l,
  flush_continuations f m next = Done l -> (f <= f')%nat -> flush_continuations f' m next = Done l.
Proof.
  induction f as [|f IH]; intros f' next l He Hle.
  - destruct next; [done|]. by destruct f'.
  - destruct next as [c|]; [|by destruct f']. destruct f' as [|f']; [lia|]. cbn [flush_continuations] in *.
    apply obind_Done in He as ([dst next] & -> & He). cbn [obind].
    apply obind_Done in He as (rest & Hr & He). rewrite (IH f' next rest) by (done || lia). exact He.
Qed.

Definition continuation_octets (m : Z) (c : option Continuation.t) : bytes :=
  match c with
  | Some c =>
      match flush_continuations (S (length (Continuation.hpack c))) m (Some c) with
      | Done l => concat l
      | Panic => []
      end
  | None => []
  end.

Definition continuation_measure (c : option Continuation.t) : nat :=
  match c with Some c => 11 * length (Continuation.hpack c) + 12 | None => 0 end.

Lemma frame_octets_length f : length (frame_octets f) = (9 + length f.2)%nat.
Proof. unfold frame_octets. rewrite length_app, head_encode_length. done. Qed.

(** The next frame of a block. *)
Lemma continuation_step m c :
  0 < m < 2 ^ 24 ->
  exists dst next, encode_continuation c (limited_write_buf m) = Done (dst, next) /\
    continuation_octets m (Some c) = EncodeBuf.buf dst ++ continuation_octets m next /\
    (length (EncodeBuf.buf dst) + continuation_measure next < continuation_measure (Some c))%nat /\
    EncodeBuf.buf dst <> [].
Proof.
  intros Hm. destruct c as [id hp]. set (h := Continuation.head (Continuation.mk id hp)).
  destruct (encode_block_spec hp h m [] Done ltac:(lia) ltac:(unfold len; simpl; lia) ltac:(split; vm_compute; discriminate)
    eq_refl) as (r & He).
  { intros d Hd. unfold EncodeBuf.put. rewrite (proj2 (Z.leb_le _ _) Hd). cbn.
    rewrite app_nil_r, Z.sub_0_r. by destruct d. }
  change (len (A:=Z) []) with 0 in He. rewrite Z.sub_0_r in He. cbn [app] in He.
  destruct (flush_continuations_spec m (S (length hp)) id hp Hm ltac:(lia)) as (frames & Hall & _).
  assert (encode_continuation (Continuation.mk id hp) (limited_write_buf m) =
    EncodingHeaderBlock.encode hp h (limited_write_buf m) Done) as Hec by done.
  unfold continuation_octets at 1. cbn [Continuation.hpack]. rewrite Hall.
  cbn [flush_continuations] in Hall. rewrite Hec, He in Hall. rewrite Hec, He. clear Hec He.
  destruct (len hp >? m) eqn:Hgt; bool_to_prop; cbn [obind] in Hall.
  - eexists _, _. split; [done|]. apply obind_Done in Hall as (rest & Hrest & [= Hall]). rewrite <-Hall.
    cbn [concat EncodeBuf.buf]. split.
    + f_equal. unfold continuation_octets. cbn [Continuation.hpack].
      destruct (flush_continuations_spec m (S (length (drop (Z.to_nat m) hp))) (Head.stream_id h) (drop (Z.to_nat m) hp) Hm ltac:(lia))
        as (frames' & Hf' & _).
      rewrite Hf'. eapply flush_continuations_more in Hf'; [rewrite Hf' in Hrest; by injection Hrest as <-|].
      rewrite length_drop. unfold len in Hgt. lia.
    + unfold continuation_measure. cbn [Continuation.hpack]. rewrite frame_octets_length. cbn [snd].
      rewrite length_take, length_drop. unfold len in Hgt. split; [lia|done].
  - eexists _, _. split; [done|]. assert (flush_continuations (length hp) m None = Done []) as Hn by by destruct (length hp).
    rewrite Hn in Hall. injection Hall as <-. split; [done|].
    unfold continuation_measure. cbn [Continuation.hpack EncodeBuf.buf]. rewrite frame_octets_length. cbn [snd]. split; [lia|done].
Qed.

(** The octets of a block: a frame with the head, the prefix and the block, and the
    CONTINUATION frames it overflows into. *)
Definition block_wire (m : Z) (h : Head.t) (p block o : bytes) : Prop :=
  exists first frames, o = concat (map frame_octets (first :: frames)) /\
    first_head h first.1 /\
    Forall (fun f => Head.kind f.1 = Kind.Continuation) frames /\
    well_fragmented m (Head.stream_id h) (p ++ block) (first :: frames).

Lemma continuations_written f m next rest :
  0 < m < 2 ^ 24 -> flush_continuations f m next = Done rest -> continuation_octets m next = concat rest.
Proof.
  intros Hm Hf. destruct next as [[id hp]|]; [|destruct f; by injection Hf as <-]. unfold continuation_octets. cbn [Continuation.hpack].
  destruct (flush_continuations_spec m (S (length hp)) id hp Hm ltac:(lia)) as (frames & Hall & _). rewrite Hall.
  assert (forall g, (f <= g)%nat -> (S (length hp) <= g)%nat -> rest = map frame_octets frames) as Hg.
  { intros g H1 H2. eapply flush_continuations_more in Hall; [|exact H2]. eapply flush_continuations_more in Hf; [|exact H1].
    rewrite Hall in Hf. by injection Hf. }
  by rewrite (Hg (f + S (length hp))%nat) by lia.
Qed.

(** A block written behind the octets [pre]. *)
Lemma block_written m pre h p hpack f :
  0 < m < 2 ^ 24 -> len p <= m -> is_u8 (Head.flag h) -> HeadersFlag.is_end_headers (Head.flag h) = true ->
  (forall d, len p <= EncodeBuf.remaining_mut d -> f d = EncodeBuf.put d p) ->
  (forall d d', f d = Done d' -> f (under pre d) = Done (under pre d')) ->
  exists dst next, EncodingHeaderBlock.encode hpack h (EncodeBuf.mk pre (m + Z.of_nat HEADER_LEN)) f = Done (under pre dst, next) /\
    block_wire m h p hpack (EncodeBuf.buf dst ++ continuation_octets m next) /\ EncodeBuf.buf dst <> [].
Proof.
  intros Hm Hp Hfl He Hf Hfu. destruct (write_block_spec m h p hpack f Hm Hp Hfl He Hf) as (first & frames & Hw & Hk & Hks & Hwf).
  apply obind_Done in Hw as ([dst next] & Hd & Hw). apply obind_Done in Hw as (rest & Hr & [= Hw Hrest]).
  exists dst, next. split; [by apply encode_under|]. split; [|by rewrite Hw].
  exists first, frames. split_and!; try done. rewrite (continuations_written _ _ _ _ Hm Hr). cbn [map concat].
  by rewrite Hw, Hrest.
Qed.

(** ** The invariant *)

Section wire.
Context `{HeaderPlz} `{!NameHash} `{!HeaderMapOps} `{!HeaderMapIter} `{!Transport} `{!TransportLaws _}.

Import FrameEncoder.
#[local] Arguments WriteBuf.chunk : simpl never.
#[local] Arguments continuation_octets : simpl never.
#[local] Arguments continuation_measure : simpl never.

Definition next_octets (e : FrameEncoder.t) : bytes :=
  match next e with
  | Some (NData f) => Data.payload f
  | Some (NContinuation c) => continuation_octets (max_frame_size e) (Some c)
  | None => []
  end.

(** What the writer still holds. *)
Definition outstanding (e : FrameEncoder.t) : bytes := WriteBuf.chunk (buf e) ++ next_octets e.

Record encoder_ok (e : FrameEncoder.t) : Prop := {
  eo_max : 0 < max_frame_size e < 2 ^ 24;
  eo_position : (WriteBuf.position (buf e) <= length (WriteBuf.data (buf e)))%nat;
  eo_threshold : 9 < chain_threshold e <= usize_max;
  eo_min : min_buffer_capacity e = chain_threshold e + 9;
  eo_capacity : min_buffer_capacity e <= WriteBuf.capacity (buf e);
  (** The payload is written after the buffer. *)
  eo_data f : next e = Some (NData f) -> Data.payload f = [] -> WriteBuf.chunk (buf e) = [];
  (** Nothing pends on an empty buffer. *)
  eo_filled : next e <> None -> WriteBuf.data (buf e) <> []
}.

(** [sent] are the octets of the accepted frames. *)
Definition on_wire (w : FramedWrite.t) (sent : bytes) : Prop :=
  encoder_ok (FramedWrite.encoder w) /\
  io_written (FramedWrite.inner w) ++ outstanding (FramedWrite.encoder w) = sent.

(** Writing does not touch the rest of the encoder. *)
Definition same_encoder (e e' : FrameEncoder.t) : Prop :=
  hpack e' = hpack e /\ max_frame_size e' = max_frame_size e /\ chain_threshold e' = chain_threshold e.

Lemma same_encoder_trans e1 e2 e3 : same_encoder e1 e2 -> same_encoder e2 e3 -> same_encoder e1 e3.
Proof. intros (? & ? & ?) (? & ? & ?). repeat split; congruence. Qed.

Lemma is_empty_outstanding e :
  encoder_ok e -> is_empty e = true ->
  WriteBuf.chunk (buf e) = [] /\ (forall f, next e = Some (NData f) -> Data.payload f = []).
Proof.
  intros Hok Hem. unfold is_empty in Hem. destruct (next e) as [[f|c]|] eqn:Hn.
  - destruct (Data.payload f) eqn:Hp; [|done]. split; [by apply (eo_data _ Hok f)|]. by intros ? [= <-].
  - split; [|done]. apply negb_true_iff, Nat.ltb_ge in Hem. by apply drop_ge.
  - split; [|done]. apply negb_true_iff, Nat.ltb_ge in Hem. by apply drop_ge.
Qed.

Lemma chunk_advance b k : (k <= length (WriteBuf.chunk b))%nat -> (WriteBuf.position b <= length (WriteBuf.data b))%nat ->
  exists b', WriteBuf.advance b k = Done b' /\ WriteBuf.chunk b' = drop k (WriteBuf.chunk b) /\
    WriteBuf.capacity b' = WriteBuf.capacity b /\ WriteBuf.data b' = WriteBuf.data b /\ (WriteBuf.position b' <= length (WriteBuf.data b'))%nat.
Proof.
  unfold WriteBuf.chunk, WriteBuf.advance. rewrite length_drop. intros Hk Hp.
  destruct (Nat.leb_spec (WriteBuf.position b + k) (length (WriteBuf.data b))); [|lia].
  eexists. split; [done|]. cbn. split_and!; [by rewrite drop_drop|done..].
Qed.

(** Taking [n] octets off two pieces in a row. *)
Lemma drop_pieces {A} n (a b : list A) :
  drop (Nat.min n (length a)) a ++ drop (n - Nat.min n (length a)) b = drop n (a ++ b).
Proof.
  rewrite drop_app. destruct (Nat.min_spec n (length a)) as [[Hlt ->]|[Hge ->]].
  - replace (n - n)%nat with 0%nat by lia. by replace (n - length a)%nat with 0%nat by lia.
  - rewrite drop_all, (drop_ge a n) by lia. done.
Qed.

Definition next_measure (n : option Next) : nat :=
  match n with
  | Some (NData f) => length (Data.payload f)
  | Some (NContinuation c) => continuation_measure (Some c)
  | None => 0
  end.

Lemma fuel_lt e b n :
  (length (WriteBuf.chunk b) + next_measure n < length (WriteBuf.chunk (buf e)) + next_measure (next e))%nat ->
  (FramedWrite.flush_fuel (e <| buf := b |> <| next := n |>) < FramedWrite.flush_fuel e)%nat.
Proof. unfold FramedWrite.flush_fuel. intros Hlt. apply -> Nat.succ_lt_mono. exact Hlt. Qed.

Definition progress (w : FramedWrite.t) (r : poll (result Z io_error)) (w' : FramedWrite.t) : Prop :=
  same_encoder (FramedWrite.encoder w) (FramedWrite.encoder w') /\
  FramedWrite.final_flush_done w' = FramedWrite.final_flush_done w /\
  (forall n, r = Ready (Ok n) ->
     (FramedWrite.flush_fuel (FramedWrite.encoder w') < FramedWrite.flush_fuel (FramedWrite.encoder w))%nat).

(** A write that is not done leaves everything as it was. *)
Lemma unwritten w sent io' r :
  on_wire w sent -> io_written io' = io_written (FramedWrite.inner w) -> (forall n, r <> Ready (Ok n)) ->
  on_wire (w <| FramedWrite.inner := io' |>) sent /\ progress w r (w <| FramedWrite.inner := io' |>).
Proof.
  intros [Hok Hw] He Hr. split; [split; [done|record; by rewrite He]|]. split; [done|]. split; [done|].
  intros n ->. by destruct (Hr n).
Qed.

Lemma written_wire w sent io' n b' x l :
  on_wire w sent -> io_written io' = io_written (FramedWrite.inner w) ++ take (Z.to_nat n) (WriteBuf.chunk (buf (FramedWrite.encoder w)) ++ l) ->
  (WriteBuf.position b' <= length (WriteBuf.data b'))%nat ->
  WriteBuf.capacity b' = WriteBuf.capacity (buf (FramedWrite.encoder w)) ->
  WriteBuf.data b' = WriteBuf.data (buf (FramedWrite.encoder w)) -> (x <> None -> next (FramedWrite.encoder w) <> None) ->
  next_octets (FramedWrite.encoder w) = l ++ drop (length l) (next_octets (FramedWrite.encoder w)) ->
  (forall f, x = Some (NData f) -> Data.payload f = [] -> WriteBuf.chunk b' = []) ->
  WriteBuf.chunk b' ++ next_octets (FramedWrite.encoder w <| buf := b' |> <| next := x |>) =
    drop (Z.to_nat n) (WriteBuf.chunk (buf (FramedWrite.encoder w)) ++ l) ++ drop (length l) (next_octets (FramedWrite.encoder w)) ->
  on_wire (w <| FramedWrite.inner := io' |>
          <| FramedWrite.encoder := FramedWrite.encoder w <| buf := b' |> <| next := x |> |>) sent.
Proof.
  intros [[Hm Hp Ht Hmin Hc Hd Hfd] Hw] Hwr Hpb Hcap Hdb Hnx Hl Hx Hout.
  split; [split; try done; record; [by rewrite Hcap|rewrite Hdb; auto]|].
  unfold outstanding in *. record. rewrite Hout, Hwr, <-Hw, <-app_assoc. f_equal.
  rewrite (app_assoc (take _ _)), take_drop, <-app_assoc. by rewrite <-Hl.
Qed.

Lemma write_data_spec w sent f :
  on_wire w sent -> next (FramedWrite.encoder w) = Some (NData f) -> Data.payload f <> [] ->
  returns (FramedWrite.write w) (fun '(r, w') => on_wire w' sent /\ progress w r w').
Proof.
  intros Hwire Hn Hpay. pose proof Hwire as [Hok _]. pose proof (eo_position _ Hok) as Hpos.
  unfold FramedWrite.write. rewrite Hn. set (e := FramedWrite.encoder w) in *.
  destruct (poll_write_buf _ _) as [r s'] eqn:Hpw.
  assert (WriteBuf.chunk (buf e) ++ Data.payload f <> []) as Hne by (by intros [_ ?]%app_nil).
  destruct r as [[n|er]|].
  - destruct (write_ready _ _ _ _ Hpw) as [Hnb Hwr]. pose proof (write_progress _ _ _ _ Hpw Hne) as Hn0.
    rewrite len_app in Hnb. unfold len in Hnb.
    set (k := Nat.min (Z.to_nat n) (length (WriteBuf.chunk (buf e)))) in *.
    destruct (chunk_advance (buf e) k) as (b' & Hb & Hcb & Hcapb & Hdb & Hpb); [lia|done|]. cbv zeta. fold k. rewrite Hb. cbn [obind].
    destruct (Nat.leb_spec (Z.to_nat n - k) (length (Data.payload f))); [|lia]. cbn [assert obind].
    apply returns_Done.
    assert (next_octets e = Data.payload f) as Hno by (unfold next_octets; by rewrite Hn).
    split.
    + apply (written_wire w sent s' n b' _ (Data.payload f)); fold e; try done.
      * by rewrite Hn.
      * by rewrite Hno, drop_all, app_nil_r.
      * intros f' [= <-] Hnil. cbn in Hnil. rewrite Hcb. apply drop_ge.
        apply (f_equal length) in Hnil. rewrite length_drop in Hnil. cbn in Hnil.
        assert (length (Data.payload f) <> 0%nat) by (by destruct (Data.payload f)). unfold Data.payload in *. lia.
      * rewrite Hno, drop_all, app_nil_r, Hcb. apply drop_pieces.
    + split; [done|]. split; [done|]. intros n' _. apply fuel_lt. cbn. fold e. rewrite Hn, Hcb, length_drop.
      change (next_measure (Some (NData f))) with (length (Data.payload f)).
      unfold Data.payload in *. cbn. rewrite length_drop. lia.
  - apply returns_Done. by apply (unwritten w sent s'); [|apply (write_error _ _ _ _ Hpw)|].
  - apply returns_Done. by apply (unwritten w sent s'); [|apply (write_pending _ _ _ Hpw)|].
Qed.

Lemma write_buf_spec w sent :
  on_wire w sent -> (forall f, next (FramedWrite.encoder w) <> Some (NData f)) ->
  WriteBuf.chunk (buf (FramedWrite.encoder w)) <> [] ->
  returns (FramedWrite.write w) (fun '(r, w') => on_wire w' sent /\ progress w r w').
Proof.
  intros Hwire Hn Hne. pose proof Hwire as [Hok _]. pose proof (eo_position _ Hok) as Hpos.
  set (e := FramedWrite.encoder w) in *.
  assert (FramedWrite.write w =
    let (r, io) := poll_write_buf (FramedWrite.inner w) (WriteBuf.chunk (buf e)) in
    match r with
    | Ready (Ok n) =>
        let! b := WriteBuf.advance (buf e) (Z.to_nat n) in
        Done (r, w <| FramedWrite.inner := io |> <| FramedWrite.encoder := e <| buf := b |> <| next := next e |> |>)
    | _ => Done (r, w <| FramedWrite.inner := io |>)
    end) as ->.
  { unfold FramedWrite.write. fold e. destruct (next e) as [[f|c]|] eqn:Hx; [by destruct (Hn f)|..];
      destruct (poll_write_buf _ _) as [[[n|]|] s']; try done; destruct (WriteBuf.advance _ _); try done; record; by rewrite Hx. }
  destruct (poll_write_buf _ _) as [r s'] eqn:Hpw. destruct r as [[n|er]|].
  - destruct (write_ready _ _ _ _ Hpw) as [Hnb Hwr]. pose proof (write_progress _ _ _ _ Hpw Hne) as Hn0. unfold len in Hnb.
    destruct (chunk_advance (buf e) (Z.to_nat n)) as (b' & Hb & Hcb & Hcapb & Hdb & Hpb); [lia|done|]. rewrite Hb. cbn [obind].
    apply returns_Done. split.
    + apply (written_wire w sent s' n b' _ []); fold e; try done.
      * by rewrite app_nil_r.
      * intros f Hf. by destruct (Hn f).
      * rewrite app_nil_r, Hcb. done.
    + split; [done|]. split; [done|]. intros n' _. apply fuel_lt. cbn. fold e. rewrite Hcb, length_drop.
      destruct (next e) as [[f|c]|] eqn:Hx; [by destruct (Hn f)|lia..].
  - apply returns_Done. by apply (unwritten w sent s'); [|apply (write_error _ _ _ _ Hpw)|].
  - apply returns_Done. by apply (unwritten w sent s'); [|apply (write_pending _ _ _ Hpw)|].
Qed.

Lemma write_spec w sent :
  on_wire w sent -> is_empty (FramedWrite.encoder w) = false ->
  returns (FramedWrite.write w) (fun '(r, w') => on_wire w' sent /\ progress w r w').
Proof.
  intros Hw Hem. unfold is_empty in Hem.
  destruct (next _) as [[f|c]|] eqn:Hn; [apply (write_data_spec _ _ f)|apply write_buf_spec..]; try done.
  - intros Hp. by rewrite Hp in Hem.
  - by rewrite Hn.
  - apply negb_false_iff, Nat.ltb_lt in Hem. intros Hc%(f_equal length). unfold WriteBuf.chunk in Hc.
    rewrite length_drop in Hc. simpl in Hc. lia.
  - by rewrite Hn.
  - apply negb_false_iff, Nat.ltb_lt in Hem. intros Hc%(f_equal length). unfold WriteBuf.chunk in Hc.
    rewrite length_drop in Hc. simpl in Hc. lia.
Qed.

Definition drained (e : FrameEncoder.t) : Prop :=
  next e = None /\ WriteBuf.data (buf e) = [] /\ WriteBuf.position (buf e) = 0%nat.

Lemma grown_capacity b n : WriteBuf.capacity b <= WriteBuf.grown b n.
Proof.
  unfold WriteBuf.grown. destruct (Z.leb_spec n (WriteBuf.capacity b)); [done|]. pose proof (grow_enough (WriteBuf.capacity b) n). lia.
Qed.

Lemma unset_frame_spec e :
  encoder_ok e -> is_empty e = true ->
  returns (unset_frame e) (fun '(cf, e') =>
    encoder_ok e' /\ outstanding e' = outstanding e /\ same_encoder e e' /\
    match cf with
    | Continue => (FramedWrite.flush_fuel e' < FramedWrite.flush_fuel e)%nat
    | Break => drained e'
    end).
Proof.
  intros Hok Hem. destruct (is_empty_outstanding e Hok Hem) as [Hch Hpay]. destruct Hok as [Hm Hp Ht Hmin Hc Hd Hfd].
  unfold unset_frame, outstanding, next_octets. rewrite Hch. cbv zeta.
  match goal with |- context [match next ?x with _ => _ end] => change (next x) with (next e) end.
  destruct (next e) as [[f|c]|] eqn:Hn.
  - apply returns_Done. rewrite (Hpay f eq_refl). done.
  - destruct (continuation_step (max_frame_size e) c Hm) as (dst & nx & He & Hoct & Hmeas & Hdne).
    match goal with |- context [limited_write_buf ?x] =>
      change (limited_write_buf x) with (HeaderChunks.limited_write_buf (max_frame_size e)) end.
    rewrite He. cbn [obind]. apply returns_Done. rewrite Hoct.
    assert (length (WriteBuf.chunk (buf e)) = 0%nat) as Hl by by rewrite Hch.
    pose proof (grown_capacity (WriteBuf.clear (WriteBuf.set_position (buf e) 0)) (len (EncodeBuf.buf dst))) as Hg.
    unfold written, same_encoder. change (WriteBuf.capacity (WriteBuf.clear (WriteBuf.set_position (buf e) 0))) with
      (WriteBuf.capacity (buf e)) in Hg.
    destruct nx as [c'|]; record; (split; [split; record; try done; try lia; apply Nat.le_0_l|]).
    all: split; [done|]; split; [done|]; unfold FramedWrite.flush_fuel; record; rewrite Hn, Hl.
    all: unfold WriteBuf.chunk, continuation_measure in *; record; rewrite length_drop; lia.
  - apply returns_Done. done.
Qed.

(** Everything is out. *)
Definition flushed (w : FramedWrite.t) (sent : bytes) : Prop :=
  io_written (FramedWrite.inner w) = sent /\ drained (FramedWrite.encoder w).

(** What a flush leaves: the invariant; when it is ready, nothing outstanding. *)
Definition flush_post (w : FramedWrite.t) (sent : bytes) (x : poll (result unit io_error) * FramedWrite.t) : Prop :=
  on_wire x.2 sent /\ same_encoder (FramedWrite.encoder w) (FramedWrite.encoder x.2) /\
  FramedWrite.final_flush_done x.2 = FramedWrite.final_flush_done w /\
  (x.1 = Ready (Ok tt) -> flushed x.2 sent).

Lemma flush_loop_spec fuel : forall w sent,
  on_wire w sent -> (FramedWrite.flush_fuel (FramedWrite.encoder w) <= fuel)%nat ->
  returns (FramedWrite.flush_loop fuel w) (flush_post w sent).
Proof.
  induction fuel as [|fuel IH]; intros w sent Hw Hf; [unfold FramedWrite.flush_fuel in Hf; lia|]. cbn [FramedWrite.flush_loop].
  destruct (is_empty (FramedWrite.encoder w)) eqn:Hem; cbn [negb].
  - destruct Hw as [Hok Hw]. destruct (unset_frame_spec _ Hok Hem) as ([cf e'] & Hu & Hok' & Hout & Hsame & Hcf). rewrite Hu. cbn [obind].
    assert (on_wire (w <| FramedWrite.encoder := e' |>) sent) as Hw' by (split; [done|]; unfold outstanding in *; record; by rewrite Hout).
    destruct cf.
    + destruct (IH _ _ Hw') as ([r w'] & Hl & Hw2 & Hs2 & Hfin & Hr); [record; lia|]. exists (r, w'). split; [done|].
      split_and!; [done|by eapply same_encoder_trans|done|done].
    + destruct (io_poll_flush _) as [r s'] eqn:Hpf. apply returns_Done.
      pose proof (flush_written (FramedWrite.inner w)) as Hfl. change (FramedWrite.inner (w <| FramedWrite.encoder := e' |>)) with (FramedWrite.inner w) in Hpf.
      rewrite Hpf in Hfl. cbn in Hfl. destruct Hcf as (Hn & Hd & Hp). destruct Hw' as [_ Hw'].
      unfold flush_post, on_wire, flushed. record. rewrite Hfl. split_and!; try done.
      intros _. split; [|by split]. unfold outstanding, next_octets, WriteBuf.chunk in Hw'. rewrite Hn, Hd, Hp, !app_nil_r in Hw'. done.
  - destruct (write_spec w sent Hw Hem) as ([r w'] & -> & Hw' & Hs & Hfin & Hlt). cbn [obind].
    destruct r as [[n|er]|].
    + specialize (Hlt n eq_refl). destruct (IH _ _ Hw') as ([r w2] & Hl & Hw2 & Hs2 & Hfin2 & Hr); [lia|].
      exists (r, w2). split; [done|]. split_and!; [done|by eapply same_encoder_trans|congruence|done].
    + by apply returns_Done.
    + by apply returns_Done.
Qed.

Lemma writer_flush_spec w sent : on_wire w sent -> returns (FramedWrite.flush w) (flush_post w sent).
Proof. intros Hw. by apply flush_loop_spec. Qed.

(** ** Accepting a frame *)

(** What is written for a frame, and the HPACK encoder after it. *)
Definition sends (e : FrameEncoder.t) (f : Frame.t) (h' : Encoder.t) (o : bytes) : Prop :=
  match f with
  | Frame.Data v => h' = hpack e /\ o = frame_octets (Data.head v, Data.payload v)
  | Frame.Headers v =>
      exists block, into_encoding (Headers.header_block v) (hpack e) = Done (h', block) /\
        block_wire (max_frame_size e) (Headers.head v) [] block o
  | Frame.PushPromise v =>
      exists block, into_encoding (PushPromise.header_block v) (hpack e) = Done (h', block) /\
        block_wire (max_frame_size e) (PushPromise.head v) (be_bytes 4 (PushPromise.promised_id v)) block o
  | Frame.Settings v => h' = hpack e /\ o = Settings.encode v []
  | Frame.GoAway v => h' = hpack e /\ o = GoAway.encode v []
  | Frame.Ping v => h' = hpack e /\ o = Ping.encode v []
  | Frame.WindowUpdate v => h' = hpack e /\ o = WindowUpdate.encode v []
  | Frame.Reset v => h' = hpack e /\ o = Reset.encode v []
  | Frame.Priority _ => False
  end.

(** What the writer accepts without a panic. *)
Definition sendable (e : FrameEncoder.t) (f : Frame.t) : Prop :=
  match f with
  | Frame.Data v => len (Data.payload v) <= max_frame_size e
  | Frame.Headers v =>
      is_u8 (Headers.flags v) /\ Headers.is_end_headers v = true /\
      exists r, into_encoding (Headers.header_block v) (hpack e) = Done r
  | Frame.PushPromise v =>
      4 <= max_frame_size e /\ is_u8 (PushPromise.flags v) /\ PushPromise.is_end_headers v = true /\
      exists r, into_encoding (PushPromise.header_block v) (hpack e) = Done r
  | Frame.Priority _ => False
  | _ => True
  end.

Record accepted (e : FrameEncoder.t) (f : Frame.t) (e' : FrameEncoder.t) : Prop := {
  ac_ok : encoder_ok e';
  ac_max : max_frame_size e' = max_frame_size e;
  ac_chain : chain_threshold e' = chain_threshold e;
  ac_sends : exists o, sends e f (hpack e') o /\ outstanding e' = outstanding e ++ o
}.

Lemma has_capacity_next e : has_capacity e = true -> next e = None.
Proof. unfold has_capacity. by destruct (next e). Qed.

(** Appending to the buffer. *)
Lemma append_ok e o l c :
  encoder_ok e -> next e = None -> WriteBuf.data l = WriteBuf.data (buf e) ++ o ->
  WriteBuf.position l = WriteBuf.position (buf e) -> WriteBuf.capacity (buf e) <= WriteBuf.capacity l ->
  (forall f, c = Some (NData f) -> Data.payload f <> []) -> (c <> None -> WriteBuf.data l <> []) ->
  encoder_ok (e <| buf := l |> <| next := c |>) /\
  WriteBuf.chunk l = WriteBuf.chunk (buf e) ++ o.
Proof.
  intros [Hm Hp Ht Hmin Hc Hd Hfd] Hn Hl Hpos Hcap Hcf Hcl. split.
  - split; record; try done; try lia.
    + rewrite Hl, Hpos, length_app. lia.
    + intros f -> Hpay. by destruct (Hcf f).
  - unfold WriteBuf.chunk. by rewrite Hl, Hpos, drop_app_le.
Qed.

(** Octets appended to the buffer. *)
Record appended (e : FrameEncoder.t) (o : bytes) (e' : FrameEncoder.t) : Prop := {
  ap_ok : encoder_ok e';
  ap_next : next e' = None;
  ap_out : outstanding e' = outstanding e ++ o;
  ap_same : same_encoder e e'
}.

Lemma put_appended e o : encoder_ok e -> next e = None -> appended e o (put e o).
Proof.
  intros K Hn.
  destruct (append_ok e o (WriteBuf.put (buf e) o) None K Hn) as [Hok Hch]; [done..|apply grown_capacity|done|done|].
  assert (put e o = e <| buf := WriteBuf.put (buf e) o |> <| next := None |>) as -> by (rewrite <-Hn; by destruct e).
  split; [done|done| |done]. unfold outstanding, next_octets. rewrite Hn. record. by rewrite Hch, !app_nil_r.
Qed.

Lemma appended_trans e1 o1 e2 o2 e3 : appended e1 o1 e2 -> appended e2 o2 e3 -> appended e1 (o1 ++ o2) e3.
Proof.
  intros [_ _ Ho1 S1] [K N Ho2 S2]. split; [done|done|by rewrite Ho2, Ho1, <-app_assoc|by eapply same_encoder_trans].
Qed.

(** The frame [f] is written by appending [o]. *)
Lemma appended_accepted e f o e' : appended e o e' -> sends e f (hpack e) o -> accepted e f e'.
Proof. intros [K N Ho (Hh & Hm & Hc)] Hs. split; [done..|]. exists o. by rewrite Hh. Qed.

(** A block written behind the buffer. *)
Lemma block_accepted e h' hd p block f :
  encoder_ok e -> next e = None -> len p <= max_frame_size e -> is_u8 (Head.flag hd) ->
  HeadersFlag.is_end_headers (Head.flag hd) = true ->
  (forall d, len p <= EncodeBuf.remaining_mut d -> f d = EncodeBuf.put d p) ->
  (forall d d', f d = Done d' -> f (under (WriteBuf.data (buf e)) d) = Done (under (WriteBuf.data (buf e)) d')) ->
  exists dst c, EncodingHeaderBlock.encode block hd (limited_write_buf e) f = Done (dst, c) /\
    let e' := written (e <| hpack := h' |>) dst c in
    encoder_ok e' /\ max_frame_size e' = max_frame_size e /\ chain_threshold e' = chain_threshold e /\ hpack e' = h' /\
    exists o, block_wire (max_frame_size e) hd p block o /\ outstanding e' = outstanding e ++ o.
Proof.
  intros K Hn Hp Hfl He Hf Hfu.
  destruct (block_written (max_frame_size e) (WriteBuf.data (buf e)) hd p block f) as (dst & c & Henc & Hw & Hdne); try done; [apply K|].
  eexists _, c. split; [exact Henc|]. cbv zeta.
  destruct (append_ok e (EncodeBuf.buf dst) (WriteBuf.set_data (buf e) (EncodeBuf.buf (under (WriteBuf.data (buf e)) dst)))
    (option_map NContinuation c) K Hn) as [Hok Hch]; [done..|apply grown_capacity|by destruct c| |].
  { intros _ Hnil. by apply app_nil in Hnil as [_ ?]. }
  assert (forall e1, e1 = written (e <| hpack := h' |>) (under (WriteBuf.data (buf e)) dst) c ->
    e1 = e <| hpack := h' |> <| buf := WriteBuf.set_data (buf e) (EncodeBuf.buf (under (WriteBuf.data (buf e)) dst)) |>
           <| next := option_map NContinuation c |>) as Heq.
  { intros e1 ->. unfold written. destruct c; [done|]. cbn [option_map]. rewrite <-Hn. by destruct e. }
  rewrite (Heq _ eq_refl). clear Heq. split_and!; [by destruct Hok; split|done..|].
  eexists. split; [exact Hw|]. unfold outstanding, next_octets. rewrite Hn. record. rewrite Hch, app_nil_r, <-app_assoc.
  by destruct c.
Qed.

(** The beginning of a payload that goes to the buffer. *)
Lemma data_prefix e v :
  encoder_ok e -> next e = None -> 9 <= len (WriteBuf.chunk (buf e)) -> chain_threshold e <= len (Data.payload v) ->
  exists octets v' e', Data.payload v = octets ++ Data.payload v' /\ Data.payload v' <> [] /\ appended e octets e' /\
    (if len (WriteBuf.data (buf e)) <? chain_threshold e then
       let! _ := assert (len (WriteBuf.chunk (buf e)) <=? chain_threshold e) in
       let (octets, v) := drain (chain_threshold e - len (WriteBuf.chunk (buf e))) v in
       Done (put e octets, v)
     else Done (e, v)) = Done (e', v').
Proof.
  intros K Hn H9 Hlen. pose proof (eo_threshold _ K).
  destruct (Z.ltb_spec (len (WriteBuf.data (buf e))) (chain_threshold e)).
  - assert (len (WriteBuf.chunk (buf e)) <= len (WriteBuf.data (buf e))) as Hr
      by (unfold WriteBuf.chunk, len; rewrite length_drop; lia).
    rewrite (proj2 (Z.leb_le _ _)) by lia. cbn [assert obind].
    set (k := Z.to_nat (chain_threshold e - len (WriteBuf.chunk (buf e)))).
    exists (take k (Data.payload v)), (Data.map (drop k) v), (put e (take k (Data.payload v))).
    split_and!; [symmetry; apply (take_drop k)| |by apply put_appended|done].
    intros Hnil%(f_equal length). revert Hnil. cbn. rewrite length_drop. unfold k, len, Data.payload in *. lia.
  - exists [], v, e. split_and!; [done| |split; [done|done|by rewrite app_nil_r|done]|done].
    intros Hnil. rewrite Hnil in Hlen. change (len (A:=Z) []) with 0 in Hlen. lia.
Qed.

(** A payload long enough is chained to the buffer. *)
Lemma data_chained e v :
  encoder_ok e -> next e = None -> chain_threshold e <= len (Data.payload v) <= max_frame_size e ->
  returns (FrameEncoder.buffer e (Frame.Data v)) (fun '(r, e') => r = Ok tt /\ accepted e (Frame.Data v) e').
Proof.
  intros K Hn Hlen. cbn [FrameEncoder.buffer]. destruct (Z.gtb_spec (len (Data.payload v)) (max_frame_size e)); [lia|].
  destruct (Z.geb_spec (len (Data.payload v)) (chain_threshold e)); [|lia]. cbv zeta.
  set (hd := Head.encode (Data.head v) (len (Data.payload v)) []). pose proof (put_appended e hd K Hn) as Hap.
  destruct (data_prefix (put e hd) v) as (octets & v' & e' & Hv & Hne & Hap' & ->); [apply Hap..| |exact (proj1 Hlen)|].
  { pose proof (eo_position _ K). change (buf (put e hd)) with (WriteBuf.put (buf e) hd). unfold WriteBuf.chunk, len.
    assert (length hd = 9%nat) as Hl9 by apply head_encode_length. clearbody hd. cbn. rewrite length_drop, length_app. lia. }
  cbn [obind]. apply returns_Done. split; [done|].
  destruct (appended_trans _ _ _ _ _ Hap Hap') as [K' Hn' Ho (Hh & Hm & Hc)].
  split; [|done..|].
  - assert (outstanding e' <> []) as Hne'.
    { rewrite Ho. intros Hnil%(f_equal length). rewrite !length_app in Hnil. unfold hd in Hnil. rewrite head_encode_length in Hnil.
      simpl in Hnil. lia. }
    unfold outstanding, next_octets in Hne'. rewrite Hn', app_nil_r in Hne'.
    destruct K'. split; try done; [by intros f [= <-]|]. intros _ Hnil. apply Hne'. unfold WriteBuf.chunk.
    change (WriteBuf.data (buf e') = []) in Hnil. by rewrite Hnil, drop_nil.
  - eexists. split; [by split|]. unfold frame_octets. cbn [fst snd]. fold hd. rewrite Hv, app_assoc, app_assoc.
    rewrite <-(app_assoc (outstanding e)), <-Ho. unfold outstanding, next_octets. rewrite Hn', app_nil_r. done.
Qed.

Lemma data_buffered e v :
  encoder_ok e -> next e = None -> len (Data.payload v) < chain_threshold e -> len (Data.payload v) <= max_frame_size e ->
  returns (FrameEncoder.buffer e (Frame.Data v)) (fun '(r, e') => r = Ok tt /\ accepted e (Frame.Data v) e').
Proof.
  intros K Hn Hlen Hmax. cbn [FrameEncoder.buffer]. destruct (Z.gtb_spec (len (Data.payload v)) (max_frame_size e)); [lia|].
  destruct (Z.geb_spec (len (Data.payload v)) (chain_threshold e)); [lia|]. unfold Data.encode_chunk.
  pose proof (eo_threshold _ K). unfold Data.payload in Hlen. rewrite (proj2 (Z.leb_le _ _)) by lia. cbn [assert obind].
  apply returns_Done. split; [done|]. eapply (appended_accepted e _ (frame_octets (Data.head v, Data.payload v))); [|by split].
  pose proof (put_appended e (frame_octets (Data.head v, Data.payload v)) K Hn) as [[] ? ? ?]. by split.
Qed.

(** A frame is accepted when none is pending, and what is outstanding grows by its
    octets. *)
Lemma buffer_spec e f :
  encoder_ok e -> next e = None -> sendable e f ->
  returns (FrameEncoder.buffer e f) (fun '(r, e') => r = Ok tt /\ accepted e f e').
Proof.
  intros K Hn Hs. pose proof (eo_max _ K) as Hmax.
  destruct f as [v|v|v|v|v|v|v|v|v]; cbn [sendable] in Hs; try done.
  all: try (cbn [FrameEncoder.buffer]; apply returns_Done; (split; [done|]);
    eapply appended_accepted; [by apply put_appended|by split]).
  - destruct (Z.ltb_spec (len (Data.payload v)) (chain_threshold e)); [by apply data_buffered|by apply data_chained].
  - destruct Hs as (Hu & He & [[h' block] Hb]). cbn [FrameEncoder.buffer]. unfold headers_encode.
    unfold Headers.is_end_headers in He. rewrite He, Hb. cbn [assert obind].
    destruct (block_accepted e h' (Headers.head v) [] block Done K Hn) as (dst & c & -> & Ha); try done;
      [change (len (A:=Z) []) with 0; lia|intros d Hd; unfold EncodeBuf.put|by intros d d' [= ->]|].
    { rewrite (proj2 (Z.leb_le _ _) Hd). cbn. rewrite app_nil_r, Z.sub_0_r. by destruct d. }
    cbn [obind]. apply returns_Done. split; [done|]. destruct Ha as (K' & Hm & Hc & Hh & o & Ho & Hout).
    split; [done..|]. exists o. split; [|done]. exists block. by rewrite Hh.
  - destruct Hs as (Hm4 & Hu & He & [[h' block] Hb]). cbn [FrameEncoder.buffer]. unfold push_promise_encode.
    unfold PushPromise.is_end_headers in He. rewrite He, Hb. cbn [assert obind].
    destruct (block_accepted e h' (PushPromise.head v) (be_bytes 4 (PushPromise.promised_id v)) block
      (fun dst => EncodeBuf.put dst (be_bytes 4 (StreamId.to_u32 (PushPromise.promised_id v)))) K Hn)
      as (dst & c & -> & Ha); try done; [by intros d d' Hd; apply put_under|].
    cbn [obind]. apply returns_Done. split; [done|]. destruct Ha as (K' & Hm & Hc & Hh & o & Ho & Hout).
    split; [done..|]. exists o. split; [|done]. exists block. by rewrite Hh.
Qed.

(** The invariant survives any frame the writer does not panic on. *)
Lemma block_keeps e h' dst c :
  encoder_ok e -> next e = None -> (length (WriteBuf.data (buf e)) < length (EncodeBuf.buf dst))%nat ->
  encoder_ok (written (e <| hpack := h' |>) dst c).
Proof.
  intros [Hm Hp Ht Hmin Hc Hd Hfd] Hn Hl. pose proof (grown_capacity (buf e) (len (EncodeBuf.buf dst))).
  assert (EncodeBuf.buf dst <> []) as Hne by (intros Hnil; rewrite Hnil in Hl; simpl in Hl; lia).
  unfold written. destruct c; split; record; done || (try lia); by rewrite Hn.
Qed.

Lemma buffer_keeps e f : encoder_ok e -> next e = None -> ensures (FrameEncoder.buffer e f) (fun x => encoder_ok x.2).
Proof.
  intros K Hn.
  assert (sendable e f -> ensures (FrameEncoder.buffer e f) (fun x => encoder_ok x.2)) as Hsend.
  { intros Hs. destruct (buffer_spec e f K Hn Hs) as ([r e'] & -> & _ & Ha). apply ensures_Done, Ha. }
  destruct f as [v|v|v|v|v|v|v|v|v]; try by apply Hsend.
  - destruct (decide (len (Data.payload v) <= max_frame_size e)); [by apply Hsend|]. cbn [FrameEncoder.buffer].
    destruct (Z.gtb_spec (len (Data.payload v)) (max_frame_size e)); [by apply ensures_Done|lia].
  - cbn [FrameEncoder.buffer]. intros x Hx. apply obind_Done in Hx as ([[h dst] c] & Hx & [= <-]).
    unfold headers_encode in Hx. apply obind_Done in Hx as (u & _ & Hx). apply obind_Done in Hx as ([h1 block] & _ & Hx).
    apply obind_Done in Hx as ([dst1 c1] & Hx & [= -> -> ->]). apply block_keeps; [done..|].
    eapply encode_longer in Hx; [exact Hx|by intros d d' [= ->]].
  - by apply ensures_Panic.
  - cbn [FrameEncoder.buffer]. intros x Hx. apply obind_Done in Hx as ([[h dst] c] & Hx & [= <-]).
    unfold push_promise_encode in Hx. apply obind_Done in Hx as (u & _ & Hx). apply obind_Done in Hx as ([h1 block] & _ & Hx).
    apply obind_Done in Hx as ([dst1 c1] & Hx & [= -> -> ->]). apply block_keeps; [done..|].
    eapply encode_longer in Hx; [exact Hx|]. intros d d' Hd%put_longer. lia.
Qed.

(** ** [FramedWrite] *)

Lemma new_wire s : on_wire (FramedWrite.new s) (io_written s).
Proof.
  split; [|unfold outstanding, next_octets; by rewrite !app_nil_r].
  unfold FramedWrite.new. destruct (is_write_vectored s); split; record; unfold CHAIN_THRESHOLD, CHAIN_THRESHOLD_WITHOUT_VECTORED_IO,
    DEFAULT_BUFFER_CAPACITY, DEFAULT_MAX_FRAME_SIZE in *; unfold_ints; done || lia.
Qed.

Lemma drained_capacity e : encoder_ok e -> drained e -> has_capacity e = true.
Proof.
  intros K (Hn & Hd & _). unfold has_capacity. rewrite Hn, Hd. change (len (A:=Z) []) with 0.
  destruct (Z.geb_spec (WriteBuf.capacity (buf e) - 0) (min_buffer_capacity e)); [done|]. pose proof (eo_capacity _ K). lia.
Qed.

Definition ready_post (w : FramedWrite.t) (sent : bytes) (x : poll (result unit io_error) * FramedWrite.t) : Prop :=
  on_wire x.2 sent /\ same_encoder (FramedWrite.encoder w) (FramedWrite.encoder x.2) /\
  (x.1 = Ready (Ok tt) -> has_capacity (FramedWrite.encoder x.2) = true) /\
  (x.1 = Pending -> FramedWrite.flush w = Done (Pending, x.2)).

Lemma poll_ready_spec w sent : on_wire w sent -> returns (FramedWrite.poll_ready w) (ready_post w sent).
Proof.
  intros Hw. unfold FramedWrite.poll_ready. destruct (has_capacity (FramedWrite.encoder w)) eqn:Hcap; cbn [negb].
  { apply returns_Done. by split_and!. }
  destruct (writer_flush_spec w sent Hw) as ([r w'] & Hf & Hw' & Hs & _ & Hr). rewrite Hf. cbn [obind fst snd] in *.
  destruct r as [[[]|er]|].
  - destruct (Hr eq_refl) as [_ Hdr]. rewrite (drained_capacity _ (proj1 Hw') Hdr). cbn [negb]. apply returns_Done.
    split_and!; [done..| |done]. intros _. cbn. apply drained_capacity; [apply Hw'|done].
  - apply returns_Done. by split_and!.
  - apply returns_Done. by split_and!.
Qed.

Lemma close_wire w sent : on_wire w sent -> on_wire (w <| FramedWrite.inner := (io_poll_shutdown (FramedWrite.inner w)).2 |>) sent.
Proof. intros [K Hs]. split; [done|]. record. by rewrite shutdown_written. Qed.

Definition shutdown_post (w : FramedWrite.t) (sent : bytes) (x : poll (result unit io_error) * FramedWrite.t) : Prop :=
  on_wire x.2 sent /\
  (x.1 = Ready (Ok tt) -> FramedWrite.final_flush_done x.2 = true) /\
  (FramedWrite.final_flush_done w = false -> FramedWrite.final_flush_done x.2 = true -> flushed x.2 sent).

Lemma shutdown_spec w sent : on_wire w sent -> returns (FramedWrite.shutdown w) (shutdown_post w sent).
Proof.
  intros Hw. unfold FramedWrite.shutdown. destruct (FramedWrite.final_flush_done w) eqn:Hfin; cbn [negb].
  { pose proof (close_wire w sent Hw) as Hc. destruct (io_poll_shutdown _) as [r s'] eqn:Hsh. apply returns_Done.
    split_and!; [done|by intros _|congruence]. }
  destruct (writer_flush_spec w sent Hw) as ([r w'] & -> & Hw' & _ & Hfin' & Hr). cbn [obind fst snd] in *. rewrite Hfin in Hfin'.
  destruct r as [[[]|er]|]; [|apply returns_Done; split_and!; [done..|cbn; congruence]..].
  assert (on_wire (w' <| FramedWrite.final_flush_done := true |>) sent) as Hw2 by exact Hw'.
  pose proof (close_wire _ _ Hw2) as Hc. destruct (io_poll_shutdown _) as [r s'] eqn:Hsh. apply returns_Done.
  destruct (Hr eq_refl) as [Hwr Hdr]. split_and!; [done..|]. intros _ _. split; [|done].
  pose proof (shutdown_written (FramedWrite.inner w')) as Hwritten. 
  change (FramedWrite.inner (w' <| FramedWrite.final_flush_done := true |>)) with (FramedWrite.inner w') in Hsh.
  by rewrite <-Hwr, <-Hwritten, Hsh.
Qed.

Definition buffer_post (w : FramedWrite.t) (sent : bytes) (f : Frame.t) (x : result unit UserError.t * FramedWrite.t) : Prop :=
  x.1 = Ok tt /\
  max_frame_size (FramedWrite.encoder x.2) = max_frame_size (FramedWrite.encoder w) /\
  exists o, sends (FramedWrite.encoder w) f (hpack (FramedWrite.encoder x.2)) o /\ on_wire x.2 (sent ++ o).

Lemma framed_buffer_spec w sent f :
  on_wire w sent -> next (FramedWrite.encoder w) = None -> sendable (FramedWrite.encoder w) f ->
  returns (FramedWrite.buffer w f) (buffer_post w sent f).
Proof.
  intros [K Hw] Hn Hs. unfold FramedWrite.buffer.
  destruct (buffer_spec _ f K Hn Hs) as ([r e'] & -> & -> & [K' Hm Hc (o & Ho & Hout)]). cbn [obind]. apply returns_Done.
  split; [done|]. split; [done|]. exists o. split; [done|]. split; [done|]. record. by rewrite Hout, app_assoc, Hw.
Qed.

Lemma too_big w v :
  max_frame_size (FramedWrite.encoder w) < len (Data.payload v) ->
  FramedWrite.buffer w (Frame.Data v) = Done (Err UserError.PayloadTooBig, w).
Proof.
  intros Hlen. unfold FramedWrite.buffer. cbn [FrameEncoder.buffer].
  destruct (Z.gtb_spec (len (Data.payload v)) (max_frame_size (FramedWrite.encoder w))); [|lia]. cbn. by destruct w.
Qed.

(** The other operations leave what is to be written alone. *)
Lemma settled_wire w sent e' :
  on_wire w sent -> buf e' = buf (FramedWrite.encoder w) -> next e' = next (FramedWrite.encoder w) ->
  max_frame_size e' = max_frame_size (FramedWrite.encoder w) -> chain_threshold e' = chain_threshold (FramedWrite.encoder w) ->
  min_buffer_capacity e' = min_buffer_capacity (FramedWrite.encoder w) ->
  on_wire (w <| FramedWrite.encoder := e' |>) sent.
Proof.
  intros [[] Hw] Hb Hn Hm Hc Hmin. unfold on_wire, outstanding, next_octets in *.
  split; [split; record; rewrite ?Hb, ?Hn, ?Hm, ?Hc, ?Hmin; done|]. record. by rewrite Hb, Hn, Hm.
Qed.

Lemma inc_write_buffer_wire w sent n : on_wire w sent -> on_wire (FramedWrite.inc_write_buffer w n) sent.
Proof.
  intros [[] Hw]. split; [|done].
  pose proof (grown_capacity (buf (FramedWrite.encoder w)) (len (WriteBuf.data (buf (FramedWrite.encoder w))) + n)).
  split; try done. unfold FramedWrite.inc_write_buffer, WriteBuf.reserve in *. record. lia.
Qed.

Lemma set_header_table_size_wire w sent v : on_wire w sent -> on_wire (FramedWrite.set_header_table_size w v) sent.
Proof. intros Hw. by apply settled_wire. Qed.

Lemma take_last_data_frame_wire w sent : on_wire w sent -> on_wire (FramedWrite.take_last_data_frame w).2 sent.
Proof. intros Hw. by apply settled_wire. Qed.

(** A new maximum between two header blocks. *)
Lemma set_max_frame_size_spec w sent v :
  on_wire w sent -> 0 < v <= MAX_MAX_FRAME_SIZE -> (forall c, next (FramedWrite.encoder w) <> Some (NContinuation c)) ->
  returns (FramedWrite.set_max_frame_size w v) (fun w' => on_wire w' sent /\ FramedWrite.max_frame_size w' = v).
Proof.
  intros [[] Hw] Hv Hc. unfold FramedWrite.set_max_frame_size. rewrite (proj2 (Z.leb_le _ _)) by apply Hv. cbn [assert obind].
  change MAX_MAX_FRAME_SIZE with 16777215 in Hv.
  assert (wrap_u32 v = v) as Hwrap by (apply wrap_u32_id; unfold_ints; lia).
  apply returns_Done. rewrite Hwrap. split; [|done]. split; [split; try done; record; lia|].
  rewrite <-Hw. unfold outstanding, next_octets. record. do 2 f_equal. destruct (next _) as [[f|c]|] eqn:Hn; try done. by destruct (Hc c).
Qed.

(** An empty write buffer: all there is to write is with the transport. *)
Lemma buf_is_empty_spec w sent :
  on_wire w sent -> FramedWrite.buf_is_empty w = true -> next (FramedWrite.encoder w) = None /\ io_written (FramedWrite.inner w) = sent.
Proof.
  intros [K Hw] Hem. unfold FramedWrite.buf_is_empty in Hem. destruct (WriteBuf.data _) eqn:Hd; [|done].
  assert (next (FramedWrite.encoder w) = None) as Hn.
  { destruct (next (FramedWrite.encoder w)) eqn:Hn; [|done]. exfalso. apply (eo_filled _ K); [by rewrite Hn|done]. }
  split; [done|]. rewrite <-Hw. unfold outstanding, next_octets, WriteBuf.chunk. rewrite Hn, Hd, drop_nil, !app_nil_r. done.
Qed.

(** ** Properties *)


(** C8: a frame accepted once there is room (or once the buffer is empty) adds exactly its
    octets to what is to be written: a control frame its encoding, DATA its head and its
    payload, whether copied or chained, a header block one frame and its CONTINUATION
    frames; DATA larger than the peer's maximum is refused and changes nothing. *)
Theorem writer_accepts w sent f :
  on_wire w sent ->
  (has_capacity (FramedWrite.encoder w) = true \/ FramedWrite.buf_is_empty w = true ->
   sendable (FramedWrite.encoder w) f ->
   exists w' o, FramedWrite.buffer w f = Done (Ok tt, w') /\
     sends (FramedWrite.encoder w) f (hpack (FramedWrite.encoder w')) o /\ on_wire w' (sent ++ o)) /\
  (forall v, f = Frame.Data v -> FramedWrite.max_frame_size w < len (Data.payload v) ->
   FramedWrite.buffer w f = Done (Err UserError.PayloadTooBig, w)).
Proof.
  intros Hw. split; [|by intros v ->; apply too_big]. intros Hroom Hs.
  assert (next (FramedWrite.encoder w) = None) as Hn.
  { destruct Hroom as [Hc|He]; [by apply has_capacity_next|by destruct (buf_is_empty_spec w sent Hw He)]. }
  destruct (framed_buffer_spec w sent f Hw Hn Hs) as ([r w'] & Hb & Hr & _ & o & Ho & Hw').
  cbn [fst snd] in *. subst r. by exists w', o.
Qed.

End wire.
