(* ===== verification/HeadersDelivery.v ===== *)
(** * A header block, from one end to the other

    What the sender encodes of a HEADERS frame, cut into as many frames as it takes, the
    reader of the peer puts together again: [HeaderBlock.load] stores the fields as they
    come ([store]), fragment by fragment, and the decoder keeps what is cut for the next
    one ([HpackEncoderFacts.good]). *)

From Stdlib Require Import String.
From S2P Require Import Prelude Effects FrameBase ControlFrames HpackInt HpackHeader HpackDecoder HpackTable HpackTableInv HpackEncoder HpackEncoderFacts.
From S2P Require Import HeadersFrame HeadersFacts HeaderChunks ProtoErrors FramedRead FramedReadFacts FrameSink FramedWrite FramedWriteFacts.
Local Open Scope Z_scope.

(** ** Storing the fields of a block *)

Section store.
Context `{HeaderPlz} `{O : HeaderMapOps} `{!HeaderMapLaws O}.

Import HeaderBlock.

(** What the callback of [load] keeps of a field that is in order. *)
Definition store (b : HeaderBlock.t) (h : Header.hd) : HeaderBlock.t :=
  let with_pseudo p := mk (fields b) (field_size b) (is_over_size b) p in
  match h with
  | Header.Field n v =>
      mk (hm_insert n v (fields b)) (field_size b + decoded_header_size (len n) (len v)) (is_over_size b) (pseudo b)
  | Header.Authority v => with_pseudo (Pseudo.set_authority v (pseudo b))
  | Header.Method v => with_pseudo (Pseudo.set_method v (pseudo b))
  | Header.Scheme v => with_pseudo (Pseudo.set_scheme v (pseudo b))
  | Header.Path v => with_pseudo (Pseudo.set_path v (pseudo b))
  | Header.Protocol v => with_pseudo (Pseudo.set_protocol v (pseudo b))
  | Header.Status v => with_pseudo (Pseudo.set_status v (pseudo b))
  end.

(** What it counts. *)
Definition counted (h : Header.hd) : Z :=
  match h with
  | Header.Field n v => decoded_header_size (len n) (len v)
  | Header.Authority v => decoded_header_size 10 (len v)
  | Header.Method v => decoded_header_size 7 (len (method_as_ref v))
  | Header.Scheme v => decoded_header_size 7 (len v)
  | Header.Path v => decoded_header_size 5 (len v)
  | Header.Protocol v => decoded_header_size 9 (len (Protocol.as_str v))
  | Header.Status v => decoded_header_size 7 (len (status_as_str v))
  end.

Definition total_counted (l : list Header.hd) : Z := foldr (fun h n => counted h + n) 0 l.

Lemma counted_pos h : 0 <= counted h.
Proof.
  destruct h as [n v| v | v | v | v | v | v]; cbn; unfold decoded_header_size;
    repeat match goal with |- context [len ?x] => pose proof (len_nonneg x); generalize dependent (len x); intros end; lia.
Qed.

Lemma total_counted_pos l : 0 <= total_counted l.
Proof. induction l as [|h l IH]; [done|]. cbn. pose proof (counted_pos h). unfold total_counted in IH. lia. Qed.

Lemma total_counted_app l1 l2 : total_counted (l1 ++ l2) = total_counted l1 + total_counted l2.
Proof. unfold total_counted. induction l1 as [|h l IH]; cbn; [done|]. rewrite IH. lia. Qed.

(** A pseudo-header field comes once and before the regular fields; those are no
    connection-level fields. *)
Definition in_order (b : HeaderBlock.t) (h : Header.hd) : Prop :=
  match h with
  | Header.Field _ _ => field_ok h
  | _ => hm_is_empty (fields b) = true /\ pseudo_set (pseudo b) (Header.name h) = false
  end.

Fixpoint orderly (b : HeaderBlock.t) (l : list Header.hd) : Prop :=
  match l with
  | [] => True
  | h :: l => in_order b h /\ orderly (store b h) l
  end.

Lemma orderly_app l1 : forall b l2, orderly b (l1 ++ l2) <-> orderly b l1 /\ orderly (fold_left store l1 b) l2.
Proof. induction l1 as [|h l1 IH]; intros b l2; cbn; [tauto|]. rewrite IH. tauto. Qed.

(** The state of the callback after storing [b]. *)
Definition loaded (b : HeaderBlock.t) (malformed : bool) (size : Z) : Loading :=
  loading b (negb (hm_is_empty (fields b))) malformed size.

Lemma set_pseudo_store max b m size n text set :
  hm_is_empty (fields b) = true -> size + decoded_header_size (n + 1) (len text) < max ->
  set_pseudo max n text false set (loaded b m size) =
    loaded (mk (fields b) (field_size b) (is_over_size b) (set (pseudo b))) m (size + decoded_header_size (n + 1) (len text)).
Proof.
  intros He Hs. unfold set_pseudo, loaded. cbn [reg block headers_size malformed fields]. rewrite He. cbn [negb].
  by rewrite (proj2 (Z.ltb_lt _ _) Hs).
Qed.

Lemma on_header_store max b m size h :
  in_order b h -> size + counted h < max ->
  on_header max (loaded b m size) h = loaded (store b h) m (size + counted h).
Proof.
  intros Hio Hs. destruct h as [n v| v | v | v | v | v | v]; cbn [on_header in_order counted] in *.
  2-7: destruct Hio as [He Hp]; cbn in Hp; cbn [loaded block]; rewrite Hp; by apply set_pseudo_store.
  destruct Hio as [Hc Hte]. rewrite Hc.
  assert (bool_decide (n = const_header TE) && negb (BytesStr.eq_str v (str "trailers")) = false) as ->.
  { destruct (bool_decide_reflect (n = const_header TE)) as [He|]; [|done]. by rewrite (Hte He). }
  unfold loaded. cbn [block headers_size malformed store fields]. rewrite (proj2 (Z.ltb_lt _ _) Hs). by rewrite hm_is_empty_insert.
Qed.

Lemma fold_store max m l : forall b size,
  orderly b l -> size + total_counted l < max ->
  fold_left (on_header max) l (loaded b m size) = loaded (fold_left store l b) m (size + total_counted l).
Proof.
  induction l as [|h l IH]; intros b size Ho Hs; cbn [fold_left total_counted foldr] in *; [by rewrite Z.add_0_r|].
  destruct Ho as [Hh Ho]. change (foldr _ _ l) with (total_counted l) in *. pose proof (total_counted_pos l).
  rewrite on_header_store by (done || lia). rewrite IH by (done || lia). f_equal. lia.
Qed.

(** The size [load] starts from counts no more than what was stored ([:protocol] is
    left out). *)
Lemma size_store b h : in_order b h -> calculate_header_list_size (store b h) <= calculate_header_list_size b + counted h.
Proof.
  unfold calculate_header_list_size. destruct b as [f fs ov [me sc au pa pr st]]. pose proof (counted_pos h).
  destruct h as [n v| v | v | v | v | v | v]; cbn in *; intros Hio; try destruct Hio as [_ Hio]; unfold id in *;
    try match type of Hio with is_some ?o = false => destruct o; [discriminate Hio|] end; cbn in *; unfold decoded_header_size in *; lia.
Qed.

Lemma size_fold l : forall b, orderly b l ->
  calculate_header_list_size (fold_left store l b) <= calculate_header_list_size b + total_counted l.
Proof.
  induction l as [|h l IH]; intros b Ho; cbn [fold_left total_counted foldr]; [lia|]. destruct Ho as [Hh Ho].
  change (foldr _ _ l) with (total_counted l). pose proof (size_store b h Hh). specialize (IH _ Ho). lia.
Qed.

(** [load] on a fragment whose fields are in order. *)
Lemma load_store b src max d r d1 rest out :
  Decoder.decode d src = Done (r, d1, rest, out) -> orderly b out ->
  calculate_header_list_size b + total_counted out < max ->
  HeaderBlock.load b src max d =
    Done (match r with Ok _ => Ok tt | Err e => Err (Hpack e) end, fold_left store out b, rest, d1).
Proof.
  intros Hd Ho Hs. unfold HeaderBlock.load. rewrite Hd. cbn [obind].
  change (loading b (negb (hm_is_empty (fields b))) false (calculate_header_list_size b))
    with (loaded b false (calculate_header_list_size b)).
  rewrite fold_store by done. by destruct r as [[]|].
Qed.

End store.

(** ** Reading the frames of a block *)

Section reading.
Context `{HeaderPlz} `{!HeaderPlzLaws _} `{O : !HeaderMapOps} `{!HeaderMapLaws O}.

Definition frame_as (fr : Headers.t) (b : HeaderBlock.t) : Headers.t :=
  Headers.mk (Headers.stream_id fr) (Headers.stream_dep fr) b (Headers.flags fr).

Definition waiting (d : Decoder.t) (fr : Headers.t) (buf : bytes) (cnt : Z) : FramedRead.State :=
  FramedRead.state d (Some (FramedRead.partial (Continuable.Headers fr) buf cnt)).

(** What the decoder may answer of a fragment. *)
Definition acceptable (ends : bool) (r : result unit DecoderError) : Prop :=
  r = Ok tt \/ ends = false /\ exists n, r = Err (NeedMoreError n).

Lemma no_hpack_error id ends (r : result unit DecoderError) :
  acceptable ends r ->
  FramedRead.hpack_error id ends (match r with Ok _ => Ok tt | Err e => Err (Hpack e) end) = None.
Proof. by intros [->|(-> & n & ->)]. Qed.

Lemma whole_frame h p :
  StreamId.valid (Head.stream_id h) ->
  Head.parse (frame_octets (h, p)) = Done h /\ slice_from (frame_octets (h, p)) HEADER_LEN = Done p.
Proof. intros Hid. unfold frame_octets. cbn [fst snd]. by apply (decode_frame_payload h (len p) p). Qed.

(** A CONTINUATION frame of the block that waits. *)
Lemma decode_continuation d fr buf cnt max limit h frag r d1 rest out :
  let ends := ends_block (h, frag) in
  StreamId.valid (Head.stream_id h) -> Head.kind h = Kind.Continuation -> Head.stream_id h = Headers.stream_id fr ->
  HeaderBlock.is_over_size (Headers.header_block fr) = false -> (ends = false -> cnt + 1 <= limit) ->
  Decoder.decode d (buf ++ frag) = Done (r, d1, rest, out) -> acceptable ends r ->
  orderly (Headers.header_block fr) out ->
  HeaderBlock.calculate_header_list_size (Headers.header_block fr) + total_counted out < max ->
  let fr' := frame_as fr (fold_left store out (Headers.header_block fr)) in
  FramedRead.decode_frame (waiting d fr buf cnt) max limit (frame_octets (h, frag)) =
    Done (if ends then (Ok (Some (Frame.Headers (Headers.set_end_headers fr'))), FramedRead.state d1 None)
          else (Ok None, waiting d1 fr' rest (cnt + 1))).
Proof.
  intros ends Hid Hk Hs Hov Hcnt Hdec Hacc Hord Hsz fr'. destruct (whole_frame h frag Hid) as [Hh Hp].
  unfold FramedRead.decode_frame. rewrite Hh. cbn [obind]. rewrite bool_decide_true by done.
  unfold waiting at 1. cbn [FramedRead.partial_inout]. rewrite Hp. cbn [obind]. rewrite Hk.
  unfold FramedRead.continuation. cbn [waiting FramedRead.partial_inout FramedRead.hpack FramedRead.pframe FramedRead.pbuf
    FramedRead.continuation_frames_count Continuable.stream_id].
  rewrite Hs, Z.eqb_refl. cbn [negb].
  change (Z.land (Head.flag h) 4 =? 4) with ends.
  assert (negb ends && ((if ends then 0 else cnt + 1) >? limit) = false) as ->.
  { destruct ends; [done|]. specialize (Hcnt eq_refl). destruct (Z.gtb_spec (cnt + 1) limit); [lia|done]. }
  rewrite Hp. cbn [obind Continuable.is_over_size]. unfold Headers.is_over_size. rewrite Hov, andb_false_r. cbn [andb].
  cbn [Continuable.load_hpack]. unfold Headers.load_hpack.
  rewrite (load_store _ _ _ _ _ _ _ _ Hdec Hord Hsz). cbn [obind]. rewrite no_hpack_error by done.
  by destruct ends.
Qed.

Lemma store_over_size l : forall b, HeaderBlock.is_over_size (fold_left store l b) = HeaderBlock.is_over_size b.
Proof. induction l as [|h l IH]; intros b; [done|]. cbn [fold_left]. rewrite IH. by destruct h. Qed.

(** The rest of a block: what waits and the fragments to come are a block for the decoder. *)
Lemma read_continuations max limit id last d' front : forall d fr buf cnt out,
  let b := Headers.header_block fr in
  StreamId.valid id -> Headers.stream_id fr = id ->
  Forall (fun f => Head.kind f.1 = Kind.Continuation /\ same_stream id f) (front ++ [last]) ->
  Forall (fun f => ends_block f = false) front -> ends_block last = true ->
  Decoder.max_size_update d = None -> good true (buf ++ concat (map snd (front ++ [last]))) d d' out ->
  orderly b out -> HeaderBlock.calculate_header_list_size b + total_counted out < max ->
  HeaderBlock.is_over_size b = false -> cnt + len front <= limit ->
  FramedRead.decode_frames (waiting d fr buf cnt) max limit (map frame_octets (front ++ [last])) =
    Done (Ok (Some (Frame.Headers (Headers.set_end_headers (frame_as fr (fold_left store out b))))),
          FramedRead.state d' None, []).
Proof.
  induction front as [|[h frag] front IH]; intros d fr buf cnt out b Hid Hfr Hall Hfront Hlast Hm Hg Hord Hsz Hov Hcnt.
  - destruct last as [h frag]. cbn [app map concat snd] in *. rewrite app_nil_r in Hg. apply Forall_singleton in Hall as [Hk Hs].
    cbn [fst] in Hk. unfold same_stream in Hs. cbn [fst] in Hs.
    assert (good true (buf ++ frag) (begin d) d' out) as Hdec%good_decode_all by by rewrite begin_id.
    cbn [FramedRead.decode_frames].
    rewrite (decode_continuation d fr buf cnt max limit h frag (Ok tt) d' [] out); try done.
    + by rewrite Hlast.
    + by rewrite Hs.
    + by rewrite Hs.
    + by rewrite Hlast.
    + by left.
  - cbn [app map concat snd] in *. rewrite app_assoc in Hg.
    apply Forall_cons in Hall as [[Hk Hs] Hall]. apply Forall_cons in Hfront as [He Hfront].
    cbn [fst] in Hk. unfold same_stream in Hs. cbn [fst] in Hs. rewrite <-(begin_id d Hm) in Hg.
    destruct (good_decode _ _ _ _ _ Hg) as (r & d1 & rest & out1 & out2 & Hdec & -> & Hg1 & Hr & Hm1).
    apply orderly_app in Hord as [Hord1 Hord2]. rewrite total_counted_app in Hsz.
    pose proof (total_counted_pos out2). pose proof (size_fold out1 b Hord1).
    assert (len ((h, frag) :: front) = len front + 1) as Hl by (unfold len; cbn; lia). rewrite Hl in Hcnt.
    pose proof (len_nonneg front).
    cbn [FramedRead.decode_frames].
    rewrite (decode_continuation d fr buf cnt max limit h frag r d1 rest out1); try done; [|by rewrite Hs|by rewrite Hs|lia|
      rewrite He; destruct Hr as [[-> _]|(n & ->)]; [by left|right; by split; [|exists n]]|fold b; lia].
    rewrite He. cbn [obind]. rewrite fold_left_app.
    apply (IH d1 (frame_as fr (fold_left store out1 b)) rest (cnt + 1) out2); try done; cbn [frame_as Headers.header_block]; [lia| |lia].
    by rewrite store_over_size.
Qed.

(** What the sender sets on a header block: END_HEADERS, and END_STREAM when no body follows. *)
Definition plain (fl : HeadersFlag.t) : Prop :=
  fl = HeadersFlag.END_HEADERS \/ fl = HeadersFlag.set_end_stream HeadersFlag.END_HEADERS.

Lemma plain_load h p :
  StreamId.is_zero (Head.stream_id h) = false -> HeadersFlag.is_padded (Head.flag h) = false ->
  HeadersFlag.is_priority (Head.flag h) = false ->
  Headers.load h p = Done (Ok (Headers.mk (Head.stream_id h) None HeaderBlock.empty (Head.flag h), p)).
Proof. intros Hz Hp Hr. unfold Headers.load. by rewrite Hz, Hp, Hr. Qed.

Lemma calculate_empty : HeaderBlock.calculate_header_list_size HeaderBlock.empty = 0.
Proof. done. Qed.

(** The first frame of a block. *)
Lemma decode_first d max limit h frag r d1 rest out :
  let ends := ends_block (h, frag) in
  let fr := Headers.mk (Head.stream_id h) None (fold_left store out HeaderBlock.empty) (Head.flag h) in
  StreamId.valid (Head.stream_id h) -> StreamId.is_zero (Head.stream_id h) = false -> Head.kind h = Kind.Headers ->
  HeadersFlag.is_padded (Head.flag h) = false -> HeadersFlag.is_priority (Head.flag h) = false ->
  Decoder.decode d frag = Done (r, d1, rest, out) -> acceptable ends r ->
  orderly HeaderBlock.empty out -> total_counted out < max ->
  FramedRead.decode_frame (FramedRead.state d None) max limit (frame_octets (h, frag)) =
    Done (if ends then (Ok (Some (Frame.Headers fr)), FramedRead.state d1 None)
          else (Ok None, waiting d1 fr rest 0)).
Proof.
  intros ends fr Hid Hz Hk Hpad Hpri Hdec Hacc Hord Hsz. destruct (whole_frame h frag Hid) as [Hh Hp].
  unfold FramedRead.decode_frame. rewrite Hh. cbn [obind FramedRead.partial_inout].
  rewrite Hp. cbn [obind]. rewrite Hk, plain_load by done. unfold FramedRead.lift_load. cbn [obind result_map fst snd].
  unfold FramedRead.header_block. cbn [Continuable.load_hpack FramedRead.hpack]. unfold Headers.load_hpack. cbn [Headers.header_block].
  rewrite (load_store _ _ _ _ _ _ _ _ Hdec Hord Hsz). cbn [obind].
  change (Continuable.is_end_headers _) with ends. rewrite no_hpack_error by done. by destruct ends.
Qed.

(** A whole block, fragmented as the writer does. *)
Lemma read_block m max limit id fl block d d' out first frames :
  StreamId.valid id -> StreamId.is_zero id = false -> plain fl ->
  first_head (Head.new Kind.Headers fl id) first.1 -> Forall (fun f => Head.kind f.1 = Kind.Continuation) frames ->
  well_fragmented m id block (first :: frames) ->
  good true block (begin d) d' out -> orderly HeaderBlock.empty out -> total_counted out < max ->
  len frames <= limit + 1 ->
  FramedRead.decode_frames (FramedRead.state d None) max limit (map frame_octets (first :: frames)) =
    Done (Ok (Some (Frame.Headers (Headers.mk id None (fold_left store out HeaderBlock.empty) fl))),
          FramedRead.state d' None, []).
Proof.
  intros Hid Hz Hfl Hfirst Hk (Hc & _ & Hs & front & last & Hfr & Hlast & Hfront) Hg Hord Hsz Hlim.
  destruct first as [h frag]. cbn [fst] in Hfirst. apply Forall_cons in Hs as [Hsh Hs]. unfold same_stream in Hsh. cbn [fst] in Hsh.
  assert (Head.kind h = Kind.Headers) as Hkind by (destruct Hfirst as [->| ->]; done).
  assert (HeadersFlag.is_padded (Head.flag h) = false /\ HeadersFlag.is_priority (Head.flag h) = false) as [Hpad Hpri]
    by (destruct Hfirst as [->| ->], Hfl as [->| ->]; done).
  cbn [map FramedRead.decode_frames concat snd] in *.
  destruct front as [|x front]; cbn [app] in Hfr.
  - injection Hfr as <- ->. rewrite app_nil_r in Hc. subst frag.
    rewrite (decode_first d max limit h block (Ok tt) d' [] out); rewrite ?Hsh; try done; [|by apply good_decode_all|by left].
    rewrite Hlast. cbn [obind]. assert (Head.flag h = fl) as ->; [|done].
    unfold ends_block in Hlast. cbn [fst] in Hlast. destruct Hfirst as [->| ->]; [done|]. by destruct Hfl as [->| ->].
  - injection Hfr as <- ->. apply Forall_cons in Hfront as [He Hfront]. rewrite <-Hc in Hg.
    destruct (good_decode _ _ _ _ _ Hg) as (r & d1 & rest & out1 & out2 & Hdec & -> & Hg1 & Hr & Hm1).
    apply orderly_app in Hord as [Hord1 Hord2]. rewrite total_counted_app in Hsz.
    pose proof (total_counted_pos out2). pose proof (size_fold out1 _ Hord1) as Hsf. rewrite calculate_empty in Hsf.
    assert (len (front ++ [last]) = len front + 1) as Hl by (rewrite len_app; done).
    rewrite (decode_first d max limit h frag r d1 rest out1); rewrite ?Hsh; try done; [|rewrite He; destruct Hr as [[-> _]|(n & ->)]; [by left|right; by split; [|exists n]]|lia].
    rewrite He. cbn [obind]. rewrite fold_left_app.
    rewrite (read_continuations max limit id last d' front d1 _ rest 0 out2); try done; cbn [Headers.header_block]; [| |lia|by rewrite store_over_size|lia].
    + do 5 f_equal. unfold Headers.set_end_headers, frame_as. cbn. f_equal.
      destruct Hfirst as [->| ->]; destruct Hfl as [->| ->]; done.
    + apply Forall_and. by split.
Qed.

End reading.

(** ** The header list of a frame *)

Section sending.
Context `{HeaderPlz} `{!NameHash} `{!HeaderPlzLaws _} `{!NameHashLaws _} `{O : !HeaderMapOps} `{!HeaderMapLaws O} `{!HeaderMapIter}.

Definition pseudo_list (p : Pseudo.t) : list Header.hd :=
  let item {A} (f : A -> Header.hd) (o : option A) := option_list (option_map f o) in
  item Header.Method (Pseudo.method p) ++ item Header.Scheme (Pseudo.scheme p) ++
  item Header.Authority (Pseudo.authority p) ++ item Header.Path (Pseudo.path p) ++
  item Header.Protocol (Pseudo.protocol p) ++ item Header.Status (Pseudo.status p).

Definition field_of (e : bytes * bytes) : Header.hd := Header.Field (e.1 : BytesStr.t) (e.2 : BytesStr.t).

Definition field_list (m : HeaderMap) : list Header.hd := map field_of (hm_into_iter m).

Definition header_list (b : HeaderBlock.t) : list Header.hd := pseudo_list (HeaderBlock.pseudo b) ++ field_list (HeaderBlock.fields b).

Definition utf8_field (e : bytes * bytes) : Prop := utf8_valid e.1 = true /\ utf8_valid e.2 = true.

Lemma iter_fields_list l : Forall utf8_field l ->
  iter_fields l = Done (map Header.named (map field_of l)).
Proof.
  induction 1 as [|e l [Hn Hv] Hl IH]; [done|]. cbn [iter_fields]. unfold iter_field, BytesStr.try_from. rewrite Hn, Hv, IH. done.
Qed.

Lemma iter_list b : Forall utf8_field (hm_into_iter (HeaderBlock.fields b)) ->
  iter (HeaderBlock.pseudo b) (HeaderBlock.fields b) = Done (map Header.named (header_list b)).
Proof.
  intros Hu. unfold iter, header_list, field_list. rewrite iter_fields_list by done. cbn [obind]. rewrite map_app. do 2 f_equal.
  destruct (HeaderBlock.pseudo b) as [me sc au pa pr st]. cbn.
  by destruct me, sc, au, pa, pr, st.
Qed.

Lemma expand_named f l : forall n, expand f n (map Header.named l) = Some (map f l).
Proof.
  induction l as [|h l IH]; intros n; [done|]. cbn [map expand].
  assert (Header.reify (Header.named h) = Ok h) as -> by by destruct h. by rewrite IH.
Qed.

(** *** What the receiver makes of it *)

(** The value under which a field arrives. *)
Definition heard (e : bytes * bytes) : bytes := Header.value_slice (canon (field_of e)).

Lemma canon_heard e : canon (field_of e) = field_of (e.1, heard e).
Proof. unfold heard, field_of. rewrite !canon_field. by destruct (_ && _). Qed.

Lemma heard_same e : BytesStr.eq_str (heard e) e.2 = true.
Proof. exact (canon_value (field_of e)). Qed.

Lemma heard_len e : len (heard e) = len e.2.
Proof.
  pose proof (heard_same e) as Hs. unfold BytesStr.eq_str in Hs. apply bool_decide_eq_true in Hs.
  unfold len. f_equal. rewrite <-(length_map BytesStr.to_ascii_lowercase (heard _)), Hs. by rewrite length_map.
Qed.

Definition heard_fields (l : list (bytes * bytes)) (m : HeaderMap) : HeaderMap :=
  fold_left (fun m e => hm_insert e.1 (heard e) m) l m.

Definition fields_size (l : list (bytes * bytes)) : Z :=
  foldr (fun e n => decoded_header_size (len e.1) (len e.2) + n) 0 l.

(** The frame the receiver is given for [v]: the same pseudo-header, the fields inserted
    in their order into an empty map. *)
Definition received (v : Headers.t) : Headers.t :=
  let l := hm_into_iter (HeaderBlock.fields (Headers.header_block v)) in
  Headers.mk (Headers.stream_id v) None
    (HeaderBlock.mk (heard_fields l hm_new) (fields_size l) false (HeaderBlock.pseudo (Headers.header_block v)))
    (Headers.flags v).

Definition allowed_field (e : bytes * bytes) : Prop := field_ok (field_of e).

Lemma allowed_heard e : allowed_field e -> field_ok (canon (field_of e)).
Proof.
  unfold allowed_field. rewrite canon_heard. intros [Hc Ht]. split; [done|]. intros He.
  specialize (Ht He). pose proof (heard_same e) as Hs. unfold BytesStr.eq_str in *.
  apply bool_decide_eq_true in Hs. apply bool_decide_eq_true in Ht. apply bool_decide_eq_true. by etransitivity.
Qed.

Lemma store_fields l : Forall allowed_field l -> forall b,
  let hs := map canon (map field_of l) in
  orderly b hs /\
  fold_left store hs b = HeaderBlock.mk (heard_fields l (HeaderBlock.fields b)) (HeaderBlock.field_size b + fields_size l)
    (HeaderBlock.is_over_size b) (HeaderBlock.pseudo b).
Proof.
  induction 1 as [|e l He Hl IH]; intros b.
  { split; [done|]. cbn. rewrite Z.add_0_r. by destruct b. }
  apply allowed_heard in He. cbn [map]. rewrite canon_heard in *. cbn [fold_left orderly].
  destruct (IH (store b (field_of (e.1, heard e)))) as [Ho ->].
  split; [by split|]. cbn. rewrite heard_len. fold (fields_size l). f_equal. lia.
Qed.

Lemma canon_pseudo_list p : map canon (pseudo_list p) = pseudo_list p.
Proof. by destruct p as [[] [] [] [] [] []]. Qed.

Lemma store_pseudo p :
  orderly HeaderBlock.empty (pseudo_list p) /\
  fold_left store (pseudo_list p) HeaderBlock.empty = HeaderBlock.mk hm_new 0 false p.
Proof.
  pose proof hm_is_empty_new as He.
  destruct p as [[] [] [] [] [] []]; (split; [|reflexivity]); cbn; rewrite ?He; by repeat split.
Qed.

Lemma header_list_heard b :
  Forall allowed_field (hm_into_iter (HeaderBlock.fields b)) ->
  let hs := map canon (header_list b) in
  let l := hm_into_iter (HeaderBlock.fields b) in
  orderly HeaderBlock.empty hs /\
  fold_left store hs HeaderBlock.empty = HeaderBlock.mk (heard_fields l hm_new) (fields_size l) false (HeaderBlock.pseudo b).
Proof.
  intros Hal hs l. unfold hs, header_list. rewrite map_app, canon_pseudo_list.
  destruct (store_pseudo (HeaderBlock.pseudo b)) as [Hp Hf].
  destruct (store_fields l Hal (HeaderBlock.mk hm_new 0 false (HeaderBlock.pseudo b))) as [Ho Hs].
  rewrite orderly_app, fold_left_app, Hf. by split.
Qed.

Lemma counted_canon h : counted (canon h) = counted h.
Proof.
  destruct h as [n v| | | | | |]; [|done..]. change (counted (canon (field_of (n, v))) = counted (field_of (n, v))).
  rewrite canon_heard. cbn. by rewrite heard_len.
Qed.

Lemma total_canon l : total_counted (map canon l) = total_counted l.
Proof. unfold total_counted. induction l as [|h l IH]; [done|]. cbn. by rewrite IH, counted_canon. Qed.

(** *** Delivery *)

(** A header block the encoder does not panic on and the receiver does not refuse: names
    and values are UTF-8 (the iterator unwraps), no field is connection-level. *)
Record deliverable (v : Headers.t) : Prop := {
  dv_id : StreamId.valid (Headers.stream_id v);
  dv_stream : StreamId.is_zero (Headers.stream_id v) = false;
  dv_flags : plain (Headers.flags v);
  dv_utf8 : Forall utf8_field (hm_into_iter (HeaderBlock.fields (Headers.header_block v)));
  dv_allowed : Forall allowed_field (hm_into_iter (HeaderBlock.fields (Headers.header_block v)));
  dv_room : Forall with_room (header_list (Headers.header_block v))
}.

(** The frames [g] of a block are read as [v] by a decoder that follows the encoder. *)
Definition reads_as (max limit : Z) d d' (g : list bytes) (v : Frame.t) : Prop :=
  len g <= limit + 2 ->
  FramedRead.decode_frames (FramedRead.state d None) max limit g = Done (Ok (Some v), FramedRead.state d' None, []).

(** The length field of a frame is the length of its payload. *)
Definition framed (b : bytes) : Prop := be_value (take 3 b) + Z.of_nat HEADER_LEN = len b.

Lemma frame_octets_framed (f : Head.t * bytes) : len f.2 < 2 ^ 24 -> framed (frame_octets f).
Proof.
  intros Hl. pose proof (head_encode_payload f.1 (len f.2) f.2 [] (conj (len_nonneg f.2) Hl) eq_refl) as Hh.
  by rewrite app_nil_r in Hh.
Qed.

Lemma headers_arrive e d v m :
  in_sync e d -> deliverable v -> 0 < m < 2 ^ 24 ->
  let hs := header_list (Headers.header_block v) in
  EncTable.inserted (Encoder.table e) + len hs + 1 < 18446744073709551616 ->
  exists e' block d', into_encoding (Headers.header_block v) e = Done (e', block) /\ in_sync e' d' /\
    EncTable.inserted (Encoder.table e') <= EncTable.inserted (Encoder.table e) + len hs /\
    forall o, block_wire m (Headers.head v) [] block o ->
      exists g, o = concat g /\ Forall framed g /\
        forall max limit, total_counted hs < max -> reads_as max limit d d' g (Frame.Headers (received v)).
Proof.
  intros Hsync [Hid Hz Hfl Hu Hal Hroom] Hm hs HT.
  assert (len (map Header.named hs) = len hs) as Hlen by (unfold len; by rewrite length_map).
  destruct (encode_good e d (map Header.named hs) (map id hs) Hsync) as (block & e' & d' & out & He & Hg & Hexp & Hsync' & Hins);
    [apply expand_named|by rewrite map_id|by rewrite Hlen|].
  rewrite expand_named in Hexp. injection Hexp as <-. rewrite Hlen in Hins.
  destruct (header_list_heard (Headers.header_block v) Hal) as [Hord Hst].
  exists e', block, d'. split_and!; [|done..|].
  { unfold into_encoding. rewrite iter_list by done. exact He. }
  intros o (first & frames & -> & Hf & Hk & Hwf). exists (map frame_octets (first :: frames)). split_and!; [done| |].
  { apply Forall_map. destruct Hwf as (_ & Hl & _). eapply Forall_impl; [exact Hl|]. intros f Hle. apply frame_octets_framed. cbn in Hle. lia. }
  intros max limit Hmax Hlim.
  rewrite (read_block m max limit (Headers.stream_id v) (Headers.flags v) block d d' (map canon hs)); try done.
  - unfold received. fold hs in Hst. by rewrite Hst.
  - by rewrite total_canon.
  - unfold len in *. rewrite length_map in Hlim. simpl length in Hlim. lia.
Qed.

End sending.
