(* ===== verification/WireDelivery.v ===== *)
(** * From one codec to the other

    The writer of one side and the reader of the other, composed: the frames accepted by
    [FramedWrite], whatever the transport does in between, are what [decode_frame]
    answers on the other side of the wire, in order. *)

From S2P Require Import Prelude Effects FrameBase ControlFrames SettingsFrame DataFrame HpackHeader HpackDecoder HpackTable HpackTableInv HpackEncoder HpackEncoderFacts.
From S2P Require Import HeadersFrame HeadersFacts HeaderChunks ProtoErrors FramedRead FramedReadFacts FrameSink FramedWrite FramedWriteFacts HeadersDelivery.
Local Open Scope Z_scope.

Section delivery.
Context `{HeaderPlz} `{!NameHash} `{!HeaderPlzLaws _} `{!NameHashLaws _} `{O : !HeaderMapOps} `{!HeaderMapLaws O} `{!HeaderMapIter}.
Context `{!Transport} `{!TransportLaws _}.

Import FrameEncoder.

(** ** The two ends *)

(** What the reader answers for the frames [l], one after another, up to the first error. *)
Fixpoint read_all (max limit : Z) (s : FramedRead.State) (l : list bytes) :
    outcome (list (result Frame.t ProtoError.t) * FramedRead.State) :=
  match l with
  | [] => Done ([], s)
  | b :: l =>
      let! (r, s) := FramedRead.decode_frame s max limit b in
      match r with
      | Ok None => read_all max limit s l
      | Ok (Some f) =>
          let! (fs, s) := read_all max limit s l in
          Done (Ok f :: fs, s)
      | Err e => Done ([Err e], s)
      end
  end.

(** What a user of the writer does: buffer a frame once there is room, wait for room, flush. *)
Inductive drives : FramedWrite.t -> list Frame.t -> FramedWrite.t -> Prop :=
| drives_nil w : drives w [] w
| drives_buffer w f w1 fs w2 :
    has_capacity (FramedWrite.encoder w) = true \/ FramedWrite.buf_is_empty w = true ->
    FramedWrite.buffer w f = Done (Ok tt, w1) -> drives w1 fs w2 -> drives w (f :: fs) w2
| drives_ready w r w1 fs w2 : FramedWrite.poll_ready w = Done (r, w1) -> drives w1 fs w2 -> drives w fs w2
| drives_flush w r w1 fs w2 : FramedWrite.flush w = Done (r, w1) -> drives w1 fs w2 -> drives w fs w2.

(** The frames the sender may hand over, and the receiver's maximum of a header list. *)
Definition deliverable_frame (m max : Z) (f : Frame.t) : Prop :=
  match f with
  | Frame.Headers v => deliverable v /\ total_counted (header_list (Headers.header_block v)) < max
  | Frame.Data v => frame_wf f /\ len (Data.payload v) <= m
  | _ => frame_wf f
  end.

(** The frame that arrives. *)
Definition arrived (f : Frame.t) : Frame.t :=
  match f with Frame.Headers v => Frame.Headers (received v) | _ => f end.

(** The fields a frame brings to the HPACK table. *)
Definition fields_of (f : Frame.t) : Z :=
  match f with Frame.Headers v => len (header_list (Headers.header_block v)) | _ => 0 end.

Definition total_fields (fs : list Frame.t) : Z := foldr (fun f n => fields_of f + n) 0 fs.

Lemma fields_of_pos f : 0 <= fields_of f.
Proof. destruct f; try done. apply len_nonneg. Qed.

Lemma total_fields_pos fs : 0 <= total_fields fs.
Proof.
  induction fs as [|f fs IH]; [done|]. cbn. fold (total_fields fs). pose proof (fields_of_pos f). lia.
Qed.

Lemma read_all_group max limit l2 : forall l1 s f s',
  FramedRead.decode_frames s max limit l1 = Done (Ok (Some f), s', []) ->
  read_all max limit s (l1 ++ l2) = let! (fs, s) := read_all max limit s' l2 in Done (Ok f :: fs, s).
Proof.
  induction l1 as [|b l1 IH]; intros s f s' Hd; [done|]. cbn [app read_all FramedRead.decode_frames] in *.
  destruct (FramedRead.decode_frame s max limit b) as [[[[f'|]|] s1]|]; try done; cbn [obind] in *.
  - by injection Hd as -> -> ->.
  - by apply IH.
Qed.

(** ** One frame *)

(** The octets of a frame: [g] is how it is cut. *)
Definition arrives (max : Z) (f : Frame.t) (h h' : Encoder.t) d d' (o : bytes) : Prop :=
  in_sync h' d' /\ EncTable.inserted (Encoder.table h') <= EncTable.inserted (Encoder.table h) + fields_of f /\
  exists g, o = concat g /\ Forall framed g /\ forall limit, reads_as max limit d d' g (arrived f).

Lemma simple_arrives e f o d max :
  frame_wf f -> wire f = Some o -> in_sync (hpack e) d -> arrives max f (hpack e) (hpack e) d d o.
Proof.
  intros Hwf Hw Hs. split; [done|]. split; [pose proof (fields_of_pos f); lia|]. exists [o]. split; [cbn; by rewrite app_nil_r|].
  destruct (wire_split f o Hwf Hw) as (h & p & -> & _ & Hl & Hd).
  split; [apply Forall_singleton, (frame_octets_framed (h, p)), Hl|]. intros limit _. cbn [FramedRead.decode_frames]. rewrite Hd by done.
  by destruct f.
Qed.

Lemma wire_sends e f h' o : frame_wf f -> sends e f h' o -> h' = hpack e /\ wire f = Some o.
Proof.
  destruct f as [v| | | |v|v|v|v|v]; try done; cbn [frame_wf sends wire]; try (intros _ [-> ->]; done).
  intros (_ & _ & _ & _ & Hl) [-> ->]. split; [done|]. unfold Data.encode_chunk.
  destruct (Z.leb_spec (len (Data.data v)) usize_max); [done|unfold_ints; lia].
Qed.

Lemma wf_sendable e f : frame_wf f -> (forall v, f = Frame.Data v -> len (Data.payload v) <= max_frame_size e) -> sendable e f.
Proof. intros Hwf Hd. destruct f; try done. by apply Hd. Qed.

(** A frame that may be handed over is accepted and arrives. *)
Lemma frame_arrives e f d max :
  0 < max_frame_size e < 2 ^ 24 -> in_sync (hpack e) d -> deliverable_frame (max_frame_size e) max f ->
  EncTable.inserted (Encoder.table (hpack e)) + fields_of f + 1 < 18446744073709551616 ->
  sendable e f /\
  forall h' o, sends e f h' o -> exists d', arrives max f (hpack e) h' d d' o.
Proof.
  intros Hm Hs Hd HT.
  assert (frame_wf f -> (forall v, f = Frame.Data v -> len (Data.payload v) <= max_frame_size e) ->
    sendable e f /\ forall h' o, sends e f h' o -> exists d', arrives max f (hpack e) h' d d' o) as Hsimple.
  { intros Hwf Hdata. split; [by apply wf_sendable|]. intros h' o Ho. destruct (wire_sends e f h' o Hwf Ho) as [-> Hw].
    exists d. by apply simple_arrives. }
  destruct f as [v|v| | |v|v|v|v|v]; try done; cbn [deliverable_frame] in Hd; try by apply Hsimple.
  - apply Hsimple; [apply Hd|]. intros v' [= ->]. apply Hd.
  - destruct Hd as [Hd Hmax].
    destruct (headers_arrive (hpack e) d v (max_frame_size e) Hs Hd Hm HT) as (e' & block & d' & He & Hs' & Hins & Harr).
    destruct (dv_flags _ Hd) as [Hfl|Hfl].
    all: split; [split; [rewrite Hfl; split; vm_compute; discriminate|]; split; [by unfold Headers.is_end_headers; rewrite Hfl|by exists (e', block)]|].
    all: intros h' o (block' & He' & Ho); rewrite He in He'; injection He' as <- <-; exists d';
      destruct (Harr o Ho) as (g & -> & Hfr & Hg); (split; [done|]); (split; [done|]); exists g; split_and!; [done..|intros limit; by apply Hg].
Qed.

(** ** A sequence of frames *)

(** The frames [fs], cut into [groups], took the wire from [sent] on and the ends from
    [d] to [d']. *)
Definition delivers (max : Z) (fs : list Frame.t) d d' (groups : list (list bytes)) : Prop :=
  length groups = length fs /\ Forall (Forall framed) groups /\
  forall limit, Forall (fun g => len g <= limit + 2) groups ->
    read_all max limit (FramedRead.state d None) (concat groups) =
      Done (map (fun f => Ok (arrived f)) fs, FramedRead.state d' None).

Lemma delivers_cons max f fs d d1 d' h h' o groups :
  arrives max f h h' d d1 o -> delivers max fs d1 d' groups ->
  exists g, o = concat g /\ delivers max (f :: fs) d d' (g :: groups).
Proof.
  intros (_ & _ & g & -> & Hfr & Hg) (Hl & Hfrs & Hgs). exists g. split; [done|]. split; [cbn; by rewrite Hl|].
  split; [by constructor|]. intros limit Hlim. apply Forall_cons in Hlim as [Hlg Hlim]. cbn [concat map].
  rewrite (read_all_group _ _ _ _ _ _ _ (Hg limit Hlg)), (Hgs limit Hlim). done.
Qed.

Lemma drives_arrive max w fs w' : drives w fs w' -> forall sent d,
  on_wire w sent -> in_sync (hpack (FramedWrite.encoder w)) d ->
  Forall (deliverable_frame (max_frame_size (FramedWrite.encoder w)) max) fs ->
  EncTable.inserted (Encoder.table (hpack (FramedWrite.encoder w))) + total_fields fs + 1 < 18446744073709551616 ->
  exists groups d', on_wire w' (sent ++ concat (map (@concat _) groups)) /\
    in_sync (hpack (FramedWrite.encoder w')) d' /\ delivers max fs d d' groups.
Proof.
  induction 1 as [w|w f w1 fs w2 Hroom Hb Hdr IH|w r w1 fs w2 Hr Hdr IH|w r w1 fs w2 Hr Hdr IH]; intros sent d Hw Hs Hall HT.
  - exists [], d. rewrite app_nil_r. by split_and!.
  - apply Forall_cons in Hall as [Hf Hall]. cbn [total_fields foldr] in HT. fold (total_fields fs) in HT.
    pose proof (total_fields_pos fs). pose proof (eo_max _ (proj1 Hw)) as Hm.
    destruct (frame_arrives (FramedWrite.encoder w) f d max Hm Hs Hf) as [Hsend Harr]; [lia|].
    assert (next (FramedWrite.encoder w) = None) as Hn.
    { destruct Hroom as [Hc|He]; [by apply has_capacity_next|by destruct (buf_is_empty_spec w sent Hw He)]. }
    destruct (framed_buffer_spec w sent f Hw Hn Hsend) as ([r' w''] & Hb' & _ & Hmax & o & Ho & Hw1).
    rewrite Hb in Hb'. injection Hb' as <- <-. cbn [fst snd] in *.
    destruct (Harr _ _ Ho) as (d1 & Ha). pose proof Ha as (Hs1 & Hins & _).
    destruct (IH (sent ++ o) d1 Hw1 Hs1) as (groups & d' & Hw2 & Hs2 & Hdel); [by rewrite Hmax|lia|].
    destruct (delivers_cons _ _ _ _ _ _ _ _ _ _ Ha Hdel) as (g & -> & Hdel').
    exists (g :: groups), d'. cbn [map concat]. by rewrite app_assoc.
  - destruct (poll_ready_spec w sent Hw) as ([r' w''] & Hr' & Hw1 & (Hh & Hm & _) & _). rewrite Hr in Hr'. injection Hr' as <- <-.
    cbn [fst snd] in *. apply IH; [done|..]; by rewrite ?Hh, ?Hm.
  - destruct (writer_flush_spec w sent Hw) as ([r' w''] & Hr' & Hw1 & (Hh & Hm & _) & _). rewrite Hr in Hr'. injection Hr' as <- <-.
    cbn [fst snd] in *. apply IH; [done|..]; by rewrite ?Hh, ?Hm.
Qed.

Lemma new_encoder io :
  hpack (FramedWrite.encoder (FramedWrite.new io)) = Encoder.new DEFAULT_SETTINGS_HEADER_TABLE_SIZE 0 /\
  max_frame_size (FramedWrite.encoder (FramedWrite.new io)) = DEFAULT_MAX_FRAME_SIZE.
Proof. unfold FramedWrite.new. by destruct (is_write_vectored io). Qed.


End delivery.
