(* ===== verification/WireCodec.v ===== *)
(** * The codec of a connection

    Models [src/src/codec/mod.rs] and the type [FramedRead] of
    [src/src/codec/framed_read.rs]: the reader of frames over the length-delimited
    framing, the limits it is given, and [Codec], which is the reader around the writer
    around the transport.

    The length-delimited framing ([tokio_util::codec]) is third-party: a parameter that
    answers whole frames, head included. *)

From S2P Require Import Prelude FrameBase ControlFrames SettingsFrame DataFrame HpackHeader HpackDecoder.
From S2P Require Import HpackTable HpackEncoder HeadersFrame ProtoErrors FramedRead FrameSink FramedWrite.

(** An [io::Error], and whether what it carries is a [LengthDelimitedCodecError]. *)
Definition read_error : Type := io_error * bool.

Class Delimiter `{Transport} : Type := {
  delimiter : Type;
  (** [length_delimited::Builder] with a length field of three octets, an adjustment of
      nine and nothing skipped. *)
  delimiter_new : delimiter;
  max_frame_length : delimiter -> Z;
  set_max_frame_length : delimiter -> Z -> delimiter;
  (** [poll_next]: reads from the transport when it has to. *)
  poll_next_bytes : delimiter -> io -> poll (option (result bytes read_error)) * delimiter * io;
  (** How many frames are answered before the next [Pending], end or error. *)
  frames_ready : delimiter -> io -> nat
}.

Class DelimiterLaws `{T : Transport} (D : Delimiter) : Prop := {
  set_max_frame_length_spec d v : max_frame_length (set_max_frame_length d v) = v;
  new_max_frame_length : 0 < max_frame_length delimiter_new;
  poll_next_max d s : max_frame_length (poll_next_bytes d s).1.2 = max_frame_length d;
  (** A frame has its head. *)
  poll_next_whole d s b d' s' :
    poll_next_bytes d s = (Ready (Some (Ok b)), d', s') -> (HEADER_LEN <= length b)%nat /\ all_u8 b;
  poll_next_progress d s b d' s' :
    poll_next_bytes d s = (Ready (Some (Ok b)), d', s') -> (frames_ready d' s' < frames_ready d s)%nat;
  (** Reading writes nothing. *)
  poll_next_written d s : io_written (poll_next_bytes d s).2 = io_written s
}.

(** ** [FramedRead] *)

(** [map_err] *)
Definition map_read_err (err : read_error) : ProtoError.t :=
  if bool_decide (io_kind err.1 = InvalidData) && err.2 then ProtoError.library_go_away Reason.FRAME_SIZE_ERROR
  else proto_of_io err.1.

Module FramedReader.

Section reader.
Context `{HeaderPlz} `{!HeaderMapOps} `{!Transport} `{!Delimiter}.

(** [struct FramedRead<T>]; its [T] is the writer, kept beside it in [WireCodec]. *)
Record t : Type := mk {
  inner : delimiter;
  hpack : Decoder.t;
  max_header_list_size : Z;
  max_continuation_frames : Z;
  partial : option FramedRead.Partial
}.

#[global] Instance eta_t : Eta t := fun r =>
  mk (inner r) (hpack r) (max_header_list_size r) (max_continuation_frames r) (partial r).

Definition new (inner : delimiter) : outcome t :=
  let max_header_list_size := FramedRead.DEFAULT_SETTINGS_MAX_HEADER_LIST_SIZE in
  let! max_continuation_frames :=
    FramedRead.calc_max_continuation_frames max_header_list_size (max_frame_length inner) in
  Done (mk inner (Decoder.new DEFAULT_SETTINGS_HEADER_TABLE_SIZE) max_header_list_size max_continuation_frames None).

Definition max_frame_size (self : t) : Z := max_frame_length (inner self).

Definition set_max_frame_size (self : t) (val : Z) : outcome t :=
  let! _ := assert ((DEFAULT_MAX_FRAME_SIZE <=? val) && (val <=? MAX_MAX_FRAME_SIZE)) in
  let self := self <| inner ::= (fun d => set_max_frame_length d val) |> in
  let! n := FramedRead.calc_max_continuation_frames (max_header_list_size self) val in
  Done (self <| max_continuation_frames := n |>).

Definition set_max_header_list_size (self : t) (val : Z) : outcome t :=
  let self := self <| max_header_list_size := val |> in
  let! n := FramedRead.calc_max_continuation_frames val (max_frame_size self) in
  Done (self <| max_continuation_frames := n |>).

Definition set_header_table_size (self : t) (val : Z) : t :=
  self <| hpack ::= (fun d => Decoder.queue_size_update d val) |>.

(** What [decode_frame] gets by [&mut]. *)
Definition state (self : t) : FramedRead.State := FramedRead.state (hpack self) (partial self).
Definition with_state (self : t) (s : FramedRead.State) : t :=
  self <| hpack := FramedRead.hpack s |> <| partial := FramedRead.partial_inout s |>.

(** The loop of [poll_next]; a frame that is absorbed is followed by the next one. *)
Fixpoint poll_loop (fuel : nat) (self : t) (s : io) :
    outcome (poll (option (result Frame.t ProtoError.t)) * t * io) :=
  match fuel with
  | O => Panic
  | S fuel =>
      let '(r, d, s) := poll_next_bytes (inner self) s in
      let self := self <| inner := d |> in
      match r with
      | Pending => Done (Pending, self, s)
      | Ready None => Done (Ready None, self, s)
      | Ready (Some (Err e)) => Done (Ready (Some (Err (map_read_err e))), self, s)
      | Ready (Some (Ok bytes)) =>
          let! (r, st) := FramedRead.decode_frame (state self) (max_header_list_size self)
            (max_continuation_frames self) bytes in
          let self := with_state self st in
          match r with
          | Err e => Done (Ready (Some (Err e)), self, s)
          | Ok (Some frame) => Done (Ready (Some (Ok frame)), self, s)
          | Ok None => poll_loop fuel self s
          end
      end
  end.

Definition poll_next (self : t) (s : io) : outcome (poll (option (result Frame.t ProtoError.t)) * t * io) :=
  poll_loop (S (frames_ready (inner self) s)) self s.

End reader.

End FramedReader.

(** ** [Codec] *)

Module WireCodec.

Section codec.
Context `{HeaderPlz} `{!NameHash} `{!HeaderMapOps} `{!HeaderMapIter} `{!Transport} `{!Delimiter}.

(** [FramedRead<FramedWrite<T, B>>], the writer beside the reader. *)
Record t : Type := mk {
  framed_read : FramedReader.t;
  framed_write : FramedWrite.t
}.

#[global] Instance eta_t : Eta t := fun c => mk (framed_read c) (framed_write c).

Definition with_max_recv_frame_size (s : io) (max_frame_size : Z) : outcome t :=
  let framed_write := FramedWrite.new s in
  let! inner := FramedReader.new delimiter_new in
  let! inner := FramedReader.set_max_frame_size inner max_frame_size in
  Done (mk inner framed_write).

Definition new (s : io) : outcome t := with_max_recv_frame_size s DEFAULT_MAX_FRAME_SIZE.

Definition set_max_recv_frame_size (c : t) (val : Z) : outcome t :=
  let! r := FramedReader.set_max_frame_size (framed_read c) val in Done (c <| framed_read := r |>).
Definition max_send_frame_size (c : t) : Z := FramedWrite.max_frame_size (framed_write c).
Definition set_max_send_frame_size (c : t) (val : Z) : outcome t :=
  let! w := FramedWrite.set_max_frame_size (framed_write c) val in Done (c <| framed_write := w |>).
Definition set_send_header_table_size (c : t) (val : Z) : t :=
  c <| framed_write ::= (fun w => FramedWrite.set_header_table_size w val) |>.
Definition set_recv_header_table_size (c : t) (val : Z) : t :=
  c <| framed_read ::= (fun r => FramedReader.set_header_table_size r val) |>.
Definition set_max_recv_header_list_size (c : t) (val : Z) : outcome t :=
  let! r := FramedReader.set_max_header_list_size (framed_read c) val in Done (c <| framed_read := r |>).
Definition take_last_data_frame (c : t) : option (Data.t bytes) * t :=
  let (f, w) := FramedWrite.take_last_data_frame (framed_write c) in (f, c <| framed_write := w |>).
Definition inc_write_buffer (c : t) (size : Z) : t :=
  c <| framed_write ::= (fun w => FramedWrite.inc_write_buffer w size) |>.

(** An operation of the writer. *)
Definition on_writer {A} (f : FramedWrite.t -> outcome (A * FramedWrite.t)) (c : t) : outcome (A * t) :=
  let! (a, w) := f (framed_write c) in Done (a, c <| framed_write := w |>).

Definition poll_ready (c : t) : outcome (poll (result unit io_error) * t) := on_writer FramedWrite.poll_ready c.
Definition buffer (c : t) (item : Frame.t) : outcome (result unit UserError.t * t) :=
  on_writer (fun w => FramedWrite.buffer w item) c.
Definition flush (c : t) : outcome (poll (result unit io_error) * t) := on_writer FramedWrite.flush c.
Definition shutdown (c : t) : outcome (poll (result unit io_error) * t) := on_writer FramedWrite.shutdown c.
Definition write_buf_empty (c : t) : bool := FramedWrite.buf_is_empty (framed_write c).

Definition poll_next (c : t) : outcome (poll (option (result Frame.t ProtoError.t)) * t) :=
  let! (r, inner, s) := FramedReader.poll_next (framed_read c) (FramedWrite.inner (framed_write c)) in
  Done (r, c <| framed_read := inner |> <| framed_write ::= (fun w => w <| FramedWrite.inner := s |>) |>).

End codec.

End WireCodec.
