(* ===== verification/Preface.v ===== *)
(** * The connection preface

    Models [src/src/preface/mod.rs] and [src/src/preface/error.rs]: the handshake a
    connection begins with, on the client's side and on the server's.  An [async fn] is a
    machine that stops at each [await]: a [Stage] per [await], and [poll], which runs from
    one to the next that is not ready.

    The futures [write_all] and [read_exact] of tokio are third-party: parameters with the
    laws the handshake relies on. *)

From Stdlib Require Import String.
From S2P Require Import Prelude FrameBase ControlFrames SettingsFrame DataFrame HpackHeader HpackDecoder.
From S2P Require Import HpackTable HpackEncoder HeadersFrame ProtoErrors FramedRead FrameSink FramedWrite WireCodec.
Local Open Scope Z_scope.

(** ** Third-party code *)

(** The futures with their state: what is left to write, what has been read. *)
Class AsyncIo `{Transport} : Type := {
  poll_write_all : io -> bytes -> poll (result unit io_error) * bytes * io;
  poll_read_exact : io -> nat -> bytes -> poll (result unit io_error) * bytes * io
}.

Class AsyncIoLaws `{T : Transport} (A : AsyncIo) : Prop := {
  write_all_spec s b r b' s' :
    poll_write_all s b = (r, b', s') ->
    (exists p, b = p ++ b' /\ io_written s' = io_written s ++ p) /\ (r = Ready (Ok tt) -> b' = []);
  read_exact_written s n f : io_written (poll_read_exact s n f).2 = io_written s;
  read_exact_full s n f f' s' : poll_read_exact s n f = (Ready (Ok tt), f', s') -> length f' = n
}.

(** ** Errors *)

Module PrefaceError.

Inductive t : Type :=
| InvalidPreface
| Io (context : bytes) (source : io_error)
| Codec (context : bytes) (source : UserError.t)
| Proto (context : bytes) (source : ProtoError.t)
| Eof
| WrongFrame (kind : Kind.t).

End PrefaceError.

(** [ContextExt::ctx] *)
Definition ctx {A E} (f : E -> PrefaceError.t) (r : result A E) : result A PrefaceError.t :=
  match r with Ok a => Ok a | Err e => Err (f e) end.

(** ** The handshake *)

(** ["PRI * HTTP/2.0\r\n\r\nSM\r\n\r\n"] *)
Definition PREFACE : bytes :=
  let crlf := [13; 10] in str "PRI * HTTP/2.0" ++ crlf ++ crlf ++ str "SM" ++ crlf ++ crlf.

Module PrefaceConn.

Section preface.
Context `{HeaderPlz} `{!NameHash} `{!HeaderMapOps} `{!HeaderMapIter} `{!Transport} `{!AsyncIo} `{!Delimiter}.

(** Where the handshake waits, and with what. *)
Inductive Stage : Type :=
| Start (s : io)
| WritePreface (rest : bytes) (s : io)
| FlushSettings (c : WireCodec.t)
| ReadPreface (filled : bytes) (c : WireCodec.t)
| ReadSettings (c : WireCodec.t)
| FlushGoAway (c : WireCodec.t) (reason : Reason.t)
| FlushAck (c : WireCodec.t) (remote : Settings.t)
(** It has returned; the transport as it was left. *)
| Finished (s : io).

Definition output : Type := result (WireCodec.t * Settings.t) PrefaceError.t.
Definition step : Type := outcome (poll output * Stage).

(** [Codec::get_mut] *)
Definition get_mut (c : WireCodec.t) : io := FramedWrite.inner (WireCodec.framed_write c).
Definition with_io (c : WireCodec.t) (s : io) : WireCodec.t :=
  c <| WireCodec.framed_write ::= (fun w => w <| FramedWrite.inner := s |>) |>.

Definition fail (e : PrefaceError.t) (s : io) : step := Done (Ready (Err e), Finished s).

(** [codec.buffer(f).ctx(context)?; k] *)
Definition buffer_then (context : string) (c : WireCodec.t) (f : Frame.t) (k : WireCodec.t -> step) : step :=
  let! (r, c) := WireCodec.buffer c f in
  match ctx (PrefaceError.Codec (str context)) r with
  | Ok _ => k c
  | Err e => fail e (get_mut c)
  end.

(** [Self::flush(codec).await.ctx(context)?; k], waiting in [stage] *)
Definition flush_then (context : string) (stage : WireCodec.t -> Stage) (c : WireCodec.t)
    (k : WireCodec.t -> step) : step :=
  let! (r, c) := WireCodec.flush c in
  match r with
  | Pending => Done (Pending, stage c)
  | Ready r =>
      match ctx (PrefaceError.Io (str context)) r with
      | Ok _ => k c
      | Err e => fail e (get_mut c)
      end
  end.

Definition apply_peer_settings (c : WireCodec.t) (settings : Settings.t) : outcome WireCodec.t :=
  let c :=
    match Settings.header_table_size settings with
    | Some val => WireCodec.set_send_header_table_size c val
    | None => c
    end in
  match Settings.max_frame_size settings with
  | Some val => WireCodec.set_max_send_frame_size c val
  | None => Done c
  end.

(** From the SETTINGS of the peer to the end. *)
Definition flush_ack (c : WireCodec.t) (remote : Settings.t) : step :=
  flush_then "flush settings ack" (fun c => FlushAck c remote) c (fun c =>
  Done (Ready (Ok (c, remote)), Finished (get_mut c))).

Definition send_ack (c : WireCodec.t) (remote : Settings.t) : step :=
  let! c := apply_peer_settings c remote in
  buffer_then "buffer settings ack" c (Frame.Settings Settings.ack) (fun c =>
  flush_ack c remote).

(** [send_goaway_response], and the error after it. *)
Definition flush_goaway (c : WireCodec.t) (reason : Reason.t) : step :=
  flush_then "flush GOAWAY response" (fun c => FlushGoAway c reason) c (fun c =>
  fail (PrefaceError.Proto (str "peer sent GOAWAY") (ProtoError.library_go_away reason)) (get_mut c)).

Definition send_goaway_response (c : WireCodec.t) (reason : Reason.t) : step :=
  buffer_then "buffer GOAWAY response" c (Frame.GoAway (GoAway.new StreamId.ZERO reason)) (fun c =>
  flush_goaway c reason).

Definition read_peer_settings (c : WireCodec.t) : step :=
  let! (frame, c) := WireCodec.poll_next c in
  match frame with
  | Pending => Done (Pending, ReadSettings c)
  | Ready None => fail PrefaceError.Eof (get_mut c)
  | Ready (Some (Ok (Frame.Settings settings))) => send_ack c settings
  | Ready (Some (Ok other)) => fail (PrefaceError.WrongFrame (Frame.kind other)) (get_mut c)
  | Ready (Some (Err (ProtoError.GoAway _ reason _))) => send_goaway_response c reason
  | Ready (Some (Err e)) => fail (PrefaceError.Proto (str "decode settings frame") e) (get_mut c)
  end.

Definition read_preface (filled : bytes) (c : WireCodec.t) : step :=
  let '(r, filled, s) := poll_read_exact (get_mut c) 24 filled in
  let c := with_io c s in
  match r with
  | Pending => Done (Pending, ReadPreface filled c)
  | Ready r =>
      match ctx (PrefaceError.Io (str "read preface")) r with
      | Err e => fail e (get_mut c)
      | Ok _ =>
          if bool_decide (filled = PREFACE) then read_peer_settings c
          else fail PrefaceError.InvalidPreface (get_mut c)
      end
  end.

Definition flush_settings (role : Role.t) (c : WireCodec.t) : step :=
  flush_then "flush local settings" FlushSettings c (fun c =>
  match role with
  | Role.Client => read_peer_settings c
  | Role.Server => read_preface [] c
  end).

Definition send_settings (role : Role.t) (local_settings : Settings.t) (s : io) : step :=
  let! c := WireCodec.new s in
  buffer_then "buffer local settings" c (Frame.Settings local_settings) (flush_settings role).

Definition write_preface (role : Role.t) (local_settings : Settings.t) (rest : bytes) (s : io) : step :=
  let '(r, rest, s) := poll_write_all s rest in
  match r with
  | Pending => Done (Pending, WritePreface rest s)
  | Ready r =>
      match ctx (PrefaceError.Io (str "write preface")) r with
      | Ok _ => send_settings role local_settings s
      | Err e => fail e s
      end
  end.

(** [handshake], [client_handshake], [server_handshake]: a future that has returned must
    not be polled again. *)
Definition poll (role : Role.t) (local_settings : Settings.t) (stage : Stage) : step :=
  match stage with
  | Start s =>
      match role with
      | Role.Client => write_preface role local_settings PREFACE s
      | Role.Server => send_settings role local_settings s
      end
  | WritePreface rest s => write_preface role local_settings rest s
  | FlushSettings c => flush_settings role c
  | ReadPreface filled c => read_preface filled c
  | ReadSettings c => read_peer_settings c
  | FlushGoAway c reason => flush_goaway c reason
  | FlushAck c remote => flush_ack c remote
  | Finished _ => Panic
  end.

End preface.

End PrefaceConn.
