(* ===== verification/ProtoHandlers.v ===== *)
(** * The handlers of PING, SETTINGS and GOAWAY

    Models [src/src/proto/ping_pong.rs], [src/src/proto/settings.rs] and
    [src/src/proto/go_away.rs], against the [FrameSink] interface of the codec. *)

From S2P Require Import Prelude FrameBase ControlFrames SettingsFrame HpackHeader HeadersFrame.
From S2P Require Import ProtoErrors FramedRead FrameSink.

(** [x.expect(..)] on a [Result]. *)
Definition expect {A E} (r : result A E) : outcome A :=
  match r with Ok a => Done a | Err _ => Panic end.

(** [dst.poll_ready(cx)?.is_ready()]: not ready, an error, or [k] on the sink. *)
Definition when_ready `{FrameSink} {X E} (conv : io_error -> E) (dst : sink)
    (pending : sink -> outcome (poll (result unit E) * X * sink))
    (failed : E -> sink -> outcome (poll (result unit E) * X * sink))
    (k : sink -> outcome (poll (result unit E) * X * sink)) :
    outcome (poll (result unit E) * X * sink) :=
  match poll_ready dst with
  | (Pending, dst) => pending dst
  | (Ready (Err e), dst) => failed (conv e) dst
  | (Ready (Ok _), dst) => k dst
  end.

Module PingHandler.

Record PendingPing : Type := mkPending { payload : bytes; sent : bool }.

Record t : Type := mk {
  pending_ping : option PendingPing;
  pending_pong : option bytes
}.

#[global] Instance eta_t : Eta t := fun h => mk (pending_ping h) (pending_pong h).

Inductive PingAction : Type := MustAck | Unknown | Shutdown.

Definition new : t := mk None None.

Definition handle (h : t) (ping : Ping.t) : PingAction * t :=
  if negb (Ping.ack ping) then (MustAck, h <| pending_pong := Some (Ping.payload ping) |>)
  else
    match pending_ping h with
    | Some pending =>
        if decide (payload pending = Ping.SHUTDOWN) then (Shutdown, h <| pending_ping := None |>)
        else (Unknown, h <| pending_ping := Some pending |>)
    | None => (Unknown, h)
    end.

Section poll.
Context `{FrameSink}.

(** The first half of [poll_pending]: the pong. *)
Definition poll_pong (h : t) (dst : sink) (k : t -> sink -> outcome (poll (result unit io_error) * t * sink)) :
    outcome (poll (result unit io_error) * t * sink) :=
  match pending_pong h with
  | Some pong =>
      let taken := h <| pending_pong := None |> in
      when_ready id dst
        (fun dst => Done (Pending, taken <| pending_pong := Some pong |>, dst))
        (fun e dst => Done (Ready (Err e), taken, dst))
        (fun dst =>
           let! (r, dst) := sink_buffer dst (Frame.Ping (Ping.pong pong)) in
           let! _ := expect r in k taken dst)
  | None => k h dst
  end.

Definition poll_pending (h : t) (dst : sink) : outcome (poll (result unit io_error) * t * sink) :=
  poll_pong h dst (fun h dst =>
    match pending_ping h with
    | Some ping =>
        if sent ping then Done (Ready (Ok tt), h, dst)
        else
          when_ready id dst
            (fun dst => Done (Pending, h, dst))
            (fun e dst => Done (Ready (Err e), h, dst))
            (fun dst =>
               let! (r, dst) := sink_buffer dst (Frame.Ping (Ping.new (payload ping))) in
               let! _ := expect r in
               Done (Ready (Ok tt), h <| pending_ping := Some (mkPending (payload ping) true) |>, dst))
    | None => Done (Ready (Ok tt), h, dst)
    end).

End poll.

Definition ping_shutdown (h : t) : outcome t :=
  let! _ := assert (match pending_ping h with None => true | Some _ => false end) in
  Done (h <| pending_ping := Some (mkPending Ping.SHUTDOWN false) |>).

Definition send_ping (h : t) (p : bytes) : t := h <| pending_ping := Some (mkPending p false) |>.

Definition pending_ping_payload (h : t) : option bytes * t :=
  (option_map payload (pending_ping h), h <| pending_ping := None |>).

End PingHandler.

Module SettingsHandler.

Inductive SettingsAction : Type := ActionOk | ApplyLocal (s : Settings.t).

Inductive Local : Type :=
| ToSend (s : Settings.t)
| WaitingAck (s : Settings.t)
| Synced.

Record t : Type := mk { local : Local; remote : option Settings.t }.

#[global] Instance eta_t : Eta t := fun h => mk (local h) (remote h).

Definition new (l : Settings.t) : t := mk (WaitingAck l) None.

Definition recv (h : t) (frame : Settings.t) : result SettingsAction ProtoError.t * t :=
  if Settings.is_ack frame then
    match local h with
    | WaitingAck settings => (Ok (ApplyLocal settings), h <| local := Synced |>)
    | ToSend _ | Synced => (Err (ProtoError.library_go_away Reason.PROTOCOL_ERROR), h)
    end
  else (Ok ActionOk, h <| remote := Some frame |>).

Section poll.
Context `{FrameSink}.

(** [apply] is [streams.apply_remote_settings] on the streams [X]. *)
Definition poll_remote_settings {X} (apply : Settings.t -> X -> outcome (result unit ProtoError.t * X))
    (h : t) (dst : sink) (streams : X) :
    outcome (poll (result unit ProtoError.t) * (t * X) * sink) :=
  match remote h with
  | Some settings =>
      when_ready proto_of_io dst
        (fun dst => Done (Pending, (h, streams), dst))
        (fun e dst => Done (Ready (Err e), (h, streams), dst))
        (fun dst =>
           let! (r, dst) := sink_buffer dst (Frame.Settings Settings.ack) in
           let! _ := expect r in
           let! (r, streams) := apply settings streams in
           match r with
           | Err e => Done (Ready (Err e), (h, streams), dst)
           | Ok _ =>
               let dst := match Settings.header_table_size settings with
                          | Some val => set_send_header_table_size dst val
                          | None => dst
                          end in
               let! dst := match Settings.max_frame_size settings with
                           | Some val => set_max_send_frame_size dst val
                           | None => Done dst
                           end in
               Done (Ready (Ok tt), (h <| remote := None |>, streams), dst)
           end)
  | None => Done (Ready (Ok tt), (h <| remote := None |>, streams), dst)
  end.

Definition poll_local_settings (h : t) (dst : sink) :
    outcome (poll (result unit ProtoError.t) * t * sink) :=
  match local h with
  | ToSend settings =>
      when_ready proto_of_io dst
        (fun dst => Done (Pending, h, dst))
        (fun e dst => Done (Ready (Err e), h, dst))
        (fun dst =>
           let! (r, dst) := sink_buffer dst (Frame.Settings settings) in
           let! _ := expect r in
           Done (Ready (Ok tt), h <| local := WaitingAck settings |>, dst))
  | WaitingAck _ | Synced => Done (Ready (Ok tt), h, dst)
  end.

End poll.

End SettingsHandler.

Module GoAwayHandler.

Record GoingAway : Type := mkGoing { last_processed_id : StreamId.t; reason : Reason.t }.

Record t : Type := mk {
  close_now : bool;
  going_away : option GoingAway;
  is_user_initiated : bool;
  pending : option GoAway.t
}.

#[global] Instance eta_t : Eta t := fun g =>
  mk (close_now g) (going_away g) (is_user_initiated g) (pending g).

Definition new : t := mk false None false None.

Definition enqueue_go_away (g : t) (f : GoAway.t) : outcome t :=
  let! _ := assert (match going_away g with
                    | Some ga => GoAway.last_stream_id f <=? last_processed_id ga
                    | None => true
                    end) in
  Done (g <| going_away := Some (mkGoing (GoAway.last_stream_id f) (GoAway.error_code f)) |>
          <| pending := Some f |>).

Definition go_away_now (g : t) (f : GoAway.t) : outcome t :=
  let g := g <| close_now := true |> in
  match going_away g with
  | Some ga =>
      if (last_processed_id ga =? GoAway.last_stream_id f) && (reason ga =? GoAway.error_code f)
      then Done g
      else enqueue_go_away g f
  | None => enqueue_go_away g f
  end.

Definition go_away_from_user (g : t) (f : GoAway.t) : outcome t :=
  go_away_now (g <| is_user_initiated := true |>) f.

Definition is_none {A} (o : option A) : bool := match o with None => true | Some _ => false end.

Definition is_going_away (g : t) : bool := negb (is_none (going_away g)).

Definition should_close_now (g : t) : bool := is_none (pending g) && close_now g.

Definition should_close_on_idle (g : t) : bool :=
  negb (close_now g) &&
  match going_away g with
  | Some ga => negb (last_processed_id ga =? StreamId.MAX)
  | None => false
  end.

(** [Poll<Option<io::Result<Reason>>>] *)
Definition send_pending_go_away `{FrameSink} (g : t) (dst : sink) :
    outcome (poll (option (result Reason.t io_error)) * t * sink) :=
  match pending g with
  | Some frame =>
      let taken := g <| pending := None |> in
      match poll_ready dst with
      | (Pending, dst) => Done (Pending, taken <| pending := Some frame |>, dst)
      | (Ready (Err e), dst) => Done (Ready (Some (Err e)), taken, dst)
      | (Ready (Ok _), dst) =>
          let! (r, dst) := sink_buffer dst (Frame.GoAway frame) in
          let! _ := expect r in
          Done (Ready (Some (Ok (GoAway.error_code frame))), taken, dst)
      end
  | None =>
      if should_close_now g then
        match option_map reason (going_away g) with
        | Some r => Done (Ready (Some (Ok r)), g, dst)
        | None => Done (Ready None, g, dst)
        end
      else Done (Ready None, g, dst)
  end.

End GoAwayHandler.
