(* ===== verification/StreamRec.v ===== *)
(** * The stream record

    Models [src/src/proto/streams/stream.rs] and the [Next] trait of
    [store/queue.rs]: the fields a stream carries, its queries and counters, its
    content-length accounting, and the six intrusive links through which it is put
    in the queues of the connection.  A waker is an abstract number: taking it out
    of its slot is modelled, the scheduling of the task it wakes is not. *)

From S2P Require Import Prelude FrameBase ControlFrames HpackHeader HeadersFrame.
From S2P Require Import ProtoErrors StreamState FlowWindow SlabLib FrameBuffer.

(** ** Keys and queue heads *)

Module Key.

(** [store::Key]: a slab index and, as an ABA guard, the stream id. *)
Record t : Type := mk { index : nat; stream_id : StreamId.t }.

#[global] Instance eq_dec : EqDecision t.
Proof. solve_decision. Defined.

End Key.

Module QueueIndices.

(** [store::Indices] *)
Record t : Type := mk { head : Key.t; tail : Key.t }.

#[global] Instance eta_t : Eta t := fun i => mk (head i) (tail i).

End QueueIndices.

(** The only field of [Queue<N>]; [N] is the [Next] instance its operations use. *)
Record queue : Type := mkQueue { indices : option QueueIndices.t }.

(** ** Content length *)

Module ContentLength.

Inductive t : Type :=
| Head
| Omitted
| Remaining (total rem : Z).

Definition is_head (c : t) : bool := match c with Head => true | _ => false end.

End ContentLength.

(** ** Streams *)

Module Stream.

Record t : Type := mk {
  id : StreamId.t;
  state : State.t;
  ref_count : Z;
  is_counted : bool;
  send_flow : FlowControl.t;
  remaining_data_len : option Z;
  connection_window_allocated : Z;
  next_pending_send : option Key.t;
  is_pending_send : bool;
  pending_send : Deque.t;
  next_pending_send_capacity : option Key.t;
  is_pending_send_capacity : bool;
  next_open : option Key.t;
  is_pending_open : bool;
  curr_buf_len : Z;
  is_buf_limit_reached : bool;
  recv_flow : FlowControl.t;
  content_length : ContentLength.t;
  is_recv : bool;
  recv_task : option Z;
  next_pending_accept : option Key.t;
  is_pending_accept : bool;
  pending_recv : Deque.t;
  next_pending_complete : option Key.t;
  is_pending_complete : bool;
  reset_at : option Z;
  next_reset_expire : option Key.t;
  pending_push_promises : queue;
  is_sending_trailer : bool
}.

#[global] Instance eta_t : Eta t := fun s =>
  mk (id s) (state s) (ref_count s) (is_counted s) (send_flow s) (remaining_data_len s)
     (connection_window_allocated s) (next_pending_send s) (is_pending_send s)
     (pending_send s) (next_pending_send_capacity s) (is_pending_send_capacity s)
     (next_open s) (is_pending_open s) (curr_buf_len s) (is_buf_limit_reached s)
     (recv_flow s) (content_length s) (is_recv s) (recv_task s) (next_pending_accept s)
     (is_pending_accept s) (pending_recv s) (next_pending_complete s)
     (is_pending_complete s) (reset_at s) (next_reset_expire s)
     (pending_push_promises s) (is_sending_trailer s).

Definition new (id : StreamId.t) (init_send_window init_recv_window : Z) : t :=
  {| id := id;
     state := State.Idle;
     ref_count := 0;
     is_counted := false;
     send_flow := FlowControl.new init_send_window;
     remaining_data_len := None;
     connection_window_allocated := 0;
     next_pending_send := None;
     is_pending_send := false;
     pending_send := Deque.new;
     next_pending_send_capacity := None;
     is_pending_send_capacity := false;
     next_open := None;
     is_pending_open := false;
     curr_buf_len := 0;
     is_buf_limit_reached := false;
     recv_flow := FlowControl.new init_recv_window;
     content_length := ContentLength.Omitted;
     is_recv := true;
     recv_task := None;
     next_pending_accept := None;
     is_pending_accept := false;
     pending_recv := Deque.new;
     next_pending_complete := None;
     is_pending_complete := false;
     reset_at := None;
     next_reset_expire := None;
     pending_push_promises := mkQueue None;
     is_sending_trailer := false |}.

Definition ref_inc (s : t) : outcome t :=
  let! _ := assert (ref_count s <? usize_max) in
  Done (s <| ref_count ::= (fun n => n + 1) |>).

Definition ref_dec (s : t) : outcome t :=
  let! _ := assert (ref_count s >? 0) in
  Done (s <| ref_count ::= (fun n => n - 1) |>).

Definition is_none {A} (o : option A) : bool := match o with None => true | Some _ => false end.

Definition is_canceled_interest (s : t) : bool :=
  (ref_count s =? 0) && negb (State.is_closed (state s)).

Definition is_closed (s : t) : bool :=
  State.is_closed (state s) && Deque.is_empty (pending_send s) &&
  is_none (remaining_data_len s).

Definition is_released (s : t) : bool :=
  is_closed s && (ref_count s =? 0) &&
  negb (is_pending_send s) && negb (is_pending_send_capacity s) &&
  negb (is_pending_open s) && negb (is_pending_accept s) &&
  negb (is_pending_complete s) && is_none (reset_at s).

Definition is_send_ready (s : t) : bool := negb (is_pending_open s).

Definition is_pending_reset_expiration (s : t) : bool := negb (is_none (reset_at s)).

(** [notify_recv]: the waker is taken and woken. *)
Definition notify_recv (s : t) : t := s <| recv_task := None |>.

Definition set_reset (s : t) (reason : Reason.t) (initiator : Initiator.t) : t :=
  notify_recv (s <| state ::= (fun st => State.set_reset st (id s) reason initiator) |>).

(** The accessor [content_length()]. *)
Definition get_content_length (s : t) : option Z :=
  match content_length s with ContentLength.Remaining total _ => Some total | _ => None end.

Definition ensure_content_length_zero (s : t) : result unit unit :=
  match content_length s with
  | ContentLength.Remaining _ rem => if rem =? 0 then Ok tt else Err tt
  | _ => Ok tt
  end.

(** [dec_content_length]: the result and the stream; unchanged on an error. *)
Definition dec_content_length (s : t) (len : Z) : result unit unit * t :=
  match content_length s with
  | ContentLength.Remaining total rem =>
      if len <=? rem then (Ok tt, s <| content_length := ContentLength.Remaining total (rem - len) |>)
      else (Err tt, s)
  | ContentLength.Head => if len =? 0 then (Ok tt, s) else (Err tt, s)
  | ContentLength.Omitted => (Ok tt, s)
  end.

End Stream.

(** ** The [Next] trait

    [set_queued] may panic (its [debug_assert!]s); the result of [take_next] is the
    link and the stream with the link cleared. *)
Class Next : Type := {
  next : Stream.t -> option Key.t;
  set_next : Stream.t -> option Key.t -> Stream.t;
  take_next : Stream.t -> option Key.t * Stream.t;
  is_queued : Stream.t -> bool;
  set_queued : Stream.t -> bool -> outcome Stream.t
}.

Definition NextAccept : Next := {|
  next := Stream.next_pending_accept;
  set_next s key := s <| Stream.next_pending_accept := key |>;
  take_next s := (Stream.next_pending_accept s, s <| Stream.next_pending_accept := None |>);
  is_queued := Stream.is_pending_accept;
  set_queued s val := Done (s <| Stream.is_pending_accept := val |>)
|}.

Definition NextComplete : Next := {|
  next := Stream.next_pending_complete;
  set_next s key := s <| Stream.next_pending_complete := key |>;
  take_next s := (Stream.next_pending_complete s, s <| Stream.next_pending_complete := None |>);
  is_queued := Stream.is_pending_complete;
  set_queued s val := Done (s <| Stream.is_pending_complete := val |>)
|}.

Definition NextSend : Next := {|
  next := Stream.next_pending_send;
  set_next s key := s <| Stream.next_pending_send := key |>;
  take_next s := (Stream.next_pending_send s, s <| Stream.next_pending_send := None |>);
  is_queued := Stream.is_pending_send;
  set_queued s val :=
    let! _ := assert (if val then negb (Stream.is_pending_open s) else true) in
    Done (s <| Stream.is_pending_send := val |>)
|}.

Definition NextSendCapacity : Next := {|
  next := Stream.next_pending_send_capacity;
  set_next s key := s <| Stream.next_pending_send_capacity := key |>;
  take_next s := (Stream.next_pending_send_capacity s,
                  s <| Stream.next_pending_send_capacity := None |>);
  is_queued := Stream.is_pending_send_capacity;
  set_queued s val := Done (s <| Stream.is_pending_send_capacity := val |>)
|}.

Definition NextOpen : Next := {|
  next := Stream.next_open;
  set_next s key := s <| Stream.next_open := key |>;
  take_next s := (Stream.next_open s, s <| Stream.next_open := None |>);
  is_queued := Stream.is_pending_open;
  set_queued s val :=
    let! _ := assert (if val then negb (Stream.is_pending_send s) else true) in
    Done (s <| Stream.is_pending_open := val |>)
|}.

(** [now] is what [Instant::now()] returns. *)
Definition NextResetExpire (now : Z) : Next := {|
  next := Stream.next_reset_expire;
  set_next s key := s <| Stream.next_reset_expire := key |>;
  take_next s := (Stream.next_reset_expire s, s <| Stream.next_reset_expire := None |>);
  is_queued := Stream.is_pending_reset_expiration;
  set_queued s val := Done (s <| Stream.reset_at := if val then Some now else None |>)
|}.
