(* ===== verification/StreamStore.v ===== *)
(** * The store of streams

    Models [src/src/proto/streams/store/mod.rs], [ptr.rs] and [entry.rs]: streams
    live in a slab and are found by id through an ordered map of slab indices.  A
    [Ptr] (key and borrowed store) is a key next to an explicit store. *)

From S2P Require Import Prelude FrameBase SlabLib StreamState StreamRec.

(** [SlabIndex(k as u32)] *)
Definition SlabIndex (k : nat) : nat := Z.to_nat (wrap_u32 (Z.of_nat k)).

Module Store.

Section store.
Context `{SlabOps} `{IndexMapOps}.

Record t : Type := mk { streams : slab Stream.t; ids : index_map nat }.

#[global] Instance eta_t : Eta t := fun s => mk (streams s) (ids s).

Definition new : t := mk slab_new im_new.

(** [insert]: the key of the [Ptr] it returns. *)
Definition insert (st : t) (id : StreamId.t) (val : Stream.t) : outcome (Key.t * t) :=
  let (k, sl) := slab_insert val (streams st) in
  let index := SlabIndex k in
  let (old, m) := im_insert id index (ids st) in
  let! _ := assert (Stream.is_none old) in
  Done (Key.mk index id, mk sl m).

(** [find_entry]: [Some key] is [Occupied] (with its [key()]), [None] is [Vacant]. *)
Definition find_entry (st : t) (id : StreamId.t) : option Key.t :=
  option_map (fun index => Key.mk index id) (im_get id (ids st)).

Definition find_mut (st : t) (id : StreamId.t) : option Key.t :=
  match im_get id (ids st) with
  | Some index => Some (Key.mk index id)
  | None => None
  end.

(** [VacantEntry::insert] of the entry found for [id]. *)
Definition vacant_insert (st : t) (id : StreamId.t) (value : Stream.t) : Key.t * t :=
  let stream_id := Stream.id value in
  let (k, sl) := slab_insert value (streams st) in
  let index := SlabIndex k in
  (Key.mk index stream_id, mk sl (im_insert id index (ids st)).2).

(** [try_for_each]; [x] is what the closure captures and changes.  Every round
    increases [i] or decreases [len], so [len] rounds are enough. *)
Fixpoint try_for_each_loop {X E} (f : X -> t -> Key.t -> outcome (result unit E * X * t))
    (fuel i len : nat) (x : X) (st : t) : outcome (result unit E * X * t) :=
  match fuel with
  | O => Done (Ok tt, x, st)
  | S fuel =>
      if (i <? len)%nat then
        let! (id, index) := unwrap (im_get_index i (ids st)) in
        let! (r, x, st) := f x st (Key.mk index id) in
        match r with
        | Err e => Done (Err e, x, st)
        | Ok _ =>
            let new_len := im_len (ids st) in
            if (new_len <? len)%nat then
              let! _ := assert (new_len =? len - 1)%nat in
              try_for_each_loop f fuel i (len - 1) x st
            else try_for_each_loop f fuel (i + 1) len x st
        end
      else Done (Ok tt, x, st)
  end.

Definition try_for_each {X E} (f : X -> t -> Key.t -> outcome (result unit E * X * t))
    (x : X) (st : t) : outcome (result unit E * X * t) :=
  let len := im_len (ids st) in
  try_for_each_loop f len 0 len x st.

Definition for_each {X} (f : X -> t -> Key.t -> outcome (X * t)) (x : X) (st : t) :
    outcome (X * t) :=
  let! (_, x, st) :=
    try_for_each (E:=unit) (fun x st k => let! (x, st) := f x st k in Done (Ok tt, x, st)) x st in
  Done (x, st).

Definition num_active_streams (st : t) : nat := im_len (ids st).

Definition num_wired_streams (st : t) : nat := slab_len (streams st).

(** The stream a key stands for, if it does not dangle. *)
Definition lookup (st : t) (key : Key.t) : option Stream.t :=
  match slab_get (Key.index key) (streams st) with
  | Some s => if Stream.id s =? Key.stream_id key then Some s else None
  | None => None
  end.

(** [store[key]] *)
Definition index (st : t) (key : Key.t) : outcome Stream.t := unwrap (lookup st key).

(** Assignment of the whole stream through [store[key]] ([IndexMut]). *)
Definition put (st : t) (key : Key.t) (s : Stream.t) : t :=
  st <| streams ::= slab_set (Key.index key) s |>.

(** Change of a stream through a [Ptr] ([DerefMut]). *)
Definition modify (st : t) (key : Key.t) (f : Stream.t -> Stream.t) : outcome t :=
  let! s := index st key in Done (put st key (f s)).

End store.
Arguments t : clear implicits.
Arguments t {_ _}.

End Store.

Module Ptr.

Section ptr.
Context `{SlabOps} `{IndexMapOps}.

(** [remove]: the [debug_assert!] that the stream is unlinked, the removal of the
    slab entry, the [assert_eq!] of the ids. *)
Definition remove (st : Store.t) (key : Key.t) : outcome (StreamId.t * Store.t) :=
  let! _ := assert (Stream.is_none (im_get (Key.stream_id key) (Store.ids st))) in
  let! (stream, sl) := unwrap (slab_remove (Key.index key) (Store.streams st)) in
  let! _ := assert (Stream.id stream =? Key.stream_id key) in
  Done (Stream.id stream, st <| Store.streams := sl |>).

Definition unlink (st : Store.t) (key : Key.t) : Store.t :=
  st <| Store.ids ::= im_swap_remove (Key.stream_id key) |>.

End ptr.

End Ptr.
