(* ===== verification/StreamStoreFacts.v ===== *)
(** * The store: lookups, keys and iteration

    What [StreamStore] promises its users: a key resolves to its own stream or to
    nothing, changes through one key are invisible through another, ids and slab
    stay consistent, and [for_each] visits every stream once even while the
    visited stream is unlinked. *)

From S2P Require Import Prelude FrameBase SlabLib StreamState StreamRec StreamStore.

(** ** Keys and streams *)

Section facts.
Context `{Hsl : SlabOps} `{!SlabLaws Hsl} `{Him : IndexMapOps} `{!IndexMapLaws Him}.

Implicit Types (st : Store.t) (k : Key.t) (s : Stream.t).

(** Every id the store knows leads to the stream with this id. *)
Definition store_wf st : Prop :=
  forall id i, im_get id (Store.ids st) = Some i ->
    exists s, slab_map (Store.streams st) !! i = Some s /\ Stream.id s = id.

Lemma lookup_map st k :
  Store.lookup st k =
    match slab_map (Store.streams st) !! Key.index k with
    | Some s => if Stream.id s =? Key.stream_id k then Some s else None
    | None => None
    end.
Proof. unfold Store.lookup. by rewrite slab_get_map. Qed.

Lemma lookup_some st k s :
  Store.lookup st k = Some s <->
  slab_map (Store.streams st) !! Key.index k = Some s /\ Stream.id s = Key.stream_id k.
Proof.
  rewrite lookup_map. destruct (slab_map _ !! _) as [s'|]; [|naive_solver].
  destruct (Z.eqb_spec (Stream.id s') (Key.stream_id k)); naive_solver.
Qed.

Lemma lookup_put st k s s' :
  Store.lookup st k = Some s -> Stream.id s' = Stream.id s ->
  Store.lookup (Store.put st k s') k = Some s'.
Proof.
  intros [Hs Hid]%lookup_some Hid'. apply lookup_some. unfold Store.put. record.
  rewrite slab_map_set by congruence. split; [by simplify_map_eq|congruence].
Qed.

Lemma lookup_put_ne st k k' s s' :
  Store.lookup st k = Some s -> Stream.id s' = Stream.id s -> k <> k' ->
  Store.lookup (Store.put st k s') k' = Store.lookup st k'.
Proof.
  intros [Hs Hid]%lookup_some Hid' Hne. rewrite !lookup_map. unfold Store.put. record.
  rewrite slab_map_set by congruence. destruct (decide (Key.index k = Key.index k')) as [He|].
  - rewrite <-He, Hs. simplify_map_eq. rewrite Hid'.
    destruct (Z.eqb_spec (Stream.id s) (Key.stream_id k')); [|done].
    destruct Hne. destruct k, k'; cbn in *. congruence.
  - by simplify_map_eq.
Qed.

Lemma ids_put st k s : Store.ids (Store.put st k s) = Store.ids st.
Proof. done. Qed.

Lemma put_wf st k s s' :
  store_wf st -> Store.lookup st k = Some s -> Stream.id s' = Stream.id s ->
  store_wf (Store.put st k s').
Proof.
  intros Hwf [Hs Hid]%lookup_some Hid' id i Hi. destruct (Hwf id i Hi) as (s0 & Hs0 & Hid0).
  unfold Store.put. record. rewrite slab_map_set by congruence.
  destruct (decide (Key.index k = i)) as [<-|]; simplify_map_eq; [|by eauto].
  exists s'. split; [done|congruence].
Qed.

Lemma find_mut_lookup st id k :
  store_wf st -> Store.find_mut st id = Some k ->
  Key.stream_id k = id /\ exists s, Store.lookup st k = Some s /\ Stream.id s = id.
Proof.
  unfold Store.find_mut. intros Hwf. destruct (im_get id (Store.ids st)) as [i|] eqn:Hi; [|done].
  intros [= <-]. split; [done|]. destruct (Hwf id i Hi) as (s & Hs & Hid).
  exists s. split; [|done]. by apply lookup_some.
Qed.

Lemma im_get_unlink st k id :
  im_get id (Store.ids (Ptr.unlink st k)) =
    if id =? Key.stream_id k then None else im_get id (Store.ids st).
Proof.
  unfold Ptr.unlink. record. rewrite !im_get_list, im_list_swap_remove.
  apply swap_remove_get, im_keys_nodup.
Qed.

Lemma unlink_wf st k : store_wf st -> store_wf (Ptr.unlink st k).
Proof.
  intros Hwf id i. rewrite im_get_unlink. case_match; [done|]. apply Hwf.
Qed.

Lemma lookup_unlink st k k' : Store.lookup (Ptr.unlink st k) k' = Store.lookup st k'.
Proof. done. Qed.

Lemma SlabIndex_fits (n : nat) : Z.of_nat n <= u32_max -> SlabIndex n = n.
Proof. intros Hn. unfold SlabIndex. rewrite wrap_u32_id by ilia. lia. Qed.

Lemma im_insert_get id (v : nat) m m' old id' :
  im_insert id v m = (old, m') -> im_get id m = None ->
  old = None /\ im_get id' m' = if id' =? id then Some v else im_get id' m.
Proof.
  rewrite !im_get_list. intros Hi Hn.
  destruct (im_insert_vacant id v m Hn) as [Ho Hl]. rewrite Hi in Ho, Hl. cbn in Ho, Hl.
  split; [done|]. rewrite Hl, list_get_app. cbn.
  destruct (Z.eqb_spec id' id) as [->|]; [by rewrite Hn|]. by destruct (list_get id' _).
Qed.

Lemma insert_spec st id s :
  store_wf st -> Store.find_mut st id = None -> Stream.id s = id ->
  Z.of_nat (slab_insert s (Store.streams st)).1 <= u32_max ->
  exists k st', Store.insert st id s = Done (k, st') /\ Store.lookup st k = None /\
    store_wf st' /\ Store.find_mut st' id = Some k /\ Store.lookup st' k = Some s /\
    (forall id', id' <> id -> Store.find_mut st' id' = Store.find_mut st id') /\
    (forall k', Store.lookup st k' <> None -> Store.lookup st' k' = Store.lookup st k') /\
    (forall k', k' <> k -> Store.lookup st k' = None -> Store.lookup st' k' = None).
Proof.
  intros Hwf Hf Hid Hfit. unfold Store.insert.
  pose proof (slab_insert_fresh s (Store.streams st)) as Hfresh.
  pose proof (slab_map_insert s (Store.streams st)) as Hmap.
  destruct (slab_insert s (Store.streams st)) as [i sl]. cbn [fst snd] in *.
  rewrite SlabIndex_fits by done. unfold Store.find_mut in Hf.
  destruct (im_get id (Store.ids st)) eqn:Hg; [done|].
  destruct (im_insert id i (Store.ids st)) as [old m] eqn:Hi.
  pose proof (fun id' => im_insert_get _ _ _ _ _ id' Hi Hg) as Hget.
  destruct (Hget id) as [-> _]. cbn [Stream.is_none assert obind].
  eexists _, _. split_and!; [done|by rewrite lookup_map; cbn; rewrite Hfresh| | | | | |].
  - intros id' i'. cbn. rewrite (proj2 (Hget id')), Hmap.
    destruct (Z.eqb_spec id' id) as [->|]; [intros [= <-]; exists s; by simplify_map_eq|].
    intros H'. destruct (Hwf id' i' H') as (s' & Hs' & ?). exists s'.
    split; [|done]. rewrite lookup_insert_ne; [done|]. congruence.
  - unfold Store.find_mut. cbn. rewrite (proj2 (Hget id)). by rewrite Z.eqb_refl.
  - apply lookup_some. cbn. rewrite Hmap. split; [by simplify_map_eq|done].
  - intros id' Hne. unfold Store.find_mut. cbn. rewrite (proj2 (Hget id')).
    by rewrite (proj2 (Z.eqb_neq _ _) Hne).
  - intros k' Hk'. rewrite !lookup_map in *. cbn. rewrite Hmap.
    rewrite lookup_insert_ne; [done|]. intros He. rewrite <-He, Hfresh in Hk'. done.
  - intros k' Hne. rewrite !lookup_map. cbn. rewrite Hmap.
    destruct (decide (i = Key.index k')) as [He|]; [|by simplify_map_eq].
    rewrite <-He, lookup_insert_eq. intros _.
    destruct (Z.eqb_spec (Stream.id s) (Key.stream_id k')); [|done].
    destruct Hne. destruct k'; cbn in *. congruence.
Qed.

Lemma remove_spec st k s :
  store_wf st -> Store.lookup st k = Some s -> im_get (Key.stream_id k) (Store.ids st) = None ->
  exists st', Ptr.remove st k = Done (Key.stream_id k, st') /\ store_wf st' /\
    Store.ids st' = Store.ids st /\ Store.lookup st' k = None /\
    slab_map (Store.streams st') = delete (Key.index k) (slab_map (Store.streams st)) /\
    (forall k', k' <> k -> Store.lookup st' k' = Store.lookup st k').
Proof.
  intros Hwf Hl Hn. pose proof Hl as [Hs Hid]%lookup_some. unfold Ptr.remove.
  rewrite Hn. cbn [Stream.is_none assert obind].
  destruct (slab_remove (Key.index k) (Store.streams st)) as [[s' sl]|] eqn:Hr;
    [|apply slab_remove_none in Hr; congruence].
  apply slab_remove_some in Hr as [Hs' Hmap]. rewrite Hs in Hs'. injection Hs' as <-.
  cbn [unwrap obind]. rewrite Hid, Z.eqb_refl. cbn [assert obind].
  eexists. record. split_and!; [done| |done| |done|].
  - intros id i. cbn. intros Hi. destruct (Hwf id i Hi) as (s' & Hs' & Hid').
    exists s'. split; [|done]. rewrite Hmap, lookup_delete_ne; [done|].
    intros He. rewrite He, Hs' in Hs. injection Hs as ->. congruence.
  - rewrite lookup_map. cbn. by rewrite Hmap, lookup_delete_eq.
  - intros k' Hne. rewrite !lookup_map. cbn. rewrite Hmap.
    destruct (decide (Key.index k = Key.index k')) as [He|]; [|by simplify_map_eq].
    rewrite <-He, lookup_delete_eq, Hs.
    destruct (Z.eqb_spec (Stream.id s) (Key.stream_id k')); [|done].
    destruct Hne. destruct k, k'; cbn in *. congruence.
Qed.

(** C24: inserting a stream makes it, and only it, reachable by its id, and
    unlinking and removing it frees the id without a panic; no other id or key is
    disturbed, and a key that outlives its stream never resolves to a stream with
    another id that reuses the slab slot. *)
Theorem store_insert_remove st id s :
  store_wf st -> Store.find_mut st id = None -> Stream.id s = id ->
  Z.of_nat (slab_insert s (Store.streams st)).1 <= u32_max ->
  exists k st1 st2, Store.insert st id s = Done (k, st1) /\
    Store.find_mut st1 id = Some k /\ Store.index st1 k = Done s /\
    (forall k', Store.lookup st k' <> None -> Store.lookup st1 k' = Store.lookup st k') /\
    Ptr.remove (Ptr.unlink st1 k) k = Done (id, st2) /\ store_wf st1 /\ store_wf st2 /\
    (forall id', Store.find_mut st2 id' = Store.find_mut st id') /\
    (forall k', Store.lookup st k' <> None -> Store.lookup st2 k' = Store.lookup st k') /\
    (forall id' s' k' st3, id' <> id -> Store.find_mut st2 id' = None -> Stream.id s' = id' ->
       Z.of_nat (slab_insert s' (Store.streams st2)).1 <= u32_max ->
       Store.insert st2 id' s' = Done (k', st3) -> Store.index st3 k = Panic).
Proof.
  intros Hwf Hf Hid Hfit.
  destruct (insert_spec st id s Hwf Hf Hid Hfit)
    as (k & st1 & Hins & Hl0 & Hwf1 & Hf1 & Hl1 & Hids1 & Hkeep1 & _).
  destruct (find_mut_lookup st1 id k Hwf1 Hf1) as [Hkid _].
  destruct (remove_spec (Ptr.unlink st1 k) k s) as (st2 & Hrm & Hwf2 & Hids2 & Hl2 & _ & Hkeep2).
  { by apply unlink_wf. } { done. } { rewrite im_get_unlink. by rewrite Z.eqb_refl. }
  assert (Hf2 : forall id', Store.find_mut st2 id' = Store.find_mut st id').
  { intros id'. unfold Store.find_mut. rewrite Hids2, im_get_unlink, Hkid.
    destruct (Z.eqb_spec id' id) as [->|Hne].
    - unfold Store.find_mut in Hf. by destruct (im_get id (Store.ids st)).
    - specialize (Hids1 id' Hne). unfold Store.find_mut in Hids1. done. }
  exists k, st1, st2. rewrite Hkid in Hrm. split_and!; try done.
  - unfold Store.index. by rewrite Hl1.
  - intros k' Hk'. rewrite Hkeep2, lookup_unlink by congruence. by apply Hkeep1.
  - intros id' s' k' st3 Hne Hf' Hid' Hfit' Hins'.
    destruct (insert_spec st2 id' s' Hwf2 Hf' Hid' Hfit')
      as (k2 & st3' & Hins2 & _ & Hwf3 & Hf3 & _ & _ & _ & Hnone).
    rewrite Hins' in Hins2. injection Hins2 as <- <-.
    destruct (find_mut_lookup st3 id' k' Hwf3 Hf3) as [Hk' _].
    unfold Store.index. rewrite Hnone; [done| |done]. congruence.
Qed.

(** ** Iteration *)

(** What a closure of [for_each] may do to the ids: nothing, or unlink the stream it
    was called on. *)
Definition unlinks_at_most {X} (f : X -> Store.t -> Key.t -> outcome (X * Store.t)) : Prop :=
  forall x st k, im_get (Key.stream_id k) (Store.ids st) = Some (Key.index k) ->
    exists x' st', f x st k = Done (x', st') /\
      (im_list (Store.ids st') = im_list (Store.ids st) \/
       im_list (Store.ids st') = list_swap_remove (Key.stream_id k) (im_list (Store.ids st))).

(** The closure [f], with a log of the keys it was called on. *)
Definition logged {X} (f : X -> Store.t -> Key.t -> outcome (X * Store.t))
    (x : list Key.t * X) st k : outcome (result unit unit * (list Key.t * X) * Store.t) :=
  let! (y, st) := f x.2 st k in Done (Ok tt, (x.1 ++ [k], y), st).

Definition entry_key (e : Z * nat) : Key.t := Key.mk e.2 e.1.

Lemma for_each_loop_visits {X} (f : X -> Store.t -> Key.t -> outcome (X * Store.t)) fuel i log x st :
  unlinks_at_most f -> (length (im_list (Store.ids st)) <= fuel + i)%nat ->
  exists log' x' st',
    Store.try_for_each_loop (logged f) fuel i (length (im_list (Store.ids st))) (log, x) st =
      Done (Ok tt, (log', x'), st') /\
    log' ≡ₚ log ++ map entry_key (drop i (im_list (Store.ids st))).
Proof.
  intros Hf. revert i log x st. induction fuel as [|fuel IH]; intros i log x st Hfuel;
    cbn [Store.try_for_each_loop].
  - exists log, x, st. split; [done|]. by rewrite drop_ge, app_nil_r by lia.
  - destruct (Nat.ltb_spec i (length (im_list (Store.ids st)))) as [Hlt|Hge].
    2:{ exists log, x, st. split; [done|]. by rewrite drop_ge, app_nil_r by lia. }
    rewrite im_get_index_list.
    destruct (im_list (Store.ids st) !! i) as [[id j]|] eqn:Hi;
      [|apply lookup_ge_None in Hi; lia].
    cbn [unwrap obind]. pose proof (im_keys_nodup (Store.ids st)) as Hnd.
    destruct (Hf x st (Key.mk j id)) as (x' & st' & He & Hids).
    { cbn. rewrite im_get_list, list_get_elem by done. by eapply list_elem_of_lookup_2. }
    unfold logged at 1. cbn [fst snd]. rewrite He. cbn [obind]. rewrite im_len_list.
    pose proof (take_drop_middle _ _ _ Hi) as Hsplit.
    destruct Hids as [Hids|Hids]; rewrite Hids.
    + rewrite (proj2 (Nat.ltb_ge _ _)) by lia. rewrite <-Hids.
      edestruct (IH (i + 1)%nat (log ++ [Key.mk j id]) x' st') as (log' & x2 & st2 & -> & Hp);
        [rewrite Hids; lia|]. exists log', x2, st2. split; [done|].
      rewrite Hp, Hids, <-app_assoc. cbn. rewrite (drop_S _ _ _ Hi). cbn.
      by rewrite Nat.add_1_r.
    + cbn [Key.stream_id] in *. destruct (swap_remove_split id j (take i (im_list (Store.ids st)))
        (drop (S i) (im_list (Store.ids st)))) as (l2 & Hrm & Hp).
      { intros Hin. rewrite <-Hsplit, fmap_app in Hnd. apply NoDup_app in Hnd as (_&Hnd&_).
        apply (Hnd id Hin). cbn. by left. }
      rewrite Hsplit in Hrm. rewrite Hrm in Hids |- *.
      assert (length (take i (im_list (Store.ids st)) ++ l2) =
              length (im_list (Store.ids st)) - 1)%nat as Hlen.
      { rewrite length_app, Hp, length_take, length_drop. lia. }
      rewrite Hlen, (proj2 (Nat.ltb_lt _ _)), Nat.eqb_refl by lia. cbn [assert obind].
      rewrite <-Hlen, <-Hids.
      edestruct (IH i (log ++ [Key.mk j id]) x' st') as (log' & x2 & st2 & -> & Hp2);
        [rewrite Hids; lia|]. exists log', x2, st2. split; [done|].
      rewrite Hp2, Hids, <-app_assoc, drop_app_le by (rewrite length_take; lia).
      rewrite (drop_S _ _ _ Hi). cbn. rewrite drop_ge by (rewrite length_take; lia). cbn.
      by rewrite Hp.
Qed.

Lemma loop_ext {X E} (f g : X -> Store.t -> Key.t -> outcome (result unit E * X * Store.t))
    fuel i len x st :
  (forall x st k, f x st k = g x st k) ->
  Store.try_for_each_loop f fuel i len x st = Store.try_for_each_loop g fuel i len x st.
Proof.
  intros Hfg. revert i len x st. induction fuel as [|fuel IH]; intros i len x st;
    cbn [Store.try_for_each_loop]; [done|].
  destruct (i <? len)%nat; [|done]. destruct (im_get_index i (Store.ids st)) as [[id j]|]; [|done].
  cbn [unwrap obind]. rewrite Hfg. destruct (g x st _) as [[[[?|?] x'] st']|]; [|done..].
  cbn [obind]. by rewrite !IH.
Qed.

(** C25: [for_each] terminates and calls its closure exactly once on every stream the
    store knew at the start, also when the closure unlinks the stream it is called
    on (the last entry then moves into the hole), and never panics by itself. *)
Theorem for_each_visits_all {X} (f : X -> Store.t -> Key.t -> outcome (X * Store.t)) x st :
  unlinks_at_most f ->
  exists log x' st',
    Store.for_each (fun '(log, x) st k => let! (y, st) := f x st k in Done ((log ++ [k], y), st))
      ([], x) st = Done ((log, x'), st') /\
    log ≡ₚ map entry_key (im_list (Store.ids st)).
Proof.
  intros Hf. unfold Store.for_each, Store.try_for_each.
  destruct (for_each_loop_visits f (im_len (Store.ids st)) 0 [] x st Hf)
    as (log & x' & st' & He & Hp); [rewrite im_len_list; lia|].
  exists log, x', st'. rewrite im_len_list in *. split; [|done].
  rewrite (loop_ext _ (logged f)), He; [done|].
  intros [lg y] s k. unfold logged. cbn. by destruct (f y s k) as [[? ?]|].
Qed.

End facts.
