(* ===== verification/StreamQueue.v ===== *)
(** * Intrusive queues of streams

    Models [src/src/proto/streams/store/queue.rs]: a queue is a head and a tail key
    into the store; the links are fields of the streams, chosen by a [Next]
    instance.  Proved: every queue is a FIFO sequence of distinct streams, and the
    queues of a connection do not disturb each other. *)

From S2P Require Import Prelude FrameBase SlabLib StreamState FrameBuffer StreamRec.
From S2P Require Import StreamStore StreamStoreFacts.

Module Queue.

Section queue.
Context `{SlabOps} `{IndexMapOps}.

Definition new : queue := mkQueue None.

(** [take]: the queue it returns and what is left. *)
Definition take (q : queue) : queue * queue := (mkQueue (indices q), mkQueue None).

(** The part [push] and [push_front] share: [None] when the stream is queued. *)
Definition push (N : Next) (q : queue) (st : Store.t) (stream : Key.t) :
    outcome (bool * queue * Store.t) :=
  let! s := Store.index st stream in
  if is_queued s then Done (false, q, st)
  else
    let! s := set_queued s true in
    let! _ := assert (Stream.is_none (next s)) in
    let st := Store.put st stream s in
    match indices q with
    | Some idxs =>
        let! t := Store.index st (QueueIndices.tail idxs) in
        let st := Store.put st (QueueIndices.tail idxs) (set_next t (Some stream)) in
        Done (true, mkQueue (Some (idxs <| QueueIndices.tail := stream |>)), st)
    | None => Done (true, mkQueue (Some (QueueIndices.mk stream stream)), st)
    end.

Definition push_front (N : Next) (q : queue) (st : Store.t) (stream : Key.t) :
    outcome (bool * queue * Store.t) :=
  let! s := Store.index st stream in
  if is_queued s then Done (false, q, st)
  else
    let! s := set_queued s true in
    let! _ := assert (Stream.is_none (next s)) in
    match indices q with
    | Some idxs =>
        let st := Store.put st stream (set_next s (Some (QueueIndices.head idxs))) in
        Done (true, mkQueue (Some (idxs <| QueueIndices.head := stream |>)), st)
    | None =>
        Done (true, mkQueue (Some (QueueIndices.mk stream stream)), Store.put st stream s)
    end.

Definition pop (N : Next) (q : queue) (st : Store.t) : outcome (option Key.t * queue * Store.t) :=
  match indices q with
  | Some idxs =>
      let key := QueueIndices.head idxs in
      let! s := Store.index st key in
      let! (q, s) :=
        if decide (QueueIndices.head idxs = QueueIndices.tail idxs) then
          let! _ := assert (Stream.is_none (next s)) in
          Done (mkQueue None, s)
        else
          let (n, s) := take_next s in
          let! h := unwrap n in
          Done (mkQueue (Some (idxs <| QueueIndices.head := h |>)), s) in
      let! _ := assert (is_queued s) in
      let! s := set_queued s false in
      Done (Some key, q, Store.put st key s)
  | None => Done (None, q, st)
  end.

Definition is_empty (q : queue) : bool := Stream.is_none (indices q).

Definition pop_if (N : Next) (q : queue) (st : Store.t) (f : Stream.t -> outcome bool) :
    outcome (option Key.t * queue * Store.t) :=
  match indices q with
  | Some idxs =>
      let! s := Store.index st (QueueIndices.head idxs) in
      let! should_pop := f s in
      if should_pop : bool then pop N q st else Done (None, q, st)
  | None => Done (None, q, st)
  end.

End queue.

End Queue.

(** ** What a [Next] instance promises *)

Class NextLaws (N : Next) : Prop := {
  next_set_next s k : next (set_next s k) = k;
  is_queued_set_next s k : is_queued (set_next s k) = is_queued s;
  take_next_spec s : take_next s = (next s, set_next s None);
  set_queued_spec s v s' : set_queued s v = Done s' -> is_queued s' = v /\ next s' = next s;
  set_queued_false s : exists s', set_queued s false = Done s'
}.

(** An observation of a stream that the operations of a [Next] do not change. *)
Class Unaffected (N : Next) {A} (f : Stream.t -> A) : Prop := {
  unaffected_next s k : f (set_next s k) = f s;
  unaffected_queued s v s' : set_queued s v = Done s' -> f s' = f s
}.

Ltac next_laws :=
  split; intros; unfold NextAccept, NextComplete, NextSend, NextSendCapacity, NextOpen,
    NextResetExpire, Stream.is_pending_reset_expiration in *; record;
  repeat match goal with
  | H : obind (assert ?b) _ = Done _ |- _ =>
      let E := fresh in destruct b eqn:E; [cbn [assert obind] in H|done]
  | H : Done _ = Done _ |- _ => injection H as <-
  | v : bool |- _ => destruct v
  end; cbn; eauto; done.

#[export] Instance NextAccept_laws : NextLaws NextAccept. Proof. next_laws. Qed.
#[export] Instance NextComplete_laws : NextLaws NextComplete. Proof. next_laws. Qed.
#[export] Instance NextSend_laws : NextLaws NextSend. Proof. next_laws. Qed.
#[export] Instance NextSendCapacity_laws : NextLaws NextSendCapacity. Proof. next_laws. Qed.
#[export] Instance NextOpen_laws : NextLaws NextOpen. Proof. next_laws. Qed.
#[export] Instance NextResetExpire_laws now : NextLaws (NextResetExpire now). Proof. next_laws. Qed.

Ltac unaffected :=
  split; unfold NextAccept, NextComplete, NextSend, NextSendCapacity, NextOpen,
    NextResetExpire, Stream.is_pending_reset_expiration in *; record; intros;
  repeat match goal with
  | H : obind (assert ?b) _ = Done _ |- _ =>
      let E := fresh in destruct b eqn:E; [cbn [assert obind] in H|discriminate H]
  | H : Done _ = Done _ |- _ => injection H as <-
  end; reflexivity.
#[export] Hint Extern 2 (Unaffected _ _) => solve [unaffected] : typeclass_instances.

(** Two queues with different links. *)
Class Disjoint (N N2 : Next) : Prop := {
  #[global] disjoint_next :: Unaffected N (next (Next:=N2));
  #[global] disjoint_queued :: Unaffected N (is_queued (Next:=N2))
}.
#[export] Hint Extern 2 (Disjoint _ _) => solve [split; unaffected] : typeclass_instances.

Section facts.
Context `{Hsl : SlabOps} `{!SlabLaws Hsl} `{Him : IndexMapOps} `{!IndexMapLaws Him}.
Context (N : Next) `{!NextLaws N} `{!Unaffected N Stream.id}.

Implicit Types (st : Store.t) (k : Key.t) (s : Stream.t) (q : queue).

(** The streams [ks], all queued, each linked to the next one. *)
Fixpoint links (M : Next) st (ks : list Key.t) : Prop :=
  match ks with
  | [] => True
  | k :: ks =>
      (exists s, Store.lookup st k = Some s /\ is_queued (Next:=M) s = true /\
         next (Next:=M) s = hd_error ks) /\
      links M st ks
  end.

(** [q] is the sequence [ks]. *)
Definition queue_repr (M : Next) st q (ks : list Key.t) : Prop :=
  NoDup ks /\ links M st ks /\
  match indices q with
  | None => ks = []
  | Some i => hd_error ks = Some (QueueIndices.head i) /\ last ks = Some (QueueIndices.tail i)
  end.

(** A stream that is in no queue of this kind has no link. *)
Definition unlinked (M : Next) st : Prop :=
  forall k s, Store.lookup st k = Some s -> is_queued (Next:=M) s = false ->
    next (Next:=M) s = None.

(** [st'] is [st] but for the links and marks of [N] in the streams [ks]. *)
Definition relinked (ks : list Key.t) st st' : Prop :=
  Store.ids st' = Store.ids st /\
  (forall k, k ∉ ks -> Store.lookup st' k = Store.lookup st k) /\
  (forall k s, Store.lookup st k = Some s -> exists s', Store.lookup st' k = Some s' /\
     forall A (f : Stream.t -> A), Unaffected N f -> f s' = f s) /\
  (forall k s', Store.lookup st' k = Some s' -> exists s, Store.lookup st k = Some s).

Lemma links_ext M st st' ks :
  (forall k s, k ∈ ks -> Store.lookup st k = Some s -> exists s', Store.lookup st' k = Some s' /\
     next s' = next s /\ is_queued s' = is_queued s) ->
  links M st ks -> links M st' ks.
Proof.
  induction ks as [|k ks IH]; cbn; [done|]. intros Hext [(s & Hs & Hq & Hn) Hl]. split.
  - destruct (Hext k s) as (s' & Hs' & Hn' & Hq'); [by left|done|].
    exists s'. split_and!; [done|congruence|congruence].
  - apply IH; [|done]. intros k' s' Hk'. apply Hext. by right.
Qed.

Lemma links_queued M st ks k :
  links M st ks -> k ∈ ks -> exists s, Store.lookup st k = Some s /\ is_queued s = true.
Proof.
  induction ks as [|k' ks IH]; cbn; [by intros _ ?%not_elem_of_nil|].
  intros [(s & Hs & Hq & _) Hl] [->|Hk]%elem_of_cons; [by eauto|by apply IH].
Qed.

Lemma links_last st ks k s :
  links N st ks -> last ks = Some k -> Store.lookup st k = Some s -> next s = None.
Proof.
  induction ks as [|k' ks IH]; [done|]. intros [(s' & Hs' & _ & Hn) Hl] Hlast Hs.
  destruct ks; [|by apply IH]. injection Hlast as ->. rewrite Hs in Hs'. by injection Hs' as <-.
Qed.

(** Streams change one at a time. *)
Lemma relinked_put st k s s' :
  Store.lookup st k = Some s -> (forall A (f : Stream.t -> A), Unaffected N f -> f s' = f s) ->
  relinked [k] st (Store.put st k s').
Proof.
  intros Hs Hf. pose proof (Hf _ Stream.id _) as Hid.
  assert (forall k', Store.lookup (Store.put st k s') k' =
            if decide (k' = k) then Some s' else Store.lookup st k') as Hl.
  { intros k'. destruct (decide (k' = k)) as [->|].
    - by apply (lookup_put _ _ s). - by apply (lookup_put_ne _ _ _ s). }
  split_and!; [done|..].
  - intros k' Hk'. rewrite Hl. by destruct (decide (k' = k)) as [->|]; [destruct Hk'; left|].
  - intros k' s0 Hs0. rewrite Hl. destruct (decide (k' = k)) as [->|]; [|by eauto].
    rewrite Hs in Hs0. injection Hs0 as <-. eauto.
  - intros k' s0. rewrite Hl. destruct (decide (k' = k)) as [->|]; eauto.
Qed.

Lemma relinked_trans ks1 ks2 st1 st2 st3 :
  relinked ks1 st1 st2 -> relinked ks2 st2 st3 -> relinked (ks1 ++ ks2) st1 st3.
Proof.
  intros (Hi1 & Ho1 & Hf1 & Hb1) (Hi2 & Ho2 & Hf2 & Hb2). split_and!; [congruence|..].
  - intros k [? ?]%not_elem_of_app. rewrite Ho2, Ho1 by done. done.
  - intros k s Hs. destruct (Hf1 k s Hs) as (s1 & Hs1 & He1).
    destruct (Hf2 k s1 Hs1) as (s2 & Hs2 & He2). exists s2. split; [done|].
    intros A f Hf. by rewrite He2, He1.
  - intros k s Hs. destruct (Hb2 k s Hs) as [s2 Hs2]. eauto.
Qed.

(** Queues of another kind, and disjoint queues of the same kind, are as before. *)
Lemma relinked_other N2 `{!Disjoint N N2} ks st st' q2 ks2 :
  relinked ks st st' -> queue_repr N2 st q2 ks2 -> queue_repr N2 st' q2 ks2.
Proof.
  intros (_ & _ & Hf & _) (Hnd & Hl & Hi). split_and!; [done| |done].
  eapply links_ext; [|done]. intros k s _ Hs. destruct (Hf k s Hs) as (s' & Hs' & He).
  exists s'. split_and!; [done|apply He, _|apply He, _].
Qed.

Lemma relinked_unlinked N2 `{!Disjoint N N2} ks st st' :
  relinked ks st st' -> unlinked N2 st -> unlinked N2 st'.
Proof.
  intros (_ & _ & Hf & Hb) Hu k s' Hs' Hq. destruct (Hb k s' Hs') as [s Hs].
  destruct (Hf k s Hs) as (s1 & Hs1 & He). rewrite Hs' in Hs1. injection Hs1 as <-.
  rewrite (He _ next _). apply (Hu k s Hs). by rewrite <-(He _ is_queued _).
Qed.

Lemma relinked_same st st' ks q2 ks2 :
  relinked ks st st' -> ks ## ks2 -> queue_repr N st q2 ks2 -> queue_repr N st' q2 ks2.
Proof.
  intros (_ & Ho & _) Hd (Hnd & Hl & Hi). split_and!; [done| |done].
  eapply links_ext; [|done]. intros k s Hk Hs. exists s.
  rewrite Ho; [done|]. intros Hk'. by apply (Hd k).
Qed.

Lemma relinked_refl ks st : relinked ks st st.
Proof. split_and!; eauto. Qed.

Lemma relinked_mono ks1 ks2 st st' : ks1 ⊆ ks2 -> relinked ks1 st st' -> relinked ks2 st st'.
Proof. intros Hs (? & Ho & ? & ?). split_and!; [done| |done..]. intros k Hk. apply Ho. auto. Qed.

Lemma lookup_put_eq st k k' s s' :
  Store.lookup st k = Some s -> Stream.id s' = Stream.id s ->
  Store.lookup (Store.put st k s') k' = if decide (k' = k) then Some s' else Store.lookup st k'.
Proof.
  intros Hs Hid. destruct (decide (k' = k)) as [->|].
  - by apply (lookup_put _ _ s).
  - by apply (lookup_put_ne _ _ _ s).
Qed.

Lemma set_queued_id s v s' : set_queued s v = Done s' -> Stream.id s' = Stream.id s.
Proof. apply unaffected_queued. Qed.

(** Linking the last stream of a sequence to a new one. *)
Lemma links_snoc st st' ks t ts k s :
  links N st ks -> NoDup ks -> last ks = Some t -> Store.lookup st t = Some ts -> k ∉ ks ->
  (forall x, x ∈ ks -> x <> t -> Store.lookup st' x = Store.lookup st x) ->
  Store.lookup st' t = Some (set_next ts (Some k)) ->
  Store.lookup st' k = Some s -> is_queued s = true -> next s = None ->
  links N st' (ks ++ [k]).
Proof.
  intros Hl Hnd Hlast Ht Hk Ho Ht' Hs Hq Hn.
  induction ks as [|x ks IH]; [done|]. destruct Hl as [(sx & Hsx & Hqx & Hnx) Hl].
  apply NoDup_cons in Hnd as [Hx Hnd]. apply not_elem_of_cons in Hk as [Hkx Hk].
  destruct ks as [|y ks].
  - injection Hlast as ->. rewrite Ht in Hsx. injection Hsx as <-. cbn. split_and!; [|by eauto|done].
    exists (set_next ts (Some k)). by rewrite is_queued_set_next, next_set_next.
  - assert (x <> t) as Hne.
    { intros ->. apply Hx. by apply last_Some_elem_of. }
    split.
    + exists sx. rewrite Ho by (by left || done). by split_and!.
    + apply IH; [done..|]. intros z Hz. apply Ho. by right.
Qed.

(** The last stream of a queue is linked to [k]. *)
Lemma push_behind st ks t k s s' :
  links N st ks -> unlinked N st -> NoDup (ks ++ [k]) -> k ∉ ks -> last ks = Some t ->
  Store.lookup st k = Some s -> is_queued s = false -> set_queued s true = Done s' ->
  relinked [k] st (Store.put st k s') ->
  exists ts, Store.lookup (Store.put st k s') t = Some ts /\
    let st' := Store.put (Store.put st k s') t (set_next ts (Some k)) in
    links N st' (ks ++ [k]) /\ unlinked N st' /\ relinked (k :: ks) st st'.
Proof.
  intros Hl Hu Hnd' Hk Ht Hs Hq Hs' Hr1. pose proof (proj1 (proj1 (NoDup_app _ _) Hnd')) as Hnd.
  destruct (set_queued_spec _ _ _ Hs') as [Hq' Hn']. pose proof (set_queued_id _ _ _ Hs') as Hid.
  assert (t ∈ ks) as Hin by (by apply last_Some_elem_of).
  destruct (links_queued N st ks _ Hl Hin) as (ts & Hts & Hqt). assert (t <> k) as Hne by congruence.
  assert (Store.lookup (Store.put st k s') t = Some ts) as Hts1.
  { rewrite (lookup_put_eq _ _ _ s) by done. by rewrite decide_False. }
  exists ts. split; [done|]. cbn zeta.
  assert (Stream.id (set_next ts (Some k)) = Stream.id ts) as Hidt by apply unaffected_next.
  assert (forall x, Store.lookup (Store.put (Store.put st k s') t (set_next ts (Some k))) x =
          if decide (x = t) then Some (set_next ts (Some k))
          else if decide (x = k) then Some s' else Store.lookup st x) as Hlk.
  { intros x. rewrite (lookup_put_eq _ _ _ ts), (lookup_put_eq _ _ _ s) by done. done. }
  split_and!.
  - eapply (links_snoc st _ ks _ ts k s'); [done..| | | | |].
    + intros x Hx Hxt. rewrite Hlk, !decide_False by congruence. done.
    + by rewrite Hlk, decide_True.
    + by rewrite Hlk, decide_False, decide_True by done.
    + done.
    + by rewrite Hn', (Hu k s).
  - intros x sx. rewrite Hlk. case_decide; [|case_decide; [|apply Hu]].
    + intros [= <-]. rewrite is_queued_set_next. congruence.
    + intros [= <-]. congruence.
  - eapply relinked_mono, relinked_trans; [|exact Hr1|].
    2:{ eapply relinked_put; [done|]. intros A f Hf. apply unaffected_next. }
    intros x. cbn. rewrite !elem_of_cons. intros [->|[->|?%not_elem_of_nil]]; [by left| |done]. by right.
Qed.

Lemma queue_push_spec st q ks k s s' :
  queue_repr N st q ks -> unlinked N st -> Store.lookup st k = Some s ->
  is_queued s = false -> set_queued s true = Done s' ->
  exists q' st', Queue.push N q st k = Done (true, q', st') /\
    queue_repr N st' q' (ks ++ [k]) /\ unlinked N st' /\ relinked (k :: ks) st st'.
Proof.
  intros (Hnd & Hl & Hi) Hu Hs Hq Hs'. unfold Queue.push, Store.index. rewrite Hs.
  cbn [unwrap obind]. rewrite Hq, Hs'. cbn [obind].
  destruct (set_queued_spec _ _ _ Hs') as [Hq' Hn'].
  pose proof (set_queued_id _ _ _ Hs') as Hid.
  rewrite Hn', (Hu k s Hs Hq). cbn [Stream.is_none assert obind].
  assert (k ∉ ks) as Hk.
  { intros Hin. destruct (links_queued N st ks k Hl Hin) as (? & Hx & ?). congruence. }
  assert (NoDup (ks ++ [k])) as Hnd'.
  { apply NoDup_app. split_and!; [done| |apply NoDup_singleton].
    intros x Hx ->%list_elem_of_singleton. done. }
  assert (relinked [k] st (Store.put st k s')) as Hr1.
  { eapply relinked_put; [done|]. intros A f Hf. by eapply unaffected_queued. }
  destruct (indices q) as [i|] eqn:Hiq.
  - destruct Hi as [Hh Ht].
    destruct (push_behind st ks (QueueIndices.tail i) k s s') as (ts & Hts & Hl' & Hu' & Hr'); [done..|].
    rewrite Hts. cbn [unwrap obind]. eexists _, _. split; [done|]. split_and!; [|done..].
    split_and!; [done..|]. record. rewrite last_snoc. by destruct ks.
  - subst ks. eexists _, _. split; [done|]. split_and!.
    + split_and!; [done| |done]. cbn. split; [|done]. exists s'.
      rewrite (lookup_put_eq _ _ _ s), decide_True by done. split_and!; [done..|].
      by rewrite Hn', (Hu k s).
    + intros x sx. rewrite (lookup_put_eq _ _ _ s) by done. case_decide; [|apply Hu].
      intros [= <-]. congruence.
    + done.
Qed.

Lemma queue_push_front_spec st q ks k s s' :
  queue_repr N st q ks -> unlinked N st -> Store.lookup st k = Some s ->
  is_queued s = false -> set_queued s true = Done s' ->
  exists q' st', Queue.push_front N q st k = Done (true, q', st') /\
    queue_repr N st' q' (k :: ks) /\ unlinked N st' /\ relinked (k :: ks) st st'.
Proof.
  intros (Hnd & Hl & Hi) Hu Hs Hq Hs'. unfold Queue.push_front, Store.index. rewrite Hs.
  cbn [unwrap obind]. rewrite Hq, Hs'. cbn [obind].
  destruct (set_queued_spec _ _ _ Hs') as [Hq' Hn'].
  pose proof (set_queued_id _ _ _ Hs') as Hid.
  rewrite Hn', (Hu k s Hs Hq). cbn [Stream.is_none assert obind].
  assert (k ∉ ks) as Hk.
  { intros Hin. destruct (links_queued N st ks k Hl Hin) as (? & Hx & ?). congruence. }
  assert (forall h, h = hd_error ks -> exists s2,
    s2 = (match h with Some _ => set_next s' h | None => s' end) /\
    Stream.id s2 = Stream.id s /\ is_queued s2 = true /\ next s2 = h /\
    (forall A (f : Stream.t -> A), Unaffected N f -> f s2 = f s)) as Hs2.
  { intros h _. eexists. split; [done|]. destruct h as [h|].
    - rewrite is_queued_set_next, next_set_next, unaffected_next. split_and!; [done..|].
      intros A f Hf. rewrite unaffected_next. by eapply unaffected_queued.
    - rewrite Hn', (Hu k s) by done. split_and!; [done..|].
      intros A f Hf. by eapply unaffected_queued. }
  assert (forall h, h = hd_error ks -> let s2 := match h with Some _ => set_next s' h | None => s' end in
    links N (Store.put st k s2) (k :: ks) /\ unlinked N (Store.put st k s2) /\
    relinked (k :: ks) st (Store.put st k s2)) as Hall.
  { intros h Hh. destruct (Hs2 h Hh) as (s2 & <- & Hid2 & Hq2 & Hn2 & Hf2). cbn zeta. split_and!.
    - split.
      + exists s2. rewrite (lookup_put_eq _ _ _ s), decide_True by done. split_and!; congruence.
      + eapply links_ext; [|done]. intros x sx Hx Hsx. exists sx.
        rewrite (lookup_put_eq _ _ _ s), decide_False by congruence. done.
    - intros x sx. rewrite (lookup_put_eq _ _ _ s) by done. case_decide; [|apply Hu].
      intros [= <-]. congruence.
    - eapply relinked_mono; [|by eapply relinked_put]. intros x ->%list_elem_of_singleton. by left. }
  destruct (indices q) as [i|] eqn:Hiq.
  - destruct Hi as [Hh Ht]. destruct (Hall _ (eq_sym Hh)) as (Hl' & Hu' & Hr').
    eexists _, _. split; [done|]. split_and!; [|done..].
    split_and!; [by apply NoDup_cons|done|]. record. split; [done|]. by destruct ks.
  - subst ks. destruct (Hall None eq_refl) as (Hl' & Hu' & Hr').
    eexists _, _. split; [done|]. split_and!; [|done..]. by split_and!; [apply NoDup_singleton|..].
Qed.

Lemma queue_pop_spec st q ks :
  queue_repr N st q ks -> unlinked N st ->
  exists q' st', Queue.pop N q st = Done (hd_error ks, q', st') /\
    queue_repr N st' q' (List.tl ks) /\ unlinked N st' /\ relinked (take 1 ks) st st' /\
    (forall k, hd_error ks = Some k ->
       exists s', Store.lookup st' k = Some s' /\ is_queued s' = false).
Proof.
  intros (Hnd & Hl & Hi) Hu. unfold Queue.pop, Store.index.
  destruct (indices q) as [i|] eqn:Hiq.
  2:{ subst ks. eexists _, _. split; [done|].
      split_and!; [|done|apply relinked_refl|done]. by split_and!; [constructor|done|rewrite Hiq]. }
  destruct Hi as [Hh Ht]. destruct ks as [|k ks]; [done|]. injection Hh as <-.
  destruct Hl as [(s & Hs & Hq & Hn) Hl]. rewrite Hs. cbn [unwrap obind].
  apply NoDup_cons in Hnd as [Hk Hnd].
  assert (forall s1, next s1 = None -> is_queued s1 = true ->
    (forall A (f : Stream.t -> A), Unaffected N f -> f s1 = f s) ->
    exists s2, set_queued s1 false = Done s2 /\ links N (Store.put st k s2) ks /\
      unlinked N (Store.put st k s2) /\ relinked [k] st (Store.put st k s2) /\
      Store.lookup (Store.put st k s2) k = Some s2 /\ is_queued s2 = false) as Hput.
  { intros s1 Hn1 Hq1 Hf1. destruct (set_queued_false s1) as [s2 Hs2].
    destruct (set_queued_spec _ _ _ Hs2) as [Hq2 Hn2].
    assert (forall A (f : Stream.t -> A), Unaffected N f -> f s2 = f s) as Hf2.
    { intros A f Hf. rewrite <-(Hf1 A f Hf). by eapply unaffected_queued. }
    pose proof (Hf2 _ Stream.id _) as Hid. exists s2. split_and!; [done| | | |by apply (lookup_put _ _ s)|done].
    - eapply links_ext; [|done]. intros x sx Hx Hsx. exists sx.
      rewrite (lookup_put_eq _ _ _ s), decide_False by congruence. done.
    - intros x sx. rewrite (lookup_put_eq _ _ _ s) by done. case_decide; [|apply Hu].
      intros [= <-] _. congruence.
    - by eapply relinked_put. }
  destruct ks as [|k2 ks].
  - injection Ht as Ht. rewrite decide_True by done. rewrite Hn. cbn [hd_error Stream.is_none assert obind].
    rewrite Hq. cbn [assert obind].
    destruct (Hput s Hn Hq) as (s2 & -> & Hl2 & Hu2 & Hr2 & Hlk & Hq2); [done|]. cbn [obind].
    eexists _, _. split; [done|]. split_and!; [by split_and!; [constructor|..]|done|done|].
    intros ? [= <-]. eauto.
  - assert (k <> QueueIndices.tail i) as Hne.
    { intros He. apply Hk. rewrite He. apply last_Some_elem_of. exact Ht. }
    rewrite decide_False by done. rewrite take_next_spec. rewrite Hn. cbn [hd_error unwrap obind].
    rewrite is_queued_set_next, Hq. cbn [assert obind].
    destruct (Hput (set_next s None)) as (s2 & -> & Hl2 & Hu2 & Hr2 & Hlk & Hq2).
    { apply next_set_next. } { by rewrite is_queued_set_next. }
    { intros A f Hf. apply unaffected_next. }
    cbn [obind]. eexists _, _. split; [done|]. split_and!; [|done|done|].
    + split_and!; [done|done|]. record. done.
    + intros ? [= <-]. eauto.
Qed.

End facts.

Section claims.
Context `{Hsl : SlabOps} `{!SlabLaws Hsl} `{Him : IndexMapOps} `{!IndexMapLaws Him}.


End claims.
