(* ===== verification/Spa.v ===== *)
(** * The single-packet tracker

    Models [src/src/spa.rs]: the tracker that withholds the last DATA frame of every
    stream and releases all of them together, directly ([Native]), after one ping
    round trip ([Ping]) or after two ([EnhancedPing]). *)

From S2P Require Import Prelude FrameBase ControlFrames DataFrame HpackHeader HeadersFrame.
From S2P Require Import ProtoErrors FramedRead FrameSink ProtoHandlers.
From S2P Require Import StreamState SlabLib FrameBuffer StreamRec StreamStore.

(** [x << n] on a [u64]: the high bits are lost. *)
Definition shl_u64 (x n : Z) : Z := wrap_u64 (Z.shiftl x n).

(** [build_ping_payload]; [nanos] is the clock, [as u64]. *)
Definition build_ping_payload (nanos : Z) : bytes :=
  let x := wrap_u64 nanos in
  let x := Z.lxor x (shl_u64 x 13) in
  let x := Z.lxor x (Z.shiftr x 7) in
  let x := Z.lxor x (shl_u64 x 17) in
  be_bytes 8 x.

Module PingState.

Inductive t : Type := Init | FirstSent | SecondToSend | SecondSent | Fin.

#[global] Instance eq_dec : EqDecision t.
Proof. solve_decision. Defined.

End PingState.

Module Mode.

Inductive t : Type :=
| Native
| Ping (state : option (bytes * bool))
| EnhancedPing (state : PingState.t) (payload : option bytes).

Definition ping : t := Ping None.
Definition enhanced : t := EnhancedPing PingState.Init None.

End Mode.

Module SpaTracker.

Record t : Type := mk {
  pending_spa : list StreamId.t;
  pending_stream_window_update : option (list StreamId.t);
  mode : Mode.t
}.

#[global] Instance eta_t : Eta t := fun s =>
  mk (pending_spa s) (pending_stream_window_update s) (mode s).

Definition from_mode (m : Mode.t) : t := mk [] None m.

Definition are_pending_stream_window_update (s : t) : bool :=
  match pending_stream_window_update s with Some _ => true | None => false end.

Definition add_pending_spa (s : t) (stream : StreamId.t) : t :=
  s <| pending_spa ::= (fun l => l ++ [stream]) |>.

Definition add_pending_stream_update (s : t) (stream : StreamId.t) : t :=
  let queue := match pending_stream_window_update s with Some q => q | None => [] end in
  s <| pending_stream_window_update := Some (queue ++ [stream]) |>.

Definition remove_pending_stream_update (s : t) (stream : StreamId.t) : t :=
  s <| pending_stream_window_update :=
    match pending_stream_window_update s with
    | Some q =>
        let q := filter (fun x => x <> stream) q in
        match q with [] => None | _ => Some q end
    | None => None
    end |>.

Definition add_enhanced_ping_first_ping (nanos : Z) (s : t) (ping_handler : PingHandler.t) :
    t * PingHandler.t :=
  match mode s with
  | Mode.EnhancedPing _ _ =>
      let payload := build_ping_payload nanos in
      (s <| mode := Mode.EnhancedPing PingState.FirstSent (Some payload) |>,
       PingHandler.send_ping ping_handler payload)
  | _ => (s, ping_handler)
  end.

Definition is_enhanced_ping (s : t) : bool :=
  match mode s with Mode.EnhancedPing _ _ => true | _ => false end.

(** [recvd_ping]; the wake-up of the task is not modelled. *)
Definition recvd_ping (s : t) (payload : bytes) : t :=
  match mode s with
  | Mode.Ping (Some (sent, ack)) =>
      if decide (sent = payload) then s <| mode := Mode.Ping (Some (sent, true)) |> else s
  | Mode.EnhancedPing PingState.FirstSent mayb_payload =>
      if decide (mayb_payload = Some payload)
      then s <| mode := Mode.EnhancedPing PingState.SecondToSend None |> else s
  | Mode.EnhancedPing PingState.SecondSent mayb_payload =>
      if decide (mayb_payload = Some payload)
      then s <| mode := Mode.EnhancedPing PingState.Fin None |> else s
  | _ => s
  end.

Section poll.
Context `{FrameSink} `{SlabOps} `{IndexMapOps}.

(** One round of [fill_frames]: the last frame of the stream [id]. *)
Definition fill_frame (id : StreamId.t) (store : Store.t) (buf : Buffer.t (T:=Frame.t)) (dst : sink) :
    outcome (Store.t * Buffer.t (T:=Frame.t) * sink) :=
  let! key := unwrap (Store.find_mut store id) in
  let! stream := Store.index store key in
  let! (frame, pending_send, buf) := Deque.pop_front (Stream.pending_send stream) buf in
  let! frame := unwrap frame in
  let stream := stream <| Stream.pending_send := pending_send |> in
  let! (frame, stream) :=
    match frame with
    | Frame.Data data =>
        let! state := State.send_close (Stream.state stream) in
        Done (Frame.Data (Data.set_end_stream true data), stream <| Stream.state := state |>)
    | _ => Done (frame, stream)
    end in
  let store := Store.put store key stream in
  let! (_, dst) := sink_buffer dst frame in
  Done (store, buf, dst).

Fixpoint fill_frames (ids : list StreamId.t) (store : Store.t) (buf : Buffer.t (T:=Frame.t))
    (dst : sink) : outcome (Store.t * Buffer.t (T:=Frame.t) * sink) :=
  match ids with
  | [] => Done (store, buf, dst)
  | id :: ids =>
      let! (store, buf, dst) := fill_frame id store buf dst in
      fill_frames ids store buf dst
  end.

(** [Vec::sort] on integers. *)
Fixpoint insert_sorted (x : Z) (l : list Z) : list Z :=
  match l with
  | [] => [x]
  | y :: l => if x <=? y then x :: y :: l else y :: insert_sorted x l
  end.
Definition sort (l : list Z) : list Z := fold_right insert_sorted [] l.

Definition poll_fill_frames (s : t) (store : Store.t) (buf : Buffer.t (T:=Frame.t)) (dst : sink) :
    outcome (poll (result unit io_error) * (t * Store.t * Buffer.t (T:=Frame.t)) * sink) :=
  let fill dst :=
    let size := len (pending_spa s) * 10 in
    let dst := inc_write_buffer dst size in
    let s := s <| pending_spa ::= sort |> in
    let! (store, buf, dst) := fill_frames (pending_spa s) store buf dst in
    let (r, dst) := flush dst in
    Done (r, (s, store, buf), dst) in
  if negb (write_buf_empty dst) then
    match flush dst with
    | (Ready (Ok _), dst) => fill dst
    | (r, dst) => Done (r, (s, store, buf), dst)
    end
  else fill dst.

(** [poll]: the last component is [is_done]. *)
Definition poll (nanos : Z) (s : t) (buf : Buffer.t (T:=Frame.t)) (store : Store.t) (dst : sink)
    (ping_handler : PingHandler.t) (can_perform_spa : bool) :
    outcome (poll (result unit io_error) * (t * Store.t * Buffer.t (T:=Frame.t)) * sink *
             PingHandler.t * bool) :=
  let run :=
    let! (r, x, dst) := poll_fill_frames s store buf dst in
    match r with
    | Ready (Ok _) => Done (Ready (Ok tt), x, dst, ping_handler, true)
    | r => Done (r, x, dst, ping_handler, false)
    end in
  match mode s with
  | Mode.Native | Mode.Ping (Some (_, true)) | Mode.EnhancedPing PingState.Fin _ => run
  | Mode.Ping None =>
      let payload := build_ping_payload nanos in
      Done (Pending, (s <| mode := Mode.Ping (Some (payload, false)) |>, store, buf), dst,
            PingHandler.send_ping ping_handler payload, false)
  | Mode.EnhancedPing PingState.SecondToSend p =>
      if can_perform_spa then
        let payload := build_ping_payload nanos in
        Done (Pending, (s <| mode := Mode.EnhancedPing PingState.SecondSent (Some payload) |>, store, buf),
              dst, PingHandler.send_ping ping_handler payload, false)
      else Done (Pending, (s, store, buf), dst, ping_handler, false)
  | Mode.Ping (Some (_, false)) | Mode.EnhancedPing _ _ =>
      Done (Pending, (s, store, buf), dst, ping_handler, false)
  end.

End poll.

End SpaTracker.
