(* ===== verification/StreamCountsFacts.v ===== *)
(** * Stream accounting: limits, and counters that match the store

    Every operation of [StreamCounts] keeps its counters within the limits and equal to the
    number of marked streams of the store, and cleaning up removes what is released. *)

From S2P Require Import Prelude FrameBase SettingsFrame ProtoErrors SlabLib StreamState.
From S2P Require Import FrameBuffer StreamRec StreamStore StreamStoreFacts Spa StreamCounts.

(** ** Counting streams *)

Section count.
Context {A : Type} (P : A -> bool).

Definition count_map (m : gmap nat A) : Z := Z.of_nat (size (filter (fun '(_, s) => P s = true) m)).

Lemma count_map_nonneg m : 0 <= count_map m.
Proof. unfold count_map. lia. Qed.

Lemma count_map_delete m i s :
  m !! i = Some s -> count_map m = Z.b2z (P s) + count_map (delete i m).
Proof.
  intros Hi. unfold count_map. rewrite map_filter_delete. destruct (P s) eqn:HP; cbn [Z.b2z].
  - rewrite map_size_delete_Some.
    + assert (0 < size (filter (fun '(_, s) => P s = true) m))%nat; [|lia].
      apply Nat.neq_0_lt_0. rewrite map_size_empty_iff. intros He.
      assert (filter (fun '(_, s) => P s = true) m !! i = Some s) as Hf
        by (by apply map_lookup_filter_Some).
      by rewrite He in Hf.
    + exists s. by apply map_lookup_filter_Some.
  - rewrite delete_id; [lia|]. apply map_lookup_filter_None. right. intros s' Hs' HP'.
    rewrite Hi in Hs'. injection Hs' as <-. congruence.
Qed.

Lemma count_map_insert m i s s' :
  m !! i = Some s -> count_map (<[i := s']> m) = count_map m - Z.b2z (P s) + Z.b2z (P s').
Proof.
  intros Hi. rewrite (count_map_delete m i s Hi).
  rewrite (count_map_delete (<[i := s']> m) i s') by (by rewrite lookup_insert_eq).
  rewrite delete_insert_eq. lia.
Qed.

Lemma count_map_fresh m i s :
  m !! i = None -> count_map (<[i := s]> m) = count_map m + Z.b2z (P s).
Proof.
  intros Hi. rewrite (count_map_delete (<[i := s]> m) i s) by (by rewrite lookup_insert_eq).
  rewrite delete_insert_id by done. lia.
Qed.

End count.

Section facts.
Context `{Hsl : SlabOps} `{!SlabLaws Hsl} `{Him : IndexMapOps} `{!IndexMapLaws Him}.

Implicit Types (st : Store.t) (k : Key.t) (s : Stream.t) (c : Counts.t).

Definition count_streams (P : Stream.t -> bool) st : Z := count_map P (slab_map (Store.streams st)).

Lemma count_put P st k s s' :
  Store.lookup st k = Some s ->
  count_streams P (Store.put st k s') = count_streams P st - Z.b2z (P s) + Z.b2z (P s').
Proof.
  intros [Hs _]%lookup_some. unfold count_streams, Store.put. record.
  rewrite slab_map_set by congruence. by apply count_map_insert.
Qed.

Lemma count_pos P st k s :
  Store.lookup st k = Some s -> P s = true -> 0 < count_streams P st.
Proof.
  intros [Hs _]%lookup_some HP. unfold count_streams. rewrite (count_map_delete _ _ _ _ Hs), HP.
  pose proof (count_map_nonneg P (delete (Key.index k) (slab_map (Store.streams st)))).
  cbn [Z.b2z]. lia.
Qed.

(** Streams we opened, streams the peer opened. *)
Definition local_init (r : Role.t) s : bool :=
  Bool.eqb (Role.is_server r) (StreamId.is_server_initiated (Stream.id s)).
Definition counted_local (r : Role.t) s : bool := Stream.is_counted s && local_init r s.
Definition counted_remote (r : Role.t) s : bool := Stream.is_counted s && negb (local_init r s).

(** The counters are the numbers of marked streams in the store. *)
Definition accounted c st : Prop :=
  Counts.num_send_streams c = count_streams (counted_local (Counts.role c)) st /\
  Counts.num_recv_streams c = count_streams (counted_remote (Counts.role c)) st.

Lemma local_init_spec r s :
  Stream.id s <> 0 -> Role.is_local_init r (Stream.id s) = Done (local_init r s).
Proof.
  intros Hid. unfold Role.is_local_init, StreamId.is_zero.
  by rewrite (proj2 (Z.eqb_neq _ _) Hid).
Qed.

(** Changes that keep the mark and the id keep the accounts. *)
Lemma accounted_put c st k s s' :
  Store.lookup st k = Some s -> Stream.id s' = Stream.id s ->
  Stream.is_counted s' = Stream.is_counted s -> accounted c st ->
  accounted c (Store.put st k s').
Proof.
  intros Hs Hid Hc [Hsend Hrecv]. unfold accounted. rewrite !(count_put _ _ _ s) by done.
  unfold counted_local, counted_remote, local_init in *. rewrite Hid, Hc. lia.
Qed.

Lemma dec_num_streams_spec c st k s :
  accounted c st -> Store.lookup st k = Some s -> Stream.is_counted s = true -> Stream.id s <> 0 ->
  exists c', Counts.dec_num_streams c st k =
      Done (c', Store.put st k (s <| Stream.is_counted := false |>)) /\
    accounted c' (Store.put st k (s <| Stream.is_counted := false |>)) /\
    Counts.num_local_reset_streams c' = Counts.num_local_reset_streams c.
Proof.
  intros [Hsend Hrecv] Hs Hc Hid. unfold Counts.dec_num_streams, Store.index. rewrite Hs.
  cbn [unwrap obind]. rewrite Hc. cbn [assert obind]. rewrite local_init_spec by done.
  cbn [obind]. destruct (local_init (Counts.role c) s) eqn:Hl.
  - pose proof (count_pos (counted_local (Counts.role c)) st k s Hs) as Hp.
    unfold counted_local at 1 in Hp. rewrite Hc, Hl in Hp. specialize (Hp eq_refl).
    rewrite (proj2 (Z.gtb_lt _ _)) by lia. cbn [assert obind]. eexists. split; [done|].
    split; [|done]. unfold accounted. record. rewrite !(count_put _ _ _ s) by done.
    unfold counted_local, counted_remote, local_init in *. cbn. rewrite Hc, Hl in *. cbn in *. lia.
  - pose proof (count_pos (counted_remote (Counts.role c)) st k s Hs) as Hp.
    unfold counted_remote at 1 in Hp. rewrite Hc, Hl in Hp. specialize (Hp eq_refl).
    rewrite (proj2 (Z.gtb_lt _ _)) by lia. cbn [assert obind]. eexists. split; [done|].
    split; [|done]. unfold accounted. record. rewrite !(count_put _ _ _ s) by done.
    unfold counted_local, counted_remote, local_init in *. cbn. rewrite Hc, Hl in *. cbn in *. lia.
Qed.

(** Opening a stream keeps the counters equal to the numbers of marked streams in
    the store, counts it on the side that initiated it, and does not panic as long as
    [can_inc_num_recv_streams] (or [send]) was checked and the stream is not counted. *)
Theorem inc_num_streams_accounts c st k s :
  accounted c st -> Store.lookup st k = Some s -> Stream.is_counted s = false ->
  Counts.max_recv_streams c <= usize_max -> Counts.max_send_streams c <= usize_max ->
  (local_init (Counts.role c) s = false -> Counts.can_inc_num_recv_streams c = true ->
   exists c' st', Counts.inc_num_recv_streams c st k = Done (c', st') /\ accounted c' st' /\
     Counts.num_recv_streams c' = Counts.num_recv_streams c + 1 /\
     Store.lookup st' k = Some (s <| Stream.is_counted := true |>)) /\
  (local_init (Counts.role c) s = true -> Counts.can_inc_num_send_streams c = true ->
   exists c' st', Counts.inc_num_send_streams c st k = Done (c', st') /\ accounted c' st' /\
     Counts.num_send_streams c' = Counts.num_send_streams c + 1 /\
     Store.lookup st' k = Some (s <| Stream.is_counted := true |>)).
Proof.
  intros [Hsend Hrecv] Hs Hc Hmr Hms. split; intros Hl Hcan.
  - unfold Counts.inc_num_recv_streams, Store.index. rewrite Hcan, Hs. cbn [assert unwrap obind].
    rewrite Hc. cbn [negb assert obind]. unfold Counts.add_one, Counts.can_inc_num_recv_streams in *.
    bool_to_prop. rewrite (proj2 (Z.ltb_lt _ _)) by lia. cbn [assert obind].
    eexists _, _. split; [done|]. record. split_and!; [|lia|by apply (lookup_put _ _ s)].
    unfold accounted. record. rewrite !(count_put _ _ _ s) by done.
    unfold counted_local, counted_remote, local_init in *. cbn. rewrite Hc, Hl in *. cbn in *. lia.
  - unfold Counts.inc_num_send_streams, Store.index. rewrite Hcan, Hs. cbn [assert unwrap obind].
    rewrite Hc. cbn [negb assert obind]. unfold Counts.add_one, Counts.can_inc_num_send_streams in *.
    bool_to_prop. rewrite (proj2 (Z.ltb_lt _ _)) by lia. cbn [assert obind].
    eexists _, _. split; [done|]. record. split_and!; [|lia|by apply (lookup_put _ _ s)].
    unfold accounted. record. rewrite !(count_put _ _ _ s) by done.
    unfold counted_local, counted_remote, local_init in *. cbn. rewrite Hc, Hl in *. cbn in *. lia.
Qed.

Lemma accounted_remove c st st' k s :
  accounted c st -> Store.lookup st k = Some s -> Stream.is_counted s = false ->
  slab_map (Store.streams st') = delete (Key.index k) (slab_map (Store.streams st)) ->
  accounted c st'.
Proof.
  intros [Hsend Hrecv] [Hs _]%lookup_some Hc Hd. unfold accounted, count_streams in *.
  rewrite Hd. rewrite (count_map_delete _ _ _ _ Hs) in Hsend.
  rewrite (count_map_delete _ _ _ _ Hs) in Hrecv.
  unfold counted_local at 1 in Hsend. unfold counted_remote at 1 in Hrecv.
  rewrite Hc in *. cbn in *. lia.
Qed.

(** [transition_after] uncounts a closed stream, unless its reset is only scheduled. *)
Definition to_uncount s : bool :=
  Stream.is_closed s && negb (State.is_scheduled_reset (Stream.state s)) && Stream.is_counted s.
Definition uncounted s : Stream.t :=
  if to_uncount s then s <| Stream.is_counted := false |> else s.

Lemma uncount_spec c st k s :
  store_wf st -> accounted c st -> Store.lookup st k = Some s -> Stream.id s <> 0 ->
  Stream.is_closed s = true ->
  exists c' st',
    (if negb (State.is_scheduled_reset (Stream.state s)) && Stream.is_counted s
     then Counts.dec_num_streams c st k else Done (c, st)) = Done (c', st') /\
    store_wf st' /\ accounted c' st' /\
    slab_map (Store.streams st') = <[Key.index k := uncounted s]> (slab_map (Store.streams st)) /\
    Store.ids st' = Store.ids st.
Proof.
  intros Hwf Hacc Hs Hid Hcl. pose proof Hs as [Hm _]%lookup_some.
  unfold uncounted, to_uncount. rewrite Hcl. cbn [andb].
  destruct (negb (State.is_scheduled_reset (Stream.state s)) && Stream.is_counted s) eqn:Hb.
  - apply andb_prop in Hb as [_ Hc].
    destruct (dec_num_streams_spec c st k s Hacc Hs Hc Hid) as (c' & -> & Hacc' & _).
    eexists _, _. split_and!; [done|by eapply put_wf|done| |done].
    unfold Store.put. record. rewrite slab_map_set by congruence. done.
  - eexists _, _. split_and!; try done. by rewrite insert_id.
Qed.

(** The link to the id is cut when the stream is closed and not kept for a reset. *)
Definition to_unlink s : bool := Stream.is_closed s && negb (Stream.is_pending_reset_expiration s).

Lemma transition_close_spec c st k s b :
  store_wf st -> accounted c st -> Store.lookup st k = Some s -> Stream.id s <> 0 ->
  (b = true -> Stream.is_pending_reset_expiration s = true \/ 0 < Counts.num_local_reset_streams c) ->
  exists c' st',
    (if Stream.is_closed s then
      let! (c, st) :=
        if negb (Stream.is_pending_reset_expiration s) then
          let st := Ptr.unlink st k in
          if b then let! c := Counts.dec_num_reset_streams c in Done (c, st) else Done (c, st)
        else Done (c, st) in
      if negb (State.is_scheduled_reset (Stream.state s)) && Stream.is_counted s
      then Counts.dec_num_streams c st k else Done (c, st)
    else Done (c, st)) = Done (c', st') /\
    store_wf st' /\ accounted c' st' /\
    slab_map (Store.streams st') = <[Key.index k := uncounted s]> (slab_map (Store.streams st)) /\
    Store.ids st' = (if to_unlink s then Store.ids (Ptr.unlink st k) else Store.ids st).
Proof.
  intros Hwf Hacc Hs Hid Hb. pose proof Hs as [Hm _]%lookup_some. unfold to_unlink.
  destruct (Stream.is_closed s) eqn:Hcl; cbn [andb].
  2:{ eexists _, _. split_and!; try done. unfold uncounted, to_uncount. rewrite Hcl. cbn.
      by rewrite insert_id. }
  destruct (Stream.is_pending_reset_expiration s); cbn [negb obind].
  - by apply uncount_spec.
  - assert (exists c1, (if b then let! c := Counts.dec_num_reset_streams c in
        Done (c, Ptr.unlink st k) else Done (c, Ptr.unlink st k)) = Done (c1, Ptr.unlink st k) /\
        accounted c1 (Ptr.unlink st k)) as (c1 & -> & Hacc1).
    { destruct b; [|by eexists]. unfold Counts.dec_num_reset_streams.
      destruct Hb as [?|?]; [done..|]. rewrite (proj2 (Z.gtb_lt _ _)) by lia. cbn. by eexists. }
    cbn [obind]. apply (uncount_spec c1 (Ptr.unlink st k)); [by apply unlink_wf|done..].
Qed.

Lemma uncounted_released s : Stream.is_released (uncounted s) = Stream.is_released s.
Proof. unfold uncounted. by destruct (to_uncount s). Qed.

Lemma uncounted_id s : Stream.id (uncounted s) = Stream.id s.
Proof. unfold uncounted. by destruct (to_uncount s). Qed.

(** [transition_after] on the slab: the stream is uncounted, and gone when released. *)
Lemma transition_after_spec c st k s b :
  store_wf st -> accounted c st -> Store.lookup st k = Some s -> Stream.id s <> 0 ->
  (State.is_scheduled_reset (Stream.state s) = true -> Stream.is_released s = false) ->
  (b = true -> Stream.is_pending_reset_expiration s = true \/ 0 < Counts.num_local_reset_streams c) ->
  exists c' st', Counts.transition_after c st k b = Done (c', st') /\
    store_wf st' /\ accounted c' st' /\
    slab_map (Store.streams st') =
      (if Stream.is_released s then delete (Key.index k) (slab_map (Store.streams st))
       else <[Key.index k := uncounted s]> (slab_map (Store.streams st))) /\
    Store.ids st' = (if to_unlink s then Store.ids (Ptr.unlink st k) else Store.ids st).
Proof.
  intros Hwf Hacc Hs Hid Hsched Hb.
  pose proof Hs as [Hm Hkid]%lookup_some.
  destruct (transition_close_spec c st k s b Hwf Hacc Hs Hid Hb)
    as (c1 & st1 & He & Hwf1 & Hacc1 & Hm1 & Hids1).
  assert (Store.lookup st1 k = Some (uncounted s)) as Hs1.
  { apply lookup_some. by rewrite Hm1, lookup_insert_eq, uncounted_id. }
  unfold Counts.transition_after, Store.index. rewrite Hs.
  cbn [unwrap obind] in He |- *. rewrite He.
  cbn [obind]. rewrite Hs1. cbn [unwrap obind]. rewrite uncounted_released.
  destruct (Stream.is_released s) eqn:Hrel; [|by eexists _, _].
  assert (to_unlink s = true /\ Stream.is_counted (uncounted s) = false) as [Hunl Hunc].
  { unfold Stream.is_released in Hrel. unfold to_unlink, uncounted, to_uncount,
      Stream.is_pending_reset_expiration. bool_to_prop.
    repeat match goal with H : _ /\ _ |- _ => destruct H end.
    destruct (State.is_scheduled_reset (Stream.state s)) eqn:Hsr;
      [by specialize (Hsched eq_refl)|].
    rewrite H, H0. cbn. split; [done|]. by destruct (Stream.is_counted s) eqn:?. }
  destruct (remove_spec st1 k (uncounted s) Hwf1 Hs1) as (st2 & Hrm & Hwf2 & Hids2 & Hl2 & Hmap & _).
  { rewrite Hids1, Hunl, im_get_unlink. by rewrite Z.eqb_refl. }
  rewrite Hrm. cbn [obind]. eexists _, _. split_and!; [done|done|by eapply accounted_remove| |].
  - rewrite Hmap, Hm1. apply delete_insert_eq.
  - by rewrite Hids2, Hids1.
Qed.


(** ** Limits *)

(** The operations on the counters; a settings change gives a new limit to the streams
    we may open. *)
Inductive counts_step : Counts.t -> Counts.t -> Prop :=
| cs_local_error c c' : Counts.inc_num_local_error_resets c = Done c' -> counts_step c c'
| cs_recv c st k c' st' : Counts.inc_num_recv_streams c st k = Done (c', st') -> counts_step c c'
| cs_send c st k c' st' : Counts.inc_num_send_streams c st k = Done (c', st') -> counts_step c c'
| cs_dec_reset c c' : Counts.dec_num_reset_streams c = Done c' -> counts_step c c'
| cs_inc_reset c c' : Counts.inc_num_reset_streams c = Done c' -> counts_step c c'
| cs_inc_remote c c' : Counts.inc_num_remote_reset_streams c = Done c' -> counts_step c c'
| cs_dec_remote c c' : Counts.dec_num_remote_reset_streams c = Done c' -> counts_step c c'
| cs_transition c st k b c' st' :
    Counts.transition_after c st k b = Done (c', st') -> counts_step c c'
| cs_settings c (cfg : Settings.t) :
    Settings.legal cfg -> counts_step c (Counts.apply_remote_settings c cfg).

Inductive counts_run (c0 : Counts.t) : Counts.t -> Prop :=
| crun_refl : counts_run c0 c0
| crun_step c c' : counts_run c0 c -> counts_step c c' -> counts_run c0 c'.

Definition within_limits c : Prop :=
  0 <= Counts.num_send_streams c /\
  0 <= Counts.num_recv_streams c <= Z.max 0 (Counts.max_recv_streams c) /\
  0 <= Counts.num_local_reset_streams c <= Z.max 0 (Counts.max_local_reset_streams c) /\
  0 <= Counts.num_remote_reset_streams c <= Z.max 0 (Counts.max_remote_reset_streams c) /\
  0 <= Counts.num_local_error_reset_streams c /\
  match Counts.max_local_error_reset_streams c with
  | Some max => Counts.num_local_error_reset_streams c <= Z.max 0 max
  | None => True
  end.

(** What no operation changes. *)
Definition same_limits c c' : Prop :=
  Counts.role c' = Counts.role c /\ Counts.max_recv_streams c' = Counts.max_recv_streams c /\
  Counts.max_local_reset_streams c' = Counts.max_local_reset_streams c /\
  Counts.max_remote_reset_streams c' = Counts.max_remote_reset_streams c /\
  Counts.max_local_error_reset_streams c' = Counts.max_local_error_reset_streams c /\
  Counts.num_local_error_reset_streams c <= Counts.num_local_error_reset_streams c'.

Lemma same_limits_refl c : same_limits c c.
Proof. unfold same_limits. intuition lia. Qed.

Lemma same_limits_trans c1 c2 c3 : same_limits c1 c2 -> same_limits c2 c3 -> same_limits c1 c3.
Proof. unfold same_limits. intuition (congruence || lia). Qed.

(** Peel the guards off a run that is [Done]. *)
Ltac peel H :=
  repeat match type of H with
  | obind (assert ?b) _ = Done _ => destruct b eqn:?; cbn [assert obind] in H; [|done]
  | obind (Counts.add_one ?n) _ = Done _ => unfold Counts.add_one in H
  | obind (obind _ _) _ = Done _ => rewrite obind_assoc in H
  | obind ?o _ = Done _ => destruct o eqn:?; cbn [obind] in H; [|done]
  | (if ?b then _ else _) = Done _ => destruct b eqn:?
  | Done _ = Done _ => injection H as <-
  end.

Ltac limits :=
  unfold within_limits, same_limits, Counts.can_inc_num_recv_streams,
    Counts.can_inc_num_send_streams, Counts.can_inc_num_reset_streams,
    Counts.can_inc_num_remote_reset_streams, Counts.can_inc_num_local_error_resets in *;
  record; bool_to_prop; intuition lia.

Lemma dec_num_streams_limits c st k c' st' :
  Counts.dec_num_streams c st k = Done (c', st') ->
  within_limits c -> within_limits c' /\ same_limits c c'.
Proof. unfold Counts.dec_num_streams. intros H Hl. peel H; limits. Qed.

Lemma dec_num_reset_limits c c' :
  Counts.dec_num_reset_streams c = Done c' -> within_limits c ->
  within_limits c' /\ same_limits c c'.
Proof. unfold Counts.dec_num_reset_streams. intros H Hl. peel H; limits. Qed.

Lemma transition_after_limits c st k b c' st' :
  Counts.transition_after c st k b = Done (c', st') ->
  within_limits c -> within_limits c' /\ same_limits c c'.
Proof.
  unfold Counts.transition_after. intros H Hl.
  destruct (Store.index st k) as [s|]; cbn [obind] in H; [|done].
  match type of H with obind ?o _ = _ => destruct o as [[c1 st1]|] eqn:E end; [|done].
  cbn [obind] in H. assert (c' = c1) as ->.
  { destruct (Store.index st1 k) as [s1|]; cbn [obind] in H; [|done].
    destruct (Stream.is_released s1); [|by injection H].
    destruct (Ptr.remove st1 k) as [[? ?]|]; cbn in H; [by injection H|done]. }
  clear H. destruct (Stream.is_closed s); [|injection E as <- _; by split; [|apply same_limits_refl]].
  match type of E with obind ?o _ = _ => destruct o as [[c2 st2]|] eqn:E2 end; [|done].
  cbn [obind] in E. assert (within_limits c2 /\ same_limits c c2) as [Hl2 Hs2].
  { destruct (negb _); [destruct b|].
    - destruct (Counts.dec_num_reset_streams c) as [c3|] eqn:E3; cbn in E2; [|done].
      injection E2 as <- _. by eapply dec_num_reset_limits.
    - injection E2 as <- _. by split; [|apply same_limits_refl].
    - injection E2 as <- _. by split; [|apply same_limits_refl]. }
  destruct (negb _ && _); [|injection E as <- _; done].
  destruct (dec_num_streams_limits _ _ _ _ _ E Hl2). split; [done|].
  by eapply same_limits_trans.
Qed.

Lemma counts_step_limits c c' :
  counts_step c c' -> within_limits c -> within_limits c' /\ same_limits c c'.
Proof.
  destruct 1 as [c c' H|c st k c' st' H|c st k c' st' H|c c' H|c c' H|c c' H|c c' H|c st k b c' st' H|c cfg Hc];
    intros Hl.
  - unfold Counts.inc_num_local_error_resets in H. peel H.
    unfold within_limits, same_limits, Counts.can_inc_num_local_error_resets in *.
    destruct (Counts.max_local_error_reset_streams c) eqn:Hm;
      record; rewrite ?Hm in *; limits.
  - unfold Counts.inc_num_recv_streams in H. peel H; limits.
  - unfold Counts.inc_num_send_streams in H. peel H; limits.
  - by eapply dec_num_reset_limits.
  - unfold Counts.inc_num_reset_streams in H. peel H; limits.
  - unfold Counts.inc_num_remote_reset_streams in H. peel H; limits.
  - unfold Counts.dec_num_remote_reset_streams in H. peel H; limits.
  - by eapply transition_after_limits.
  - unfold Counts.apply_remote_settings. limits.
Qed.

(** C23: over the whole life of a connection the numbers of streams the peer has opened,
    of locally reset streams kept, of remotely reset streams not yet accepted and of
    protocol errors answered by a reset never go below zero nor above their limits,
    which no operation changes, and the number of protocol errors never decreases. *)
Theorem counts_stay_within_limits role config c :
  counts_run (Counts.new role config) c ->
  within_limits c /\ same_limits (Counts.new role config) c.
Proof.
  induction 1 as [|c c' Hrun [Hl Hs] Hstep].
  - split; [|apply same_limits_refl]. unfold within_limits. cbn.
    destruct (ConnectionConfig.local_max_error_reset_streams config); intuition lia.
  - destruct (counts_step_limits c c' Hstep Hl). split; [done|]. by eapply same_limits_trans.
Qed.

End facts.
