(* ===== verification/StreamView.v ===== *)
(** * The streams of a store without their links

    The queues of a connection are threaded through the streams.  [core] forgets the
    links, so that the operations on one queue change one stream: the view of a store
    is the map of its cores, and every operation below is given by what it does to the
    view and to the sequence of its queue. *)

From S2P Require Import Prelude Effects FrameBase ProtoErrors SlabLib StreamState FlowWindow.
From S2P Require Import FrameBuffer StreamRec StreamStore StreamStoreFacts StreamQueue.
From S2P Require Import StreamCounts StreamCountsFacts.

Definition core (s : Stream.t) : Stream.t :=
  s <| Stream.next_pending_send := None |> <| Stream.next_pending_send_capacity := None |>
    <| Stream.next_open := None |> <| Stream.next_pending_accept := None |>
    <| Stream.next_pending_complete := None |> <| Stream.next_reset_expire := None |>.

(** The operations of [N] reach only its link and its mark. *)
Class Cored (N : Next) : Prop :=
  cored s s' : (forall A (f : Stream.t -> A), Unaffected N f -> f s' = f s) ->
    is_queued (Next:=N) s' = is_queued (Next:=N) s -> core s' = core s.

(** A core is what is left of it without its mark, and the mark. *)
Lemma cored_by (N : Next) (set : Stream.t -> bool -> Stream.t) :
  Unaffected N (fun s => set (core s) false) ->
  (forall s, core s = set (set (core s) false) (is_queued (Next:=N) s)) -> Cored N.
Proof.
  intros Hu Hset s s' Hf Hq. pose proof (Hf _ _ Hu) as He. cbv beta in He.
  by rewrite (Hset s), (Hset s'), He, Hq.
Qed.

#[export] Instance NextSend_cored : Cored NextSend.
Proof. apply (cored_by _ (fun s b => s <| Stream.is_pending_send := b |>)); [unaffected|by intros []]. Qed.
#[export] Instance NextSendCapacity_cored : Cored NextSendCapacity.
Proof. apply (cored_by _ (fun s b => s <| Stream.is_pending_send_capacity := b |>)); [unaffected|by intros []]. Qed.
#[export] Instance NextOpen_cored : Cored NextOpen.
Proof. apply (cored_by _ (fun s b => s <| Stream.is_pending_open := b |>)); [unaffected|by intros []]. Qed.
#[export] Instance NextAccept_cored : Cored NextAccept.
Proof. apply (cored_by _ (fun s b => s <| Stream.is_pending_accept := b |>)); [unaffected|by intros []]. Qed.
#[export] Instance NextComplete_cored : Cored NextComplete.
Proof. apply (cored_by _ (fun s b => s <| Stream.is_pending_complete := b |>)); [unaffected|by intros []]. Qed.

Section view.
Context `{Hsl : SlabOps} `{!SlabLaws Hsl} `{Him : IndexMapOps} `{!IndexMapLaws Him}.

Implicit Types (st : Store.t) (k : Key.t) (s v : Stream.t).

Definition view st : gmap nat Stream.t := core <$> slab_map (Store.streams st).

(** The key of the stream [v] in slot [i]. *)
Definition key_of (i : nat) v : Key.t := Key.mk i (Stream.id v).

Lemma view_lookup st k s : Store.lookup st k = Some s -> view st !! Key.index k = Some (core s).
Proof. intros [Hs _]%lookup_some. unfold view. by rewrite lookup_fmap, Hs. Qed.

Lemma view_key st i v :
  view st !! i = Some v -> exists s, Store.lookup st (key_of i v) = Some s /\ core s = v.
Proof.
  unfold view. rewrite lookup_fmap. destruct (slab_map _ !! i) as [s|] eqn:Hs; [|done].
  cbn. intros [= <-]. exists s. split; [|done]. by apply lookup_some.
Qed.

Lemma view_stream st k v :
  view st !! Key.index k = Some v -> Stream.id v = Key.stream_id k ->
  exists s, Store.lookup st k = Some s /\ core s = v.
Proof.
  intros Hv Hid. destruct (view_key st _ v Hv) as (s & Hs & He). exists s. split; [|done].
  unfold key_of in Hs. rewrite Hid in Hs. by destruct k.
Qed.

Lemma view_put st k s s' :
  Store.lookup st k = Some s -> view (Store.put st k s') = <[Key.index k := core s']> (view st).
Proof.
  intros [Hs _]%lookup_some. unfold view, Store.put. record.
  rewrite slab_map_set by congruence. by rewrite fmap_insert.
Qed.

(** Stores with the same cores at every key have the same view. *)
Lemma view_ext st st' :
  (forall k, core <$> Store.lookup st' k = core <$> Store.lookup st k) -> view st' = view st.
Proof.
  intros Hl. assert (forall st1 st2, (forall k, core <$> Store.lookup st1 k = core <$> Store.lookup st2 k) ->
    forall i v, view st1 !! i = Some v -> view st2 !! i = Some v) as Hsub.
  { intros st1 st2 H12 i v Hv. destruct (view_key st1 i v Hv) as (s & Hs & <-).
    specialize (H12 (key_of i (core s))). rewrite Hs in H12. cbn in H12. symmetry in H12.
    apply fmap_Some in H12 as (s2 & Hs2 & He). apply view_lookup in Hs2. cbn in Hs2. congruence. }
  apply map_eq. intros i. apply option_eq. intros v. split; apply Hsub; [done|].
  intros k. by rewrite Hl.
Qed.

(** ** Queues *)

Section queue.
Context (N : Next) `{!NextLaws N} `{!Unaffected N Stream.id} `{!Cored N}.

Lemma core_relinked st st' ks ks' ks0 k s s2 :
  relinked N ks st st' -> links N st ks0 -> links N st' ks' ->
  (forall x, x ∈ ks -> x <> k -> x ∈ ks0 /\ x ∈ ks') ->
  Store.lookup st k = Some s -> Store.lookup st' k = Some s2 ->
  view st' = <[Key.index k := core s2]> (view st).
Proof.
  intros (_ & Ho & Hf & Hb) Hl0 Hl' Hks Hs Hs2.
  assert (Stream.id s2 = Stream.id s) as Hid.
  { destruct (Hf k s Hs) as (s' & Hs' & He). rewrite Hs2 in Hs'. injection Hs' as <-. by apply He. }
  rewrite <-(view_put st k s s2 Hs). apply view_ext. intros x.
  rewrite (lookup_put_eq _ _ _ s) by done. destruct (decide (x = k)) as [->|Hne]; [by rewrite Hs2|].
  destruct (decide (x ∈ ks)) as [Hx|Hx]; [|by rewrite Ho].
  destruct (Hks x Hx Hne) as [Hx0 Hx'].
  destruct (links_queued N st ks0 x Hl0 Hx0) as (sx & Hsx & Hqx).
  destruct (links_queued N st' ks' x Hl' Hx') as (sx' & Hsx' & Hqx').
  destruct (Hf x sx Hsx) as (sx2 & Hsx2 & He). rewrite Hsx' in Hsx2. injection Hsx2 as <-.
  rewrite Hsx, Hsx'. cbn. f_equal. apply cored; [done|congruence].
Qed.

(** A stream after an operation is known by its mark. *)
Lemma core_marked st st' ks k s s' s2 b :
  relinked N ks st st' -> Store.lookup st k = Some s -> Store.lookup st' k = Some s2 ->
  set_queued s b = Done s' -> is_queued s2 = b -> core s2 = core s'.
Proof.
  intros (_ & _ & Hf & _) Hs Hs2 Hs' Hq. apply cored.
  - intros A f Hfu. destruct (Hf k s Hs) as (s3 & Hs3 & He). rewrite Hs2 in Hs3. injection Hs3 as <-.
    rewrite He by done. symmetry. by eapply unaffected_queued.
  - rewrite Hq. symmetry. by apply set_queued_spec in Hs' as [? _].
Qed.

Lemma queue_push_view st q ks k s s' :
  queue_repr N st q ks -> unlinked N st -> Store.lookup st k = Some s ->
  is_queued s = false -> set_queued s true = Done s' ->
  exists q' st', Queue.push N q st k = Done (true, q', st') /\
    queue_repr N st' q' (ks ++ [k]) /\ unlinked N st' /\ relinked N (k :: ks) st st' /\
    view st' = <[Key.index k := core s']> (view st).
Proof.
  intros Hr Hu Hs Hq Hs'.
  destruct (queue_push_spec N st q ks k s s' Hr Hu Hs Hq Hs') as (q' & st' & Hp & Hr' & Hu' & Hrel).
  exists q', st'. split_and!; [done..|].
  destruct Hr' as (_ & Hl' & _). destruct (links_queued N st' _ k Hl') as (s2 & Hs2 & Hq2);
    [by apply elem_of_app; right; left|].
  rewrite <-(core_marked st st' _ k s s' s2 _ Hrel Hs Hs2 Hs' Hq2).
  destruct Hr as (_ & Hl & _).
  eapply (core_relinked st st' (k :: ks) _ ks); [done..| |done|done].
  intros x [->|Hx]%elem_of_cons Hne; [done|]. split; [done|]. apply elem_of_app. by left.
Qed.

Lemma queue_push_front_view st q ks k s s' :
  queue_repr N st q ks -> unlinked N st -> Store.lookup st k = Some s ->
  is_queued s = false -> set_queued s true = Done s' ->
  exists q' st', Queue.push_front N q st k = Done (true, q', st') /\
    queue_repr N st' q' (k :: ks) /\ unlinked N st' /\ relinked N (k :: ks) st st' /\
    view st' = <[Key.index k := core s']> (view st).
Proof.
  intros Hr Hu Hs Hq Hs'.
  destruct (queue_push_front_spec N st q ks k s s' Hr Hu Hs Hq Hs') as (q' & st' & Hp & Hr' & Hu' & Hrel).
  exists q', st'. split_and!; [done..|].
  destruct Hr' as (_ & Hl' & _). destruct (links_queued N st' _ k Hl') as (s2 & Hs2 & Hq2); [by left|].
  rewrite <-(core_marked st st' _ k s s' s2 _ Hrel Hs Hs2 Hs' Hq2).
  destruct Hr as (_ & Hl & _).
  eapply (core_relinked st st' (k :: ks) _ ks); [done..| |done|done].
  intros x [->|Hx]%elem_of_cons Hne; [done|]. split; [done|by right].
Qed.

Lemma queue_pop_view st q k ks s s' :
  queue_repr N st q (k :: ks) -> unlinked N st -> Store.lookup st k = Some s ->
  set_queued s false = Done s' ->
  exists q' st', Queue.pop N q st = Done (Some k, q', st') /\
    queue_repr N st' q' ks /\ unlinked N st' /\ relinked N [k] st st' /\
    view st' = <[Key.index k := core s']> (view st).
Proof.
  intros Hr Hu Hs Hs'.
  destruct (queue_pop_spec N st q (k :: ks) Hr Hu) as (q' & st' & Hp & Hr' & Hu' & Hrel & Hk).
  cbn in *. destruct (Hk k eq_refl) as (s2 & Hs2 & Hq2).
  exists q', st'. split_and!; [done..|].
  rewrite <-(core_marked st st' _ k s s' s2 _ Hrel Hs Hs2 Hs' Hq2).
  destruct Hr as (_ & Hl & _), Hr' as (_ & Hl' & _).
  eapply (core_relinked st st' [k] ks (k :: ks)); [done..| |done|done].
  by intros x ->%list_elem_of_singleton.
Qed.

Lemma queue_pop_empty st q :
  queue_repr N st q [] -> unlinked N st ->
  exists q', Queue.pop N q st = Done (None, q', st) /\ queue_repr N st q' [].
Proof.
  intros Hr Hu. unfold Queue.pop. destruct Hr as (Hnd & Hl & Hi).
  destruct (indices q) as [i|] eqn:Hiq; [by destruct Hi|].
  exists q. split; [done|]. by split_and!; [..|rewrite Hiq].
Qed.

End queue.

End view.
