(* ===== verification/Evolve.v ===== *)
(** * What may happen to a stream

    [moved s s'] is the contract every handler keeps with a stream: its identifier
    never changes, its state changes only by the operations of [State], its two windows
    only by increments and decrements.  [evolves w w'] lifts it to the worlds the
    handlers run on: every stream of [w'] was in [w] and has moved since, the
    connection windows have moved, the identifiers and the role are the same.
    [kept w m] says that [m] run from [w] only evolves it. *)

From S2P Require Import Prelude Effects FrameBase SettingsFrame HpackHeader HeadersFrame ProtoErrors.
From S2P Require Import SlabLib StreamState.
From S2P Require Import FlowWindow FrameBuffer StreamRec StreamStore StreamStoreFacts StreamQueue.
From S2P Require Import Spa StreamCounts.

(** ** Windows and streams *)

Inductive flow_step : FlowControl.t -> FlowControl.t -> Prop :=
| flow_inc f sz : flow_step f (FlowControl.inc_window f sz).2
| flow_dec f sz : flow_step f (FlowControl.dec_window f sz).2.

Definition state_step (s s' : State.t) : Prop := exists o, State.apply o s = Some s'.

Record moved (s s' : Stream.t) : Prop := {
  moved_id : Stream.id s' = Stream.id s;
  moved_state : rtc state_step (Stream.state s) (Stream.state s');
  moved_send : rtc flow_step (Stream.send_flow s) (Stream.send_flow s');
  moved_recv : rtc flow_step (Stream.recv_flow s) (Stream.recv_flow s')
}.

#[export] Instance moved_preorder : PreOrder moved.
Proof.
  split; [by intros s; split|]. intros s1 s2 s3 [] []. split; [congruence|by etrans..].
Qed.

(** Bookkeeping: nothing of the above changes. *)
Lemma moved_same s s' :
  Stream.id s' = Stream.id s -> Stream.state s' = Stream.state s ->
  Stream.send_flow s' = Stream.send_flow s -> Stream.recv_flow s' = Stream.recv_flow s -> moved s s'.
Proof. intros Hi Hs Hf Hr. split; [done|by rewrite ?Hs, ?Hf, ?Hr..]. Qed.

Lemma moved_by o s s' st :
  State.apply o (Stream.state s) = Some st -> moved (s <| Stream.state := st |>) s' -> moved s s'.
Proof.
  intros Ho Hm. transitivity (s <| Stream.state := st |>); [|done].
  split; [done|by apply rtc_once; exists o|done..].
Qed.

Lemma moved_send_flow s s' f :
  flow_step (Stream.send_flow s) f -> moved (s <| Stream.send_flow := f |>) s' -> moved s s'.
Proof.
  intros Hf Hm. transitivity (s <| Stream.send_flow := f |>); [|done].
  split; [done..|by apply rtc_once|done].
Qed.

Lemma moved_recv_flow s s' f :
  flow_step (Stream.recv_flow s) f -> moved (s <| Stream.recv_flow := f |>) s' -> moved s s'.
Proof.
  intros Hf Hm. transitivity (s <| Stream.recv_flow := f |>); [|done].
  split; [done..|by apply rtc_once].
Qed.

Lemma flow_inc_eq f sz r f' : FlowControl.inc_window f sz = (r, f') -> flow_step f f'.
Proof. intros Hf. replace f' with (FlowControl.inc_window f sz).2 by (by rewrite Hf). constructor. Qed.

Lemma flow_dec_eq f sz r f' : FlowControl.dec_window f sz = (r, f') -> flow_step f f'.
Proof. intros Hf. replace f' with (FlowControl.dec_window f sz).2 by (by rewrite Hf). constructor. Qed.

(** The operations of [State] as the handlers call them. *)
Lemma apply_send_open s eos st : State.send_open s eos = Ok st -> State.apply (State.SendOpen eos) s = Some st.
Proof. cbn. by intros ->. Qed.

Lemma apply_recv_open `{HeaderPlz} `{HeaderMapOps} s f st b :
  State.recv_open_frame s f = Ok (st, b) ->
  State.apply (State.RecvOpen (Headers.is_end_stream f) (Headers.is_informational f)) s = Some st.
Proof. unfold State.recv_open_frame. cbn. by intros ->. Qed.

Lemma apply_recv_close s st : State.recv_close s = Ok st -> State.apply State.RecvClose s = Some st.
Proof. cbn. by intros ->. Qed.

Lemma apply_send_close s st : State.send_close s = Done st -> State.apply State.SendClose s = Some st.
Proof. cbn. by intros ->. Qed.

Lemma apply_scheduled_reset s r st :
  State.set_scheduled_reset s r = Done st -> State.apply (State.SetScheduledReset r) s = Some st.
Proof. unfold State.apply. by intros ->. Qed.

Create HintDb moved discriminated.
#[export] Hint Resolve flow_inc flow_dec flow_inc_eq flow_dec_eq apply_send_open apply_recv_open
  apply_recv_close apply_send_close apply_scheduled_reset : moved.

Lemma set_reset_moved s reason initiator : moved s (Stream.set_reset s reason initiator).
Proof.
  eapply (moved_by (State.SetReset (Stream.id s) reason initiator)); [done|]. by apply moved_same.
Qed.

Lemma recv_reset_moved s frame b :
  moved s (s <| Stream.state ::= (fun st => State.recv_reset st frame b) |>).
Proof. eapply (moved_by (State.RecvReset frame b)); [done|]. by apply moved_same. Qed.

Lemma handle_error_moved s e : moved s (s <| Stream.state ::= (fun st => State.handle_error st e) |>).
Proof. eapply (moved_by (State.HandleError e)); [done|]. by apply moved_same. Qed.

Lemma recv_eof_moved s : moved s (Stream.notify_recv (s <| Stream.state ::= State.recv_eof |>)).
Proof. eapply (moved_by State.RecvEof); [done|]. by apply moved_same. Qed.
#[export] Hint Resolve set_reset_moved recv_reset_moved handle_error_moved recv_eof_moved : moved.

(** Goals [moved s s'] where [s'] is a record update of [s]. *)
Ltac moved := first
  [ done
  | solve [eauto 2 with moved]
  | apply moved_same; reflexivity
  | eapply moved_send_flow; [|apply moved_same; reflexivity]; by eauto with moved
  | eapply moved_recv_flow; [|apply moved_same; reflexivity]; by eauto with moved ].

(** ** Stores *)

(** A relation between what a stream was and what it is, that allows bookkeeping. *)
Class StreamRel (P : relation Stream.t) : Prop := {
  #[global] sr_preorder :: PreOrder P;
  sr_id s s' : P s s' -> Stream.id s' = Stream.id s;
  sr_counted s b : P s (s <| Stream.is_counted := b |>)
}.

(** The operations of a queue are bookkeeping. *)
Class Bookkeeping (P : relation Stream.t) (N : Next) : Prop := {
  book_next s (k : option Key.t) : P s (set_next s k);
  book_queued s b s' : set_queued s b = Done s' -> P s s'
}.

#[export] Instance moved_rel : StreamRel moved.
Proof. split; [typeclasses eauto|by intros s s' []|intros s b; by apply moved_same]. Qed.

Lemma moved_bookkeeping (N : Next) `{!Unaffected N Stream.id} `{!Unaffected N Stream.state}
  `{!Unaffected N Stream.send_flow} `{!Unaffected N Stream.recv_flow} : Bookkeeping moved N.
Proof.
  split; intros; apply moved_same; first [apply unaffected_next|by eapply unaffected_queued].
Qed.
#[export] Hint Extern 2 (Bookkeeping moved _) => apply moved_bookkeeping : typeclass_instances.

Section store.
Context `{Hsl : SlabOps} `{!SlabLaws Hsl} `{Him : IndexMapOps}.
Context (P : relation Stream.t) `{!StreamRel P}.

Implicit Types (st : Store.t) (k : Key.t) (s : Stream.t).

(** Every stream of [st'] was in [st], and is related to what it was. *)
Definition store_rel st st' : Prop :=
  forall k s', Store.lookup st' k = Some s' ->
    exists s, Store.lookup st k = Some s /\ P s s'.

#[export] Instance store_rel_preorder : PreOrder store_rel.
Proof.
  split; [by intros st k s Hs; exists s|].
  intros st1 st2 st3 H12 H23 k s3 Hs3. destruct (H23 k s3 Hs3) as (s2 & Hs2 & Hm2).
  destruct (H12 k s2 Hs2) as (s1 & Hs1 & Hm1). exists s1. split; [done|by etrans].
Qed.

Lemma put_evolves st k s s' :
  Store.lookup st k = Some s -> P s s' -> store_rel st (Store.put st k s').
Proof.
  intros Hs Hm k' s1. rewrite (lookup_put_eq _ _ _ s) by (done || by apply sr_id).
  destruct (decide (k' = k)) as [->|]; [intros [= <-]; by exists s|]. intros Hs1. by exists s1.
Qed.

Lemma lookup_of_index st k s : Store.index st k = Done s -> Store.lookup st k = Some s.
Proof. unfold Store.index. destruct (Store.lookup st k); [|done]. by intros [= ->]. Qed.

(** The two halves of a write through a key that was just read. *)
Lemma index_put_evolves st k s s' :
  Store.index st k = Done s -> P s s' -> store_rel st (Store.put st k s').
Proof. intros Hs. by apply put_evolves, lookup_of_index. Qed.

Lemma modify_evolves st k f :
  (forall s, Store.lookup st k = Some s -> P s (f s)) ->
  ensures (Store.modify st k f) (store_rel st).
Proof.
  intros Hf st' Hst'. unfold Store.modify in Hst'.
  destruct (Store.index st k) as [s|] eqn:Hs; [|done]. injection Hst' as <-.
  eapply index_put_evolves; [done|]. by apply Hf, lookup_of_index.
Qed.

Lemma unlink_evolves st k : store_rel st (Ptr.unlink st k).
Proof. intros k' s. rewrite lookup_unlink. by exists s. Qed.

Lemma remove_evolves st k : ensures (Ptr.remove st k) (fun '(_, st') => store_rel st st').
Proof.
  intros [id st']. unfold Ptr.remove. destruct (Stream.is_none _); [cbn [assert obind]|done].
  destruct (slab_remove _ _) as [[s sl]|] eqn:Hr; [cbn [unwrap obind]|done].
  destruct (Stream.id s =? _); [cbn [assert obind]|done]. intros [= <- <-] k' s'.
  apply slab_remove_some in Hr as [_ Hm]. intros [Hs Hid]%lookup_some. revert Hs. record.
  rewrite Hm. intros [_ Hs]%lookup_delete_Some. exists s'. split; [by apply lookup_some|done].
Qed.

Section queue.
Context (N : Next) `{!NextLaws N} `{!Bookkeeping P N}.

Lemma take_next_rel s n s' : take_next s = (n, s') -> P s s'.
Proof. rewrite take_next_spec. intros [= <- <-]. apply book_next. Qed.

Lemma queue_push_evolves q st k :
  ensures (Queue.push N q st k) (fun '(_, _, st') => store_rel st st').
Proof.
  unfold Queue.push. apply ensures_obind. intros s Hs.
  destruct (is_queued s); [by apply ensures_Done|].
  apply ensures_obind. intros s1 Hs1. apply ensures_obind. intros _ _.
  assert (store_rel st (Store.put st k s1)) as He
    by (by eapply index_put_evolves, book_queued).
  destruct (indices q) as [idxs|]; [|by apply ensures_Done].
  apply ensures_obind. intros t Ht. apply ensures_Done. etrans; [exact He|].
  eapply index_put_evolves, book_next. done.
Qed.

Lemma queue_push_front_evolves q st k :
  ensures (Queue.push_front N q st k) (fun '(_, _, st') => store_rel st st').
Proof.
  unfold Queue.push_front. apply ensures_obind. intros s Hs.
  destruct (is_queued s); [by apply ensures_Done|].
  apply ensures_obind. intros s1 Hs1. apply ensures_obind. intros _ _.
  assert (P s s1) as Hm by (by eapply book_queued).
  destruct (indices q) as [idxs|]; apply ensures_Done; eapply index_put_evolves; try done.
  etrans; [done|apply book_next].
Qed.

Lemma queue_pop_evolves q st :
  ensures (Queue.pop N q st) (fun '(_, _, st') => store_rel st st').
Proof.
  unfold Queue.pop. destruct (indices q) as [idxs|]; [|by apply ensures_Done].
  apply ensures_obind. intros s Hs.
  eapply (ensures_bind _ _ (fun '(_, s') => P s s')).
  - case_decide.
    + apply ensures_obind. intros _ _. by apply ensures_Done.
    + destruct (take_next s) as [n s1] eqn:Ht. apply ensures_obind. intros h _.
      apply ensures_Done. by eapply take_next_rel.
  - intros [q' s1] Hm. apply ensures_obind. intros _ _. apply ensures_obind. intros s2 Hs2.
    apply ensures_Done. eapply index_put_evolves; [done|]. etrans; [done|by eapply book_queued].
Qed.

Lemma queue_pop_if_evolves q st f :
  ensures (Queue.pop_if N q st f) (fun '(_, _, st') => store_rel st st').
Proof.
  unfold Queue.pop_if. destruct (indices q) as [idxs|]; [|by apply ensures_Done].
  apply ensures_obind. intros s _. apply ensures_obind. intros [] _; [apply queue_pop_evolves|].
  by apply ensures_Done.
Qed.

End queue.

(** ** Counting and cleaning up *)

Lemma inc_num_recv_streams_evolves cs st k :
  ensures (Counts.inc_num_recv_streams cs st k) (fun '(cs', st') =>
    Counts.role cs' = Counts.role cs /\ store_rel st st').
Proof.
  unfold Counts.inc_num_recv_streams. repeat (apply ensures_obind; intros ? ?).
  apply ensures_Done. split; [done|]. eapply index_put_evolves; [done|apply sr_counted].
Qed.

Lemma inc_num_send_streams_evolves cs st k :
  ensures (Counts.inc_num_send_streams cs st k) (fun '(cs', st') =>
    Counts.role cs' = Counts.role cs /\ store_rel st st').
Proof.
  unfold Counts.inc_num_send_streams. repeat (apply ensures_obind; intros ? ?).
  apply ensures_Done. split; [done|]. eapply index_put_evolves; [done|apply sr_counted].
Qed.

Lemma dec_num_streams_evolves cs st k :
  ensures (Counts.dec_num_streams cs st k) (fun '(cs', st') =>
    Counts.role cs' = Counts.role cs /\ store_rel st st').
Proof.
  unfold Counts.dec_num_streams. apply ensures_obind; intros s Hs.
  apply ensures_obind; intros _ _. apply ensures_obind; intros [] _;
    (apply ensures_obind; intros _ _; apply ensures_Done; split; [done|]);
    (eapply index_put_evolves; [done|apply sr_counted]).
Qed.

Lemma dec_num_reset_streams_role cs :
  ensures (Counts.dec_num_reset_streams cs) (fun cs' => Counts.role cs' = Counts.role cs).
Proof. apply ensures_obind. intros _ _. by apply ensures_Done. Qed.

Lemma unlink_uncount_evolves cs st k (b : bool) :
  ensures (if b then let! c := Counts.dec_num_reset_streams cs in Done (c, Ptr.unlink st k)
           else Done (cs, Ptr.unlink st k))
    (fun '(cs', st') => Counts.role cs' = Counts.role cs /\ store_rel st st').
Proof.
  destruct b; [|apply ensures_Done; split; [done|apply unlink_evolves]].
  eapply ensures_bind; [apply dec_num_reset_streams_role|]. intros cs' Hr.
  apply ensures_Done. split; [done|apply unlink_evolves].
Qed.

Lemma transition_after_evolves cs st k b :
  ensures (Counts.transition_after cs st k b) (fun '(cs', st') =>
    Counts.role cs' = Counts.role cs /\ store_rel st st').
Proof.
  unfold Counts.transition_after. apply ensures_obind; intros s _.
  eapply (ensures_bind _ _ (fun '(cs', st') => Counts.role cs' = Counts.role cs /\ store_rel st st')).
  - destruct (Stream.is_closed s); [|by apply ensures_Done].
    eapply (ensures_bind _ _ (fun '(cs', st') => Counts.role cs' = Counts.role cs /\ store_rel st st')).
    + destruct (negb _); [apply unlink_uncount_evolves|by apply ensures_Done].
    + intros [cs' st'] [Hr He]. destruct (_ && _); [|by apply ensures_Done].
      eapply ensures_mono; [apply dec_num_streams_evolves|].
      intros [cs2 st2] [Hr2 He2]. split; [congruence|by etrans].
  - intros [cs' st'] [Hr He]. apply ensures_obind; intros s2 _.
    destruct (Stream.is_released s2); [|by apply ensures_Done].
    eapply ensures_bind; [apply remove_evolves|]. intros [? st2] He2.
    apply ensures_Done. split; [done|by etrans].
Qed.

(** A new stream is the only one that was not there. *)
Lemma slab_insert_born st k v i sl ids :
  slab_insert v (Store.streams st) = (i, sl) ->
  forall s', Store.lookup (Store.mk sl ids) k = Some s' ->
    Store.lookup st k = Some s' \/
    Store.lookup st k = None /\ s' = v /\ Key.stream_id k = Stream.id v.
Proof.
  intros Hi s' [Hs Hid]%lookup_some. cbn in Hs.
  pose proof (slab_map_insert v (Store.streams st)) as Hm.
  pose proof (slab_insert_fresh v (Store.streams st)) as Hf.
  rewrite Hi in Hm, Hf. cbn in Hm, Hf. rewrite Hm in Hs.
  destruct (decide (i = Key.index k)) as [->|]; simplify_map_eq.
  - right. split_and!; [|done..]. rewrite lookup_map, Hf. done.
  - left. by apply lookup_some.
Qed.

(** ** Iteration *)

Lemma try_for_each_evolves {X E} (f : X -> Store.t -> Key.t -> outcome (result unit E * X * Store.t))
    (I : X -> Store.t -> X -> Store.t -> Prop) x st :
  (forall x st, I x st x st) ->
  (forall x1 st1 x2 st2 x3 st3, I x1 st1 x2 st2 -> I x2 st2 x3 st3 -> I x1 st1 x3 st3) ->
  (forall x st k, ensures (f x st k) (fun '(_, x', st') => I x st x' st')) ->
  ensures (Store.try_for_each f x st) (fun '(_, x', st') => I x st x' st').
Proof.
  intros Hrefl Htrans Hf. unfold Store.try_for_each.
  set (fuel := im_len (Store.ids st)) at 1. set (len := im_len (Store.ids st)).
  clearbody fuel len. generalize 0%nat. intros i.
  revert i len x st. induction fuel as [|fuel IH]; intros i len x st; cbn [Store.try_for_each_loop];
    [by apply ensures_Done|].
  destruct (i <? len)%nat; [|by apply ensures_Done].
  apply ensures_obind; intros [id index] _. eapply ensures_bind; [apply Hf|].
  intros [[[u|e] x'] st'] HI; [|by apply ensures_Done].
  destruct (_ <? len)%nat; [apply ensures_obind; intros _ _|];
    (eapply ensures_mono; [apply IH|]; intros [[? ?] ?] ?; by eapply Htrans).
Qed.

End store.

(** What the handlers do to a store. *)
Notation store_evolves := (store_rel moved).

(** ** Worlds *)

Section kept.
Context `{Hsl : SlabOps} `{!SlabLaws Hsl} `{Him : IndexMapOps}.

(** What a world holds of the streams, the connection windows, and what most handlers
    leave alone: the role and the limits on identifiers. *)
Class World (W : Type) : Type := {
  store_of : W -> Store.t;
  flows_of : W -> list FlowControl.t;
  frame_of : W -> Role.t * list (result StreamId.t unit)
}.

Context {W : Type} `{!World W}.

Implicit Types (w : W).

Record evolves w w' : Prop := {
  evolves_store : store_evolves (store_of w) (store_of w');
  evolves_flows : Forall2 (rtc flow_step) (flows_of w) (flows_of w');
  evolves_frame : frame_of w' = frame_of w
}.

#[export] Instance evolves_preorder : PreOrder evolves.
Proof.
  split.
  - intros w. by split.
  - intros w1 w2 w3 [] []. split; [by etrans..|congruence].
Qed.

End kept.
Arguments World {_ _} _.

(** Programs that only evolve their world. *)
Notation kept := (keeps evolves).
