(* ===== verification/Send.v ===== *)
(** * The sending side of the streams

    Models [src/src/proto/streams/send.rs]: the queues of streams that wait to send, for
    capacity or to be opened, the split of the connection window among the streams,
    the cutting of bodies into DATA frames, resets, and the effect of the peer's
    SETTINGS, GOAWAY and WINDOW_UPDATE frames.  [Ctx] holds what the [&mut] arguments
    of these functions point to; a [Ptr] is a key into its store. *)

From Stdlib Require Import String.
From S2P Require Import Prelude Effects FrameBase ControlFrames SettingsFrame DataFrame HpackHeader.
From S2P Require Import HeadersFrame ProtoErrors FramedRead FrameSink ProtoHandlers StreamState.
From S2P Require Import FlowWindow SlabLib FrameBuffer StreamRec StreamStore StreamQueue Spa.
From S2P Require Import StreamCounts.

(** A [u32] sum, checked. *)
Definition add_u32 (a b : Z) : outcome Z :=
  let! _ := assert (a + b <=? u32_max) in Done (a + b).

Module Send.

Record t : Type := mk {
  init_stream_window_sz : Z;
  flow : FlowControl.t;
  last_opened_id : StreamId.t;
  max_stream_id : StreamId.t;
  next_stream_id : result StreamId.t unit;
  pending_send : queue;
  pending_capacity : queue;
  pending_open : queue;
  is_push_enabled : bool;
  is_extended_connect_protocol_enabled : bool;
  spa_tracker : option SpaTracker.t
}.

#[global] Instance eta_t : Eta t := fun s =>
  mk (init_stream_window_sz s) (flow s) (last_opened_id s) (max_stream_id s)
     (next_stream_id s) (pending_send s) (pending_capacity s) (pending_open s)
     (is_push_enabled s) (is_extended_connect_protocol_enabled s) (spa_tracker s).

Definition unwrap_or {A} (o : option A) (a : A) : A := match o with Some x => x | None => a end.

(** [new]; taking [spa_tracker] out of [config] is not observed. *)
Definition new (config : ConnectionConfig.t) : t :=
  let peer := ConnectionConfig.peer_settings config in {|
  init_stream_window_sz :=
    unwrap_or (Settings.initial_window_size peer) DEFAULT_INITIAL_WINDOW_SIZE;
  flow := FlowControl.new DEFAULT_INITIAL_WINDOW_SIZE;
  last_opened_id := StreamId.ZERO;
  max_stream_id := StreamId.MAX;
  next_stream_id := Ok 1;
  pending_send := Queue.new;
  pending_capacity := Queue.new;
  pending_open := Queue.new;
  is_push_enabled := unwrap_or (Settings.is_push_enabled peer) false;
  is_extended_connect_protocol_enabled :=
    unwrap_or (Settings.is_extended_connect_protocol_enabled peer) false;
  spa_tracker := ConnectionConfig.spa_tracker config
|}.

(** [open] and the checks on identifiers touch only [self]. *)
Definition ensure_next_stream_id (s : t) : result StreamId.t UserError.t :=
  map_err (fun _ => UserError.OverflowedStreamId) (next_stream_id s).

Definition open (s : t) : outcome (result StreamId.t UserError.t * t) :=
  match ensure_next_stream_id s with
  | Err e => Done (Err e, s)
  | Ok stream_id =>
      let! next := StreamId.next_id stream_id in
      Done (Ok stream_id, s <| next_stream_id := next |>)
  end.

Definition maybe_reset_next_stream_id (s : t) (id : StreamId.t) : outcome t :=
  match next_stream_id s with
  | Ok next_id =>
      let! _ := assert (Bool.eqb (StreamId.is_server_initiated id)
                                 (StreamId.is_server_initiated next_id)) in
      if id >=? next_id then
        let! next := StreamId.next_id id in Done (s <| next_stream_id := next |>)
      else Done s
  | Err _ => Done s
  end.

Definition recv_go_away (s : t) (last_stream_id : StreamId.t) : result unit ProtoError.t * t :=
  if last_stream_id >? max_stream_id s
  then (Err (ProtoError.library_go_away Reason.PROTOCOL_ERROR), s)
  else (Ok tt, s <| max_stream_id := last_stream_id |>).

Definition init_window_sz (s : t) : Z := init_stream_window_sz s.

Definition can_perform_spa (s : t) : bool :=
  Queue.is_empty (pending_send s) && Queue.is_empty (pending_capacity s) &&
  Queue.is_empty (pending_open s).

Definition spa_recv_window_update (s : t) (stream_id : StreamId.t) : t :=
  s <| spa_tracker ::= option_map (fun spa => SpaTracker.remove_pending_stream_update spa stream_id) |>.

Definition recvd_ping (s : t) (payload : bytes) : t :=
  s <| spa_tracker ::= option_map (fun spa => SpaTracker.recvd_ping spa payload) |>.

Definition is_spa (s : t) : bool := negb (Stream.is_none (spa_tracker s)).

Section header_map.
Context `{HeaderPlz} `{HeaderMapOps}.

Definition check_headers (fields : HeaderMap) : result unit UserError.t :=
  if hm_has_key (const_header CONNECTION) fields
     || hm_has_key (const_header TRANSFER_ENCODING) fields
     || hm_has_key (const_header UPGRADE) fields
     || hm_has_key (str "keep-alive") fields
     || hm_has_key (str "proxy-connection") fields
  then Err UserError.MalformedHeaders
  else
    match hm_value_of_key (const_header TE) fields with
    | Some te => if bool_decide (te = str "trailers") then Ok tt else Err UserError.MalformedHeaders
    | None => Ok tt
    end.

End header_map.

End Send.

(** ** The world of the sending functions *)

Module Ctx.

Section ctx.
Context `{HeaderPlz} `{HeaderMapOps} `{SlabOps} `{IndexMapOps}.

Record t : Type := mk {
  send : Send.t;
  buffer : Buffer.t (T:=Frame.t);
  store : Store.t;
  counts : Counts.t;
  task : option Z
}.

#[global] Instance eta_t : Eta t := fun c =>
  mk (send c) (buffer c) (store c) (counts c) (task c).

(** Through the pointer [k]. *)
Definition stream (k : Key.t) : M t Stream.t := fun c =>
  let! s := Store.index (store c) k in Done (s, c).

Definition modify (k : Key.t) (f : Stream.t -> Stream.t) : M t unit := fun c =>
  let! st := Store.modify (store c) k f in Done (tt, c <| store := st |>).

Definition modify_m (k : Key.t) (f : Stream.t -> outcome Stream.t) : M t unit := fun c =>
  let! s := Store.index (store c) k in
  let! s := f s in
  Done (tt, c <| store ::= (fun st => Store.put st k s) |>).

Definition queue_push (N : Next) (q : Send.t -> queue) `{!Update q} (k : Key.t) : M t unit := fun c =>
  let! (_, q', st) := Queue.push N (q (send c)) (store c) k in
  Done (tt, c <| store := st |> <| send ::= upd q (fun _ => q') |>).

Definition queue_push_front (N : Next) (q : Send.t -> queue) `{!Update q} (k : Key.t) :
    M t unit := fun c =>
  let! (_, q', st) := Queue.push_front N (q (send c)) (store c) k in
  Done (tt, c <| store := st |> <| send ::= upd q (fun _ => q') |>).

Definition queue_pop (N : Next) (q : Send.t -> queue) `{!Update q} : M t (option Key.t) := fun c =>
  let! (k, q', st) := Queue.pop N (q (send c)) (store c) in
  Done (k, c <| store := st |> <| send ::= upd q (fun _ => q') |>).

(** The frames a stream has queued. *)
Definition push_back (k : Key.t) (frame : Frame.t) : M t unit := fun c =>
  let! s := Store.index (store c) k in
  let! (d, buf) := Deque.push_back (Stream.pending_send s) (buffer c) frame in
  Done (tt, c <| buffer := buf |>
              <| store ::= (fun st => Store.put st k (s <| Stream.pending_send := d |>)) |>).

Definition push_front (k : Key.t) (frame : Frame.t) : M t unit := fun c =>
  let! s := Store.index (store c) k in
  let! (d, buf) := Deque.push_front (Stream.pending_send s) (buffer c) frame in
  Done (tt, c <| buffer := buf |>
              <| store ::= (fun st => Store.put st k (s <| Stream.pending_send := d |>)) |>).

Definition pop_front (k : Key.t) : M t (option Frame.t) := fun c =>
  let! s := Store.index (store c) k in
  let! (f, d, buf) := Deque.pop_front (Stream.pending_send s) (buffer c) in
  Done (f, c <| buffer := buf |>
             <| store ::= (fun st => Store.put st k (s <| Stream.pending_send := d |>)) |>).

(** [if let Some(task) = task.take() { task.wake() }] *)
Definition wake : M t unit := modifies (fun c => c <| task := None |>).

Definition transition_after (k : Key.t) (is_reset_counted : bool) : M t unit := fun c =>
  let! (cs, st) := Counts.transition_after (counts c) (store c) k is_reset_counted in
  Done (tt, c <| counts := cs |> <| store := st |>).

(** [Counts::transition] for a closure that changes the whole context. *)
Definition transition {U} (k : Key.t) (f : M t U) : M t U :=
  let* s := stream k in
  let is_pending_reset := Stream.is_pending_reset_expiration s in
  let* ret' := f in
  transition_after k is_pending_reset;*
  ret ret'.

(** [Store::try_for_each] for a closure that changes the context. *)
Definition try_for_each {E} (f : Key.t -> M t (result unit E)) : M t (result unit E) := fun c =>
  let! (r, c, st) :=
    Store.try_for_each (fun c st k =>
      let! (r, c) := f k (c <| store := st |>) in Done (r, c, store c)) c (store c) in
  Done (r, c <| store := st |>).

(** More rounds than any queue of streams, any queue of frames has elements. *)
Definition streams_fuel : M t nat := gets (fun c => S (slab_len (Store.streams (store c)))).
Definition frames_fuel : M t nat := gets (fun c => S (slab_len (buffer c))).

End ctx.
Arguments t : clear implicits.
Arguments t {_ _ _ _}.

End Ctx.
