(* ===== verification/SendOps.v ===== *)
(** * The operations of the sending side

    The methods of [Send] in [src/src/proto/streams/send.rs] that reach streams, the
    buffer of frames, the counts or the task of the connection; [Send] and [Ctx] are
    in the file [Send]. *)

From S2P Require Import Prelude Effects FrameBase ControlFrames SettingsFrame DataFrame HpackHeader.
From S2P Require Import HeadersFrame ProtoErrors FramedRead FrameSink ProtoHandlers StreamState.
From S2P Require Import FlowWindow SlabLib FrameBuffer StreamRec StreamStore StreamQueue Spa.
From S2P Require Import StreamCounts Send.

Module SendOps.

Section ops.
Context `{HeaderPlz} `{HeaderMapOps} `{SlabOps} `{IndexMapOps}.

Abbreviation C := (M Ctx.t) (only parsing).

(** [let _ = self.flow.dec_window(sz)] *)
Definition dec_conn_window (sz : Z) : C unit :=
  modifies (fun c => c <| Ctx.send ::=
    (fun s => s <| Send.flow ::= (fun f => (FlowControl.dec_window f sz).2) |>) |>).

Definition schedule_send (k : Key.t) : C unit :=
  let* s := Ctx.stream k in
  if Stream.is_send_ready s then
    Ctx.queue_push NextSend Send.pending_send k;*
    Ctx.wake
  else ret tt.

Definition queue_frame (frame : Frame.t) (k : Key.t) : C unit :=
  Ctx.push_back k frame;*
  schedule_send k.

(** ** Capacity *)

Definition try_assign_capacity (k : Key.t) : C unit :=
  let* s := Ctx.stream k in
  let* conn := gets (fun c => FlowControl.available (Send.flow (Ctx.send c))) in
  let* spa := gets (fun c => Send.is_spa (Ctx.send c)) in
  let stream_available := FlowControl.available (Stream.send_flow s) in
  if stream_available =? 0 then ret tt
  else if conn =? 0 then
    Ctx.queue_push NextSendCapacity Send.pending_capacity k;* ret tt
  else
    match Stream.remaining_data_len s with
    | Some rem =>
        let remaining_data_len := if spa then Z.max (rem - 1) 0 else rem in
        let allocated := Z.min (Z.min conn stream_available) (as_u32 remaining_data_len) in
        Ctx.queue_push NextSend Send.pending_send k;*
        if allocated =? 0 then ret tt
        else
          let* s := Ctx.stream k in
          let* total := lift (add_u32 (Stream.connection_window_allocated s) allocated) in
          Ctx.modify k (fun s => s <| Stream.connection_window_allocated := total |>);*
          dec_conn_window allocated
    | None => ret tt
    end.

(** A round of [assign_connection_capacity]: [Some tt] when the loop ends. *)
Definition assign_round : C (option unit) :=
  let* conn := gets (fun c => FlowControl.available (Send.flow (Ctx.send c))) in
  if conn >? 0 then
    let* popped := Ctx.queue_pop NextSendCapacity Send.pending_capacity in
    match popped with
    | None => ret (Some tt)
    | Some k =>
        let* s := Ctx.stream k in
        if negb (State.is_send_streaming (Stream.state s))
           || Stream.is_none (Stream.remaining_data_len s)
        then ret None
        else
          Ctx.transition k (try_assign_capacity k);*
          ret None
    end
  else ret (Some tt).

Definition assign_connection_capacity : C unit :=
  let* fuel := Ctx.streams_fuel in
  loop fuel assign_round.

Definition recv_connection_window_update (inc : Z) : C (result unit Reason.t) :=
  let* r := (fun c =>
    let (r, f) := FlowControl.inc_window (Send.flow (Ctx.send c)) inc in
    Done (r, c <| Ctx.send ::= (fun s => s <| Send.flow := f |>) |>)) in
  match r with
  | Err e => ret (Err e)
  | Ok _ =>
      assign_connection_capacity;*
      ret (Ok tt)
  end.

Definition reclaim_all_capacity (k : Key.t) : C unit :=
  let* s := Ctx.stream k in
  let allocated := Stream.connection_window_allocated s in
  when (allocated >? 0)
    (recv_connection_window_update allocated;* ret tt).

(** ** Headers and resets *)

(** [while let Some(frame) = stream.pending_send.pop_front(buffer)] *)
Definition drop_frames (k : Key.t) : C unit :=
  let* fuel := Ctx.frames_fuel in
  loop fuel
    (let* f := Ctx.pop_front k in
     ret (match f with Some _ => None | None => Some tt end)).

Definition clear_stream_queue (k : Key.t) : C unit :=
  drop_frames k;*
  Ctx.modify k (fun s => s <| Stream.remaining_data_len := None |>).

Definition send_headers (frame : Headers.t) (k : Key.t) : C (result unit UserError.t) :=
  match Send.check_headers (Headers.get_fields frame) with
  | Err e => ret (Err e)
  | Ok _ =>
      let end_stream := Headers.is_end_stream frame in
      let* s := Ctx.stream k in
      match State.send_open (Stream.state s) end_stream with
      | Err e => ret (Err e)
      | Ok st =>
          Ctx.modify k (fun s => s <| Stream.state := st |>);*
          let* role := gets (fun c => Counts.role (Ctx.counts c)) in
          let* pending_open := lift (Role.is_local_init role (Headers.stream_id frame)) in
          (if pending_open then Ctx.queue_push NextOpen Send.pending_open k else ret tt);*
          queue_frame (Frame.Headers frame) k;*
          when pending_open Ctx.wake;*
          ret (Ok tt)
      end
  end.

Definition send_reset (reason : Reason.t) (initiator : Initiator.t) (k : Key.t) : C unit :=
  let* s := Ctx.stream k in
  let is_reset := State.is_reset (Stream.state s) in
  let is_closed := State.is_closed (Stream.state s) in
  let is_empty := Deque.is_empty (Stream.pending_send s) in
  if is_reset then ret tt
  else
    Ctx.modify k (fun s => Stream.set_reset s reason initiator);*
    if is_closed && is_empty then ret tt
    else
      clear_stream_queue k;*
      queue_frame (Frame.Reset (Reset.new (Stream.id s) reason)) k;*
      reclaim_all_capacity k.

Definition schedule_implicit_reset (k : Key.t) (reason : Reason.t) : C unit :=
  let* s := Ctx.stream k in
  if State.is_closed (Stream.state s) then ret tt
  else
    Ctx.modify_m k (fun s =>
      let! st := State.set_scheduled_reset (Stream.state s) reason in
      Done (s <| Stream.state := st |>));*
    reclaim_all_capacity k;*
    schedule_send k.

Definition handle_error (k : Key.t) : C unit :=
  clear_stream_queue k;*
  reclaim_all_capacity k.

(** ** Frames of the peer *)

Definition recv_stream_window_update (sz : Z) (k : Key.t) : C (result unit Reason.t) :=
  let* s := Ctx.stream k in
  if State.is_send_closed (Stream.state s) then ret (Ok tt)
  else
    modifies (fun c => c <| Ctx.send ::= (fun snd => Send.spa_recv_window_update snd (Stream.id s)) |>);*
    let (r, f) := FlowControl.inc_window (Stream.send_flow s) sz in
    Ctx.modify k (fun s => s <| Stream.send_flow := f |>);*
    match r with
    | Err e =>
        send_reset Reason.FLOW_CONTROL_ERROR Initiator.Library k;*
        ret (Err e)
    | Ok _ =>
        try_assign_capacity k;*
        ret (Ok tt)
    end.

(** The closure that lowers the window of a stream; it adds up what it takes back. *)
Definition lower_window (dec : Z) (total_reclaimed : Z) (st : Store.t) (k : Key.t) :
    outcome (result unit ProtoError.t * Z * Store.t) :=
  let! s := Store.index st k in
  if State.is_send_closed (Stream.state s) then Done (Ok tt, total_reclaimed, st)
  else
    let (r, f) := FlowControl.dec_window (Stream.send_flow s) dec in
    let s := s <| Stream.send_flow := f |> in
    match r with
    | Err e => Done (Err (ProtoError.library_go_away e), total_reclaimed, Store.put st k s)
    | Ok _ =>
        let current_send_flow := FlowControl.available (Stream.send_flow s) in
        let allocated := Stream.connection_window_allocated s in
        if allocated >? current_send_flow then
          let extra := allocated - current_send_flow in
          let! total_reclaimed := add_u32 total_reclaimed extra in
          Done (Ok tt, total_reclaimed,
                Store.put st k (s <| Stream.connection_window_allocated := allocated - extra |>))
        else Done (Ok tt, total_reclaimed, Store.put st k s)
    end.

Definition apply_initial_window_size (old new : Z) : C (result unit ProtoError.t) :=
  match new ?= old with
  | Lt =>
      let* r := (fun c =>
        let! (r, total, st) := Store.try_for_each (lower_window (old - new)) 0 (Ctx.store c) in
        Done (result_map (fun _ => total) r, c <| Ctx.store := st |>)) in
      match r with
      | Err e => ret (Err e)
      | Ok total_reclaimed =>
          when (total_reclaimed >? 0)
            (recv_connection_window_update total_reclaimed;* ret tt);*
          ret (Ok tt)
      end
  | Gt =>
      Ctx.try_for_each (fun k =>
        let* r := recv_stream_window_update (new - old) k in
        ret (map_err ProtoError.library_go_away r))
  | Eq => ret (Ok tt)
  end.

Definition apply_remote_settings (settings : Settings.t) : C (result unit ProtoError.t) :=
  modifies (fun c => c <| Ctx.send ::= (fun s =>
    match Settings.is_push_enabled settings with
    | Some val => s <| Send.is_push_enabled := val |>
    | None => s
    end) |>);*
  modifies (fun c => c <| Ctx.send ::= (fun s =>
    match Settings.is_extended_connect_protocol_enabled settings with
    | Some val => s <| Send.is_extended_connect_protocol_enabled := val |>
    | None => s
    end) |>);*
  match Settings.initial_window_size settings with
  | Some new =>
      let* old := gets (fun c => Send.init_stream_window_sz (Ctx.send c)) in
      modifies (fun c => c <| Ctx.send ::= (fun s => s <| Send.init_stream_window_sz := new |>) |>);*
      apply_initial_window_size old new
  | None => ret (Ok tt)
  end.

(** ** The end of the connection *)

Definition clear_pending_capacity : C unit :=
  let* fuel := Ctx.streams_fuel in
  loop fuel
    (let* popped := Ctx.queue_pop NextSendCapacity Send.pending_capacity in
     match popped with
     | Some k =>
         Ctx.transition k (ret tt);*
         ret None
     | None => ret (Some tt)
     end).

Definition clear_pending_send : C unit :=
  let* fuel := Ctx.streams_fuel in
  loop fuel
    (let* popped := Ctx.queue_pop NextSend Send.pending_send in
     match popped with
     | Some k =>
         let* s := Ctx.stream k in
         let is_pending_reset := Stream.is_pending_reset_expiration s in
         match State.get_scheduled_reset (Stream.state s) with
         | Some reason => Ctx.modify k (fun s => Stream.set_reset s reason Initiator.Library)
         | None => ret tt
         end;*
         Ctx.transition_after k is_pending_reset;*
         ret None
     | None => ret (Some tt)
     end).

Definition clear_pending_open : C unit :=
  let* fuel := Ctx.streams_fuel in
  loop fuel
    (let* popped := Ctx.queue_pop NextOpen Send.pending_open in
     match popped with
     | Some k =>
         let* s := Ctx.stream k in
         Ctx.transition_after k (Stream.is_pending_reset_expiration s);*
         ret None
     | None => ret (Some tt)
     end).

Definition clear_queues : C unit :=
  clear_pending_capacity;*
  clear_pending_send;*
  clear_pending_open.

End ops.

End SendOps.
