(* ===== verification/SendPoll.v ===== *)
(** * Popping the frames to send

    The second half of [src/src/proto/streams/send.rs]: opening the streams that wait
    for it, cutting bodies into DATA frames within the windows, the order of streams,
    the loop that hands frames to the codec, and the single-packet hooks. *)

From S2P Require Import Prelude Effects FrameBase ControlFrames SettingsFrame DataFrame HpackHeader.
From S2P Require Import HeadersFrame ProtoErrors FramedRead FrameSink ProtoHandlers StreamState.
From S2P Require Import FlowWindow SlabLib FrameBuffer StreamRec StreamStore StreamQueue Spa.
From S2P Require Import StreamCounts Send SendOps.

Module SendPoll.

Import SendOps.

Section poll.
Context `{HeaderPlz} `{HeaderMapOps} `{SlabOps} `{IndexMapOps}.

Abbreviation C := (M Ctx.t) (only parsing).

Definition pop_pending_open : C (option Key.t) :=
  let* counts := gets Ctx.counts in
  if Counts.can_inc_num_send_streams counts then
    let* popped := Ctx.queue_pop NextOpen Send.pending_open in
    match popped with
    | Some k =>
        (fun c =>
          let! (cs, st) := Counts.inc_num_send_streams (Ctx.counts c) (Ctx.store c) k in
          Done (tt, c <| Ctx.counts := cs |> <| Ctx.store := st |>));*
        ret (Some k)
    | None => ret None
    end
  else ret None.

Definition try_allocate_stream_flow (k : Key.t) (rem available : Z) : C bool :=
  let* s := Ctx.stream k in
  if negb ((Stream.connection_window_allocated s =? 0) && (rem >? 0)) then ret true
  else
    let* conn := gets (fun c => FlowControl.available (Send.flow (Ctx.send c))) in
    let allocated := Z.min (Z.min conn available) (as_u32 rem) in
    if allocated =? 0 then ret false
    else
      let* total := lift (add_u32 (Stream.connection_window_allocated s) allocated) in
      Ctx.modify k (fun s => s <| Stream.connection_window_allocated := total |>);*
      dec_conn_window allocated;*
      ret true.

(** [set_data_frame_eos]: the frame to return, with its END_STREAM flag. *)
Definition set_data_frame_eos (k : Key.t) (to_ret : Data.t bytes)
    (remaining : option (Data.t bytes)) : C (Data.t bytes) :=
  let* s := Ctx.stream k in
  match Stream.remaining_data_len s, remaining with
  | None, _ =>
      if Deque.is_empty (Stream.pending_send s) then
        Ctx.modify_m k (fun s =>
          let! st := State.send_close (Stream.state s) in
          Done (s <| Stream.state := st |>));*
        ret (Data.set_end_stream true to_ret)
      else
        Ctx.modify k (fun s => s <| Stream.is_sending_trailer := true |>);*
        ret to_ret
  | Some _, Some frame =>
      Ctx.push_front k (Frame.Data frame);*
      ret to_ret
  | Some _, None => ret to_ret
  end.

(** [Bytes::split_to]: the first [n] octets and the rest. *)
Definition split_to (b : bytes) (n : Z) : outcome (bytes * bytes) :=
  let! _ := assert (n <=? len b) in
  Done (take (Z.to_nat n) b, drop (Z.to_nat n) b).

(** The last part of [pop_data_frame]: [length] octets are taken from the windows and
    the body. *)
Definition take_data (k : Key.t) (length : Z) (frame : Data.t bytes) : C (option Frame.t) :=
  Ctx.modify_m k (fun s =>
    let! _ := assert (length <=? Stream.connection_window_allocated s) in
    let! remaining :=
      match Stream.remaining_data_len s with
      | Some rem =>
          let! _ := assert (length <=? rem) in
          Done (if rem - length >? 0 then Some (rem - length) else None)
      | None => Done None
      end in
    Done (s <| Stream.send_flow ::= (fun f => (FlowControl.dec_window f length).2) |>
            <| Stream.connection_window_allocated ::= (fun a => a - length) |>
            <| Stream.remaining_data_len := remaining |>));*
  let* (data, rest) := lift (split_to (Data.data frame) length) in
  let frame := Data.map (fun _ => rest) frame in
  let* s := Ctx.stream k in
  let* data_frame := lift (Data.new (Stream.id s) data) in
  let* data_frame := set_data_frame_eos k data_frame (Some frame) in
  ret (Some (Frame.Data data_frame)).

Definition pop_data_frame (k : Key.t) (max_frame_size : Z) (frame : Data.t bytes) :
    C (option Frame.t) :=
  let* s := Ctx.stream k in
  let* spa := gets (fun c => Send.spa_tracker (Ctx.send c)) in
  match Stream.remaining_data_len s with
  | None => ret None
  | Some rem =>
      if rem =? 0 then
        Ctx.modify k (fun s => s <| Stream.remaining_data_len := None |>);*
        match spa with
        | Some t =>
            modifies (fun c => c <| Ctx.send ::= (fun snd =>
              snd <| Send.spa_tracker := Some (SpaTracker.add_pending_spa t (Stream.id s)) |>) |>);*
            Ctx.push_front k (Frame.Data frame);*
            ret None
        | None =>
            let* frame := set_data_frame_eos k frame None in
            ret (Some (Frame.Data frame))
        end
      else
        let stream_available := FlowControl.available (Stream.send_flow s) in
        if (stream_available =? 0) && (rem >? 0) then
          match spa with
          | Some t =>
              modifies (fun c => c <| Ctx.send ::= (fun snd =>
                snd <| Send.spa_tracker :=
                  Some (SpaTracker.add_pending_stream_update t (Stream.id s)) |>) |>)
          | None => ret tt
          end;*
          Ctx.push_front k (Frame.Data frame);*
          ret None
        else
          let* allocated := try_allocate_stream_flow k rem stream_available in
          if negb allocated then
            Ctx.push_front k (Frame.Data frame);*
            Ctx.queue_push NextSendCapacity Send.pending_capacity k;*
            ret None
          else
            let* s := Ctx.stream k in
            let length := Z.min (Z.min (as_u32 (Z.min rem max_frame_size)) stream_available)
                                (Stream.connection_window_allocated s) in
            let* length := lift (
              if Send.unwrap_or (option_map (fun _ => length =? rem) spa) false
              then let! _ := assert (length >=? 1) in Done (length - 1)
              else Done length) in
            take_data k length frame
  end.

(** What [pop_frame] does with the next frame of a stream; [None] is [continue]. *)
Definition next_frame (k : Key.t) (max_frame_size : Z) (is_pending_reset : bool) :
    C (option Frame.t) :=
  let* front := Ctx.pop_front k in
  match front with
  | Some (Frame.Data frame) => pop_data_frame k max_frame_size frame
  | Some (Frame.Headers header) =>
      let* s := Ctx.stream k in
      (match Stream.remaining_data_len s with
       | Some _ => try_assign_capacity k
       | None => ret tt
       end);*
      let* s := Ctx.stream k in
      (if Stream.is_sending_trailer s then
         Ctx.modify_m k (fun s =>
           let! st := State.send_close (Stream.state s) in
           Done (s <| Stream.state := st |>))
       else ret tt);*
      ret (Some (Frame.Headers header))
  | Some frame => ret (Some frame)
  | None =>
      let* s := Ctx.stream k in
      match State.get_scheduled_reset (Stream.state s) with
      | Some reason =>
          Ctx.modify k (fun s => Stream.set_reset s reason Initiator.Library);*
          ret (Some (Frame.Reset (Reset.new (Stream.id s) reason)))
      | None =>
          lift (assert (State.is_closed (Stream.state s)));*
          Ctx.transition_after k is_pending_reset;*
          ret None
      end
  end.

(** What happens to the stream whose frame is sent. *)
Definition requeue (k : Key.t) : C unit :=
  let* s := Ctx.stream k in
  when (State.is_idle (Stream.state s))
    (modifies (fun c => c <| Ctx.send ::= (fun snd =>
       snd <| Send.last_opened_id := Stream.id s |>) |>));*
  let* spa := gets (fun c => Send.spa_tracker (Ctx.send c)) in
  match spa, bool_decide (Stream.remaining_data_len s = Some 1) with
  | Some t, true =>
      lift (assert (negb (Deque.is_empty (Stream.pending_send s))));*
      modifies (fun c => c <| Ctx.send ::= (fun snd =>
        snd <| Send.spa_tracker := Some (SpaTracker.add_pending_spa t (Stream.id s)) |>) |>)
  | _, _ =>
      if negb (Deque.is_empty (Stream.pending_send s))
         || State.is_scheduled_reset (Stream.state s)
      then Ctx.queue_push NextSend Send.pending_send k;* ret tt
      else ret tt
  end.

(** A round of [pop_frame]: [None] is [continue]. *)
Definition pop_round (max_frame_size : Z) : C (option (option Frame.t)) :=
  let* popped := Ctx.queue_pop NextSend Send.pending_send in
  match popped with
  | None => ret (Some None)
  | Some k =>
      let* s := Ctx.stream k in
      let is_pending_reset := Stream.is_pending_reset_expiration s in
      when (State.is_remote_reset (Stream.state s)
            || bool_decide (State.get_scheduled_reset (Stream.state s) = Some Reason.CANCEL))
        (clear_stream_queue k);*
      let* frame := next_frame k max_frame_size is_pending_reset in
      match frame with
      | None => ret None
      | Some frame =>
          requeue k;*
          Ctx.transition_after k is_pending_reset;*
          ret (Some (Some frame))
      end
  end.

Definition pop_frame (max_frame_size : Z) : C (option Frame.t) :=
  let* fuel := Ctx.streams_fuel in
  loop fuel (pop_round max_frame_size).

(** ** The loops over the codec *)

Context `{!FrameSink}.

(** [poll_complete] after its first [poll_ready]; every round but the last hands a
    frame to the codec. *)
Fixpoint poll_complete_loop (fuel : nat) (max_frame_len : Z) (c : Ctx.t) (dst : sink) :
    outcome (poll (result unit io_error) * Ctx.t * sink) :=
  match fuel with
  | O => Panic
  | S fuel =>
      let! (opened, c) := pop_pending_open c in
      let! (_, c) := match opened with
                     | Some k => Ctx.queue_push_front NextSend Send.pending_send k c
                     | None => Done (tt, c)
                     end in
      let! (frame, c) := pop_frame max_frame_len c in
      match frame with
      | Some frame =>
          let! (r, dst) := sink_buffer dst frame in
          let! _ := assert (is_ok r) in
          match poll_ready dst with
          | (Ready (Ok _), dst) => poll_complete_loop fuel max_frame_len c dst
          | (r, dst) => Done (r, c, dst)
          end
      | None => let (r, dst) := flush dst in Done (r, c, dst)
      end
  end.

Definition poll_complete (fuel : nat) (c : Ctx.t) (dst : sink) :
    outcome (poll (result unit io_error) * Ctx.t * sink) :=
  match poll_ready dst with
  | (Ready (Ok _), dst) => poll_complete_loop fuel (max_send_frame_size dst) c dst
  | (r, dst) => Done (r, c, dst)
  end.

(** [poll_spa]; [nanos] is the clock. *)
Definition poll_spa (nanos : Z) (c : Ctx.t) (dst : sink) (ping_handler : PingHandler.t) :
    outcome (poll (result unit io_error) * Ctx.t * sink * PingHandler.t) :=
  let can_perform_spa := Send.can_perform_spa (Ctx.send c) in
  match Send.spa_tracker (Ctx.send c) with
  | None => Done (Ready (Ok tt), c, dst, ping_handler)
  | Some t =>
      if SpaTracker.are_pending_stream_window_update t || negb can_perform_spa
      then Done (Ready (Ok tt), c, dst, ping_handler)
      else
        let! (r, (t, st, buf), dst, ping_handler, is_done) :=
          SpaTracker.poll nanos t (Ctx.buffer c) (Ctx.store c) dst ping_handler can_perform_spa in
        let c := c <| Ctx.store := st |> <| Ctx.buffer := buf |>
                   <| Ctx.send ::= (fun s =>
                        s <| Send.spa_tracker := if is_done : bool then None else Some t |>) |> in
        match r with
        | Ready (Ok _) => let (r, dst) := flush dst in Done (r, c, dst, ping_handler)
        | r => Done (r, c, dst, ping_handler)
        end
  end.

End poll.

End SendPoll.
