(* ===== verification/Credit.v ===== *)
(** * Flow control of the sending side

    An account is the connection or a stream.  The [credit] of the connection is its
    window plus what its streams have been allocated of it; the credit of a stream is
    its window.  [spends ok cost c m] says that [m] pays for what it returns: in every
    account the credit falls by at least the cost.  The sending loop is shown to hand
    the codec no more octets of DATA than each account had, in frames no longer than
    the maximum frame size. *)

From S2P Require Import Prelude Effects FrameBase ControlFrames SettingsFrame DataFrame HpackHeader.
From S2P Require Import HeadersFrame ProtoErrors FramedRead FrameSink ProtoHandlers StreamState.
From S2P Require Import FlowWindow SlabLib FrameBuffer StreamRec StreamStore StreamStoreFacts.
From S2P Require Import StreamQueue Spa StreamCounts Evolve Send SendOps SendPoll.

(** ** Sums over a map *)

Definition total (m : gmap nat Z) : Z := map_fold (fun _ a n => a + n) 0 m.

Lemma total_insert m i a : m !! i = None -> total (<[i := a]> m) = a + total m.
Proof. intros Hi. unfold total. rewrite map_fold_insert_L; [done|intros; lia|done]. Qed.

Lemma total_delete m i a : m !! i = Some a -> total m = a + total (delete i m).
Proof.
  intros Hi. rewrite <-(insert_delete_id m i a Hi) at 1. apply total_insert. apply lookup_delete_eq.
Qed.

Lemma total_update m i a b : m !! i = Some a -> total (<[i := b]> m) = total m - a + b.
Proof.
  intros Hi. rewrite (total_delete m i a Hi), <-insert_delete_eq.
  rewrite total_insert by apply lookup_delete_eq. lia.
Qed.

Lemma total_nonneg m : (forall i a, m !! i = Some a -> 0 <= a) -> 0 <= total m.
Proof.
  induction m as [|i a m Hi IH] using map_ind; intros Hm; [done|]. rewrite total_insert by done.
  pose proof (Hm i a ltac:(by simplify_map_eq)). assert (0 <= total m); [|lia].
  apply IH. intros j b Hj. apply (Hm j b). destruct (decide (i = j)); simplify_map_eq; done.
Qed.

Lemma total_subseteq m m' :
  (forall i a, m' !! i = Some a -> 0 <= a) -> m ⊆ m' -> total m <= total m'.
Proof.
  revert m'. induction m as [|i a m Hi IH] using map_ind; intros m' Hm' Hsub.
  - by apply total_nonneg.
  - assert (m' !! i = Some a) as Ha by (eapply lookup_weaken; [|exact Hsub]; by simplify_map_eq).
    rewrite total_insert, (total_delete m' i a) by done. assert (total m <= total (delete i m')); [|lia].
    apply IH.
    + intros j b Hj. apply (Hm' j b). by apply lookup_delete_Some in Hj as [_ ?].
    + apply map_subseteq_spec. intros j b Hj. apply lookup_delete_Some. split; [by intros ->; simplify_eq|].
      eapply lookup_weaken; [|exact Hsub]. apply lookup_insert_Some. right. split; [by intros ->; simplify_eq|done].
Qed.

(** ** What most of the code leaves of a stream *)

Record steady (s s' : Stream.t) : Prop := {
  steady_id : Stream.id s' = Stream.id s;
  steady_allocated : Stream.connection_window_allocated s' = Stream.connection_window_allocated s;
  steady_flow : Stream.send_flow s' = Stream.send_flow s;
  steady_frames : Stream.pending_send s' = Stream.pending_send s;
  steady_body : Stream.remaining_data_len s' = Stream.remaining_data_len s
}.

#[export] Instance steady_rel : StreamRel steady.
Proof.
  split; [|by intros s s' []|by split]. split; [by split|].
  intros s1 s2 s3 [] []. split; congruence.
Qed.

Lemma steady_bookkeeping (N : Next) `{!Unaffected N Stream.id} `{!Unaffected N Stream.send_flow}
  `{!Unaffected N Stream.connection_window_allocated} `{!Unaffected N Stream.pending_send}
  `{!Unaffected N Stream.remaining_data_len} : Bookkeeping steady N.
Proof. split; intros; split; first [apply unaffected_next|by eapply unaffected_queued]. Qed.
#[export] Hint Extern 2 (Bookkeeping steady _) => apply steady_bookkeeping : typeclass_instances.

(** ** Accounts *)

(** [None] is the connection, [Some id] the stream of that identifier. *)
Definition account : Type := option StreamId.t.

Definition holdings (a : account) (s : Stream.t) : Z :=
  match a with
  | None => Stream.connection_window_allocated s
  | Some id => if Stream.id s =? id then FlowControl.available (Stream.send_flow s) else 0
  end.

Record solvent (s : Stream.t) : Prop := {
  solvent_allocated : 0 <= Stream.connection_window_allocated s;
  solvent_window : is_i32 (FlowControl.window (Stream.send_flow s))
}.

Lemma as_u32_nonneg z : 0 <= as_u32 z.
Proof. unfold as_u32, wrap_u32. by apply Z.mod_pos_bound. Qed.

Lemma available_nonneg f : 0 <= FlowControl.available f.
Proof.
  unfold FlowControl.available, Window.as_size. destruct (_ <? 0); [lia|apply as_u32_nonneg].
Qed.

Lemma holdings_nonneg a s : solvent s -> 0 <= holdings a s.
Proof.
  intros []. destruct a as [id|]; [|done]. cbn. destruct (_ =? _); [apply available_nonneg|lia].
Qed.

Lemma steady_holdings a s s' : steady s s' -> holdings a s' = holdings a s.
Proof. intros [Hi Ha Hf _ _]. destruct a; cbn; by rewrite ?Hi, ?Hf, ?Ha. Qed.

Lemma steady_solvent s s' : steady s s' -> solvent s -> solvent s'.
Proof. intros [_ Ha Hf _ _] []. split; by rewrite ?Ha, ?Hf. Qed.

(** Taking [n] octets out of a window that has them. *)
Lemma dec_window_available f n :
  is_i32 (FlowControl.window f) -> 0 <= n <= FlowControl.available f ->
  FlowControl.window (FlowControl.dec_window f n).2 = FlowControl.window f - n /\
  FlowControl.available (FlowControl.dec_window f n).2 = FlowControl.available f - n /\
  is_i32 (FlowControl.window f - n).
Proof.
  intros Hw Hn. unfold FlowControl.available in *. rewrite as_size_spec in Hn by done.
  assert (is_i32 (FlowControl.window f - n)) as Hi by (unfold_ints; lia).
  unfold FlowControl.dec_window.
  rewrite decrease_by_spec by (done || unfold_ints; lia).
  rewrite (proj2 (Z.leb_le _ _)) by (unfold_ints; lia). cbn. split_and!; [done| |done].
  rewrite !as_size_spec by done. lia.
Qed.

(** The octets of a frame that count against an account. *)
Definition octets `{HeaderPlz} `{HeaderMapOps} (a : account) (f : Frame.t) : Z :=
  match f with
  | Frame.Data d =>
      match a with
      | None => len (Data.data d)
      | Some id => if Data.stream_id d =? id then len (Data.data d) else 0
      end
  | _ => 0
  end.

Definition is_data `{HeaderPlz} `{HeaderMapOps} (f : Frame.t) : bool :=
  match f with Frame.Data _ => true | _ => false end.

(** A frame within the maximum frame size. *)
Definition fits_frame `{HeaderPlz} `{HeaderMapOps} (max : Z) (f : Frame.t) : Prop :=
  octets None f <= max.

(** A field of [Send] other than its window. *)
Class Aside (q : Send.t -> queue) `{!Update q} : Prop := aside snd f : Send.flow (upd q f snd) = Send.flow snd.
#[export] Hint Extern 2 (Aside _) => intros ? ?; reflexivity : typeclass_instances.

Section credit.
Context `{HeaderPlz} `{HeaderMapOps} `{Hsl : SlabOps} `{!SlabLaws Hsl} `{Him : IndexMapOps}.

Implicit Types (c : Ctx.t) (k : Key.t) (s : Stream.t) (st : Store.t) (a : account).

Definition conn_window c : Z := FlowControl.window (Send.flow (Ctx.send c)).

Definition base a c : Z := match a with None => conn_window c | Some _ => 0 end.

Definition held a st : gmap nat Z := holdings a <$> slab_map (Store.streams st).

Definition credit a c : Z := base a c + total (held a (Ctx.store c)).

(** ** The frames of a stream *)

(** A stream has at most one DATA frame queued, the rest of its body. *)
Record body_ok s (l : list Frame.t) : Prop := {
  body_one : (length (filter is_data l) <= 1)%nat;
  body_rest d n : Frame.Data d ∈ l -> Stream.remaining_data_len s = Some n -> n = len (Data.data d)
}.

Definition no_data (l : list Frame.t) : Prop := filter is_data l = [].

Lemma no_data_ok s l : no_data l -> body_ok s l.
Proof.
  unfold no_data. intros Hl. split; [rewrite Hl; cbn; lia|]. intros d n Hd. exfalso.
  assert (Frame.Data d ∈ filter is_data l) as Hin by (by apply list_elem_of_filter).
  rewrite Hl in Hin. by apply not_elem_of_nil in Hin.
Qed.

Lemma body_ok_data s l d :
  no_data l -> (forall n, Stream.remaining_data_len s = Some n -> n = len (Data.data d)) ->
  body_ok s (Frame.Data d :: l).
Proof.
  intros Hl Hd. split.
  - unfold no_data in Hl. rewrite filter_cons_True by done. rewrite Hl. cbn. lia.
  - intros d' n [Heq|Hin]%elem_of_cons; [injection Heq as ->; apply Hd|].
    by apply (body_rest s l (no_data_ok s l Hl)).
Qed.

Lemma body_ok_other s l f : is_data f = false -> body_ok s l -> body_ok s (f :: l).
Proof.
  intros Hf [H1 H2]. split.
  - rewrite filter_cons_False; [done|]. by rewrite Hf; intros [].
  - intros d n [<-|Hin]%elem_of_cons; [done|]. by apply H2.
Qed.

Lemma body_ok_tail s f l : body_ok s (f :: l) -> body_ok s l.
Proof.
  intros [H1 H2]. split; [|intros d n Hd; by apply H2; right].
  revert H1. rewrite filter_cons. case_decide; cbn; lia.
Qed.

Lemma body_ok_data_tail s d l :
  body_ok s (Frame.Data d :: l) ->
  no_data l /\ forall n, Stream.remaining_data_len s = Some n -> n = len (Data.data d).
Proof.
  intros [H1 H2]. rewrite filter_cons_True in H1 by done. split.
  - unfold no_data. destruct (filter is_data l); cbn in *; [done|lia].
  - intros n. apply H2. by left.
Qed.

Lemma body_ok_ext s s' l :
  (Stream.remaining_data_len s' = Stream.remaining_data_len s \/ Stream.remaining_data_len s' = None) ->
  body_ok s l -> body_ok s' l.
Proof.
  intros Hr [H1 H2]. split; [done|]. intros d n Hd Hn. destruct Hr as [Hr|Hr]; [|congruence].
  apply H2; [done|congruence].
Qed.

(** ** What every step assumes and re-establishes *)

(** Every stream [i] has the frames [F i] queued, in slots [K i] of its own. *)
Record bodies (K : nat -> list nat) (F : nat -> list Frame.t) c : Prop := {
  bodies_owns i s : slab_map (Store.streams (Ctx.store c)) !! i = Some s ->
    owns (Ctx.buffer c) (Stream.pending_send s) (K i) (F i);
  bodies_ok i s : slab_map (Store.streams (Ctx.store c)) !! i = Some s -> body_ok s (F i);
  bodies_apart i j : i <> j -> is_Some (slab_map (Store.streams (Ctx.store c)) !! i) ->
    is_Some (slab_map (Store.streams (Ctx.store c)) !! j) -> K i ## K j
}.

Record funds c : Prop := {
  funds_conn : 0 <= conn_window c <= i32_max;
  funds_streams i s : slab_map (Store.streams (Ctx.store c)) !! i = Some s -> solvent s
}.

Definition sound c : Prop := funds c /\ exists K F, bodies K F c.

Definition poorer c c' : Prop := sound c -> sound c' /\ forall a, credit a c' <= credit a c.

#[export] Instance poorer_preorder : PreOrder poorer.
Proof.
  split; [by intros c Hc|]. intros c1 c2 c3 H12 H23 Hc. destruct (H12 Hc) as [Hc2 Hle].
  destruct (H23 Hc2) as [? Hle']. split; [done|]. intros a. specialize (Hle a). specialize (Hle' a). lia.
Qed.

Definition spends {A} (ok : A -> Prop) (cost : account -> A -> Z) c (m : M Ctx.t A) : Prop :=
  ensures (m c) (fun '(x, c') =>
    sound c -> sound c' /\ ok x /\ forall a, cost a x + credit a c' <= credit a c).

Lemma spends_ret {A} ok cost c (x : A) : ok x -> (forall a, cost a x <= 0) -> spends ok cost c (ret x).
Proof. intros Hok Hc. apply ensures_Done. intros Hs. split_and!; [done..|]. intros a. specialize (Hc a). lia. Qed.

(** Code that is free, then code that pays. *)
Lemma spends_free {A B} ok cost c (m : M Ctx.t A) (k : A -> M Ctx.t B) :
  keeps poorer c m -> (forall x c', m c = Done (x, c') -> spends ok cost c' (k x)) ->
  spends ok cost c (bind m k).
Proof.
  intros Hm Hk [y c2]. unfold bind. destruct (m c) as [[x c1]|] eqn:He; [cbn [obind]|done].
  intros Hb Hs. destruct (Hm _ He Hs) as [Hs1 Hle]. destruct (Hk x c1 eq_refl _ Hb Hs1) as (? & ? & Hle2).
  split_and!; [done..|]. intros a. specialize (Hle a). specialize (Hle2 a). lia.
Qed.

(** Code that pays for what it returns, then code that is free. *)
Lemma spends_then {A B} ok cost ok' cost' c (m : M Ctx.t A) (k : A -> M Ctx.t B) :
  spends ok cost c m ->
  (forall x c', ok x -> spends ok' (fun a y => cost' a y - cost a x) c' (k x)) ->
  spends ok' cost' c (bind m k).
Proof.
  intros Hm Hk [y c2]. unfold bind. destruct (m c) as [[x c1]|] eqn:He; [cbn [obind]|done].
  intros Hb Hs. destruct (Hm _ He Hs) as (Hs1 & Hx & Hle).
  destruct (Hk x c1 Hx _ Hb Hs1) as (? & ? & Hle2).
  split_and!; [done..|]. intros a. specialize (Hle a). specialize (Hle2 a). lia.
Qed.

Lemma spends_keeps {A} ok cost c (m : M Ctx.t A) : spends ok cost c m -> (forall a x, ok x -> 0 <= cost a x) -> keeps poorer c m.
Proof.
  intros Hm Hc [x c'] He Hs. destruct (Hm _ He Hs) as (? & Hx & Hle). split; [done|].
  intros a. specialize (Hle a). specialize (Hc a x Hx). lia.
Qed.

(** What is known of the world may be used. *)
Lemma keeps_sound {A} c (m : M Ctx.t A) : (sound c -> keeps poorer c m) -> keeps poorer c m.
Proof. intros Hm [x c'] He Hs. exact (Hm Hs _ He Hs). Qed.

Lemma spends_sound {A} ok cost c (m : M Ctx.t A) : (sound c -> spends ok cost c m) -> spends ok cost c m.
Proof. intros Hm [x c'] He Hs. exact (Hm Hs _ He Hs). Qed.

Lemma sound_solvent c k s : sound c -> Store.lookup (Ctx.store c) k = Some s -> solvent s.
Proof. intros [Hf _] [Hs _]%lookup_some. by eapply funds_streams. Qed.

Lemma held_nonneg a c i n : funds c -> held a (Ctx.store c) !! i = Some n -> 0 <= n.
Proof.
  intros Hf. unfold held. rewrite lookup_fmap. destruct (slab_map _ !! i) as [s|] eqn:Hs; [|done].
  intros [= <-]. by eapply holdings_nonneg, funds_streams.
Qed.

(** ** The steps that change what a stream holds *)

(** The map of the streams after a write. *)
Lemma put_map st k s s' :
  Store.lookup st k = Some s ->
  slab_map (Store.streams (Store.put st k s')) = <[Key.index k := s']> (slab_map (Store.streams st)).
Proof. intros [Hs _]%lookup_some. unfold Store.put. record. by rewrite slab_map_set by congruence. Qed.

Lemma put_credit c k s s' a :
  Store.lookup (Ctx.store c) k = Some s ->
  credit a (c <| Ctx.store ::= (fun st => Store.put st k s') |>) =
    credit a c - holdings a s + holdings a s'.
Proof.
  intros Hs. unfold credit, held. set (st := Store.put (Ctx.store c) k s').
  change (base a (c <| Ctx.store ::= _ |>)) with (base a c). record.
  unfold st. rewrite (put_map _ _ s) by done. rewrite fmap_insert.
  rewrite (total_update _ _ (holdings a s)).
  - lia.
  - apply lookup_some in Hs as [Hs _]. by rewrite lookup_fmap, Hs.
Qed.

Lemma put_funds c k s s' :
  Store.lookup (Ctx.store c) k = Some s -> solvent s' -> funds c ->
  funds (c <| Ctx.store ::= (fun st => Store.put st k s') |>).
Proof.
  intros Hs Hs' [Hw Hf]. split; [done|]. intros i t. record. rewrite (put_map _ _ s) by done.
  intros [[_ <-]|[_ Ht]]%lookup_insert_Some; [done|by eapply Hf].
Qed.

Lemma put_bodies K F c k s s' :
  Store.lookup (Ctx.store c) k = Some s -> Stream.pending_send s' = Stream.pending_send s ->
  body_ok s' (F (Key.index k)) -> bodies K F c ->
  bodies K F (c <| Ctx.store ::= (fun st => Store.put st k s') |>).
Proof.
  intros Hs Hp Hb [Ho Hok Ha]. pose proof Hs as [Hs0 _]%lookup_some.
  split; record; rewrite (put_map _ _ s) by done.
  - intros i t [[<- <-]|[_ Ht]]%lookup_insert_Some; [rewrite Hp|]; by apply Ho.
  - intros i t [[<- <-]|[_ Ht]]%lookup_insert_Some; [done|by apply Hok].
  - intros i j Hij [t Hi] [t' Hj]. apply Ha; [done|..].
    + apply lookup_insert_Some in Hi as [[<- _]|[_ ?]]; eauto.
    + apply lookup_insert_Some in Hj as [[<- _]|[_ ?]]; eauto.
Qed.

(** ** The primitives *)

Lemma store_rel_map st st' i s' :
  store_rel steady st st' -> slab_map (Store.streams st') !! i = Some s' ->
  exists s, slab_map (Store.streams st) !! i = Some s /\ steady s s'.
Proof.
  intros Hr Hs'. destruct (Hr (Key.mk i (Stream.id s')) s') as (s & Hs & Hst); [by apply lookup_some|].
  apply lookup_some in Hs as [Hs _]. by exists s.
Qed.

Lemma store_bodies K F c c' :
  store_rel steady (Ctx.store c) (Ctx.store c') -> Ctx.buffer c' = Ctx.buffer c ->
  bodies K F c -> bodies K F c'.
Proof.
  intros Hr Hbuf [Ho Hok Ha]. split.
  - intros i s' (s & Hs & [])%(store_rel_map _ _ _ _ Hr). rewrite Hbuf, steady_frames0. by apply Ho.
  - intros i s' (s & Hs & [])%(store_rel_map _ _ _ _ Hr). eapply body_ok_ext; [by left|by apply Hok].
  - intros i j Hij [s (? & ? & _)%(store_rel_map _ _ _ _ Hr)] [t (? & ? & _)%(store_rel_map _ _ _ _ Hr)].
    apply Ha; eauto.
Qed.

Lemma poorer_store c c' :
  store_rel steady (Ctx.store c) (Ctx.store c') -> Ctx.buffer c' = Ctx.buffer c ->
  Send.flow (Ctx.send c') = Send.flow (Ctx.send c) -> poorer c c'.
Proof.
  intros Hr Hbuf Hfl [Hf (K & F & Hb)]. split.
  - split; [|exists K, F; by apply (store_bodies K F c c')]. destruct Hf as [Hw Hf]. split.
    + unfold conn_window. by rewrite Hfl.
    + intros i s' (s & Hs & Hst)%(store_rel_map _ _ _ _ Hr). by eapply steady_solvent, Hf.
  - intros a. unfold credit.
    assert (base a c' = base a c) as -> by (unfold base, conn_window; by rewrite Hfl).
    assert (total (held a (Ctx.store c')) <= total (held a (Ctx.store c))); [|lia].
    apply total_subseteq; [intros i n; by eapply held_nonneg|]. apply map_subseteq_spec. intros i n.
    unfold held. rewrite !lookup_fmap. destruct (slab_map (Store.streams (Ctx.store c')) !! i) as [s'|] eqn:Hs'; [|done].
    destruct (store_rel_map _ _ _ _ Hr Hs') as (s & -> & Hst). cbn. intros [= <-]. f_equal.
    symmetry. by apply steady_holdings.
Qed.

Lemma stream_poorer {A} c k (f : Stream.t -> M Ctx.t A) :
  (forall s, Store.lookup (Ctx.store c) k = Some s -> keeps poorer c (f s)) ->
  keeps poorer c (bind (Ctx.stream k) f).
Proof.
  intros Hf. unfold keeps, bind, Ctx.stream, Store.index.
  destruct (Store.lookup (Ctx.store c) k) as [s|] eqn:Hs; [|done]. by apply Hf.
Qed.

Lemma stream_spends {A} ok cost c k (f : Stream.t -> M Ctx.t A) :
  (forall s, Store.lookup (Ctx.store c) k = Some s -> spends ok cost c (f s)) ->
  spends ok cost c (bind (Ctx.stream k) f).
Proof.
  intros Hf. unfold spends, bind, Ctx.stream, Store.index.
  destruct (Store.lookup (Ctx.store c) k) as [s|] eqn:Hs; [|done]. by apply Hf.
Qed.

Lemma modify_poorer c k f : (forall s, steady s (f s)) -> keeps poorer c (Ctx.modify k f).
Proof.
  intros Hf. eapply ensures_bind; [apply (modify_evolves steady); intros; apply Hf|].
  intros st Hst. by apply ensures_Done, poorer_store.
Qed.

Lemma modify_m_poorer c k f : (forall s, ensures (f s) (steady s)) -> keeps poorer c (Ctx.modify_m k f).
Proof.
  intros Hf. apply ensures_obind; intros s Hs. eapply ensures_bind; [apply Hf|]. intros s' Hst.
  apply ensures_Done, poorer_store; [|done..]. by eapply (index_put_evolves steady).
Qed.

Lemma transition_after_poorer c k b : keeps poorer c (Ctx.transition_after k b).
Proof.
  eapply ensures_bind; [apply (transition_after_evolves steady)|]. intros [cs st] [_ Hst].
  by apply ensures_Done, poorer_store.
Qed.

Section queue.
Context (N : Next) `{!NextLaws N} `{!Bookkeeping steady N} (q : Send.t -> queue) `{!Update q} `{!Aside q}.

Lemma queue_push_poorer c k : keeps poorer c (Ctx.queue_push N q k).
Proof.
  eapply ensures_bind; [apply (queue_push_evolves steady N)|]. intros [[b x] st] Hst.
  apply ensures_Done, poorer_store; [done..|]. apply aside.
Qed.

Lemma queue_push_front_poorer c k : keeps poorer c (Ctx.queue_push_front N q k).
Proof.
  eapply ensures_bind; [apply (queue_push_front_evolves steady N)|]. intros [[b x] st] Hst.
  apply ensures_Done, poorer_store; [done..|]. apply aside.
Qed.

Lemma queue_pop_poorer c : keeps poorer c (Ctx.queue_pop N q).
Proof.
  eapply ensures_bind; [apply (queue_pop_evolves steady N)|]. intros [[b x] st] Hst.
  apply ensures_Done, poorer_store; [done..|]. apply aside.
Qed.

End queue.

Lemma set_send_poorer c (f : Send.t -> Send.t) :
  (forall snd, Send.flow (f snd) = Send.flow snd) -> poorer c (c <| Ctx.send ::= f |>).
Proof. intros Hf. apply poorer_store; [done..|]. apply Hf. Qed.

(** ** The queued frames *)

(** [F] with the frames of slot [i] replaced. *)
Definition with_at {A} (i : nat) (x : A) (F : nat -> A) (j : nat) : A := if decide (j = i) then x else F j.

Lemma with_at_eq {A} i (x : A) F : with_at i x F i = x.
Proof. unfold with_at. by rewrite decide_True. Qed.

Lemma with_at_ne {A} i (x : A) F j : j <> i -> with_at i x F j = F j.
Proof. intros Hj. unfold with_at. by rewrite decide_False. Qed.

(** The deque of [k] becomes [l], stored in [ks]; what other deques own is untouched. *)
Lemma set_frames K F c k s buf d ks l :
  Store.lookup (Ctx.store c) k = Some s -> bodies K F c -> body_ok s l ->
  owns buf d ks l ->
  (forall x, is_Some (slab_map (Ctx.buffer c) !! x) -> x ∉ K (Key.index k) ->
     slab_map buf !! x = slab_map (Ctx.buffer c) !! x /\ x ∉ ks) ->
  bodies (with_at (Key.index k) ks K) (with_at (Key.index k) l F)
    (c <| Ctx.buffer := buf |>
       <| Ctx.store ::= (fun st => Store.put st k (s <| Stream.pending_send := d |>)) |>).
Proof.
  intros Hs [Ho Hok Ha] Hb Hd Hframe. pose proof Hs as [Hs0 _]%lookup_some.
  assert (forall i x, i <> Key.index k -> is_Some (slab_map (Store.streams (Ctx.store c)) !! i) ->
    x ∈ K i -> slab_map buf !! x = slab_map (Ctx.buffer c) !! x /\ x ∉ ks) as Hother.
  { intros i x Hi [t Ht] Hx. destruct (Ho i t Ht) as (_ & Hch & _).
    apply Hframe; [by eapply chain_in_map|]. intros Hx'. by apply (Ha i (Key.index k) Hi ltac:(eauto) ltac:(eauto) x). }
  split; record; rewrite (put_map _ _ s) by done.
  - intros i t Hi. destruct (decide (i = Key.index k)) as [->|Hne].
    + rewrite lookup_insert_eq in Hi. injection Hi as <-. by rewrite !with_at_eq.
    + rewrite lookup_insert_ne in Hi by done. rewrite !with_at_ne by done.
      eapply owns_frame; [|by apply Ho]. intros x Hx. by apply (Hother i); eauto.
  - intros i t Hi. destruct (decide (i = Key.index k)) as [->|Hne].
    + rewrite lookup_insert_eq in Hi. injection Hi as <-. rewrite with_at_eq.
      eapply body_ok_ext; [|exact Hb]. by left.
    + rewrite lookup_insert_ne in Hi by done. rewrite with_at_ne by done. by apply Hok.
  - intros i j Hij Hi Hj.
    assert (forall i, is_Some (<[Key.index k := s <| Stream.pending_send := d |>]>
      (slab_map (Store.streams (Ctx.store c))) !! i) ->
      is_Some (slab_map (Store.streams (Ctx.store c)) !! i)) as Hin.
    { intros i' Hi'. destruct (decide (i' = Key.index k)) as [->|]; [by eauto|].
      by rewrite lookup_insert_ne in Hi' by done. }
    apply Hin in Hi, Hj. destruct (decide (i = Key.index k)) as [->|Hni].
    + rewrite with_at_eq, with_at_ne by done. intros x Hx Hx'. by destruct (Hother j x ltac:(done) Hj Hx').
    + rewrite (with_at_ne _ _ _ i) by done. destruct (decide (j = Key.index k)) as [->|Hnj].
      * rewrite with_at_eq. intros x Hx Hx'. by destruct (Hother i x ltac:(done) Hi Hx).
      * rewrite with_at_ne by done. by apply Ha.
Qed.

(** A write that touches neither windows nor what is allocated. *)
Lemma set_frames_credit c k s buf d a :
  Store.lookup (Ctx.store c) k = Some s ->
  credit a (c <| Ctx.buffer := buf |>
              <| Ctx.store ::= (fun st => Store.put st k (s <| Stream.pending_send := d |>)) |>) =
    credit a c.
Proof.
  intros Hs. rewrite (put_credit (c <| Ctx.buffer := buf |>) k s) by done.
  change (credit a (c <| Ctx.buffer := buf |>)) with (credit a c).
  assert (holdings a (s <| Stream.pending_send := d |>) = holdings a s) as -> by (by destruct a). lia.
Qed.

Lemma set_frames_funds c k s buf d :
  Store.lookup (Ctx.store c) k = Some s -> funds c ->
  funds (c <| Ctx.buffer := buf |>
           <| Ctx.store ::= (fun st => Store.put st k (s <| Stream.pending_send := d |>)) |>).
Proof.
  intros Hs Hf. apply (put_funds (c <| Ctx.buffer := buf |>) k s); [done| |by destruct Hf; split].
  apply lookup_some in Hs as [Hs _]. destruct Hf as [_ Hf]. destruct (Hf _ _ Hs). by split.
Qed.

(** The stream of [k], with what is queued on it. *)
Record at_stream c k s (l : list Frame.t) K F : Prop := {
  at_lookup : Store.lookup (Ctx.store c) k = Some s;
  at_bodies : bodies K F c;
  at_frames : F (Key.index k) = l
}.

Lemma push_front_poorer c k s l K F f :
  at_stream c k s l K F -> body_ok s (f :: l) -> keeps poorer c (Ctx.push_front k f).
Proof.
  intros [Hs Hb Hl] Hok. pose proof Hs as [Hs0 _]%lookup_some.
  unfold keeps, Ctx.push_front, Store.index. rewrite Hs. cbn [unwrap obind].
  pose proof (bodies_owns _ _ _ Hb _ _ Hs0) as Ho. rewrite Hl in Ho.
  destruct (deque_push_front_spec _ _ _ _ f Ho) as (d & buf & ks & -> & Ho' & Hf). cbn [obind].
  apply ensures_Done. intros [Hfu _]. split.
  - split; [by apply set_frames_funds|]. eexists _, _. by eapply set_frames.
  - intros a. rewrite set_frames_credit by done. lia.
Qed.

(** What is known after the first frame of a stream is popped. *)
Definition holding c k (f : option Frame.t) : Prop :=
  match f with
  | Some (Frame.Data d) => exists s l K F, at_stream c k s l K F /\ no_data l /\
      forall n, Stream.remaining_data_len s = Some n -> n = len (Data.data d)
  | _ => True
  end.

Lemma pop_front_poorer c k :
  ensures (Ctx.pop_front k c) (fun '(f, c') => poorer c c' /\ (sound c -> holding c' k f)).
Proof.
  apply ensures_obind; intros s Hs%lookup_of_index. pose proof Hs as [Hs0 _]%lookup_some.
  apply ensures_obind; intros [[f d] buf] Hp. apply ensures_Done.
  set (c' := c <| Ctx.buffer := buf |> <| Ctx.store ::= _ |>).
  assert (sound c -> exists K F l, at_stream c' k (s <| Stream.pending_send := d |>) l K F /\
    body_ok s (option_list f ++ l)) as Hat.
  { intros [_ (K & F & Hb)]. pose proof (bodies_owns _ _ _ Hb _ _ Hs0) as Ho.
    pose proof (bodies_ok _ _ _ Hb _ _ Hs0) as Hok.
    destruct (deque_pop_front_spec _ _ _ _ Ho) as (d' & buf' & ks & Hp' & Ho' & Hf).
    rewrite Hp in Hp'. injection Hp' as -> <- <-.
    assert (body_ok s (List.tl (F (Key.index k)))) as Htl.
    { destruct (F (Key.index k)); [done|]. by eapply body_ok_tail. }
    eexists _, _, (List.tl (F (Key.index k))). split; [split|].
    - unfold c'. record. rewrite (lookup_put_eq _ _ _ s) by done. by rewrite decide_True.
    - eapply set_frames; [done..|]. intros x _ Hx. by apply Hf.
    - apply with_at_eq.
    - by destruct (F (Key.index k)). }
  split.
  - intros Hc. split.
    + split; [by apply set_frames_funds, Hc|]. destruct (Hat Hc) as (K & F & l & [_ Hb _] & _). by exists K, F.
    + intros a. unfold c'. rewrite set_frames_credit by done. lia.
  - intros Hc. destruct (Hat Hc) as (K & F & l & Hl & Hok). destruct f as [[]|]; try done.
    cbn in Hok. apply body_ok_data_tail in Hok as [Hnd Hn]. by exists (s <| Stream.pending_send := d |>), l, K, F.
Qed.

(** ** Programs that are free *)

#[local] Hint Resolve transition_after_poorer : keeps.
#[local] Hint Extern 2 (keeps poorer _ (Ctx.queue_push _ _ _)) =>
  apply queue_push_poorer; typeclasses eauto : keeps.
#[local] Hint Extern 2 (keeps poorer _ (Ctx.queue_push_front _ _ _)) =>
  apply queue_push_front_poorer; typeclasses eauto : keeps.
#[local] Hint Extern 2 (keeps poorer _ (Ctx.queue_pop _ _)) =>
  apply queue_pop_poorer; typeclasses eauto : keeps.
#[local] Hint Extern 2 (keeps poorer _ (Ctx.modify _ _)) =>
  apply modify_poorer; intros; by split : keeps.
#[local] Hint Extern 1 (poorer _ (_ <| Ctx.send ::= _ |>)) =>
  apply set_send_poorer; intros; repeat case_match; reflexivity : keeps.

Ltac poorer_step :=
  first
  [ lazymatch goal with
    | |- keeps _ _ (bind (Ctx.stream _) _) => apply stream_poorer; intros ? ?
    | |- keeps _ _ (bind Ctx.streams_fuel _) => apply keeps_gets
    | |- keeps _ _ (bind Ctx.frames_fuel _) => apply keeps_gets
    end
  | keeps_step
  | solve [eauto with keeps]
  | lazymatch goal with
    | |- keeps _ _ (bind _ _) => kbind; [|intros ? ? _]
    end ].
Ltac poor := repeat poorer_step.

(** ** Moving credit from the connection to a stream *)

Definition granted c k s n : Ctx.t :=
  c <| Ctx.store ::= (fun st => Store.put st k (s <| Stream.connection_window_allocated ::= (fun x => x + n) |>)) |>
    <| Ctx.send ::= (fun snd => snd <| Send.flow ::= (fun f => (FlowControl.dec_window f n).2) |>) |>.

Lemma granted_bodies K F c k s n :
  Store.lookup (Ctx.store c) k = Some s -> bodies K F c -> bodies K F (granted c k s n).
Proof.
  intros Hs Hb. pose proof Hs as [Hs0 _]%lookup_some.
  apply (store_bodies K F (c <| Ctx.store ::= (fun st => Store.put st k (s <| Stream.connection_window_allocated ::= (fun x => x + n) |>)) |>));
    [done|done|].
  apply (put_bodies K F c k s); [done|done| |done]. apply (body_ok_ext s); [by left|]. by apply (bodies_ok K F c Hb).
Qed.

Lemma granted_poorer c k s n :
  Store.lookup (Ctx.store c) k = Some s -> 0 <= n <= FlowControl.available (Send.flow (Ctx.send c)) ->
  poorer c (granted c k s n).
Proof.
  intros Hs Hn [Hf (K & F & Hb)]. pose proof Hs as [Hs0 _]%lookup_some.
  destruct (funds_streams _ Hf _ _ Hs0) as [Hal Hw].
  pose proof (funds_conn _ Hf) as Hconn.
  assert (is_i32 (conn_window c)) as Hci by (unfold_ints; lia).
  destruct (dec_window_available _ n Hci Hn) as (Hc & Hcav & Hi).
  assert (0 <= conn_window c - n) as Hpos.
  { pose proof (available_nonneg (FlowControl.dec_window (Send.flow (Ctx.send c)) n).2).
    unfold FlowControl.available in Hn. rewrite as_size_spec in Hn by done. unfold conn_window in *. lia. }
  set (s' := s <| Stream.connection_window_allocated ::= (fun x => x + n) |>).
  set (c1 := c <| Ctx.store ::= (fun st => Store.put st k s') |>).
  assert (conn_window (granted c k s n) = conn_window c - n) as Hcw by exact Hc.
  assert (funds c1) as Hf1.
  { apply (put_funds c k s); [done| |done]. split; [unfold s'; record; lia|exact Hw]. }
  split.
  - split; [|exists K, F; by apply granted_bodies]. split; [rewrite Hcw; lia|]. intros i t Ht.
    by apply (funds_streams _ Hf1 i t).
  - intros a. assert (total (held a (Ctx.store c1)) = total (held a (Ctx.store c)) - holdings a s + holdings a s') as Ht.
    { pose proof (put_credit c k s s' a Hs) as He. unfold credit in He. fold c1 in He.
      change (base a c1) with (base a c) in He. lia. }
    unfold credit. change (Ctx.store (granted c k s n)) with (Ctx.store c1). rewrite Ht.
    destruct a as [id|].
    + change (holdings (Some id) s') with (holdings (Some id) s). cbn [base]. lia.
    + cbn [base holdings]. rewrite Hcw. unfold s'. record. lia.
Qed.

(** [min(connection, stream, body)]: no more than the connection has. *)
Lemma grant_bounds conn avail rem :
  0 <= conn -> 0 <= avail -> 0 <= Z.min (Z.min conn avail) (as_u32 rem) <= conn.
Proof. intros Hc Ha. pose proof (as_u32_nonneg rem). lia. Qed.

Lemma try_assign_capacity_poorer c k : keeps poorer c (SendOps.try_assign_capacity k).
Proof.
  unfold SendOps.try_assign_capacity. apply stream_poorer; intros s Hs.
  do 2 apply keeps_gets. cbv zeta. destruct (_ =? 0); [kret|]. destruct (_ =? 0) eqn:Hconn.
  { poor. }
  destruct (Stream.remaining_data_len s) as [rem|]; [|kret].
  set (n := Z.min _ _).
  assert (0 <= n <= FlowControl.available (Send.flow (Ctx.send c))) as Hn
    by (apply grant_bounds; apply available_nonneg).
  clearbody n. kbind; [poor|]. intros u c1 Hpush.
  assert (Send.flow (Ctx.send c1) = Send.flow (Ctx.send c)) as Hfl.
  { unfold Ctx.queue_push in Hpush. destruct (Queue.push _ _ _ _) as [[[b q] st]|]; [|done].
    cbn [obind] in Hpush. by injection Hpush as <- <-. }
  destruct (n =? 0); [kret|]. apply stream_poorer; intros s1 Hs1. apply keeps_lift. intros t Ht.
  unfold keeps, bind, Ctx.modify, Store.modify, Store.index. rewrite Hs1. cbn [unwrap obind].
  unfold add_u32 in Ht. destruct (_ <=? _); [|done]. injection Ht as <-. apply ensures_Done.
  apply (granted_poorer c1 k s1 n); [done|by rewrite Hfl].
Qed.

Lemma try_allocate_spec c k s rem avail :
  Store.lookup (Ctx.store c) k = Some s -> 0 <= avail ->
  ensures (SendPoll.try_allocate_stream_flow k rem avail c) (fun '(b, c') => poorer c c' /\
    exists n, Store.lookup (Ctx.store c') k = Some (s <| Stream.connection_window_allocated := n |>) /\
      forall K F, bodies K F c -> bodies K F c').
Proof.
  intros Hs Ha. unfold SendPoll.try_allocate_stream_flow, bind, Ctx.stream, Store.index, gets. rewrite Hs.
  cbn [unwrap obind].
  assert (exists n, Store.lookup (Ctx.store c) k = Some (s <| Stream.connection_window_allocated := n |>) /\
    forall K F, bodies K F c -> bodies K F c) as Hsame.
  { exists (Stream.connection_window_allocated s). split; [|done]. rewrite Hs. by destruct s. }
  destruct (negb _); [by apply ensures_Done|]. cbn [obind]. set (n := Z.min _ _).
  assert (0 <= n <= FlowControl.available (Send.flow (Ctx.send c))) as Hn
    by (apply grant_bounds; [apply available_nonneg|done]).
  clearbody n.
  destruct (n =? 0); [by apply ensures_Done|].
  unfold lift, add_u32, Ctx.modify, Store.modify, Store.index. destruct (_ <=? _); [|done]. cbn [assert obind].
  rewrite Hs. cbn [unwrap obind]. apply ensures_Done. split; [by apply (granted_poorer c k s n)|].
  exists (Stream.connection_window_allocated s + n). split.
  - record. rewrite (lookup_put_eq _ _ _ s) by done. by rewrite decide_True.
  - intros K F. by apply (granted_bodies K F c k s n).
Qed.

(** ** Cutting a body *)

Lemma pop_front_keeps c k : keeps poorer c (Ctx.pop_front k).
Proof. eapply ensures_mono; [apply pop_front_poorer|]. by intros [f c'] [? _]. Qed.

(** A write that leaves the frames and gives nothing. *)
Lemma put_poorer c k s s' :
  Store.lookup (Ctx.store c) k = Some s ->
  Stream.pending_send s' = Stream.pending_send s ->
  (Stream.remaining_data_len s' = Stream.remaining_data_len s \/ Stream.remaining_data_len s' = None) ->
  (solvent s -> solvent s' /\ forall a, holdings a s' <= holdings a s) ->
  poorer c (c <| Ctx.store ::= (fun st => Store.put st k s') |>).
Proof.
  intros Hs Hp Hr Hh [Hf (K & F & Hb)]. pose proof Hs as [Hs0 _]%lookup_some.
  destruct (Hh (funds_streams _ Hf _ _ Hs0)) as [Hsol Hle]. split.
  - split; [by apply (put_funds c k s)|]. exists K, F. apply (put_bodies K F c k s); [done..| |done].
    apply (body_ok_ext s); [done|]. by apply (bodies_ok K F c Hb).
  - intros a. rewrite (put_credit c k s) by done. specialize (Hle a). lia.
Qed.

Lemma clear_body_poorer c k :
  keeps poorer c (Ctx.modify k (fun s => s <| Stream.remaining_data_len := None |>)).
Proof.
  apply ensures_obind; intros st Hst. apply ensures_Done. unfold Store.modify in Hst.
  destruct (Store.index (Ctx.store c) k) as [s|] eqn:Hs; [|done]. injection Hst as <-.
  apply lookup_of_index in Hs. apply (put_poorer c k s); [done|done|by right|].
  intros []. split; [by split|]. by intros [].
Qed.
#[local] Hint Resolve pop_front_keeps clear_body_poorer try_assign_capacity_poorer : keeps.

Lemma clear_stream_queue_poorer c k : keeps poorer c (SendOps.clear_stream_queue k).
Proof. unfold SendOps.clear_stream_queue, SendOps.drop_frames. poor. Qed.

Lemma send_close_poorer c k :
  keeps poorer c (Ctx.modify_m k (fun s =>
    let! x := State.send_close (Stream.state s) in Done (s <| Stream.state := x |>))).
Proof. apply modify_m_poorer. intros s. apply ensures_obind; intros x _. by apply ensures_Done. Qed.
#[local] Hint Resolve clear_stream_queue_poorer send_close_poorer : keeps.

(** The frame returned is the one given, but for END_STREAM; the rest is kept. *)
Lemma set_data_frame_eos_poorer c k d rest :
  (forall r, rest = Some r -> sound c -> holding c k (Some (Frame.Data r))) ->
  ensures (SendPoll.set_data_frame_eos k d rest c) (fun '(d', c') => poorer c c' /\
    Data.data d' = Data.data d /\ Data.stream_id d' = Data.stream_id d).
Proof.
  intros Hr. apply ensures_obind; intros [s c0] Hs. unfold Ctx.stream, Store.index in Hs.
  destruct (Store.lookup _ k); [|done]. injection Hs as -> <-.
  destruct (Stream.remaining_data_len s), rest as [r|];
    try (destruct (Deque.is_empty _)); try (by apply ensures_Done).
  - eapply (ensures_bind _ _ (fun '(_, c') => poorer c c')).
    + apply keeps_sound. intros Hsd. destruct (Hr r eq_refl Hsd) as (s1 & l & K & F & Hat & Hl & Hn).
      eapply push_front_poorer; [exact Hat|]. by apply body_ok_data.
    + intros [u c'] Hp. by apply ensures_Done.
  - eapply ensures_bind; [apply send_close_poorer|]. intros [u c'] Hp. by apply ensures_Done.
  - eapply ensures_bind; [apply (modify_poorer c k); intros; by split|].
    intros [u c'] Hp. by apply ensures_Done.
  - eapply ensures_bind; [apply send_close_poorer|]. intros [u c'] Hp. by apply ensures_Done.
  - eapply ensures_bind; [apply (modify_poorer c k); intros; by split|].
    intros [u c'] Hp. by apply ensures_Done.
Qed.

(** The cost of a frame, when there is one. *)
Definition cost a (f : option Frame.t) : Z := from_option (octets a) 0 f.
Definition fits (max : Z) (f : option Frame.t) : Prop := forall x, f = Some x -> fits_frame max x.

Definition taken s n rem : Stream.t :=
  s <| Stream.send_flow ::= (fun f => (FlowControl.dec_window f n).2) |>
    <| Stream.connection_window_allocated ::= (fun x => x - n) |>
    <| Stream.remaining_data_len := rem |>.

Lemma taken_spec s n rem :
  solvent s -> 0 <= n <= FlowControl.available (Stream.send_flow s) ->
  n <= Stream.connection_window_allocated s ->
  solvent (taken s n rem) /\
  forall a, holdings a (taken s n rem) =
    holdings a s - match a with None => n | Some id => if Stream.id s =? id then n else 0 end.
Proof.
  intros [Ha Hw] Hn Hal. destruct (dec_window_available _ n Hw Hn) as (Hw' & Hav & Hi). split.
  - unfold taken. split; record; [lia|]. by rewrite Hw'.
  - intros [id|]; unfold taken; cbn [holdings]; record; [|lia].
    destruct (_ =? _); [|lia]. exact Hav.
Qed.

Lemma split_to_spec b n :
  0 <= n -> ensures (SendPoll.split_to b n) (fun '(d, r) => len d = n /\ len r = len b - n).
Proof.
  intros Hn. unfold SendPoll.split_to. destruct (Z.leb_spec n (len b)) as [Hle|]; [|done]. apply ensures_Done.
  unfold len in *. rewrite length_take, length_drop. lia.
Qed.

Lemma take_data_spends max c k s l K F n frame :
  at_stream c k s l K F -> no_data l ->
  Stream.remaining_data_len s = Some (len (Data.data frame)) ->
  0 <= n <= FlowControl.available (Stream.send_flow s) -> n <= max ->
  spends (fits max) cost c (SendPoll.take_data k n frame).
Proof.
  intros [Hs Hb Hl] Hnd Hr Hn Hmax. apply spends_sound. intros Hsd. pose proof Hs as [Hs0 Hid]%lookup_some.
  assert (solvent s) as Hsol by (eapply sound_solvent; done).
  unfold spends, SendPoll.take_data, bind, Ctx.modify_m, Store.index. rewrite Hs. cbn [unwrap obind].
  destruct (Z.leb_spec n (Stream.connection_window_allocated s)) as [Hal|]; [|done]. cbn [assert obind].
  rewrite Hr. destruct (_ <=? _); [|done]. cbn [assert obind].
  set (rem := if _ >? 0 then _ else _).
  change (s <| Stream.send_flow ::= _ |> <| Stream.connection_window_allocated ::= _ |> <| Stream.remaining_data_len := _ |>)
    with (taken s n rem).
  destruct (taken_spec s n rem Hsol Hn Hal) as [Hsol' Hh].
  set (c1 := c <| Ctx.store ::= _ |>).
  assert (bodies K F c1) as Hb1.
  { apply (put_bodies K F c k s); [done|done| |done]. rewrite Hl. by apply no_data_ok. }
  assert (sound c1) as Hsd1.
  { split; [|by exists K, F]. apply (put_funds c k s); [done..|]. apply Hsd. }
  assert (Store.lookup (Ctx.store c1) k = Some (taken s n rem)) as Hs1.
  { unfold c1. record. rewrite (lookup_put_eq _ _ _ s) by done. by rewrite decide_True. }
  unfold lift. rewrite ensures_obind. intros [[data rest] c2] Hsp.
  destruct (SendPoll.split_to _ n) as [[d r]|] eqn:Hsplit; [|done]. injection Hsp as -> -> <-.
  destruct (split_to_spec _ n ltac:(lia) _ Hsplit) as [Hd Hrest].
  unfold Ctx.stream, Store.index. rewrite Hs1. cbn [unwrap obind].
  unfold Data.new. destruct (negb _); [|done]. cbn [assert obind].
  set (d0 := Data.mk _ _ _ _). eapply ensures_bind.
  { apply (set_data_frame_eos_poorer c1 k d0). intros x [= <-] _.
    exists (taken s n rem), l, K, F. split_and!; [done|done|]. intros m. unfold taken. record.
    unfold rem. destruct (_ >? 0); [|done]. intros [= <-]. cbn. by rewrite Hrest. }
  intros [d1 c3] (Hp & Hdata & Hstream). apply ensures_Done. intros _. destruct (Hp Hsd1) as [Hsd3 Hle].
  assert (Stream.id (taken s n rem) = Stream.id s) as Hids by done.
  split_and!; [done| |].
  - intros x [= <-]. unfold fits_frame. cbn. rewrite Hdata. cbn. lia.
  - intros a. specialize (Hle a). unfold c1 in Hle. rewrite (put_credit c k s), Hh in Hle by done.
    cbn [cost from_option octets]. rewrite Hdata, Hstream. unfold d0. cbn [Data.data Data.stream_id].
    rewrite Hids, Hd. destruct a; lia.
Qed.

(** ** What the loop pops *)

Lemma spends_after {A B} ok cost c (m : M Ctx.t A) (k : A -> M Ctx.t B) (P : A -> Ctx.t -> Prop) :
  ensures (m c) (fun '(x, c') => poorer c c' /\ P x c') ->
  (forall x c', P x c' -> spends ok cost c' (k x)) -> spends ok cost c (bind m k).
Proof.
  intros Hm Hk. apply spends_free.
  - eapply ensures_mono; [exact Hm|]. by intros [x c'] [? _].
  - intros x c' He. apply Hk. by apply (Hm _ He).
Qed.

Lemma spends_gets {A B} ok cost c (f : Ctx.t -> A) (k : A -> M Ctx.t B) :
  spends ok cost c (k (f c)) -> spends ok cost c (bind (gets f) k).
Proof. done. Qed.

Lemma spends_lift {A B} ok cost c (o : outcome A) (k : A -> M Ctx.t B) :
  (forall x, o = Done x -> spends ok cost c (k x)) -> spends ok cost c (bind (lift o) k).
Proof. intros Hk. unfold spends, bind, lift. destruct o as [x|]; [|done]. by apply Hk. Qed.

(** Nothing is returned: whatever was done is free. *)
Lemma spends_none max c (m : M Ctx.t unit) :
  keeps poorer c m -> spends (fits max) cost c (m;* ret None).
Proof. intros Hm. apply spends_free; [done|]. intros x c' _. by apply spends_ret. Qed.

Lemma modify_eq c k s f :
  Store.lookup (Ctx.store c) k = Some s ->
  Ctx.modify k f c = Done (tt, c <| Ctx.store ::= (fun st => Store.put st k (f s)) |>).
Proof. intros Hs. unfold Ctx.modify, Store.modify, Store.index. by rewrite Hs. Qed.

Lemma at_stream_send c k s l K F f : at_stream c k s l K F -> at_stream (c <| Ctx.send ::= f |>) k s l K F.
Proof. intros [Hs Hb Hl]. split; [done| |done]. by apply (store_bodies K F c). Qed.

(** Putting the frame back. *)
Lemma put_back_poorer c k s l K F d :
  at_stream c k s l K F -> no_data l ->
  (forall n, Stream.remaining_data_len s = Some n -> n = len (Data.data d)) ->
  keeps poorer c (Ctx.push_front k (Frame.Data d)).
Proof. intros Hat Hl Hn. eapply push_front_poorer; [exact Hat|]. by apply body_ok_data. Qed.

Lemma empty_data_spends max c k s l K F frame spa :
  0 <= max -> at_stream c k s l K F -> no_data l -> len (Data.data frame) = 0 ->
  spends (fits max) cost c
    (Ctx.modify k (fun s => s <| Stream.remaining_data_len := None |>);*
     match spa with
     | Some t =>
         modifies (fun c => c <| Ctx.send ::= (fun snd =>
           snd <| Send.spa_tracker := Some (SpaTracker.add_pending_spa t (Stream.id s)) |>) |>);*
         Ctx.push_front k (Frame.Data frame);*
         ret None
     | None =>
         let* frame := SendPoll.set_data_frame_eos k frame None in
         ret (Some (Frame.Data frame))
     end).
Proof.
  intros Hmax [Hs Hb Hl] Hnd He. set (s' := s <| Stream.remaining_data_len := None |>).
  eapply (spends_after _ _ _ _ _ (fun _ c' => at_stream c' k s' l K F)).
  { rewrite (modify_eq c k s) by done. apply ensures_Done. split.
    - apply (clear_body_poorer c k (tt, _)). by rewrite (modify_eq c k s).
    - split; [|apply (put_bodies K F c k s); [done|done| |done]; rewrite Hl; by apply no_data_ok|done].
      record. rewrite (lookup_put_eq _ _ _ s) by done. by rewrite decide_True. }
  intros _ c1 Hat. destruct spa as [t|].
  - apply spends_free; [poor|]. intros x c2 [= _ <-]. apply spends_none.
    by eapply put_back_poorer; [apply at_stream_send|..].
  - eapply spends_after.
    + eapply ensures_mono; [by apply (set_data_frame_eos_poorer c1 k frame None)|].
      intros [d c2] (Hp & Hd & _). split; [exact Hp|]. exact Hd.
    + intros d c2 Hd. cbn in Hd. apply spends_ret.
      * intros x [= <-]. unfold fits_frame. cbn. rewrite Hd. lia.
      * intros a. cbn. destruct a; cbn; rewrite ?Hd; [destruct (_ =? _)|]; lia.
Qed.

Lemma pop_data_frame_spends max c k frame :
  0 <= max -> (sound c -> holding c k (Some (Frame.Data frame))) ->
  spends (fits max) cost c (SendPoll.pop_data_frame k max frame).
Proof.
  intros Hmax Hhold. apply spends_sound. intros Hsd.
  destruct (Hhold Hsd) as (s & l & K & F & Hat & Hnd & Hn). unfold SendPoll.pop_data_frame.
  apply stream_spends. intros s0 Hs0. rewrite (at_lookup _ _ _ _ _ _ Hat) in Hs0. injection Hs0 as <-.
  apply spends_gets. set (spa := Send.spa_tracker _).
  destruct (Stream.remaining_data_len s) as [rem|] eqn:Hrem; [|by apply spends_ret].
  specialize (Hn rem eq_refl). destruct (Z.eqb_spec rem 0) as [->|Hrem0].
  { by apply (empty_data_spends max c k s l K F frame spa). }
  cbv zeta. destruct (_ && _).
  { eapply (spends_after _ _ _ _ _ (fun _ c' => at_stream c' k s l K F)).
    - destruct spa; apply ensures_Done; (split; [|by try apply at_stream_send]); [|done].
      by apply set_send_poorer.
    - intros _ c1 Hat1. apply spends_none. eapply put_back_poorer; [done..|]. intros n. rewrite Hrem. congruence. }
  set (avail := FlowControl.available _).
  assert (0 <= avail) as Hav by apply available_nonneg.
  eapply spends_after; [apply (try_allocate_spec c k s rem avail); [apply Hat|done]|].
  intros b c1 (n & Hs1 & Hb1). set (s1 := s <| Stream.connection_window_allocated := n |>) in *.
  assert (at_stream c1 k s1 l K F) as Hat1 by (destruct Hat; split; auto).
  destruct b; cbn [negb].
  - apply stream_spends. intros s2 Hs2. rewrite Hs1 in Hs2. injection Hs2 as <-.
    apply spends_lift. intros length Hlen.
    change (Stream.connection_window_allocated s1) with n in Hlen. apply spends_sound. intros Hsd1.
    pose proof (sound_solvent _ _ _ Hsd1 Hs1) as [Hal _]. change (0 <= n) in Hal.
    pose proof (as_u32_nonneg (Z.min rem max)).
    assert (as_u32 (Z.min rem max) <= max) as Hu.
    { unfold as_u32, wrap_u32. etrans; [apply Z.mod_le|]; unfold len in Hn; lia. }
    eapply (take_data_spends max c1 k s1); [exact Hat1|done|by rewrite <-Hn|..].
    + change (FlowControl.available (Stream.send_flow s1)) with avail. revert Hlen.
      destruct (Send.unwrap_or _ _); [|intros [= <-]; lia].
      destruct (_ >=? 1) eqn:Hge; [|done]. intros [= <-]. lia.
    + revert Hlen. destruct (Send.unwrap_or _ _); [|intros [= <-]; lia].
      destruct (_ >=? 1) eqn:Hge; [|done]. intros [= <-]. lia.
  - apply spends_free.
    + eapply put_back_poorer; [done..|]. intros m Hm. cbn in Hm. change (Stream.remaining_data_len s = Some m) in Hm. congruence.
    + intros _ c2 _. apply spends_none. poor.
Qed.

Lemma next_frame_spends max c k b : 0 <= max -> spends (fits max) cost c (SendPoll.next_frame k max b).
Proof.
  intros Hmax. unfold SendPoll.next_frame. apply spends_sound. intros Hsd.
  eapply (spends_after _ _ _ _ _ (fun f c' => holding c' k f)).
  { eapply ensures_mono; [apply pop_front_poorer|]. intros [f c1] [Hp Hh]. split; [exact Hp|by apply Hh]. }
  assert (forall c (f : Frame.t), is_data f = false -> spends (fits max) cost c (ret (Some f))) as Hfree.
  { intros c' f Hf. apply spends_ret.
    - intros x [= <-]. unfold fits_frame. by destruct f.
    - intros a. cbn. by destruct f. }
  intros [f|] c1 Hh; [destruct f|]; try (by apply Hfree).
  - by apply pop_data_frame_spends.
  - apply stream_spends. intros s Hs. apply spends_free; [destruct (Stream.remaining_data_len s); poor|].
    intros _ c2 _. apply stream_spends. intros s2 Hs2.
    apply spends_free; [destruct (Stream.is_sending_trailer s2); poor|]. intros _ c3 _. by apply Hfree.
  - apply stream_spends. intros s Hs. destruct (State.get_scheduled_reset _).
    + apply spends_free; [poor|intros; by apply Hfree].
    + apply spends_lift. intros _ _. apply spends_none. poor.
Qed.

Lemma requeue_poorer c k : keeps poorer c (SendPoll.requeue k).
Proof. unfold SendPoll.requeue. poor. Qed.
#[local] Hint Resolve requeue_poorer : keeps.

Lemma spends_loop {A} ok cost fuel c (body : M Ctx.t (option A)) :
  (forall c, spends (fun r => forall x, r = Some x -> ok x) (fun a r => from_option (cost a) 0 r) c body) ->
  spends ok cost c (loop fuel body).
Proof.
  intros Hb. revert c. induction fuel as [|fuel IH]; intros c; cbn [loop]; [by intros ?|].
  eapply spends_then; [apply Hb|]. intros [x|] c' Hok; cbn in *.
  - apply spends_ret; [by apply Hok|]. intros a. lia.
  - intros [y c2] Hy Hs. destruct (IH c' _ Hy Hs) as (? & ? & Hle). split_and!; [done..|].
    intros a. specialize (Hle a). lia.
Qed.

Lemma pop_frame_spends max c : 0 <= max -> spends (fits max) cost c (SendPoll.pop_frame max).
Proof.
  intros Hmax. unfold SendPoll.pop_frame. apply spends_gets, spends_loop. clear c. intros c.
  unfold SendPoll.pop_round. apply spends_free; [poor|]. intros [k|] c1 _; [|by apply spends_ret; [intros ? [= <-]|]].
  apply stream_spends. intros s Hs. cbv zeta. apply spends_free; [poor|]. intros _ c2 _.
  eapply spends_then; [by apply next_frame_spends|]. intros [f|] c3 Hok.
  - apply spends_free; [poor|]. intros _ c4 _. apply spends_free; [poor|]. intros _ c5 _.
    apply spends_ret; [by intros x [= <-]|]. intros a. cbn. lia.
  - apply spends_ret; [done|]. intros a. cbn. lia.
Qed.

Lemma pop_pending_open_poorer c : keeps poorer c SendPoll.pop_pending_open.
Proof.
  unfold SendPoll.pop_pending_open. poor.
  eapply ensures_bind; [apply (inc_num_send_streams_evolves steady)|]. intros [cs st] [_ Hst].
  by apply ensures_Done, poorer_store.
Qed.

(** ** The sending loop *)

Context `{S : !FrameSink} `{!FrameSinkLaws S}.

(** What the codec was handed, and what it cost. *)
Record handed (max : Z) c (dst : sink) c' (dst' : sink) (fs : list Frame.t) : Prop := {
  handed_frames : sink_frames dst' = sink_frames dst ++ fs;
  handed_fit : Forall (fits_frame max) fs;
  handed_paid a : foldr Z.add 0 (octets a <$> fs) + credit a c' <= credit a c;
  handed_sound : sound c'
}.

Lemma poll_complete_loop_handed fuel max c dst :
  0 <= max ->
  ensures (SendPoll.poll_complete_loop fuel max c dst) (fun '(_, c', dst') =>
    sound c -> exists fs, handed max c dst c' dst' fs).
Proof.
  intros Hmax. revert c dst. induction fuel as [|fuel IH]; intros c dst; cbn [SendPoll.poll_complete_loop]; [done|].
  eapply ensures_bind; [apply pop_pending_open_poorer|]. intros [opened c1] Hc1.
  eapply (ensures_bind _ _ (fun '(_, c2) => poorer c1 c2)).
  { destruct opened as [k|]; [|by apply ensures_Done].
    change (keeps poorer c1 (Ctx.queue_push_front NextSend Send.pending_send k)). poor. }
  intros [_ c2] Hc2. assert (poorer c c2) as Hpoor by (etrans; [exact Hc1|exact Hc2]).
  eapply ensures_bind; [by apply pop_frame_spends|]. intros [frame c3] Hc3.
  destruct frame as [frame|]; cycle 1.
  { destruct (flush dst) as [r dst'] eqn:Hfl. apply ensures_Done. intros Hs.
    destruct (Hpoor Hs) as [Hs2 Hle]. destruct (Hc3 Hs2) as (Hs3 & _ & Hle3).
    exists []. split; [|done| |done].
    - pose proof (flush_frames dst) as Hf. rewrite Hfl in Hf. cbn in Hf. by rewrite Hf, app_nil_r.
    - intros a. specialize (Hle a). specialize (Hle3 a). cbn in *. lia. }
  apply ensures_obind; intros [r d1] Hbuf. apply ensures_obind; intros v Hok.
  destruct r as [[]|]; [|done]. clear Hok. pose proof (sink_buffer_accepted _ _ _ Hbuf) as Hd1.
  pose proof (poll_ready_frames d1) as Hready. destruct (poll_ready d1) as [ready d2]. cbn in Hready.
  assert (sound c -> handed max c dst c3 d2 [frame]) as Hone.
  { intros Hs. destruct (Hpoor Hs) as [Hs2 Hle]. destruct (Hc3 Hs2) as (Hs3 & Hfit & Hle3).
    split; [by rewrite Hready|by constructor; [apply Hfit|]| |done].
    intros a. specialize (Hle a). specialize (Hle3 a). cbn in *. lia. }
  destruct ready as [[u|e]|]; try (by apply ensures_Done; eauto).
  eapply ensures_mono; [apply IH|]. intros [[r c4] d4] Hrec Hs. destruct (Hone Hs) as [Hf1 Hf2 Hf3 Hf4].
  destruct (Hrec Hf4) as (fs & [Hg1 Hg2 Hg3 Hg4]). exists (frame :: fs). split; [| |intros a|done].
  - by rewrite Hg1, Hf1, <-app_assoc.
  - apply Forall_cons in Hf2 as [? _]. by constructor.
  - specialize (Hf3 a). specialize (Hg3 a). cbn in *. lia.
Qed.

Lemma credit_nonneg a c : funds c -> 0 <= credit a c.
Proof.
  intros Hf. unfold credit. assert (0 <= base a c) by (destruct a; [done|apply Hf]).
  assert (0 <= total (held a (Ctx.store c))); [|lia].
  apply total_nonneg. intros i n. by apply held_nonneg.
Qed.


End credit.
