(* ===== verification/SendKept.v ===== *)
(** * The sending side keeps its contract with the streams

    Every operation of [Send] only evolves its world: identifiers, states and windows
    of streams change by the steps of [moved], and nothing else does.  One lemma per
    operation; each is found by the hint database [kept]. *)

From S2P Require Import Prelude Effects FrameBase ControlFrames SettingsFrame DataFrame HpackHeader.
From S2P Require Import HeadersFrame ProtoErrors FramedRead FrameSink ProtoHandlers StreamState.
From S2P Require Import FlowWindow SlabLib FrameBuffer StreamRec StreamStore StreamStoreFacts.
From S2P Require Import StreamQueue Spa StreamCounts Evolve Send SendOps SendPoll.

(** A field of [Send] that is a queue. *)
Class QueueField (q : Send.t -> queue) `{!Update q} : Prop := {
  qf_flow s f : Send.flow (upd q f s) = Send.flow s;
  qf_next s f : Send.next_stream_id (upd q f s) = Send.next_stream_id s;
  qf_max s f : Send.max_stream_id (upd q f s) = Send.max_stream_id s
}.
#[export] Hint Extern 2 (QueueField _) => solve [by split] : typeclass_instances.

Section kept.
Context `{HeaderPlz} `{HeaderMapOps} `{Hsl : SlabOps} `{!SlabLaws Hsl} `{Him : IndexMapOps}.

Implicit Types (c : Ctx.t) (k : Key.t) (s : Stream.t).

#[export] Instance ctx_world : World Ctx.t := {|
  store_of := Ctx.store;
  flows_of c := [Send.flow (Ctx.send c)];
  frame_of c := (Counts.role (Ctx.counts c),
                 [Send.next_stream_id (Ctx.send c); Ok (Send.max_stream_id (Ctx.send c))])
|}.

(** ** The primitives *)

Lemma ctx_store_evolves c st :
  store_evolves (Ctx.store c) st -> evolves c (c <| Ctx.store := st |>).
Proof. by split. Qed.

(** Settings of [Send] that are not part of the contract. *)
Lemma set_send_evolves c (f : Send.t -> Send.t) :
  (forall snd, Send.flow (f snd) = Send.flow snd /\
     Send.next_stream_id (f snd) = Send.next_stream_id snd /\
     Send.max_stream_id (f snd) = Send.max_stream_id snd) ->
  evolves c (c <| Ctx.send ::= f |>).
Proof.
  intros Hf. destruct (Hf (Ctx.send c)) as (Hfl & Hn & Hm).
  split; [done|..]; record; by rewrite ?Hfl, ?Hn, ?Hm.
Qed.

Lemma dec_conn_window_evolves c sz :
  evolves c (c <| Ctx.send ::= (fun snd =>
    snd <| Send.flow ::= (fun f => (FlowControl.dec_window f sz).2) |>) |>).
Proof. split; [done| |done]. constructor; [|done]. apply rtc_once. constructor. Qed.

Lemma ctx_stream_kept {A} c k (f : Stream.t -> M Ctx.t A) :
  (forall s, Store.lookup (Ctx.store c) k = Some s -> kept c (f s)) ->
  kept c (bind (Ctx.stream k) f).
Proof.
  intros Hf. unfold keeps, bind, Ctx.stream, Store.index.
  destruct (Store.lookup (Ctx.store c) k) as [s|] eqn:Hs; [|done]. by apply Hf.
Qed.

Lemma ctx_modify_kept c k f :
  (forall s, Store.lookup (Ctx.store c) k = Some s -> moved s (f s)) -> kept c (Ctx.modify k f).
Proof.
  intros Hf. unfold keeps, Ctx.modify. eapply ensures_bind; [by apply (modify_evolves moved)|].
  intros st He. apply ensures_Done. by apply ctx_store_evolves.
Qed.

Lemma ctx_modify_m_kept c k f :
  (forall s, Store.lookup (Ctx.store c) k = Some s -> ensures (f s) (moved s)) ->
  kept c (Ctx.modify_m k f).
Proof.
  intros Hf. apply ensures_obind; intros s Hs.
  eapply ensures_bind; [by apply Hf, lookup_of_index|]. intros s' Hm.
  apply ensures_Done, ctx_store_evolves. by eapply (index_put_evolves moved).
Qed.

(** The state computed from what was just read. *)
Lemma ctx_set_state_kept c k s o st :
  Store.lookup (Ctx.store c) k = Some s -> State.apply o (Stream.state s) = Some st ->
  kept c (Ctx.modify k (fun s => s <| Stream.state := st |>)).
Proof.
  intros Hs Ho. apply ctx_modify_kept. intros s' Hs'. rewrite Hs in Hs'. injection Hs' as <-.
  eapply moved_by; [exact Ho|]. by apply moved_same.
Qed.

Lemma ctx_set_send_flow_kept c k s f :
  Store.lookup (Ctx.store c) k = Some s -> flow_step (Stream.send_flow s) f ->
  kept c (Ctx.modify k (fun s => s <| Stream.send_flow := f |>)).
Proof.
  intros Hs Hf. apply ctx_modify_kept. intros s' Hs'. rewrite Hs in Hs'. injection Hs' as <-.
  eapply moved_send_flow; [exact Hf|]. by apply moved_same.
Qed.

Lemma ctx_transition_after_kept c k b : kept c (Ctx.transition_after k b).
Proof.
  eapply ensures_bind; [apply (transition_after_evolves moved)|]. intros [cs st] [Hr He].
  apply ensures_Done. split; [done|done|]. record. by rewrite Hr.
Qed.

Section queue.
Context (N : Next) `{!NextLaws N} `{!Bookkeeping moved N} (q : Send.t -> queue) `{!Update q} `{!QueueField q}.

Lemma ctx_queue_evolves c st x :
  store_evolves (Ctx.store c) st ->
  evolves c (c <| Ctx.store := st |> <| Ctx.send ::= upd q (fun _ => x) |>).
Proof.
  intros He. set (c' := c <| Ctx.store := st |> <| Ctx.send ::= _ |>).
  assert (Ctx.send c' = upd q (fun _ => x) (Ctx.send c)) as Hs by done.
  split; [done|..]; unfold flows_of, frame_of, ctx_world; by rewrite Hs, ?qf_flow, ?qf_next, ?qf_max.
Qed.

Lemma ctx_queue_push_kept c k : kept c (Ctx.queue_push N q k).
Proof.
  eapply ensures_bind; [by apply (queue_push_evolves moved)|]. intros [[b x] st] He.
  by apply ensures_Done, ctx_queue_evolves.
Qed.

Lemma ctx_queue_push_front_kept c k : kept c (Ctx.queue_push_front N q k).
Proof.
  eapply ensures_bind; [by apply (queue_push_front_evolves moved)|]. intros [[b x] st] He.
  by apply ensures_Done, ctx_queue_evolves.
Qed.

Lemma ctx_queue_pop_kept c : kept c (Ctx.queue_pop N q).
Proof.
  eapply ensures_bind; [by apply (queue_pop_evolves moved)|]. intros [[b x] st] He.
  by apply ensures_Done, ctx_queue_evolves.
Qed.

End queue.

Lemma ctx_push_back_kept c k f : kept c (Ctx.push_back k f).
Proof.
  apply ensures_obind; intros s Hs. apply ensures_obind; intros [d buf] _. apply ensures_Done.
  split; [|done..]. eapply (index_put_evolves moved); [done|moved].
Qed.

Lemma ctx_push_front_kept c k f : kept c (Ctx.push_front k f).
Proof.
  apply ensures_obind; intros s Hs. apply ensures_obind; intros [d buf] _. apply ensures_Done.
  split; [|done..]. eapply (index_put_evolves moved); [done|moved].
Qed.

Lemma ctx_pop_front_kept c k : kept c (Ctx.pop_front k).
Proof.
  apply ensures_obind; intros s Hs. apply ensures_obind; intros [[f d] buf] _. apply ensures_Done.
  split; [|done..]. eapply (index_put_evolves moved); [done|moved].
Qed.

Lemma ctx_wake_kept c : kept c Ctx.wake.
Proof. by apply keeps_modifies. Qed.

End kept.

#[export] Hint Resolve ctx_transition_after_kept ctx_push_back_kept ctx_push_front_kept
  ctx_pop_front_kept ctx_wake_kept : keeps.
#[export] Hint Extern 2 (kept _ (Ctx.queue_push _ _ _)) => apply ctx_queue_push_kept; typeclasses eauto : keeps.
#[export] Hint Extern 2 (kept _ (Ctx.queue_push_front _ _ _)) =>
  apply ctx_queue_push_front_kept; typeclasses eauto : keeps.
#[export] Hint Extern 2 (kept _ (Ctx.queue_pop _ _)) => apply ctx_queue_pop_kept; typeclasses eauto : keeps.
#[export] Hint Extern 1 (kept _ (Ctx.modify _ (fun s => s <| Stream.state := _ |>))) =>
  eapply ctx_set_state_kept; [eassumption|by eauto with moved] : keeps.
#[export] Hint Extern 1 (kept _ (Ctx.modify _ (fun s => s <| Stream.send_flow := _ |>))) =>
  eapply ctx_set_send_flow_kept; [eassumption|by eauto with moved] : keeps.
#[export] Hint Extern 1 (evolves _ (_ <| Ctx.send ::= _ |>)) =>
  apply set_send_evolves; intros; repeat case_match; by split_and! : keeps.
#[export] Hint Extern 2 (kept _ (Ctx.modify _ _)) => apply ctx_modify_kept; intros; moved : keeps.

(** Programs over [Ctx]: read, step, or find the lemma of the operation. *)
Ltac send_step :=
  first
  [ lazymatch goal with
    | |- keeps _ _ (bind (Ctx.stream _) _) => apply ctx_stream_kept; intros ? ?
    | |- keeps _ _ (bind Ctx.streams_fuel _) => apply keeps_gets
    | |- keeps _ _ (bind Ctx.frames_fuel _) => apply keeps_gets
    end
  | keeps_step
  | solve [eauto with keeps]
  | lazymatch goal with
    | |- keeps _ _ (bind _ _) => kbind; [|intros ? ? _]
    end ].
Ltac send_kept := repeat send_step.

Section ops.
Context `{HeaderPlz} `{HeaderMapOps} `{Hsl : SlabOps} `{!SlabLaws Hsl} `{Him : IndexMapOps}.

Implicit Types (c : Ctx.t) (k : Key.t) (s : Stream.t).

Lemma ctx_transition_kept {U} c k (f : M Ctx.t U) : kept c f -> kept c (Ctx.transition k f).
Proof. intros Hf. unfold Ctx.transition. send_kept. Qed.

Lemma ctx_try_for_each_kept {E} c (f : Key.t -> M Ctx.t (result unit E)) :
  (forall c k, kept c (f k)) -> kept c (Ctx.try_for_each f).
Proof.
  intros Hf. unfold keeps, Ctx.try_for_each.
  eapply ensures_bind;
    [apply (try_for_each_evolves _ (fun c st c' st' =>
       evolves (c <| Ctx.store := st |>) (c' <| Ctx.store := st' |>)))|].
  - done.
  - intros. by etrans.
  - intros c1 st k. eapply ensures_bind; [apply Hf|]. intros [r c2] He.
    apply ensures_Done. by destruct c2.
  - intros [[r c'] st'] He. apply ensures_Done. by destruct c.
Qed.

(** ** The operations of [SendOps] *)

Lemma dec_conn_window_kept c sz : kept c (SendOps.dec_conn_window sz).
Proof. apply keeps_modifies, dec_conn_window_evolves. Qed.
#[local] Hint Resolve dec_conn_window_kept : keeps.

Lemma schedule_send_kept c k : kept c (SendOps.schedule_send k).
Proof. unfold SendOps.schedule_send. send_kept. Qed.
#[local] Hint Resolve schedule_send_kept : keeps.

Lemma queue_frame_kept c f k : kept c (SendOps.queue_frame f k).
Proof. unfold SendOps.queue_frame. send_kept. Qed.

Lemma try_assign_capacity_kept c k : kept c (SendOps.try_assign_capacity k).
Proof. unfold SendOps.try_assign_capacity. cbv zeta. send_kept. Qed.
#[local] Hint Resolve queue_frame_kept try_assign_capacity_kept : keeps.

Lemma assign_connection_capacity_kept c : kept c SendOps.assign_connection_capacity.
Proof.
  unfold SendOps.assign_connection_capacity, SendOps.assign_round. send_kept.
  apply ctx_transition_kept. send_kept.
Qed.
#[local] Hint Resolve assign_connection_capacity_kept : keeps.

Lemma recv_connection_window_update_kept c inc : kept c (SendOps.recv_connection_window_update inc).
Proof.
  unfold SendOps.recv_connection_window_update. kbind; [|intros; send_kept].
  unfold keeps. destruct (FlowControl.inc_window _ _) as [r f] eqn:Hf. apply ensures_Done.
  split; [done| |done]. constructor; [|done]. apply rtc_once. by eapply flow_inc_eq.
Qed.
#[local] Hint Resolve recv_connection_window_update_kept : keeps.

Lemma reclaim_all_capacity_kept c k : kept c (SendOps.reclaim_all_capacity k).
Proof. unfold SendOps.reclaim_all_capacity. cbv zeta. send_kept. Qed.

Lemma clear_stream_queue_kept c k : kept c (SendOps.clear_stream_queue k).
Proof. unfold SendOps.clear_stream_queue, SendOps.drop_frames. send_kept. Qed.
#[local] Hint Resolve reclaim_all_capacity_kept clear_stream_queue_kept : keeps.

Lemma send_headers_kept c frame k : kept c (SendOps.send_headers frame k).
Proof. unfold SendOps.send_headers. cbv zeta. send_kept. Qed.

Lemma send_reset_kept c reason initiator k : kept c (SendOps.send_reset reason initiator k).
Proof. unfold SendOps.send_reset. cbv zeta. send_kept. Qed.

Lemma set_scheduled_reset_kept c k reason :
  kept c (Ctx.modify_m k (fun s =>
    let! st := State.set_scheduled_reset (Stream.state s) reason in
    Done (s <| Stream.state := st |>))).
Proof.
  apply ctx_modify_m_kept. intros s _. apply ensures_obind; intros st Ho. apply ensures_Done.
  eapply moved_by; [by eauto with moved|]. by apply moved_same.
Qed.

Lemma send_close_kept c k :
  kept c (Ctx.modify_m k (fun s =>
    let! st := State.send_close (Stream.state s) in Done (s <| Stream.state := st |>))).
Proof.
  apply ctx_modify_m_kept. intros s _. apply ensures_obind; intros st Ho. apply ensures_Done.
  eapply moved_by; [by eauto with moved|]. by apply moved_same.
Qed.
#[local] Hint Resolve send_headers_kept send_reset_kept set_scheduled_reset_kept send_close_kept : keeps.

Lemma schedule_implicit_reset_kept c k reason : kept c (SendOps.schedule_implicit_reset k reason).
Proof. unfold SendOps.schedule_implicit_reset. send_kept. Qed.

Lemma handle_error_kept c k : kept c (SendOps.handle_error k).
Proof. unfold SendOps.handle_error. send_kept. Qed.

Lemma recv_stream_window_update_kept c sz k : kept c (SendOps.recv_stream_window_update sz k).
Proof. unfold SendOps.recv_stream_window_update. send_kept. Qed.
#[local] Hint Resolve recv_stream_window_update_kept : keeps.

Lemma lower_window_evolves dec x st k :
  ensures (SendOps.lower_window dec x st k) (fun '(_, _, st') => store_evolves st st').
Proof.
  unfold SendOps.lower_window. apply ensures_obind; intros s Hs.
  destruct (State.is_send_closed _); [by apply ensures_Done|].
  destruct (FlowControl.dec_window _ _) as [[u|e] f] eqn:Hf;
    [|apply ensures_Done; eapply (index_put_evolves moved); [done|moved]].
  destruct (_ >? _); [apply ensures_obind; intros ? _|];
    apply ensures_Done; (eapply (index_put_evolves moved); [done|moved]).
Qed.

Lemma apply_initial_window_size_kept c old new : kept c (SendOps.apply_initial_window_size old new).
Proof.
  unfold SendOps.apply_initial_window_size. destruct (new ?= old); [by send_kept| |].
  - kbind; [|intros; send_kept]. eapply ensures_bind.
    + apply (try_for_each_evolves _ (fun _ st _ st' => store_evolves st st'));
        [done|intros; by etrans|intros; apply lower_window_evolves].
    + intros [[r x] st] He. by apply ensures_Done, ctx_store_evolves.
  - apply ctx_try_for_each_kept. intros. send_kept.
Qed.
#[local] Hint Resolve apply_initial_window_size_kept : keeps.

Lemma apply_remote_settings_kept c settings : kept c (SendOps.apply_remote_settings settings).
Proof.
  unfold SendOps.apply_remote_settings. send_kept.
Qed.

Lemma clear_queues_kept c : kept c SendOps.clear_queues.
Proof.
  unfold SendOps.clear_queues, SendOps.clear_pending_capacity, SendOps.clear_pending_send,
    SendOps.clear_pending_open. send_kept. apply ctx_transition_kept. send_kept.
Qed.

End ops.

#[export] Hint Resolve dec_conn_window_kept schedule_send_kept queue_frame_kept
  try_assign_capacity_kept recv_connection_window_update_kept reclaim_all_capacity_kept
  clear_stream_queue_kept send_headers_kept send_reset_kept schedule_implicit_reset_kept
  handle_error_kept recv_stream_window_update_kept apply_remote_settings_kept clear_queues_kept
  send_close_kept : keeps.

(** ** Popping frames *)

Section poll.
Context `{HeaderPlz} `{HeaderMapOps} `{Hsl : SlabOps} `{!SlabLaws Hsl} `{Him : IndexMapOps}.

Implicit Types (c : Ctx.t) (k : Key.t) (s : Stream.t).

Lemma pop_pending_open_kept c : kept c SendPoll.pop_pending_open.
Proof.
  unfold SendPoll.pop_pending_open. send_kept.
  eapply ensures_bind; [apply (inc_num_send_streams_evolves moved)|]. intros [cs st] [Hr He].
  apply ensures_Done. split; [done|done|]. record. by rewrite Hr.
Qed.

Lemma set_data_frame_eos_kept c k d o : kept c (SendPoll.set_data_frame_eos k d o).
Proof. unfold SendPoll.set_data_frame_eos. send_kept. Qed.
#[local] Hint Resolve set_data_frame_eos_kept : keeps.

Lemma try_allocate_stream_flow_kept c k rem available :
  kept c (SendPoll.try_allocate_stream_flow k rem available).
Proof. unfold SendPoll.try_allocate_stream_flow. cbv zeta. send_kept. Qed.

Lemma take_data_kept c k length frame : kept c (SendPoll.take_data k length frame).
Proof.
  unfold SendPoll.take_data. kbind; [|intros; send_kept].
  apply ctx_modify_m_kept. intros s _. repeat (apply ensures_obind; intros ? _).
  apply ensures_Done. moved.
Qed.
#[local] Hint Resolve try_allocate_stream_flow_kept take_data_kept : keeps.

Lemma pop_data_frame_kept c k max frame : kept c (SendPoll.pop_data_frame k max frame).
Proof.
  unfold SendPoll.pop_data_frame. send_kept.
Qed.
#[local] Hint Resolve pop_data_frame_kept : keeps.

Lemma next_frame_kept c k max b : kept c (SendPoll.next_frame k max b).
Proof. unfold SendPoll.next_frame. send_kept. Qed.
#[local] Hint Resolve next_frame_kept : keeps.

Lemma requeue_kept c k : kept c (SendPoll.requeue k).
Proof. unfold SendPoll.requeue. send_kept. Qed.
#[local] Hint Resolve requeue_kept : keeps.

Lemma pop_frame_kept c max : kept c (SendPoll.pop_frame max).
Proof. unfold SendPoll.pop_frame, SendPoll.pop_round. cbv zeta. send_kept. Qed.

(** ** The loops over the codec *)

Context `{!FrameSink}.

Lemma poll_complete_loop_evolves fuel max c dst :
  ensures (SendPoll.poll_complete_loop fuel max c dst) (fun '(_, c', _) => evolves c c').
Proof.
  revert c dst. induction fuel as [|fuel IH]; intros c dst; cbn [SendPoll.poll_complete_loop];
    [done|].
  eapply ensures_bind; [apply pop_pending_open_kept|]. intros [opened c1] He1.
  eapply (ensures_bind _ _ (fun '(_, c2) => evolves c1 c2)).
  { destruct opened as [k|]; [|by apply ensures_Done]. exact (ctx_queue_push_front_kept NextSend Send.pending_send c1 k). }
  intros [_ c2] He2. eapply ensures_bind; [apply pop_frame_kept|]. intros [frame c3] He3.
  assert (evolves c c3) as He by (etrans; [exact He1|]; by etrans).
  destruct frame as [frame|]; [|by destruct (flush dst); apply ensures_Done].
  apply ensures_obind; intros [r d] _. apply ensures_obind; intros _ _.
  destruct (poll_ready d) as [[[u|e]|] d']; [|by apply ensures_Done..].
  eapply ensures_mono; [apply IH|]. intros [[? ?] ?] ?. by etrans.
Qed.

Lemma poll_complete_evolves fuel c dst :
  ensures (SendPoll.poll_complete fuel c dst) (fun '(_, c', _) => evolves c c').
Proof.
  unfold SendPoll.poll_complete. destruct (poll_ready dst) as [[[u|e]|] d]; [|by apply ensures_Done..].
  apply poll_complete_loop_evolves.
Qed.

Lemma fill_frame_evolves id st buf dst :
  ensures (SpaTracker.fill_frame id st buf dst) (fun '(st', _, _) => store_evolves st st').
Proof.
  unfold SpaTracker.fill_frame. apply ensures_obind; intros k _. apply ensures_obind; intros s Hs.
  apply ensures_obind; intros [[f d] buf'] _. apply ensures_obind; intros frame _.
  eapply (ensures_bind _ _ (fun '(_, s') => moved s s')).
  - destruct frame; try (apply ensures_Done; moved). apply ensures_obind; intros st' Hst'.
    apply ensures_Done. eapply moved_by; [by eauto with moved|]. by apply moved_same.
  - intros [f' s'] Hm. apply ensures_obind; intros [? ?] _. apply ensures_Done.
    by eapply (index_put_evolves moved).
Qed.

Lemma fill_frames_evolves ids st buf dst :
  ensures (SpaTracker.fill_frames ids st buf dst) (fun '(st', _, _) => store_evolves st st').
Proof.
  revert st buf dst. induction ids as [|id ids IH]; intros st buf dst; cbn; [by apply ensures_Done|].
  eapply ensures_bind; [apply fill_frame_evolves|]. intros [[st' buf'] d] He.
  eapply ensures_mono; [apply IH|]. intros [[? ?] ?] ?. by etrans.
Qed.

Lemma spa_poll_evolves nanos t buf st dst p b :
  ensures (SpaTracker.poll nanos t buf st dst p b) (fun '(_, (_, st', _), _, _, _) =>
    store_evolves st st').
Proof.
  assert (forall d, ensures (SpaTracker.poll_fill_frames t st buf d)
    (fun '(_, (_, st', _), _) => store_evolves st st')) as Hfill.
  { intros d. unfold SpaTracker.poll_fill_frames.
    assert (forall d, ensures
      (let! (store, buf, dst) := SpaTracker.fill_frames
         (SpaTracker.pending_spa (t <| SpaTracker.pending_spa ::= SpaTracker.sort |>)) st buf
         (inc_write_buffer d (len (SpaTracker.pending_spa t) * 10)) in
       let (r, dst) := flush dst in
       Done (r, (t <| SpaTracker.pending_spa ::= SpaTracker.sort |>, store, buf), dst))
      (fun '(_, (_, st', _), _) => store_evolves st st')) as Hf.
    { intros d'. eapply ensures_bind; [apply fill_frames_evolves|]. intros [[? ?] d2] ?.
      by destruct (flush d2); apply ensures_Done. }
    destruct (negb _); [|apply Hf]. destruct (flush d) as [[[?|?]|] ?]; [apply Hf|by apply ensures_Done..]. }
  assert (ensures (let! (r, x, dst) := SpaTracker.poll_fill_frames t st buf dst in
      match r with
      | Ready (Ok _) => Done (Ready (Ok tt), x, dst, p, true)
      | r => Done (r, x, dst, p, false)
      end) (fun '(_, (_, st', _), _, _, _) => store_evolves st st')) as Hrun.
  { eapply ensures_bind; [apply Hfill|]. intros [[r [[? ?] ?]] d] ?.
    destruct r as [[?|?]|]; by apply ensures_Done. }
  unfold SpaTracker.poll.
  destruct (SpaTracker.mode t) as [|[[? []]|]|[] ?]; try exact Hrun; try (by apply ensures_Done).
  destruct b; by apply ensures_Done.
Qed.

Lemma poll_spa_evolves nanos c dst p :
  ensures (SendPoll.poll_spa nanos c dst p) (fun '(_, c', _, _) => evolves c c').
Proof.
  unfold SendPoll.poll_spa. destruct (Send.spa_tracker _) as [t|]; [|by apply ensures_Done].
  destruct (_ || _); [by apply ensures_Done|]. eapply ensures_bind; [apply spa_poll_evolves|].
  intros [[[[r [[t' st] buf]] d] p'] is_done] He.
  assert (evolves c (c <| Ctx.store := st |> <| Ctx.buffer := buf |>
    <| Ctx.send ::= (fun snd => snd <| Send.spa_tracker := if is_done : bool then None else Some t' |>) |>))
    as Hc by (by split).
  destruct r as [[?|?]|]; [|by apply ensures_Done..].
  destruct (flush d); by apply ensures_Done.
Qed.

End poll.
