(* ===== verification/Messages.v ===== *)
(** * Messages and frames

    Models [src/src/message.rs], [Pseudo::request] of [src/src/frame/headers.rs] and
    [convert_poll_message] of [src/src/role.rs]: a request or response becomes a
    HEADERS frame, at most one DATA frame and at most one HEADERS frame of trailers,
    and a received header block becomes a request or a response.  The messages, URIs
    and builders belong to the crates [http-plz] and [header-plz]: the class
    [HttpPlz]. *)

From Stdlib Require Import String.
From S2P Require Import Prelude FrameBase DataFrame HpackHeader HeadersFrame ProtoErrors.

Class HttpPlz `{HeaderPlz} `{HeaderMapOps} : Type := {
  method_CONNECT : PlzMethod;
  method_HEAD : PlzMethod;
  method_OPTIONS : PlzMethod;
  (** The code a status is compared with when it is compared with a [u16]. *)
  status_code : PlzStatus -> Z;
  status_REQUEST_HEADER_FIELDS_TOO_LARGE : PlzStatus;
  Scheme : Type;
  scheme_try_from : bytes -> option Scheme;
  scheme_as_str : Scheme -> bytes;
  scheme_HTTP : Scheme;
  Uri : Type;
  uri_path_and_query : Uri -> bytes;
  uri_scheme : Uri -> option Scheme;
  uri_authority : Uri -> option bytes;
  (** [Uri::builder()] with an authority, a scheme and a path, then [build()]. *)
  uri_build : option bytes -> option Scheme -> option bytes -> option Uri;
  (** Messages, by their first line. *)
  RequestLine : Type;
  request_line_into_parts : RequestLine -> PlzMethod * Uri * option bytes;
  ResponseLine : Type;
  response_line_into_parts : ResponseLine -> PlzStatus;
  Message : Type -> Type;
  take_body {T} : Message T -> option bytes * Message T;
  take_trailers {T} : Message T -> option HeaderMap * Message T;
  into_message_head {T} : Message T -> T * HeaderMap;
  set_body {T} : bytes -> Message T -> Message T;
  set_trailers {T} : HeaderMap -> Message T -> Message T;
  request_method : Message RequestLine -> PlzMethod;
  (** [Request::builder()] with a method, an extension, a URI and headers. *)
  request_build : PlzMethod -> option bytes -> Uri -> HeaderMap -> Message RequestLine;
  response_build : option PlzStatus -> HeaderMap -> option (Message ResponseLine)
}.

Section messages.
Context `{HttpPlz}.

Definition Request : Type := Message RequestLine.
Definition Response : Type := Message ResponseLine.

(** [role::PollMessage] *)
Inductive PollMessage : Type :=
| PollClient (r : Response)
| PollServer (r : Request).

(** ** Pseudo headers of a request *)

Definition pseudo_set_scheme (scheme : Scheme) (p : Pseudo.t) : Pseudo.t :=
  Pseudo.set_scheme (scheme_as_str scheme) p.

Definition pseudo_request (method : PlzMethod) (uri : Uri) (protocol : option Protocol.t) : Pseudo.t :=
  let '(scheme, path) :=
    if bool_decide (method = method_CONNECT) && bool_decide (protocol = None) then (None, None)
    else
      let path := uri_path_and_query uri in
      let path := match path with
                  | [] => if bool_decide (method = method_OPTIONS) then str "*" else str "/"
                  | _ => path
                  end in
      (uri_scheme uri, Some path) in
  let pseudo := Pseudo.mk (Some method) None None path protocol None in
  let pseudo := match scheme with
                | Some scheme => pseudo_set_scheme scheme pseudo
                | None => pseudo
                end in
  match uri_authority uri with
  | Some authority => Pseudo.set_authority authority pseudo
  | None => pseudo
  end.

(** [IntoPseudo] of the two kinds of first line. *)
Definition request_into_pseudo (line : RequestLine) : Pseudo.t :=
  let '(method, uri, ext) := request_line_into_parts line in
  let is_connect := bool_decide (method = method_CONNECT) in
  let protocol := match ext with
                  | Some e => match Protocol.try_from e with Ok p => Some p | Err _ => None end
                  | None => None
                  end in
  let pseudo := pseudo_request method uri protocol in
  match Pseudo.scheme pseudo with
  | None => if negb is_connect then pseudo_set_scheme scheme_HTTP pseudo else pseudo
  | Some _ => pseudo
  end.

Definition response_into_pseudo (line : ResponseLine) : Pseudo.t :=
  Pseudo.response (response_line_into_parts line).

(** ** The frames of a message *)

Record TwoTwoFrame : Type := twoTwoFrame {
  tt_header : Headers.t;
  tt_data : option (Data.t bytes);
  tt_trailer : option Headers.t
}.

Definition frames_of_message {T} (into_pseudo : T -> Pseudo.t) (stream_id : StreamId.t)
    (message : Message T) : outcome TwoTwoFrame :=
  let (body, message) := take_body message in
  let (trailer, message) := take_trailers message in
  let (info_line, headers) := into_message_head message in
  let pseudo := into_pseudo info_line in
  let header := Headers.new stream_id pseudo headers in
  match body, trailer with
  | None, None => Done (twoTwoFrame (Headers.set_end_stream header) None None)
  | _, _ =>
      let! data :=
        match body with
        | Some b =>
            let! frame := Data.new stream_id b in
            Done (Some (match trailer with
                        | None => Data.set_end_stream true frame
                        | Some _ => frame
                        end))
        | None => Done None
        end in
      Done (twoTwoFrame header data (option_map (Headers.trailers stream_id) trailer))
  end.

(** ** The message of a header block *)

(** The checks of [frames_to_request], in order; [Err tt] is [malformed!]. *)
Definition check_request (pseudo : Pseudo.t) : outcome (result (PlzMethod * option bytes * Uri) unit) :=
  match Pseudo.status pseudo, Pseudo.method pseudo with
  | Some _, _ | None, None => Done (Err tt)
  | None, Some method =>
      let is_connect := bool_decide (method = method_CONNECT) in
      let has_protocol := HeaderBlock.is_some (Pseudo.protocol pseudo) in
      if has_protocol && negb is_connect then Done (Err tt)
      else
        let has_authority := HeaderBlock.is_some (Pseudo.authority pseudo) in
        let!? scheme :=
          match Pseudo.scheme pseudo with
          | Some scheme =>
              if is_connect && negb has_protocol then Done (Err tt)
              else
                let! scheme := unwrap (scheme_try_from scheme) in
                Done (Ok (if has_authority then Some scheme else None))
          | None => if negb is_connect || has_protocol then Done (Err tt) else Done (Ok None)
          end in
        let!? path :=
          match Pseudo.path pseudo with
          | Some path =>
              if is_connect && negb has_protocol then Done (Err tt)
              else if bool_decide (path = []) then Done (Err tt)
              else Done (Ok (Some path))
          | None => if is_connect && has_protocol then Done (Err tt) else Done (Ok None)
          end in
        let! uri := unwrap (uri_build (Pseudo.authority pseudo) scheme path) in
        Done (Ok (method, option_map Protocol.as_str (Pseudo.protocol pseudo), uri))
  end.

Definition frames_to_request (pseudo : Pseudo.t) (headers : HeaderMap) (stream_id : StreamId.t) :
    outcome (result Request ProtoError.t) :=
  let! r := check_request pseudo in
  match r with
  | Ok (method, ext, uri) => Done (Ok (request_build method ext uri headers))
  | Err _ => Done (Err (ProtoError.library_reset stream_id Reason.PROTOCOL_ERROR))
  end.

Definition frames_to_response (pseudo : Pseudo.t) (headers : HeaderMap) (_ : StreamId.t) :
    outcome (result Response ProtoError.t) :=
  let! r := unwrap (response_build (Pseudo.status pseudo) headers) in Done (Ok r).

Definition convert_poll_message (role : Role.t) (pseudo : Pseudo.t) (fields : HeaderMap)
    (stream_id : StreamId.t) : outcome (result PollMessage ProtoError.t) :=
  match role with
  | Role.Server =>
      let! r := frames_to_request pseudo fields stream_id in Done (result_map PollServer r)
  | Role.Client =>
      let! r := frames_to_response pseudo fields stream_id in Done (result_map PollClient r)
  end.

(** ** Promised requests *)

Inductive PushPromiseHeaderError : Type :=
| InvalidContentLength (r : result Z unit)
| NotSafeAndCacheable.

(** [PushPromise::validate_request] *)
Definition validate_request (req : Request) : outcome (result unit PushPromiseHeaderError) :=
  let method_ok :=
    if PushPromise.safe_and_cacheable method_HEAD (request_method req) then Ok tt else Err NotSafeAndCacheable in
  match hm_value_of_key (const_header CONTENT_LENGTH) (into_message_head req).2 with
  | None => Done method_ok
  | Some content_length =>
      let! parsed_length := parse_u64 content_length in
      match parsed_length with
      | Ok 0 => Done method_ok
      | _ => Done (Err (InvalidContentLength parsed_length))
      end
  end.

End messages.
