(* ===== verification/HttpInstance.v ===== *)
(** * A concrete instance of the message types

    Shows that the parameters of [Messages] can be instantiated, and lets whole
    exchanges be evaluated. *)

From Stdlib Require Import String.
From S2P Require Import Prelude FrameBase HpackHeader HeadersFrame Instances Messages.

Record CUri : Type := cUri {
  cu_scheme : option bytes;
  cu_authority : option bytes;
  cu_path : bytes
}.

Record CMessage (T : Type) : Type := cMessage {
  cm_info : T;
  cm_headers : list (bytes * bytes);
  cm_body : option bytes;
  cm_trailers : option (list (bytes * bytes))
}.
Arguments cMessage {T}.
Arguments cm_info {T}.
Arguments cm_headers {T}.
Arguments cm_body {T}.
Arguments cm_trailers {T}.

Definition crequest_line : Type := CMethod * CUri * option bytes.

Definition cmethod (s : string) : CMethod := cmethod_from (str s).

#[export] Instance concrete_http : HttpPlz := {
  method_CONNECT := cmethod "CONNECT";
  method_HEAD := cmethod "HEAD";
  method_OPTIONS := cmethod "OPTIONS";
  status_code := fun s => proj1_sig s;
  status_REQUEST_HEADER_FIELDS_TOO_LARGE := cstatus 431 I;
  Scheme := bytes;
  scheme_try_from := fun b => Some b;
  scheme_as_str := fun s => s;
  scheme_HTTP := str "http";
  Uri := CUri;
  uri_path_and_query := cu_path;
  uri_scheme := cu_scheme;
  uri_authority := cu_authority;
  uri_build := fun a s p => Some (cUri s a (match p with Some p => p | None => [] end));
  RequestLine := crequest_line;
  request_line_into_parts := fun l => l;
  ResponseLine := CStatus;
  response_line_into_parts := fun s => s;
  Message := CMessage;
  take_body := fun T m => (cm_body m, cMessage (cm_info m) (cm_headers m) None (cm_trailers m));
  take_trailers := fun T m => (cm_trailers m, cMessage (cm_info m) (cm_headers m) (cm_body m) None);
  into_message_head := fun T m => (cm_info m, cm_headers m);
  set_body := fun T b m => cMessage (cm_info m) (cm_headers m) (Some b) (cm_trailers m);
  set_trailers := fun T t m => cMessage (cm_info m) (cm_headers m) (cm_body m) (Some t);
  request_method := fun m => (cm_info m).1.1;
  request_build := fun m e u h => cMessage (m, u, e) h None None;
  response_build := fun s h =>
    match s with Some s => Some (cMessage s h None None) | None => Some (cMessage (cstatus 200 I) h None None) end
}.
