(* ===== verification/Recv.v ===== *)
(** * The receiving side of the streams

    Models [src/src/proto/streams/recv.rs]: what a received frame does to its stream,
    the buffer of received events, the queues of streams to accept and of streams to
    forget, and the two receive windows.  [RCtx] holds what the [&mut] arguments of
    these functions point to. *)

From Stdlib Require Import String.
From S2P Require Import Prelude Effects FrameBase ControlFrames SettingsFrame DataFrame HpackHeader.
From S2P Require Import HeadersFrame ProtoErrors FramedRead FrameSink OpError StreamState FlowWindow.
From S2P Require Import SlabLib FrameBuffer StreamRec StreamStore StreamQueue StreamCounts.
From S2P Require Import Send Messages.

(** [recv::RecvHeaderBlockError] *)
Inductive RecvHeaderBlockError (T : Type) : Type :=
| Oversize (t : T)
| StateError (e : ProtoError.t).
Arguments Oversize {T}.
Arguments StateError {T}.

Module Event.

Section event.
Context `{HttpPlz}.

Inductive t : Type :=
| Headers (m : PollMessage)
| Data (b : bytes)
| Trailers (h : HeaderMap).

End event.

End Event.

Record PartialResponse `{HttpPlz} : Type := partialResponse {
  pr_response : option Response;
  pr_err : OpError.t
}.
Arguments partialResponse {_ _ _}.
Arguments pr_response {_ _ _}.
Arguments pr_err {_ _ _}.

Module Recv.

Section recv.
Context `{HttpPlz} `{SlabOps} `{IndexMapOps}.

Record t : Type := mk {
  buffer : Buffer.t (T:=Event.t);
  flow : FlowControl.t;
  init_stream_window_sz : Z;
  last_processed_id : StreamId.t;
  max_stream_id : StreamId.t;
  next_stream_id : result StreamId.t unit;
  pending_accept : queue;
  pending_complete : queue;
  pending_reset_expired : queue;
  refused : option StreamId.t;
  reset_duration : Z;
  is_push_enabled : bool;
  is_extended_connect_protocol_enabled : bool;
  check_connection_window_update : bool;
  check_stream_window_update : option Key.t;
  max_recv_buf_limit : Z
}.

#[global] Instance eta_t : Eta t := fun r =>
  mk (buffer r) (flow r) (init_stream_window_sz r) (last_processed_id r) (max_stream_id r)
     (next_stream_id r) (pending_accept r) (pending_complete r) (pending_reset_expired r)
     (refused r) (reset_duration r) (is_push_enabled r)
     (is_extended_connect_protocol_enabled r) (check_connection_window_update r)
     (check_stream_window_update r) (max_recv_buf_limit r).

Definition new (config : ConnectionConfig.t) (role : Role.t) : t := {|
  buffer := Buffer.new;
  flow := FlowControl.new (Send.unwrap_or
            (ConnectionConfig.initial_connection_window_size config) DEFAULT_INITIAL_WINDOW_SIZE);
  init_stream_window_sz := DEFAULT_INITIAL_WINDOW_SIZE;
  last_processed_id := StreamId.ZERO;
  max_stream_id := StreamId.MAX;
  next_stream_id := Ok (if Role.is_server role then 1 else 2);
  pending_accept := Queue.new;
  pending_complete := Queue.new;
  pending_reset_expired := Queue.new;
  refused := None;
  reset_duration := ConnectionConfig.reset_stream_duration config;
  is_push_enabled := false;
  is_extended_connect_protocol_enabled := false;
  check_connection_window_update := false;
  check_stream_window_update := None;
  max_recv_buf_limit := ConnectionConfig.max_recv_buffer_size config
|}.

(** ** Operations on [self] alone *)

Definition dec_connection_window (r : t) (size : Z) : result unit ProtoError.t * t :=
  if FlowControl.window_size (flow r) <? size
  then (Err (ProtoError.library_go_away Reason.FLOW_CONTROL_ERROR), r)
  else
    let (res, f) := FlowControl.dec_window (flow r) size in
    (map_err ProtoError.library_go_away res, r <| flow := f |>).

Definition inc_connection_window (r : t) (size : Z) : result unit ProtoError.t * t :=
  let (res, f) := FlowControl.inc_window (flow r) size in
  (map_err ProtoError.library_go_away res, r <| flow := f |>).

Definition should_send_connection_window_update (r : t) : outcome (option Z) :=
  FlowControl.should_send_window_update (flow r).

Definition init_window_sz (r : t) : Z := init_stream_window_sz r.

(** [next_stream_id()] *)
Definition get_next_stream_id (r : t) : result StreamId.t ProtoError.t :=
  match next_stream_id r with
  | Ok id => Ok id
  | Err _ => Err (ProtoError.library_go_away Reason.PROTOCOL_ERROR)
  end.

Definition can_open (r : t) (id : StreamId.t) (mode : Open.t) (counts : Counts.t) (role : Role.t) :
    outcome (result (option StreamId.t) ProtoError.t * t) :=
  let! _ := assert (Stream.is_none (refused r)) in
  match Role.ensure_can_open role id mode with
  | Err e => Done (Err e, r)
  | Ok _ =>
      match get_next_stream_id r with
      | Err e => Done (Err e, r)
      | Ok next_id =>
          if id <? next_id then Done (Err (ProtoError.library_go_away Reason.PROTOCOL_ERROR), r)
          else
            let! next := StreamId.next_id id in
            let r := r <| next_stream_id := next |> in
            if negb (Counts.can_inc_num_recv_streams counts)
            then Done (Ok None, r <| refused := Some id |>)
            else Done (Ok (Some id), r)
      end
  end.

Definition maybe_reset_next_stream_id (r : t) (id : StreamId.t) : outcome t :=
  match next_stream_id r with
  | Ok next_id =>
      let! _ := assert (Bool.eqb (StreamId.is_server_initiated id)
                                 (StreamId.is_server_initiated next_id)) in
      if id >=? next_id then
        let! next := StreamId.next_id id in Done (r <| next_stream_id := next |>)
      else Done r
  | Err _ => Done r
  end.

Definition go_away (r : t) (id : StreamId.t) : outcome t :=
  let! _ := assert (max_stream_id r >=? id) in
  Done (r <| max_stream_id := id |>).

Definition is_extended_protocol_usage_correct (r : t) (pseudo : Pseudo.t) (is_server : bool) : bool :=
  negb (HeaderBlock.is_some (Pseudo.protocol pseudo) && is_server &&
        negb (is_extended_connect_protocol_enabled r)).

Definition are_response_headers_in_request (pseudo : Pseudo.t) (is_server : bool) : bool :=
  HeaderBlock.is_some (Pseudo.status pseudo) && is_server.

(** [ret_frame_oversize_err]: the error it always returns. *)
Definition ret_frame_oversize_err (is_initial is_server : bool) (stream_id : StreamId.t) :
    RecvHeaderBlockError (option Headers.t) :=
  if is_server && is_initial then
    let response := Headers.new stream_id
      (Pseudo.response status_REQUEST_HEADER_FIELDS_TOO_LARGE) hm_new in
    Oversize (Some (Headers.set_end_stream response))
  else Oversize None.

(** [parse_content_length]: the stream, and whether the value is accepted. *)
Definition parse_content_length (s : Stream.t) (frame : Headers.t) :
    outcome (result unit ProtoError.t * Stream.t) :=
  let err := ProtoError.library_reset (Stream.id s) Reason.PROTOCOL_ERROR in
  match hm_value_of_key (const_header CONTENT_LENGTH) (Headers.get_fields frame) with
  | None => Done (Ok tt, s)
  | Some v =>
      let! r := parse_u64 v in
      match r with
      | Err _ => Done (Err err, s)
      | Ok content_length =>
          let s := s <| Stream.content_length :=
                     ContentLength.Remaining content_length content_length |> in
          if Headers.is_end_stream frame && (content_length >? 0) &&
             match Pseudo.status (Headers.get_pseudo frame) with
             | None => true
             | Some st => negb (status_code st =? 204) && negb (status_code st =? 304)
             end
          then Done (Err err, s)
          else Done (Ok tt, s)
      end
  end.

End recv.

End Recv.

(** ** The world of the receiving functions *)

Module RCtx.

Section ctx.
Context `{HttpPlz} `{SlabOps} `{IndexMapOps}.

Record t : Type := mk { recv : Recv.t; store : Store.t; counts : Counts.t }.

#[global] Instance eta_t : Eta t := fun c => mk (recv c) (store c) (counts c).

Definition stream (k : Key.t) : M t Stream.t := fun c =>
  let! s := Store.index (store c) k in Done (s, c).

Definition modify (k : Key.t) (f : Stream.t -> Stream.t) : M t unit := fun c =>
  let! st := Store.modify (store c) k f in Done (tt, c <| store := st |>).

Definition queue_push (N : Next) (q : Recv.t -> queue) `{!Update q} (k : Key.t) : M t unit := fun c =>
  let! (_, q', st) := Queue.push N (q (recv c)) (store c) k in
  Done (tt, c <| store := st |> <| recv ::= upd q (fun _ => q') |>).

Definition queue_pop (N : Next) (q : Recv.t -> queue) `{!Update q} : M t (option Key.t) := fun c =>
  let! (k, q', st) := Queue.pop N (q (recv c)) (store c) in
  Done (k, c <| store := st |> <| recv ::= upd q (fun _ => q') |>).

Definition queue_pop_if (N : Next) (q : Recv.t -> queue) `{!Update q} (f : Stream.t -> outcome bool) :
    M t (option Key.t) := fun c =>
  let! (k, q', st) := Queue.pop_if N (q (recv c)) (store c) f in
  Done (k, c <| store := st |> <| recv ::= upd q (fun _ => q') |>).

(** The events a stream has received. *)
Definition push_back (k : Key.t) (e : Event.t) : M t unit := fun c =>
  let! s := Store.index (store c) k in
  let! (d, buf) := Deque.push_back (Stream.pending_recv s) (Recv.buffer (recv c)) e in
  Done (tt, c <| recv ::= (fun r => r <| Recv.buffer := buf |>) |>
              <| store ::= (fun st => Store.put st k (s <| Stream.pending_recv := d |>)) |>).

Definition pop_front (k : Key.t) : M t (option Event.t) := fun c =>
  let! s := Store.index (store c) k in
  let! (e, d, buf) := Deque.pop_front (Stream.pending_recv s) (Recv.buffer (recv c)) in
  Done (e, c <| recv ::= (fun r => r <| Recv.buffer := buf |>) |>
             <| store ::= (fun st => Store.put st k (s <| Stream.pending_recv := d |>)) |>).

Definition transition_after (k : Key.t) (is_reset_counted : bool) : M t unit := fun c =>
  let! (cs, st) := Counts.transition_after (counts c) (store c) k is_reset_counted in
  Done (tt, c <| counts := cs |> <| store := st |>).

Definition streams_fuel : M t nat := gets (fun c => S (slab_len (Store.streams (store c)))).
Definition events_fuel : M t nat := gets (fun c => S (slab_len (Recv.buffer (recv c)))).

End ctx.

End RCtx.
