(* ===== verification/RecvOps.v ===== *)
(** * The operations of the receiving side

    The methods of [Recv] in [src/src/proto/streams/recv.rs] that reach streams, the
    buffer of events or the counts; [Recv] and [RCtx] are in the file [Recv]. *)

From S2P Require Import Prelude Effects FrameBase ControlFrames SettingsFrame DataFrame HpackHeader.
From S2P Require Import HeadersFrame ProtoErrors FramedRead FrameSink OpError StreamState FlowWindow.
From S2P Require Import SlabLib FrameBuffer StreamRec StreamStore StreamQueue StreamCounts.
From Stdlib Require Import String.
From S2P Require Import Send Messages Recv.

Module RecvOps.

Section ops.
Context `{HttpPlz} `{SlabOps} `{IndexMapOps}.

Abbreviation R := (M RCtx.t) (only parsing).

Definition set_recv (f : Recv.t -> Recv.t) : R unit := modifies (fun c => c <| RCtx.recv ::= f |>).

(** An operation on [self] alone. *)
Definition on_recv {A} (f : Recv.t -> A * Recv.t) : R A := fun c =>
  let (a, r) := f (RCtx.recv c) in Done (a, c <| RCtx.recv := r |>).

Definition next_accept : R (option Key.t) := RCtx.queue_pop NextAccept Recv.pending_accept.

(** [while let Some(frame) = stream.pending_recv.pop_front(..)], when pending. *)
Definition clear_stream_queue (k : Key.t) : R unit :=
  let* s := RCtx.stream k in
  if Stream.is_pending_complete s then
    let* fuel := RCtx.events_fuel in
    loop fuel
      (let* e := RCtx.pop_front k in
       ret (match e with Some _ => None | None => Some tt end))
  else ret tt.

(** A round of [move_from_pending_complete]. *)
Definition move_round (role : Role.t) : R (option unit) :=
  let* popped := RCtx.queue_pop_if NextComplete Recv.pending_complete (fun s =>
    Done (State.is_recv_end_stream (Stream.state s) || State.is_remote_reset (Stream.state s))) in
  match popped with
  | None => ret (Some tt)
  | Some k =>
      let* s := RCtx.stream k in
      (if Role.is_server role then
         if State.is_remote_reset (Stream.state s) then clear_stream_queue k
         else RCtx.queue_push NextAccept Recv.pending_accept k
       else ret tt);*
      ret None
  end.

Definition move_from_pending_complete (k : Key.t) (role : Role.t) : R unit :=
  let* fuel := RCtx.streams_fuel in
  loop fuel (move_round role);*
  when (Role.is_client role) (RCtx.modify k Stream.notify_recv).

(** ** DATA *)

(** The second half of [recv_data], once the windows and the length are checked. *)
Definition accept_data (k : Key.t) (size : Z) (is_eos : bool) (payload : bytes) (role : Role.t) :
    R (result unit ProtoError.t) :=
  let* s := RCtx.stream k in
  match FlowControl.dec_window (Stream.recv_flow s) size with
  | (Err e, _) => ret (Err (ProtoError.library_go_away e))
  | (Ok _, f) =>
      lift (assert (Stream.curr_buf_len s + size <=? usize_max));*
      RCtx.modify k (fun s => s <| Stream.recv_flow := f |>
                                <| Stream.curr_buf_len ::= (fun n => n + size) |>);*
      RCtx.push_back k (Event.Data payload);*
      let* s := RCtx.stream k in
      let* limit := gets (fun c => Recv.max_recv_buf_limit (RCtx.recv c)) in
      if Stream.curr_buf_len s >? limit then
        RCtx.modify k (fun s => s <| Stream.is_buf_limit_reached := true |>);*
        ret (Err (ProtoError.library_reset (Stream.id s) Reason.INTERNAL_ERROR))
      else
        (if is_eos then move_from_pending_complete k role
         else set_recv (fun r => r <| Recv.check_stream_window_update := Some k |>));*
        ret (Ok tt)
  end.

Definition recv_data (frame : Data.t bytes) (k : Key.t) (role : Role.t) :
    R (result unit ProtoError.t) :=
  let size := len (Data.payload frame) in
  lift (assert (size <=? MAX_WINDOW_SIZE));*
  let*? _ := on_recv (fun r => Recv.dec_connection_window r size) in
  set_recv (fun r => r <| Recv.check_connection_window_update := true |>);*
  let* s := RCtx.stream k in
  let is_ignoring_frame := State.is_local_error (Stream.state s) in
  if negb is_ignoring_frame && negb (State.is_recv_streaming (Stream.state s))
  then ret (Err (ProtoError.library_go_away Reason.PROTOCOL_ERROR))
  else if is_ignoring_frame then ret (Ok tt)
  else if FlowControl.window_size (Stream.recv_flow s) <? size
  then ret (Err (ProtoError.library_reset (Stream.id s) Reason.FLOW_CONTROL_ERROR))
  else
    match Stream.dec_content_length s (len (Data.payload frame)) with
    | (Err _, _) => ret (Err (ProtoError.library_reset (Stream.id s) Reason.PROTOCOL_ERROR))
    | (Ok _, s) =>
        RCtx.modify k (fun _ => s);*
        let is_eos := Data.is_end_stream frame in
        let*? _ :=
          (if is_eos then
             match Stream.ensure_content_length_zero s, State.recv_close (Stream.state s) with
             | Err _, _ => ret (Err (ProtoError.library_reset (Stream.id s) Reason.PROTOCOL_ERROR))
             | Ok _, Err _ => ret (Err (ProtoError.library_go_away Reason.PROTOCOL_ERROR))
             | Ok _, Ok st =>
                 RCtx.modify k (fun s => s <| Stream.state := st |>);*
                 ret (Ok tt)
             end
           else ret (Ok tt)) in
        accept_data k size is_eos (Data.into_payload frame) role
    end.

(** ** HEADERS *)

Definition map_err_state {A T} (r : result A ProtoError.t) : result A (RecvHeaderBlockError T) :=
  map_err StateError r.

(** The new stream is counted and remembered for GOAWAY frames. *)
Definition recv_initial (frame : Headers.t) (k : Key.t) : R unit :=
  set_recv (fun r =>
    if Headers.stream_id frame >? Recv.last_processed_id r
    then r <| Recv.last_processed_id := Headers.stream_id frame |> else r);*
  (fun c =>
     let! (cs, st) := Counts.inc_num_recv_streams (RCtx.counts c) (RCtx.store c) k in
     Done (tt, c <| RCtx.counts := cs |> <| RCtx.store := st |>)).

(** The last part of [recv_headers]: the message is queued, and handed on when it is
    complete. *)
Definition accept_headers (frame : Headers.t) (k : Key.t) :
    R (result unit (RecvHeaderBlockError (option Headers.t))) :=
  let stream_id := Headers.stream_id frame in
  let is_eos := Headers.is_end_stream frame in
  let (pseudo, fields) := Headers.into_parts frame in
  let* role := gets (fun c => Counts.role (RCtx.counts c)) in
  let* r := gets RCtx.recv in
  let* s := RCtx.stream k in
  let is_server := Role.is_server role in
  if negb (Recv.is_extended_protocol_usage_correct r pseudo is_server)
     || Recv.are_response_headers_in_request pseudo is_server
  then ret (Err (StateError (ProtoError.library_reset (Stream.id s) Reason.PROTOCOL_ERROR)))
  else if negb (Pseudo.is_informational pseudo) then
    let*? message := lift (let! r := convert_poll_message role pseudo fields stream_id in
                           Done (map_err_state r)) in
    RCtx.push_back k (Event.Headers message);*
    if is_eos && Role.is_client role then
      RCtx.modify k Stream.notify_recv;*
      ret (Ok tt)
    else
      RCtx.queue_push NextComplete Recv.pending_complete k;*
      when is_eos (move_from_pending_complete k role);*
      ret (Ok tt)
  else ret (Ok tt).

Definition recv_headers (frame : Headers.t) (k : Key.t) :
    R (result unit (RecvHeaderBlockError (option Headers.t))) :=
  let* s := RCtx.stream k in
  match State.recv_open_frame (Stream.state s) frame with
  | Err e => ret (Err (StateError e))
  | Ok (st, is_initial) =>
      RCtx.modify k (fun s => s <| Stream.state := st |>);*
      when is_initial (recv_initial frame k);*
      let* s := RCtx.stream k in
      let*? _ :=
        (if negb (ContentLength.is_head (Stream.content_length s)) then
           let* (r, s) := lift (Recv.parse_content_length s frame) in
           RCtx.modify k (fun _ => s);*
           ret (map_err_state r)
         else ret (Ok tt)) in
      let* role := gets (fun c => Counts.role (RCtx.counts c)) in
      if Headers.is_over_size frame
      then ret (Err (Recv.ret_frame_oversize_err is_initial (Role.is_server role) (Stream.id s)))
      else accept_headers frame k
  end.

Definition recv_trailers (frame : Headers.t) (k : Key.t) (role : Role.t) :
    R (result unit ProtoError.t) :=
  let* s := RCtx.stream k in
  match State.recv_close (Stream.state s) with
  | Err e => ret (Err e)
  | Ok st =>
      RCtx.modify k (fun s => s <| Stream.state := st |>);*
      match Stream.ensure_content_length_zero s with
      | Err _ => ret (Err (ProtoError.library_reset (Stream.id s) Reason.PROTOCOL_ERROR))
      | Ok _ =>
          RCtx.push_back k (Event.Trailers (Headers.into_fields frame));*
          move_from_pending_complete k role;*
          ret (Ok tt)
      end
  end.

(** ** Resets and errors *)

Definition too_many_resets : bytes := str "too_many_resets".

Definition recv_reset (frame : Reset.t) (k : Key.t) : R (result unit ProtoError.t) :=
  let* s := RCtx.stream k in
  let*? _ :=
    (if Stream.is_pending_accept s then
       let* counts := gets RCtx.counts in
       if Counts.can_inc_num_remote_reset_streams counts then
         let* counts := lift (Counts.inc_num_remote_reset_streams counts) in
         modifies (fun c => c <| RCtx.counts := counts |>);*
         ret (Ok tt)
       else ret (Err (ProtoError.library_go_away_data Reason.ENHANCE_YOUR_CALM too_many_resets))
     else ret (Ok tt)) in
  RCtx.modify k (fun s =>
    s <| Stream.state ::= (fun st => State.recv_reset st frame (Stream.is_pending_send s)) |>);*
  let* role := gets (fun c => Counts.role (RCtx.counts c)) in
  move_from_pending_complete k role;*
  RCtx.modify k Stream.notify_recv;*
  ret (Ok tt).

(** [now] is what [Instant::now()] returns. *)
Definition enqueue_reset_expiration (now : Z) (k : Key.t) : R unit :=
  let* s := RCtx.stream k in
  if negb (State.is_local_error (Stream.state s)) || Stream.is_pending_reset_expiration s
  then ret tt
  else
    let* counts := gets RCtx.counts in
    if Counts.can_inc_num_reset_streams counts then
      let* counts := lift (Counts.inc_num_reset_streams counts) in
      modifies (fun c => c <| RCtx.counts := counts |>);*
      RCtx.queue_push (NextResetExpire now) Recv.pending_reset_expired k
    else ret tt.

Definition handle_error (err : ProtoError.t) (k : Key.t) : R unit :=
  RCtx.modify k (fun s => s <| Stream.state ::= (fun st => State.handle_error st err) |>);*
  clear_stream_queue k;*
  RCtx.modify k Stream.notify_recv.

Definition recv_eof (k : Key.t) : R unit :=
  RCtx.modify k (fun s => Stream.notify_recv (s <| Stream.state ::= State.recv_eof |>)).

(** ** SETTINGS *)

(** The window of a stream changes by [inc], up or down. *)
Definition change_window (change : FlowControl.t -> result unit Reason.t * FlowControl.t)
    (x : unit) (st : Store.t) (k : Key.t) : outcome (result unit ProtoError.t * unit * Store.t) :=
  let! s := Store.index st k in
  let (r, f) := change (Stream.recv_flow s) in
  Done (map_err ProtoError.library_go_away r, x,
        Store.put st k (s <| Stream.recv_flow := f |>)).

Definition apply_local_settings (settings : Settings.t) : R (result unit ProtoError.t) :=
  set_recv (fun r => match Settings.is_extended_connect_protocol_enabled settings with
                     | Some val => r <| Recv.is_extended_connect_protocol_enabled := val |>
                     | None => r
                     end);*
  match Settings.initial_window_size settings with
  | Some target =>
      let* old_sz := gets (fun c => Recv.init_stream_window_sz (RCtx.recv c)) in
      set_recv (fun r => r <| Recv.init_stream_window_sz := target |>);*
      let change f : R (result unit ProtoError.t) := fun c =>
        let! (r, _, st) := Store.try_for_each (change_window f) tt (RCtx.store c) in
        Done (r, c <| RCtx.store := st |>) in
      match target ?= old_sz with
      | Lt => change (fun f => FlowControl.dec_window f (old_sz - target))
      | Gt => change (fun f => FlowControl.inc_window f (target - old_sz))
      | Eq => ret (Ok tt)
      end
  | None => ret (Ok tt)
  end.

(** ** Clearing *)

(** [while let Some(stream) = queue.pop(store) { counts.transition_after(stream, b) }] *)
Definition clear_all (N : Next) (q : Recv.t -> queue) `{!Update q} (is_reset_counted : bool) :
    R unit :=
  let* fuel := RCtx.streams_fuel in
  loop fuel
    (let* popped := RCtx.queue_pop N q in
     match popped with
     | Some k =>
         RCtx.transition_after k is_reset_counted;*
         ret None
     | None => ret (Some tt)
     end).

(** Popping never reads the clock: any [now] will do. *)
Definition clear_all_reset_streams : R unit :=
  clear_all (NextResetExpire 0) Recv.pending_reset_expired true.
Definition clear_all_pending_accept : R unit := clear_all NextAccept Recv.pending_accept false.
Definition clear_all_pending_complete : R unit := clear_all NextComplete Recv.pending_complete false.

Definition clear_queues (clear_pending_accept : bool) : R unit :=
  clear_all_reset_streams;*
  clear_all_pending_complete;*
  when clear_pending_accept clear_all_pending_accept.

(** The test of [pop_if]; the instant of the reset must be set. *)
Definition expired (now reset_duration : Z) (s : Stream.t) : outcome bool :=
  let! reset_at := unwrap (Stream.reset_at s) in
  Done (Z.max (now - reset_at) 0 >? reset_duration).

Definition clear_expired_reset_streams (now : Z) : R unit :=
  let* r := gets RCtx.recv in
  if Queue.is_empty (Recv.pending_reset_expired r) then ret tt
  else
    let* fuel := RCtx.streams_fuel in
    loop fuel
      (let* popped := RCtx.queue_pop_if (NextResetExpire now) Recv.pending_reset_expired
                        (expired now (Recv.reset_duration r)) in
       match popped with
       | Some k =>
           RCtx.transition_after k true;*
           ret None
       | None => ret (Some tt)
       end).

(** ** Handing messages over *)

(** [process_remaining_frames]: the body collected so far and the message. *)
Fixpoint process_loop {T} (fuel : nat) (k : Key.t) (body : option bytes) (message : Message T) :
    R (Message T) :=
  match fuel with
  | O => panic
  | S fuel =>
      let* event := RCtx.pop_front k in
      match event with
      | Some (Event.Headers _) => panic
      | Some (Event.Data data) =>
          process_loop fuel k (Some (match body with Some b => b | None => [] end ++ data)%list) message
      | Some (Event.Trailers header_map) =>
          process_loop fuel k body (set_trailers header_map message)
      | None => ret (match body with Some b => set_body b message | None => message end)
      end
  end.

Definition process_remaining_frames {T} (message : Message T) (k : Key.t) : R (Message T) :=
  let* fuel := RCtx.events_fuel in
  process_loop fuel k None message.

Definition take_request (k : Key.t) : R Request :=
  let* event := RCtx.pop_front k in
  match event with
  | Some (Event.Headers (PollServer request)) => process_remaining_frames request k
  | _ => panic
  end.

(** [PartialResponse::empty_queue] *)
Definition empty_queue (id : StreamId.t) : PartialResponse :=
  partialResponse None (OpError.from_proto (ProtoError.library_reset id Reason.PROTOCOL_ERROR)).

Definition take_response (k : Key.t) : R (result Response PartialResponse) :=
  let* event := RCtx.pop_front k in
  match event with
  | Some (Event.Headers (PollClient response)) =>
      let* response := process_remaining_frames response k in
      ret (Ok response)
  | Some _ => panic
  | None =>
      let* s := RCtx.stream k in
      ret (Err (empty_queue (Stream.id s)))
  end.

(** [waker] is the waker of the task that polls. *)
Definition poll_response (waker : Z) (k : Key.t) : R (poll (result Response PartialResponse)) :=
  let* s := RCtx.stream k in
  if State.is_recv_end_stream (Stream.state s) then
    let* r := take_response k in
    ret (Ready r)
  else
    match State.ensure_recv_open (Stream.state s) with
    | Err e =>
        let* r := take_response k in
        let inner := match r with
                     | Ok response => partialResponse (Some response) (OpError.from_proto e)
                     | Err partial => partialResponse (pr_response partial) (OpError.from_proto e)
                     end in
        let* s := RCtx.stream k in
        let inner := if Stream.is_buf_limit_reached s
                     then partialResponse (pr_response inner) (OpError.from_user UserError.BufferLimitExceeded)
                     else inner in
        ret (Ready (Err inner))
    | Ok _ =>
        RCtx.modify k (fun s => s <| Stream.recv_task := Some waker |>);*
        ret Pending
    end.

Definition take_partial_response (k : Key.t) : R (option Response) :=
  let* r := take_response k in
  ret (match r with Ok response => Some response | Err _ => None end).

(** ** Refused streams *)

Context `{!FrameSink}.

Definition send_pending_refusal (r : Recv.t) (dst : sink) :
    outcome (poll (result unit io_error) * Recv.t * sink) :=
  match Recv.refused r with
  | Some stream_id =>
      match poll_ready dst with
      | (Ready (Ok _), dst) =>
          let! (res, dst) :=
            sink_buffer dst (Frame.Reset (Reset.new stream_id Reason.REFUSED_STREAM)) in
          let! _ := assert (is_ok res) in
          Done (Ready (Ok tt), r <| Recv.refused := None |>, dst)
      | (res, dst) => Done (res, r, dst)
      end
  | None => Done (Ready (Ok tt), r <| Recv.refused := None |>, dst)
  end.

End ops.

End RecvOps.
