(* ===== verification/RecvKept.v ===== *)
(** * The receiving side keeps its contract with the streams

    Every operation of [Recv] only evolves its world, as those of [Send] do in
    [SendKept]. *)

From S2P Require Import Prelude Effects FrameBase ControlFrames SettingsFrame DataFrame HpackHeader.
From S2P Require Import HeadersFrame ProtoErrors FramedRead FrameSink StreamState FlowWindow.
From S2P Require Import SlabLib FrameBuffer StreamRec StreamStore StreamStoreFacts StreamQueue.
From S2P Require Import StreamCounts Evolve Send Messages Recv RecvOps.

(** A field of [Recv] that is a queue. *)
Class RecvQueueField `{HttpPlz} `{SlabOps} `{IndexMapOps} (q : Recv.t -> queue) `{!Update q} : Prop := {
  rqf_flow r f : Recv.flow (upd q f r) = Recv.flow r;
  rqf_next r f : Recv.next_stream_id (upd q f r) = Recv.next_stream_id r;
  rqf_max r f : Recv.max_stream_id (upd q f r) = Recv.max_stream_id r
}.
#[export] Hint Extern 2 (RecvQueueField _) => solve [by split] : typeclass_instances.

Section kept.
Context `{HttpPlz} `{Hsl : SlabOps} `{!SlabLaws Hsl} `{Him : IndexMapOps}.

Implicit Types (c : RCtx.t) (k : Key.t) (s : Stream.t).

#[export] Instance rctx_world : World RCtx.t := {|
  store_of := RCtx.store;
  flows_of c := [Recv.flow (RCtx.recv c)];
  frame_of c := (Counts.role (RCtx.counts c),
                 [Recv.next_stream_id (RCtx.recv c); Ok (Recv.max_stream_id (RCtx.recv c))])
|}.

(** ** The primitives *)

Lemma rctx_store_evolves c st :
  store_evolves (RCtx.store c) st -> evolves c (c <| RCtx.store := st |>).
Proof. by split. Qed.

Lemma set_recv_evolves c (f : Recv.t -> Recv.t) :
  (forall r, Recv.flow (f r) = Recv.flow r /\ Recv.next_stream_id (f r) = Recv.next_stream_id r /\
     Recv.max_stream_id (f r) = Recv.max_stream_id r) ->
  evolves c (c <| RCtx.recv ::= f |>).
Proof.
  intros Hf. destruct (Hf (RCtx.recv c)) as (Hfl & Hn & Hm).
  split; [done|..]; record; by rewrite ?Hfl, ?Hn, ?Hm.
Qed.

Lemma set_counts_evolves c cs :
  Counts.role cs = Counts.role (RCtx.counts c) -> evolves c (c <| RCtx.counts := cs |>).
Proof. intros Hr. split; [done..|]. record. by rewrite Hr. Qed.

Lemma rctx_stream_kept {A} c k (f : Stream.t -> M RCtx.t A) :
  (forall s, Store.lookup (RCtx.store c) k = Some s -> kept c (f s)) ->
  kept c (bind (RCtx.stream k) f).
Proof.
  intros Hf. unfold keeps, bind, RCtx.stream, Store.index.
  destruct (Store.lookup (RCtx.store c) k) as [s|] eqn:Hs; [|done]. by apply Hf.
Qed.

Lemma rctx_modify_kept c k f :
  (forall s, Store.lookup (RCtx.store c) k = Some s -> moved s (f s)) -> kept c (RCtx.modify k f).
Proof.
  intros Hf. unfold keeps, RCtx.modify. eapply ensures_bind; [by apply (modify_evolves moved)|].
  intros st He. apply ensures_Done. by apply rctx_store_evolves.
Qed.

(** After a write the stream is the one written. *)
Lemma rctx_modify_bind_kept {A} c k f (m : unit -> M RCtx.t A) :
  (forall s, Store.lookup (RCtx.store c) k = Some s -> moved s (f s)) ->
  (forall c' s, Store.lookup (RCtx.store c) k = Some s -> Store.lookup (RCtx.store c') k = Some (f s) ->
     kept c' (m tt)) ->
  kept c (bind (RCtx.modify k f) m).
Proof.
  intros Hf Hm. kbind; [by apply rctx_modify_kept|]. intros [] c' Hc'.
  unfold RCtx.modify, Store.modify in Hc'.
  destruct (Store.index (RCtx.store c) k) as [s|] eqn:Hs; [cbn [obind] in Hc'|done].
  apply lookup_of_index in Hs. injection Hc' as <-. apply (Hm _ s Hs). record.
  apply (lookup_put _ _ s); [done|]. by apply Hf.
Qed.

Lemma rctx_transition_after_kept c k b : kept c (RCtx.transition_after k b).
Proof.
  eapply ensures_bind; [apply (transition_after_evolves moved)|]. intros [cs st] [Hr He].
  apply ensures_Done. split; [done|done|]. record. by rewrite Hr.
Qed.

Section queue.
Context (N : Next) `{!NextLaws N} `{!Bookkeeping moved N} (q : Recv.t -> queue) `{!Update q}
  `{!RecvQueueField q}.

Lemma rctx_queue_evolves c st x :
  store_evolves (RCtx.store c) st ->
  evolves c (c <| RCtx.store := st |> <| RCtx.recv ::= upd q (fun _ => x) |>).
Proof.
  intros He. set (c' := c <| RCtx.store := st |> <| RCtx.recv ::= _ |>).
  assert (RCtx.recv c' = upd q (fun _ => x) (RCtx.recv c)) as Hs by done.
  split; [done|..]; unfold flows_of, frame_of, rctx_world; by rewrite Hs, ?rqf_flow, ?rqf_next, ?rqf_max.
Qed.

Lemma rctx_queue_push_kept c k : kept c (RCtx.queue_push N q k).
Proof.
  eapply ensures_bind; [by apply (queue_push_evolves moved)|]. intros [[b x] st] He.
  by apply ensures_Done, rctx_queue_evolves.
Qed.

Lemma rctx_queue_pop_kept c : kept c (RCtx.queue_pop N q).
Proof.
  eapply ensures_bind; [by apply (queue_pop_evolves moved)|]. intros [[b x] st] He.
  by apply ensures_Done, rctx_queue_evolves.
Qed.

Lemma rctx_queue_pop_if_kept c f : kept c (RCtx.queue_pop_if N q f).
Proof.
  eapply ensures_bind; [by apply (queue_pop_if_evolves moved)|]. intros [[b x] st] He.
  by apply ensures_Done, rctx_queue_evolves.
Qed.

End queue.

Lemma rctx_push_back_kept c k e : kept c (RCtx.push_back k e).
Proof.
  apply ensures_obind; intros s Hs. apply ensures_obind; intros [d buf] _. apply ensures_Done.
  split; [|done..]. eapply (index_put_evolves moved); [done|moved].
Qed.

Lemma rctx_pop_front_kept c k : kept c (RCtx.pop_front k).
Proof.
  apply ensures_obind; intros s Hs. apply ensures_obind; intros [[f d] buf] _. apply ensures_Done.
  split; [|done..]. eapply (index_put_evolves moved); [done|moved].
Qed.

(** The state and the window computed from what was just read. *)
Lemma rctx_set_state_kept c k s o st :
  Store.lookup (RCtx.store c) k = Some s -> State.apply o (Stream.state s) = Some st ->
  kept c (RCtx.modify k (fun s => s <| Stream.state := st |>)).
Proof.
  intros Hs Ho. apply rctx_modify_kept. intros s' Hs'. rewrite Hs in Hs'. injection Hs' as <-.
  eapply moved_by; [exact Ho|]. by apply moved_same.
Qed.

(** An assignment of the whole stream. *)
Lemma rctx_assign_kept c k s s' :
  Store.lookup (RCtx.store c) k = Some s -> moved s s' -> kept c (RCtx.modify k (fun _ => s')).
Proof.
  intros Hs Hm. apply rctx_modify_kept. intros s2 Hs2. rewrite Hs in Hs2. by injection Hs2 as <-.
Qed.

Lemma dec_connection_window_kept c sz :
  kept c (RecvOps.on_recv (fun r => Recv.dec_connection_window r sz)).
Proof.
  unfold keeps, RecvOps.on_recv, Recv.dec_connection_window.
  destruct (_ <? _); [apply ensures_Done; by destruct c|].
  destruct (FlowControl.dec_window _ _) as [r f] eqn:Hf. apply ensures_Done.
  split; [done| |done]. constructor; [|done]. apply rtc_once. by eapply flow_dec_eq.
Qed.

End kept.

#[export] Hint Resolve rctx_transition_after_kept rctx_push_back_kept rctx_pop_front_kept
  dec_connection_window_kept : keeps.
#[export] Hint Extern 2 (kept _ (RCtx.queue_push _ _ _)) => apply rctx_queue_push_kept; typeclasses eauto : keeps.
#[export] Hint Extern 2 (kept _ (RCtx.queue_pop _ _)) => apply rctx_queue_pop_kept; typeclasses eauto : keeps.
#[export] Hint Extern 2 (kept _ (RCtx.queue_pop_if _ _ _)) =>
  apply rctx_queue_pop_if_kept; typeclasses eauto : keeps.
#[export] Hint Extern 1 (kept _ (RCtx.modify _ (fun s => s <| Stream.state := _ |>))) =>
  eapply rctx_set_state_kept; [eassumption|by eauto with moved] : keeps.
#[export] Hint Extern 2 (kept _ (RCtx.modify _ _)) => apply rctx_modify_kept; intros; moved : keeps.
#[export] Hint Extern 1 (evolves _ (_ <| RCtx.recv ::= _ |>)) =>
  apply set_recv_evolves; intros; repeat case_match; by split_and! : keeps.

Ltac recv_step :=
  first
  [ lazymatch goal with
    | |- keeps _ _ (bind (RCtx.stream _) _) => apply rctx_stream_kept; intros ? ?
    | |- keeps _ _ (bind RCtx.streams_fuel _) => apply keeps_gets
    | |- keeps _ _ (bind RCtx.events_fuel _) => apply keeps_gets
    | |- keeps _ _ (RecvOps.set_recv _) => unfold RecvOps.set_recv
    | |- keeps _ _ (bind (RecvOps.set_recv _) _) => unfold RecvOps.set_recv at 1
    end
  | keeps_step
  | solve [eauto with keeps]
  | lazymatch goal with
    | |- keeps _ _ (bind _ _) => kbind; [|intros ? ? _]
    | |- keeps _ _ (try _ _) => ktry; [|intros ? ? _]
    end ].
Ltac recv_kept := repeat recv_step.

(** ** The operations of [RecvOps] *)

Section ops.
Context `{HttpPlz} `{Hsl : SlabOps} `{!SlabLaws Hsl} `{Him : IndexMapOps}.

Implicit Types (c : RCtx.t) (k : Key.t) (s : Stream.t).

Lemma next_accept_kept c : kept c RecvOps.next_accept.
Proof. unfold RecvOps.next_accept. recv_kept. Qed.

Lemma recv_clear_stream_queue_kept c k : kept c (RecvOps.clear_stream_queue k).
Proof. unfold RecvOps.clear_stream_queue. recv_kept. Qed.
#[local] Hint Resolve recv_clear_stream_queue_kept : keeps.

Lemma move_from_pending_complete_kept c k role : kept c (RecvOps.move_from_pending_complete k role).
Proof. unfold RecvOps.move_from_pending_complete, RecvOps.move_round. recv_kept. Qed.
#[local] Hint Resolve move_from_pending_complete_kept : keeps.

Lemma dec_content_length_moved s n r s' : Stream.dec_content_length s n = (r, s') -> moved s s'.
Proof.
  unfold Stream.dec_content_length. destruct (Stream.content_length s);
    repeat case_match; intros [=]; subst; moved.
Qed.

Lemma accept_data_kept c k size is_eos payload role :
  kept c (RecvOps.accept_data k size is_eos payload role).
Proof.
  unfold RecvOps.accept_data. apply rctx_stream_kept; intros s Hs.
  destruct (FlowControl.dec_window _ _) as [[u|e] f] eqn:Hf; [|by recv_kept].
  apply keeps_lift; intros ? ?. kbind; [|intros; recv_kept].
  apply rctx_modify_kept. intros s' Hs'. rewrite Hs in Hs'. injection Hs' as <-.
  eapply moved_recv_flow; [by eapply flow_dec_eq|]. by apply moved_same.
Qed.
#[local] Hint Resolve accept_data_kept : keeps.

Lemma recv_data_kept c frame k role : kept c (RecvOps.recv_data frame k role).
Proof.
  unfold RecvOps.recv_data. cbv zeta. apply keeps_lift; intros ? ?.
  ktry; [recv_kept|intros ? c1 _]. do 2 recv_step. apply rctx_stream_kept; intros s Hs.
  destruct (_ && _); [recv_kept|]. destruct (State.is_local_error _); [recv_kept|].
  destruct (_ <? _); [recv_kept|].
  destruct (Stream.dec_content_length s _) as [[u|e] s'] eqn:Hd; [|recv_kept].
  apply dec_content_length_moved in Hd. apply rctx_modify_bind_kept.
  { intros s2 Hs2. rewrite Hs in Hs2. by injection Hs2 as <-. }
  intros c2 _ _ Hs'. ktry; [|intros; recv_kept].
  destruct (Data.is_end_stream frame); [|recv_kept].
  destruct (Stream.ensure_content_length_zero s'); [|recv_kept].
  destruct (State.recv_close (Stream.state s')) as [st|] eqn:Hc; [|recv_kept].
  kbind; [|intros; recv_kept]. eapply rctx_set_state_kept; [exact Hs'|].
  by apply apply_recv_close.
Qed.

Lemma recv_initial_kept c frame k : kept c (RecvOps.recv_initial frame k).
Proof.
  unfold RecvOps.recv_initial. recv_step. kmodifies_bind.
  - apply set_recv_evolves. intros r. by case_match.
  - eapply ensures_bind; [apply (inc_num_recv_streams_evolves moved)|]. intros [cs st] [Hr He].
    apply ensures_Done. split; [done|done|]. record. by rewrite Hr.
Qed.

Lemma accept_headers_kept c frame k : kept c (RecvOps.accept_headers frame k).
Proof. unfold RecvOps.accept_headers. cbv zeta. recv_kept. Qed.
#[local] Hint Resolve recv_initial_kept accept_headers_kept : keeps.

Lemma parse_content_length_moved s frame :
  ensures (Recv.parse_content_length s frame) (fun '(_, s') => moved s s').
Proof.
  unfold Recv.parse_content_length. destruct (hm_value_of_key _ _); [|by apply ensures_Done].
  apply ensures_obind; intros [n|e] _; [|by apply ensures_Done].
  cbv zeta. destruct (_ && _); apply ensures_Done; moved.
Qed.

Lemma recv_headers_kept c frame k : kept c (RecvOps.recv_headers frame k).
Proof.
  unfold RecvOps.recv_headers. apply rctx_stream_kept; intros s Hs.
  destruct (State.recv_open_frame _ _) as [[st is_initial]|e] eqn:Ho; [|recv_kept].
  kbind; [eapply rctx_set_state_kept; [exact Hs|by eapply apply_recv_open]|intros _ c1 _].
  kbind; [recv_kept|intros _ c2 _]. apply rctx_stream_kept; intros s2 Hs2.
  ktry; [|intros; recv_kept]. destruct (negb _); [|recv_kept].
  apply keeps_lift. intros [r s3] Hp. apply parse_content_length_moved in Hp.
  kbind; [|intros; recv_kept]. by eapply rctx_assign_kept.
Qed.

Lemma recv_trailers_kept c frame k role : kept c (RecvOps.recv_trailers frame k role).
Proof. unfold RecvOps.recv_trailers. recv_kept. Qed.

Lemma counts_outcome_kept {A} c (f : Counts.t -> outcome Counts.t) (m : M RCtx.t A) :
  ensures (f (RCtx.counts c)) (fun cs => Counts.role cs = Counts.role (RCtx.counts c)) ->
  (forall c, kept c m) ->
  kept c (let* counts := lift (f (RCtx.counts c)) in
          modifies (fun c => c <| RCtx.counts := counts |>);* m).
Proof.
  intros Hf Hm. apply keeps_lift; intros cs Hcs. kmodifies_bind; [|apply Hm].
  apply set_counts_evolves. exact (Hf _ Hcs).
Qed.

Lemma recv_reset_kept c frame k : kept c (RecvOps.recv_reset frame k).
Proof.
  unfold RecvOps.recv_reset. apply rctx_stream_kept; intros s Hs.
  ktry; [|intros; recv_kept]. destruct (Stream.is_pending_accept s); [|recv_kept].
  apply keeps_gets. destruct (Counts.can_inc_num_remote_reset_streams _); [|recv_kept].
  apply counts_outcome_kept; [|intros; recv_kept].
  repeat (apply ensures_obind; intros ? _). by apply ensures_Done.
Qed.

Lemma enqueue_reset_expiration_kept c now k : kept c (RecvOps.enqueue_reset_expiration now k).
Proof.
  unfold RecvOps.enqueue_reset_expiration. apply rctx_stream_kept; intros s Hs.
  destruct (_ || _); [recv_kept|]. apply keeps_gets.
  destruct (Counts.can_inc_num_reset_streams _); [|recv_kept].
  apply counts_outcome_kept; [|intros; recv_kept].
  repeat (apply ensures_obind; intros ? _). by apply ensures_Done.
Qed.

Lemma recv_handle_error_kept c err k : kept c (RecvOps.handle_error err k).
Proof. unfold RecvOps.handle_error. recv_kept. Qed.

Lemma recv_eof_kept c k : kept c (RecvOps.recv_eof k).
Proof. unfold RecvOps.recv_eof. recv_kept. Qed.

Lemma change_window_evolves change st k :
  (forall f, flow_step f (change f).2) ->
  ensures (RecvOps.change_window change tt st k) (fun '(_, _, st') => store_evolves st st').
Proof.
  intros Hc. unfold RecvOps.change_window. apply ensures_obind; intros s Hs.
  pose proof (Hc (Stream.recv_flow s)) as Hf. destruct (change _) as [r f]. apply ensures_Done.
  eapply (index_put_evolves moved); [done|]. eapply moved_recv_flow; [exact Hf|]. by apply moved_same.
Qed.

Lemma apply_local_settings_kept c settings : kept c (RecvOps.apply_local_settings settings).
Proof.
  assert (forall change c, (forall f, flow_step f (change f).2) ->
    kept c (fun c => let! (r, _, st) :=
      Store.try_for_each (RecvOps.change_window change) tt (RCtx.store c) in
      Done (r, c <| RCtx.store := st |>))) as Hall.
  { intros change c0 Hc. eapply ensures_bind.
    - apply (try_for_each_evolves _ (fun _ st _ st' => store_evolves st st'));
        [done|intros; by etrans|intros []; intros; by apply change_window_evolves].
    - intros [[r x] st] He. by apply ensures_Done, rctx_store_evolves. }
  unfold RecvOps.apply_local_settings. cbv zeta. recv_step. recv_step.
  destruct (Settings.initial_window_size settings); [|recv_kept]. recv_step. recv_step. recv_step.
  destruct (_ ?= _); [recv_kept|apply Hall..]; intros f; constructor.
Qed.

Lemma recv_clear_queues_kept c b : kept c (RecvOps.clear_queues b).
Proof.
  unfold RecvOps.clear_queues, RecvOps.clear_all_reset_streams, RecvOps.clear_all_pending_accept,
    RecvOps.clear_all_pending_complete, RecvOps.clear_all. recv_kept.
Qed.

Lemma clear_expired_reset_streams_kept c now : kept c (RecvOps.clear_expired_reset_streams now).
Proof. unfold RecvOps.clear_expired_reset_streams. recv_kept. Qed.

Lemma process_loop_kept {T} c fuel k body (m : Message T) : kept c (RecvOps.process_loop fuel k body m).
Proof.
  revert c body m. induction fuel as [|fuel IH]; intros c body m; cbn [RecvOps.process_loop];
    [apply keeps_panic|]. kbind; [recv_kept|]. intros [[]|] c' _; try apply IH; recv_kept.
Qed.
#[local] Hint Resolve process_loop_kept : keeps.

Lemma take_request_kept c k : kept c (RecvOps.take_request k).
Proof. unfold RecvOps.take_request, RecvOps.process_remaining_frames. recv_kept. Qed.

Lemma take_response_kept c k : kept c (RecvOps.take_response k).
Proof. unfold RecvOps.take_response, RecvOps.process_remaining_frames. recv_kept. Qed.
#[local] Hint Resolve take_response_kept : keeps.

Lemma poll_response_kept c waker k : kept c (RecvOps.poll_response waker k).
Proof. unfold RecvOps.poll_response. recv_kept. Qed.

Lemma take_partial_response_kept c k : kept c (RecvOps.take_partial_response k).
Proof. unfold RecvOps.take_partial_response. recv_kept. Qed.

End ops.

#[export] Hint Resolve next_accept_kept recv_clear_stream_queue_kept recv_data_kept recv_headers_kept
  recv_trailers_kept recv_reset_kept enqueue_reset_expiration_kept recv_handle_error_kept
  recv_eof_kept apply_local_settings_kept recv_clear_queues_kept clear_expired_reset_streams_kept
  take_request_kept poll_response_kept take_partial_response_kept : keeps.
