(* ===== verification/Inner.v ===== *)
(** * The streams of a connection

    Models [src/src/proto/streams/action.rs] and [src/src/proto/streams/inner.rs]: the
    state shared by a connection and its handles, and one handler per frame of the
    peer.  [Inner.t] is the [Inner] of the source together with the frames to send
    ([SendBuffer], a second lock in the source).  The handlers of [Send] and [Recv] run
    on it through the projections [as_send] and [as_recv]. *)

From Stdlib Require Import String.
From S2P Require Import Prelude Effects FrameBase ControlFrames SettingsFrame DataFrame HpackHeader.
From S2P Require Import HeadersFrame ProtoErrors FramedRead FrameSink ProtoHandlers StreamState.
From S2P Require Import FlowWindow SlabLib FrameBuffer StreamRec StreamStore StreamQueue Spa.
From S2P Require Import StreamCounts Send SendOps SendPoll Messages Recv RecvOps.

(** [proto::error::GoAway] *)
Record GoAwayError : Type := goAwayError { ga_debug_data : bytes; ga_reason : Reason.t }.

Module Actions.

Section actions.
Context `{HttpPlz} `{SlabOps} `{IndexMapOps}.

Record t : Type := mk {
  recv : Recv.t;
  send : Send.t;
  task : option Z;
  conn_error : option ProtoError.t
}.

#[global] Instance eta_t : Eta t := fun a => mk (recv a) (send a) (task a) (conn_error a).

Definition new (role : Role.t) (config : ConnectionConfig.t) : t :=
  mk (Recv.new config role) (Send.new config) None None.

Definition next_id_of (a : t) (role : Role.t) (id : StreamId.t) : outcome (result StreamId.t unit) :=
  let! local := Role.is_local_init role id in
  Done (if local : bool then Send.next_stream_id (send a) else Recv.next_stream_id (recv a)).

Definition ensure_not_idle (a : t) (role : Role.t) (id : StreamId.t) :
    outcome (result unit Reason.t) :=
  let! next_id := next_id_of a role id in
  match next_id with
  | Ok next => if id >=? next then Done (Err Reason.PROTOCOL_ERROR) else Done (Ok tt)
  | Err _ => Done (Ok tt)
  end.

Definition is_forgotten_stream (a : t) (role : Role.t) (id : StreamId.t) : outcome bool :=
  if StreamId.is_zero id then Done false
  else
    let! next := next_id_of a role id in
    match next with
    | Ok next_id =>
        let! _ := assert (Bool.eqb (StreamId.is_server_initiated id)
                                   (StreamId.is_server_initiated next_id)) in
        Done (id <? next_id)
    | Err _ => Done true
    end.

Definition ensure_no_conn_error (a : t) : result unit ProtoError.t :=
  match conn_error a with Some err => Err err | None => Ok tt end.

End actions.

End Actions.

Module Inner.

Section inner.
Context `{HttpPlz} `{SlabOps} `{IndexMapOps}.

Record t : Type := mk {
  counts : Counts.t;
  actions : Actions.t;
  store : Store.t;
  refs : Z;
  send_buffer : Buffer.t (T:=Frame.t)
}.

#[global] Instance eta_t : Eta t := fun i =>
  mk (counts i) (actions i) (store i) (refs i) (send_buffer i).

Definition new (role : Role.t) (config : ConnectionConfig.t) : t :=
  mk (Counts.new role config) (Actions.new role config) Store.new 1 Buffer.new.

(** What the functions of [Send] and of [Recv] are given. *)
Definition as_send (i : t) : Ctx.t :=
  Ctx.mk (Actions.send (actions i)) (send_buffer i) (store i) (counts i) (Actions.task (actions i)).

#[global] Instance update_as_send : Update as_send := fun f i =>
  let c := f (as_send i) in
  i <| actions ::= (fun a => a <| Actions.send := Ctx.send c |> <| Actions.task := Ctx.task c |>) |>
    <| send_buffer := Ctx.buffer c |> <| store := Ctx.store c |> <| counts := Ctx.counts c |>.

Definition as_recv (i : t) : RCtx.t :=
  RCtx.mk (Actions.recv (actions i)) (store i) (counts i).

#[global] Instance update_as_recv : Update as_recv := fun f i =>
  let c := f (as_recv i) in
  i <| actions ::= (fun a => a <| Actions.recv := RCtx.recv c |>) |>
    <| store := RCtx.store c |> <| counts := RCtx.counts c |>.

Abbreviation I := (M t) (only parsing).

Definition sending {A} (m : M Ctx.t A) : I A := zoom as_send m.
Definition receiving {A} (m : M RCtx.t A) : I A := zoom as_recv m.

Definition stream (k : Key.t) : I Stream.t := fun i =>
  let! s := Store.index (store i) k in Done (s, i).

Definition modify (k : Key.t) (f : Stream.t -> Stream.t) : I unit := fun i =>
  let! st := Store.modify (store i) k f in Done (tt, i <| store := st |>).

Definition role : I Role.t := gets (fun i => Counts.role (counts i)).

Definition set_actions (f : Actions.t -> Actions.t) : I unit :=
  modifies (fun i => i <| actions ::= f |>).

(** [Counts::transition] for a closure that changes everything. *)
Definition transition {U} (k : Key.t) (f : I U) : I U :=
  let* s := stream k in
  let is_pending_reset := Stream.is_pending_reset_expiration s in
  let* ret' := f in
  sending (Ctx.transition_after k is_pending_reset);*
  ret ret'.

(** [Store::for_each] *)
Definition for_each (f : Key.t -> I unit) : I unit := fun i =>
  let! (i, st) :=
    Store.for_each (fun i st k => let! (_, i) := f k (i <| store := st |>) in Done (i, store i))
      i (store i) in
  Done (tt, i <| store := st |>).

(** ** Resets: [Actions] *)

Definition too_many_internal_resets : bytes := str "too_many_internal_resets".

(** Send a reset and keep the stream for a while; [now] is the clock. *)
Definition reset_stream (now : Z) (reason : Reason.t) (initiator : Initiator.t) (k : Key.t) : I unit :=
  sending (SendOps.send_reset reason initiator k);*
  receiving (RecvOps.enqueue_reset_expiration now k);*
  modify k Stream.notify_recv.

Definition inc_num_local_error_resets : I unit := fun i =>
  let! cs := Counts.inc_num_local_error_resets (counts i) in
  Done (tt, i <| counts := cs |>).

Definition actions_send_reset (now : Z) (k : Key.t) (reason : Reason.t) (initiator : Initiator.t) :
    I (result unit GoAwayError) :=
  transition k
    (let* cs := gets counts in
     if Initiator.is_library initiator && negb (Counts.can_inc_num_local_error_resets cs)
     then ret (Err (goAwayError too_many_internal_resets Reason.ENHANCE_YOUR_CALM))
     else
       when (Initiator.is_library initiator) inc_num_local_error_resets;*
       reset_stream now reason initiator k;*
       ret (Ok tt)).

Definition reset_on_recv_stream_err (now : Z) (k : Key.t) (res : result unit ProtoError.t) :
    I (result unit ProtoError.t) :=
  match res with
  | Err (ProtoError.Reset stream_id reason initiator) =>
      let* s := stream k in
      lift (assert (stream_id =? Stream.id s));*
      let* cs := gets counts in
      if Counts.can_inc_num_local_error_resets cs then
        inc_num_local_error_resets;*
        reset_stream now reason initiator k;*
        ret (Ok tt)
      else
        ret (Err (ProtoError.library_go_away_data Reason.ENHANCE_YOUR_CALM too_many_internal_resets))
  | _ => ret res
  end.

Definition clear_queues (clear_pending_accept : bool) : I unit :=
  receiving (RecvOps.clear_queues clear_pending_accept);*
  sending SendOps.clear_queues.

(** ** DATA *)

Definition recv_data (now : Z) (frame : Data.t bytes) : I (result unit ProtoError.t) :=
  let id := Data.stream_id frame in
  let* st := gets store in
  let* a := gets actions in
  let* role := role in
  match Store.find_mut st id with
  | None =>
      if id >? Recv.max_stream_id (Actions.recv a) then ret (Ok tt)
      else
        let* forgotten := lift (Actions.is_forgotten_stream a role id) in
        if forgotten : bool then
          let sz := len (Data.payload frame) in
          lift (assert (sz <=? MAX_WINDOW_SIZE));*
          receiving (RecvOps.set_recv (fun r =>
            r <| Recv.check_connection_window_update := true |>));*
          let*? _ := receiving (RecvOps.on_recv (fun r => Recv.dec_connection_window r sz)) in
          ret (Err (ProtoError.library_reset id Reason.STREAM_CLOSED))
        else ret (Err (ProtoError.library_go_away Reason.PROTOCOL_ERROR))
  | Some k =>
      transition k
        (let* res := receiving (RecvOps.recv_data frame k role) in
         reset_on_recv_stream_err now k res)
  end.

(** ** HEADERS *)

(** [insert_or_create]: the key of the stream, [None] when it is refused. *)
Definition insert_or_create (id : StreamId.t) (role : Role.t) :
    I (result (option Key.t) ProtoError.t) :=
  let* st := gets store in
  let* a := gets actions in
  match Store.find_entry st id with
  | Some key => ret (Ok (Some key))
  | None =>
      let* forgotten := (if negb (Role.is_server role)
                         then lift (Actions.is_forgotten_stream a role id)
                         else ret false) in
      if forgotten : bool then ret (Err (ProtoError.library_reset id Reason.STREAM_CLOSED))
      else
        let*? opened := (fun i =>
          let! (r, rcv) := Recv.can_open (Actions.recv (actions i)) id Open.Headers (counts i) role in
          Done (r, i <| actions ::= (fun a => a <| Actions.recv := rcv |>) |>)) in
        match opened with
        | Some stream_id =>
            (fun i =>
              let s := Stream.new stream_id (Send.init_window_sz (Actions.send (actions i)))
                         (Recv.init_window_sz (Actions.recv (actions i))) in
              let (k, st) := Store.vacant_insert (store i) id s in
              Done (Ok (Some k), i <| store := st |>))
        | None => ret (Ok None)
        end
  end.

(** A request whose header list is too large gets a 431 response and a reset. *)
Definition oversize_response (now : Z) (resp : Headers.t) (k : Key.t) : I unit :=
  let* sent := sending (SendOps.send_headers resp k) in
  lift (assert (is_ok sent));*
  sending (SendOps.schedule_implicit_reset k Reason.PROTOCOL_ERROR);*
  receiving (RecvOps.enqueue_reset_expiration now k).

Definition recv_headers_of (now : Z) (frame : Headers.t) (k : Key.t) (role : Role.t) :
    I (result unit ProtoError.t) :=
  let* s := stream k in
  if State.is_recv_headers (Stream.state s) then
    let* r := receiving (RecvOps.recv_headers frame k) in
    let* res :=
      match r with
      | Ok _ => ret (Ok tt)
      | Err (Oversize (Some resp)) =>
          oversize_response now resp k;*
          ret (Ok tt)
      | Err (Oversize None) =>
          ret (Err (ProtoError.library_reset (Stream.id s) Reason.PROTOCOL_ERROR))
      | Err (StateError e) => ret (Err e)
      end in
    reset_on_recv_stream_err now k res
  else if negb (Headers.is_end_stream frame)
  then ret (Err (ProtoError.library_reset (Stream.id s) Reason.PROTOCOL_ERROR))
  else
    let* res := receiving (RecvOps.recv_trailers frame k role) in
    reset_on_recv_stream_err now k res.

Definition recv_headers (now : Z) (frame : Headers.t) : I (result unit ProtoError.t) :=
  let id := Headers.stream_id frame in
  let* role := role in
  let* a := gets actions in
  if id >? Recv.max_stream_id (Actions.recv a) then ret (Ok tt)
  else
    let*? key := insert_or_create id role in
    match key with
    | None => ret (Ok tt)
    | Some k =>
        let* s := stream k in
        if State.is_local_error (Stream.state s) then ret (Ok tt)
        else transition k (recv_headers_of now frame k role)
    end.

(** ** RST_STREAM *)

Definition recv_reset (frame : Reset.t) : I (result unit ProtoError.t) :=
  let id := Reset.stream_id frame in
  let* a := gets actions in
  let* st := gets store in
  let* role := role in
  if StreamId.is_zero id then ret (Err (ProtoError.library_go_away Reason.PROTOCOL_ERROR))
  else if id >? Recv.max_stream_id (Actions.recv a) then ret (Ok tt)
  else
    match Store.find_mut st id with
    | None =>
        let* r := lift (Actions.ensure_not_idle a role id) in
        ret (map_err ProtoError.library_go_away r)
    | Some k =>
        transition k
          (let*? _ := receiving (RecvOps.recv_reset frame k) in
           sending (SendOps.handle_error k);*
           let* s := stream k in
           lift (assert (State.is_closed (Stream.state s)));*
           ret (Ok tt))
    end.

Definition send_reset (now : Z) (id : StreamId.t) (reason : Reason.t) : I (result unit GoAwayError) :=
  let* st := gets store in
  let* role := role in
  let* key :=
    match Store.find_entry st id with
    | Some k => ret k
    | None =>
        let* local := lift (Role.is_local_init role id) in
        (fun i =>
          let a := actions i in
          let! a :=
            if local : bool then
              let! s := Send.maybe_reset_next_stream_id (Actions.send a) id in
              Done (a <| Actions.send := s |>)
            else
              let! r := Recv.maybe_reset_next_stream_id (Actions.recv a) id in
              Done (a <| Actions.recv := r |>) in
          let (k, st) := Store.vacant_insert (store i) id (Stream.new id 0 0) in
          Done (k, i <| actions := a |> <| store := st |>))
    end in
  actions_send_reset now key reason Initiator.Library.

(** ** GOAWAY and errors *)

(** A stream is told of a connection error, and its frames are dropped. *)
Definition fail_stream (err : ProtoError.t) (k : Key.t) : I unit :=
  transition k
    (receiving (RecvOps.handle_error err k);*
     sending (SendOps.handle_error k)).

Definition recv_go_away (frame : GoAway.t) : I (result unit ProtoError.t) :=
  let last_stream_id := GoAway.last_stream_id frame in
  let*? _ := (fun i =>
    let (r, s) := Send.recv_go_away (Actions.send (actions i)) last_stream_id in
    Done (r, i <| actions ::= (fun a => a <| Actions.send := s |>) |>)) in
  let err := ProtoError.remote_go_away (GoAway.debug_data frame) (GoAway.error_code frame) in
  for_each (fun k =>
    let* s := stream k in
    when (Stream.id s >? last_stream_id) (fail_stream err k));*
  set_actions (fun a => a <| Actions.conn_error := Some err |>);*
  ret (Ok tt).

(** [handle_error]: the id of the last stream that was processed. *)
Definition handle_error (err : ProtoError.t) : I StreamId.t :=
  let* last_processed_id := gets (fun i => Recv.last_processed_id (Actions.recv (actions i))) in
  for_each (fail_stream err);*
  set_actions (fun a => a <| Actions.conn_error := Some err |>);*
  ret last_processed_id.

Definition connection_broken_pipe : bytes := str "connection closed because of a broken pipe".

Definition recv_eof (clear_pending_accept : bool) : I (result unit unit) :=
  set_actions (fun a =>
    match Actions.conn_error a with
    | None => a <| Actions.conn_error := Some (ProtoError.Io BrokenPipe (Some connection_broken_pipe)) |>
    | Some _ => a
    end);*
  for_each (fun k =>
    transition k
      (receiving (RecvOps.recv_eof k);*
       sending (SendOps.handle_error k)));*
  clear_queues clear_pending_accept;*
  ret (Ok tt).

(** ** WINDOW_UPDATE *)

Definition recv_window_update (now : Z) (frame : WindowUpdate.t) : I (result unit ProtoError.t) :=
  let id := WindowUpdate.stream_id frame in
  let size := WindowUpdate.size_increment frame in
  if StreamId.is_zero id then
    let* r := sending (SendOps.recv_connection_window_update size) in
    ret (map_err ProtoError.library_go_away r)
  else
    let* st := gets store in
    let* a := gets actions in
    let* role := role in
    match Store.find_mut st id with
    | Some k =>
        let* res := sending (SendOps.recv_stream_window_update size k) in
        reset_on_recv_stream_err now k (map_err (ProtoError.library_reset id) res)
    | None =>
        let* r := lift (Actions.ensure_not_idle a role id) in
        ret (map_err ProtoError.library_go_away r)
    end.

(** ** Polling *)

Context `{!FrameSink}.

Definition should_send_stream_window_update (i : t) : outcome (option (StreamId.t * Z)) :=
  match Recv.check_stream_window_update (Actions.recv (actions i)) with
  | None => Done None
  | Some key =>
      let! s := Store.index (store i) key in
      let! size := FlowControl.should_send_window_update (Stream.recv_flow s) in
      Done (option_map (fun size => (Stream.id s, size)) size)
  end.

(** One WINDOW_UPDATE frame, once the codec is ready. *)
Definition send_window_update (id : StreamId.t) (size : Z) (dst : sink) :
    outcome (poll (result unit io_error) * sink) :=
  match poll_ready dst with
  | (Ready (Ok _), dst) =>
      let! (res, dst) := sink_buffer dst (Frame.WindowUpdate (WindowUpdate.new id size)) in
      let! _ := assert (is_ok res) in
      Done (Ready (Ok tt), dst)
  | (res, dst) => Done (res, dst)
  end.

Definition poll_connection_window_update (i : t) (dst : sink) :
    outcome (poll (result unit io_error) * t * sink) :=
  let! size := Recv.should_send_connection_window_update (Actions.recv (actions i)) in
  match size with
  | None => Done (Ready (Ok tt), i, dst)
  | Some size =>
      let! (r, dst) := send_window_update StreamId.ZERO size dst in
      match r with
      | Ready (Ok _) =>
          Done (r, i <| actions ::= (fun a => a <| Actions.recv ::= (fun rc =>
                     (Recv.inc_connection_window rc size).2) |>) |>, dst)
      | r => Done (r, i, dst)
      end
  end.

Definition poll_stream_window_update (i : t) (dst : sink) :
    outcome (poll (result unit io_error) * t * sink) :=
  let! update := should_send_stream_window_update i in
  match update with
  | None => Done (Ready (Ok tt), i, dst)
  | Some (stream_id, size) =>
      let! (r, dst) := send_window_update stream_id size dst in
      match r with
      | Ready (Ok _) =>
          match Store.find_mut (store i) stream_id with
          | Some k =>
              let! st := Store.modify (store i) k (fun s =>
                s <| Stream.recv_flow ::= (fun f => (FlowControl.inc_window f size).2) |>) in
              Done (r, i <| store := st |>, dst)
          | None => Done (r, i, dst)
          end
      | r => Done (r, i, dst)
      end
  end.

Definition poll_window_update (i : t) (dst : sink) :
    outcome (poll (result unit io_error) * t * sink) :=
  if negb (Recv.check_connection_window_update (Actions.recv (actions i)))
  then Done (Ready (Ok tt), i, dst)
  else
    let! (r, i, dst) := poll_connection_window_update i dst in
    match r with
    | Ready (Ok _) =>
        let! (r, i, dst) := poll_stream_window_update i dst in
        match r with
        | Ready (Ok _) =>
            Done (Ready (Ok tt),
                  i <| actions ::= (fun a => a <| Actions.recv ::= (fun rc =>
                    rc <| Recv.check_connection_window_update := false |>
                       <| Recv.check_stream_window_update := None |>) |>) |>,
                  dst)
        | r => Done (r, i, dst)
        end
    | r => Done (r, i, dst)
    end.

(** [poll_complete]; [waker] is the waker of the connection task. *)
Definition poll_complete (fuel : nat) (waker : Z) (i : t) (dst : sink) :
    outcome (poll (result unit io_error) * t * sink) :=
  let! (r, c, dst) := SendPoll.poll_complete fuel (as_send i) dst in
  let i := i <| as_send := c |> in
  match r with
  | Ready (Ok _) =>
      Done (Ready (Ok tt), i <| actions ::= (fun a => a <| Actions.task := Some waker |>) |>, dst)
  | r => Done (r, i, dst)
  end.

End inner.

End Inner.
