(* ===== verification/Streams.v ===== *)
(** * Handles and the public operations on streams

    Models [src/src/proto/streams/streams.rs], [streams_ref.rs] and
    [opaque_streams_ref.rs]: sending requests and responses, accepting streams, and the
    life of the handles.  A handle is the key of its stream; the state it shares with
    the connection is the world [Inner.t]. *)

From S2P Require Import Prelude Effects FrameBase ControlFrames SettingsFrame DataFrame HpackHeader.
From S2P Require Import HeadersFrame ProtoErrors FramedRead FrameSink ProtoHandlers StreamState.
From S2P Require Import FlowWindow SlabLib FrameBuffer StreamRec StreamStore StreamQueue Spa.
From S2P Require Import StreamCounts Send SendOps SendPoll Messages Recv RecvOps Inner.

(** [codec::SendError] *)
Inductive SendError : Type :=
| SendConnection (e : ProtoError.t)
| SendUser (e : UserError.t).

Module Streams.

Import Inner.

Section streams.
Context `{HttpPlz} `{SlabOps} `{IndexMapOps}.

Abbreviation I := (M Inner.t) (only parsing).

Definition new : Role.t -> ConnectionConfig.t -> Inner.t := Inner.new.

Definition wake : I unit := set_actions (fun a => a <| Actions.task := None |>).

(** [refs += 1] and [refs -= 1], checked. *)
Definition refs_inc : I unit := fun i =>
  let! _ := assert (refs i <? usize_max) in Done (tt, i <| refs ::= (fun n => n + 1) |>).
Definition refs_dec : I unit := fun i =>
  let! _ := assert (refs i >? 0) in Done (tt, i <| refs ::= (fun n => n - 1) |>).

Definition modify_m (k : Key.t) (f : Stream.t -> outcome Stream.t) : I unit :=
  sending (Ctx.modify_m k f).

(** [OpaqueStreamRef::new] *)
Definition new_ref (k : Key.t) : I Key.t :=
  modify_m k Stream.ref_inc;*
  ret k.

(** [OpaqueStreamRef::clone] *)
Definition clone_ref (k : Key.t) : I Key.t :=
  modify_m k Stream.ref_inc;*
  refs_inc;*
  ret k.

(** ** Sending messages *)

Definition queue_body_trailer (k : Key.t) (data_frame : option (Data.t bytes))
    (trailer_frame : option Headers.t) : M Ctx.t unit :=
  (match data_frame with
   | Some frame =>
       Ctx.modify k (fun s =>
         s <| Stream.remaining_data_len := Some (len (Data.payload frame)) |>);*
       Ctx.push_back k (Frame.Data frame)
   | None => ret tt
   end);*
  (match trailer_frame with
   | Some frame => Ctx.push_back k (Frame.Headers frame)
   | None => ret tt
   end).

(** The frames of a request; with [is_spa] there is always a DATA frame. *)
Definition request_frames (stream_id : StreamId.t) (request : Request) (is_spa : bool) :
    outcome TwoTwoFrame :=
  let! frames := frames_of_message request_into_pseudo stream_id request in
  match tt_data frames with
  | None =>
      if is_spa then
        let! d := Data.new stream_id [] in
        Done (twoTwoFrame (Headers.unset_end_stream (tt_header frames)) (Some d) (tt_trailer frames))
      else Done frames
  | Some _ => Done frames
  end.

(** The stream of a request is opened and stored. *)
Definition open_stream (request : Request) : I (result Key.t SendError) := fun i =>
  let! (r, snd) := Send.open (Actions.send (actions i)) in
  let i := i <| actions ::= (fun a => a <| Actions.send := snd |>) |> in
  match r with
  | Err e => Done (Err (SendUser e), i)
  | Ok stream_id =>
      let s := Stream.new stream_id (Send.init_window_sz (Actions.send (actions i)))
                 (Recv.init_window_sz (Actions.recv (actions i))) in
      let s := if bool_decide (request_method request = method_HEAD)
               then s <| Stream.content_length := ContentLength.Head |> else s in
      let! (k, st) := Store.insert (store i) (Stream.id s) s in
      Done (Ok k, i <| store := st |>)
  end.

Definition send_request (request : Request) (is_spa : bool) : I (result Key.t SendError) :=
  let* a := gets actions in
  let* role := role in
  match Actions.ensure_no_conn_error a, Send.ensure_next_stream_id (Actions.send a) with
  | Err e, _ => ret (Err (SendConnection e))
  | Ok _, Err e => ret (Err (SendUser e))
  | Ok _, Ok _ =>
      if Role.is_server role then ret (Err (SendUser UserError.UnexpectedFrameType))
      else
        let*? k := open_stream request in
        let* s := stream k in
        let* frames := lift (request_frames (Stream.id s) request is_spa) in
        let* sent := sending (SendOps.send_headers (tt_header frames) k) in
        match sent with
        | Err e =>
            (fun i =>
              let! (_, st) := Ptr.remove (Ptr.unlink (store i) k) k in
              Done (tt, i <| store := st |>));*
            ret (Err (SendUser e))
        | Ok _ =>
            sending (queue_body_trailer k (tt_data frames) (tt_trailer frames));*
            let* s := stream k in
            lift (assert (negb (State.is_closed (Stream.state s))));*
            refs_inc;*
            let* k := new_ref k in
            ret (Ok k)
        end
  end.

Definition send_response (k : Key.t) (response : Response) : I (result unit UserError.t) :=
  let* s := stream k in
  if State.is_remote_reset (Stream.state s) then
    wake;*
    ret (Err UserError.InactiveStreamId)
  else
    let* frames := lift (frames_of_message response_into_pseudo (Stream.id s) response) in
    let*? _ := transition k (sending (SendOps.send_headers (tt_header frames) k)) in
    sending (queue_body_trailer k (tt_data frames) (tt_trailer frames));*
    ret (Ok tt).

(** [StreamRef::send_reset]: an error is unreachable. *)
Definition ref_send_reset (now : Z) (k : Key.t) (reason : Reason.t) : I unit :=
  let* r := actions_send_reset now k reason Initiator.User in
  lift (assert (is_ok r)).

(** ** Receiving *)

Definition next_accept : I (option Key.t) :=
  let* key := receiving RecvOps.next_accept in
  match key with
  | None => ret None
  | Some k =>
      refs_inc;*
      let* s := stream k in
      (if State.is_remote_reset (Stream.state s) then
         (fun i =>
           let! cs := Counts.dec_num_remote_reset_streams (counts i) in
           Done (tt, i <| counts := cs |>))
       else ret tt);*
      let* k := new_ref k in
      ret (Some k)
  end.

Definition take_request (k : Key.t) : I Request := receiving (RecvOps.take_request k).

Definition poll_response (waker : Z) (k : Key.t) : I (poll (result Response PartialResponse)) :=
  receiving (RecvOps.poll_response waker k).

(** ** Settings and shutdown *)

Definition apply_local_settings (settings : Settings.t) : I (result unit ProtoError.t) :=
  receiving (RecvOps.apply_local_settings settings).

Definition apply_remote_settings (settings : Settings.t) : I (result unit ProtoError.t) :=
  modifies (fun i => i <| counts ::= (fun cs => Counts.apply_remote_settings cs settings) |>);*
  sending (SendOps.apply_remote_settings settings).

Definition send_go_away (last_processed_id : StreamId.t) : I unit := fun i =>
  let! r := Recv.go_away (Actions.recv (actions i)) last_processed_id in
  Done (tt, i <| actions ::= (fun a => a <| Actions.recv := r |>) |>).

Definition clear_expired_reset_streams (now : Z) : I unit :=
  receiving (RecvOps.clear_expired_reset_streams now).

Definition has_streams (i : Inner.t) : bool := Counts.has_streams (counts i).

Definition has_streams_or_other_references (i : Inner.t) : bool :=
  Counts.has_streams (counts i) || (refs i >? 1).

Definition last_processed_id (i : Inner.t) : StreamId.t :=
  Recv.last_processed_id (Actions.recv (actions i)).

Definition send_buffer_is_empty (i : Inner.t) : bool := Buffer.is_empty (send_buffer i).

Definition recvd_ping (payload : bytes) : I unit :=
  set_actions (fun a => a <| Actions.send ::= (fun s => Send.recvd_ping s payload) |>).

(** ** The end of a handle *)

Definition maybe_cancel (now : Z) (k : Key.t) : I unit :=
  let* s := stream k in
  if Stream.is_canceled_interest s && negb (Stream.is_pending_send s) then
    let* role := role in
    let reason :=
      if Role.is_server role && State.is_send_closed (Stream.state s) &&
         State.is_recv_streaming (Stream.state s)
      then Reason.NO_ERROR else Reason.CANCEL in
    sending (SendOps.schedule_implicit_reset k reason);*
    receiving (RecvOps.enqueue_reset_expiration now k)
  else ret tt.

(** The promised streams of a stream without handles: a queue of its own. *)
Fixpoint cancel_promises (now : Z) (fuel : nat) (ppp : queue) : I unit :=
  match fuel with
  | O => panic
  | S fuel =>
      let* (promise, ppp) := (fun i =>
        let! (k, q, st) := Queue.pop NextAccept ppp (store i) in
        Done ((k, q), i <| store := st |>)) in
      match promise with
      | Some k =>
          transition k (maybe_cancel now k);*
          cancel_promises now fuel ppp
      | None => ret tt
      end
  end.

(** [OpaqueStreamRef::drop] *)
Definition drop_stream_ref (now : Z) (k : Key.t) : I unit :=
  refs_dec;*
  modify_m k Stream.ref_dec;*
  let* s := stream k in
  when ((Stream.ref_count s =? 0) && Stream.is_closed s) wake;*
  when (Stream.connection_window_allocated s >? 0)
    (sending (SendOps.recv_connection_window_update 10);* ret tt);*
  receiving (RecvOps.clear_stream_queue k);*
  transition k
    (maybe_cancel now k;*
     let* s := stream k in
     if Stream.ref_count s =? 0 then
       modify k (fun s => s <| Stream.pending_push_promises := mkQueue None |>);*
       let* fuel := sending Ctx.streams_fuel in
       cancel_promises now fuel (Stream.pending_push_promises s)
     else ret tt).

(** [Streams::clone] and [Streams::drop] *)
Definition clone_streams : I unit := refs_inc.

Definition drop_streams : I unit :=
  refs_dec;*
  let* n := gets refs in
  when (n =? 1) wake.

End streams.

End Streams.
