(* ===== verification/InnerKept.v ===== *)
(** * The handlers of a connection keep their contract with the streams

    The operations of [Actions], [Inner] and the handles lift those of [Send] and
    [Recv]: they evolve the state shared by a connection.  The operations that move
    the limits on identifiers or store a new stream are in [Calls]. *)

From S2P Require Import Prelude Effects FrameBase ControlFrames SettingsFrame DataFrame HpackHeader.
From S2P Require Import HeadersFrame ProtoErrors FramedRead FrameSink ProtoHandlers StreamState.
From S2P Require Import FlowWindow SlabLib FrameBuffer StreamRec StreamStore StreamStoreFacts.
From S2P Require Import StreamQueue Spa StreamCounts Evolve Send SendOps SendPoll SendKept.
From S2P Require Import Messages Recv RecvOps RecvKept Inner Streams.

Section kept.
Context `{HttpPlz} `{Hsl : SlabOps} `{!SlabLaws Hsl} `{Him : IndexMapOps}.

Implicit Types (i : Inner.t) (k : Key.t) (s : Stream.t).

Definition inner_send i : Send.t := Actions.send (Inner.actions i).
Definition inner_recv i : Recv.t := Actions.recv (Inner.actions i).

#[export] Instance inner_world : World Inner.t := {|
  store_of := Inner.store;
  flows_of i := [Send.flow (inner_send i); Recv.flow (inner_recv i)];
  frame_of i := (Counts.role (Inner.counts i),
    [Send.next_stream_id (inner_send i); Ok (Send.max_stream_id (inner_send i));
     Recv.next_stream_id (inner_recv i); Ok (Recv.max_stream_id (inner_recv i))])
|}.

(** ** The primitives *)

Lemma as_send_evolves i c : evolves (Inner.as_send i) c -> evolves i (i <| Inner.as_send := c |>).
Proof.
  intros [He Hf Hr]. cbn in He, Hf, Hr. injection Hr as Hr Hn Hm. split.
  - exact He.
  - constructor; [|by constructor]. by apply Forall2_cons in Hf as [? _].
  - unfold frame_of, inner_world, inner_send, inner_recv. record. unfold Inner.update_as_send.
    record. by rewrite Hr, Hn, Hm.
Qed.

Lemma as_recv_evolves i c : evolves (Inner.as_recv i) c -> evolves i (i <| Inner.as_recv := c |>).
Proof.
  intros [He Hf Hr]. cbn in He, Hf, Hr. injection Hr as Hr Hn Hm. split.
  - exact He.
  - constructor; [done|]. exact Hf.
  - unfold frame_of, inner_world, inner_send, inner_recv. record. unfold Inner.update_as_recv.
    record. by rewrite Hr, Hn, Hm.
Qed.

Lemma sending_kept {A} i (m : M Ctx.t A) : (forall c, kept c m) -> kept i (Inner.sending m).
Proof.
  intros Hm. eapply ensures_bind; [apply Hm|]. intros [a c] He.
  by apply ensures_Done, as_send_evolves.
Qed.

Lemma receiving_kept {A} i (m : M RCtx.t A) : (forall c, kept c m) -> kept i (Inner.receiving m).
Proof.
  intros Hm. eapply ensures_bind; [apply Hm|]. intros [a c] He.
  by apply ensures_Done, as_recv_evolves.
Qed.

Lemma inner_stream_kept {A} i k (f : Stream.t -> M Inner.t A) :
  (forall s, Store.lookup (Inner.store i) k = Some s -> kept i (f s)) ->
  kept i (bind (Inner.stream k) f).
Proof.
  intros Hf. unfold keeps, bind, Inner.stream, Store.index.
  destruct (Store.lookup (Inner.store i) k) as [s|] eqn:Hs; [|done]. by apply Hf.
Qed.

Lemma inner_modify_kept i k f :
  (forall s, Store.lookup (Inner.store i) k = Some s -> moved s (f s)) -> kept i (Inner.modify k f).
Proof.
  intros Hf. unfold keeps, Inner.modify. eapply ensures_bind; [by apply (modify_evolves moved)|].
  intros st He. apply ensures_Done. by split.
Qed.

Lemma set_counts_kept i (f : Counts.t -> outcome Counts.t) :
  ensures (f (Inner.counts i)) (fun cs => Counts.role cs = Counts.role (Inner.counts i)) ->
  kept i (fun i => let! cs := f (Inner.counts i) in Done (tt, i <| Inner.counts := cs |>)).
Proof.
  intros Hf. eapply ensures_bind; [exact Hf|]. intros cs Hr. apply ensures_Done.
  split; [done..|]. unfold frame_of, inner_world. record. by rewrite Hr.
Qed.

Lemma inner_transition_kept {U} i k (f : M Inner.t U) : kept i f -> kept i (Inner.transition k f).
Proof.
  intros Hf. unfold Inner.transition. apply inner_stream_kept; intros s _. cbv zeta.
  kbind; [done|intros a i' _]. kbind; [|intros; kret].
  apply sending_kept. intros. apply ctx_transition_after_kept.
Qed.

Lemma inner_for_each_kept i (f : Key.t -> M Inner.t unit) :
  (forall i k, kept i (f k)) -> kept i (Inner.for_each f).
Proof.
  intros Hf. unfold keeps, Inner.for_each, Store.for_each.
  eapply (ensures_bind _ _ (fun '(i', st) => evolves i (i' <| Inner.store := st |>))).
  - eapply ensures_bind;
      [apply (try_for_each_evolves _ (fun i st i' st' =>
         evolves (i <| Inner.store := st |>) (i' <| Inner.store := st' |>)))|].
    + done.
    + intros. by etrans.
    + intros i1 st k. eapply (ensures_bind _ _ (fun '(i2, st2) =>
        evolves (i1 <| Inner.store := st |>) (i2 <| Inner.store := st2 |>))).
      * eapply ensures_bind; [apply Hf|]. intros [u i2] He. apply ensures_Done. by destruct i2.
      * intros [i2 st2] He. by apply ensures_Done.
    + intros [[r i'] st'] He. apply ensures_Done. by destruct i.
  - intros [i' st] He. by apply ensures_Done.
Qed.

(** Settings of [Actions] that are not part of the contract. *)
Lemma set_actions_evolves i (f : Actions.t -> Actions.t) :
  (forall a, Send.flow (Actions.send (f a)) = Send.flow (Actions.send a) /\
     Send.next_stream_id (Actions.send (f a)) = Send.next_stream_id (Actions.send a) /\
     Send.max_stream_id (Actions.send (f a)) = Send.max_stream_id (Actions.send a) /\
     Actions.recv (f a) = Actions.recv a) ->
  evolves i (i <| Inner.actions ::= f |>).
Proof.
  intros Hf. destruct (Hf (Inner.actions i)) as (Hfl & Hn & Hm & Hr).
  split; [done|..]; unfold flows_of, frame_of, inner_world, inner_send, inner_recv; record;
    by rewrite ?Hfl, ?Hn, ?Hm, ?Hr.
Qed.

End kept.

#[export] Hint Extern 2 (kept _ (Inner.sending _)) => apply sending_kept; intros; solve [eauto with keeps] : keeps.
#[export] Hint Extern 2 (kept _ (Inner.receiving _)) =>
  apply receiving_kept; intros; solve [eauto with keeps] : keeps.
#[export] Hint Extern 2 (kept _ (Inner.modify _ _)) => apply inner_modify_kept; intros; moved : keeps.
#[export] Hint Extern 1 (evolves _ (_ <| Inner.actions ::= _ |>)) =>
  apply set_actions_evolves; intros; repeat case_match; by split_and! : keeps.

Ltac inner_step :=
  first
  [ lazymatch goal with
    | |- keeps _ _ (bind (Inner.stream _) _) => apply inner_stream_kept; intros ? ?
    | |- keeps _ _ (bind Inner.role _) => apply keeps_gets
    | |- keeps _ _ (Inner.transition _ _) => apply inner_transition_kept
    | |- keeps _ _ (bind (Inner.transition _ _) _) => kbind; [apply inner_transition_kept|intros ? ? _]
    | |- keeps _ _ (try (Inner.transition _ _) _) => ktry; [apply inner_transition_kept|intros ? ? _]
    | |- keeps _ _ (Inner.for_each _) => apply inner_for_each_kept; intros ? ?
    | |- keeps _ _ (bind (Inner.for_each _) _) => kbind; [apply inner_for_each_kept; intros ? ?|intros ? ? _]
    | |- keeps _ _ (Inner.set_actions _) => unfold Inner.set_actions
    | |- keeps _ _ (bind (Inner.set_actions _) _) => unfold Inner.set_actions at 1
    end
  | keeps_step
  | solve [eauto with keeps]
  | lazymatch goal with
    | |- keeps _ _ (bind _ _) => kbind; [|intros ? ? _]
    | |- keeps _ _ (try _ _) => ktry; [|intros ? ? _]
    end ].
Ltac inner_kept := repeat inner_step.

Section ops.
Context `{HttpPlz} `{Hsl : SlabOps} `{!SlabLaws Hsl} `{Him : IndexMapOps}.

Implicit Types (i : Inner.t) (k : Key.t) (s : Stream.t).

Lemma reset_stream_kept i now reason initiator k : kept i (Inner.reset_stream now reason initiator k).
Proof. unfold Inner.reset_stream. inner_kept. Qed.

Lemma inc_num_local_error_resets_kept i : kept i Inner.inc_num_local_error_resets.
Proof.
  apply set_counts_kept. repeat (apply ensures_obind; intros ? _). by apply ensures_Done.
Qed.
#[local] Hint Resolve reset_stream_kept inc_num_local_error_resets_kept : keeps.

Lemma actions_send_reset_kept i now k reason initiator :
  kept i (Inner.actions_send_reset now k reason initiator).
Proof. unfold Inner.actions_send_reset. inner_kept. Qed.

Lemma reset_on_recv_stream_err_kept i now k res : kept i (Inner.reset_on_recv_stream_err now k res).
Proof. unfold Inner.reset_on_recv_stream_err. inner_kept. Qed.
#[local] Hint Resolve actions_send_reset_kept reset_on_recv_stream_err_kept : keeps.

Lemma inner_clear_queues_kept i b : kept i (Inner.clear_queues b).
Proof. unfold Inner.clear_queues. inner_kept. Qed.
#[local] Hint Resolve inner_clear_queues_kept : keeps.

Lemma inner_recv_data_kept i now frame : kept i (Inner.recv_data now frame).
Proof.
  unfold Inner.recv_data. cbv zeta. inner_kept.
  all: apply receiving_kept; intros; unfold RecvOps.set_recv; recv_kept.
Qed.

Lemma oversize_response_kept i now resp k : kept i (Inner.oversize_response now resp k).
Proof. unfold Inner.oversize_response. inner_kept. Qed.
#[local] Hint Resolve oversize_response_kept : keeps.

Lemma recv_headers_of_kept i now frame k role : kept i (Inner.recv_headers_of now frame k role).
Proof. unfold Inner.recv_headers_of. inner_kept. Qed.

Lemma inner_recv_reset_kept i frame : kept i (Inner.recv_reset frame).
Proof. unfold Inner.recv_reset. cbv zeta. inner_kept. Qed.

Lemma fail_stream_kept i err k : kept i (Inner.fail_stream err k).
Proof. unfold Inner.fail_stream. inner_kept. Qed.
#[local] Hint Resolve fail_stream_kept : keeps.

Lemma inner_handle_error_kept i err : kept i (Inner.handle_error err).
Proof. unfold Inner.handle_error. inner_kept. Qed.

Lemma inner_recv_eof_kept i b : kept i (Inner.recv_eof b).
Proof. unfold Inner.recv_eof. inner_kept. Qed.

Lemma recv_window_update_kept i now frame : kept i (Inner.recv_window_update now frame).
Proof. unfold Inner.recv_window_update. cbv zeta. inner_kept. Qed.

(** ** The handles *)

Lemma wake_kept i : kept i Streams.wake.
Proof. unfold Streams.wake. inner_kept. Qed.

Lemma refs_inc_kept i : kept i Streams.refs_inc.
Proof. apply ensures_obind; intros ? _. by apply ensures_Done. Qed.

Lemma refs_dec_kept i : kept i Streams.refs_dec.
Proof. apply ensures_obind; intros ? _. by apply ensures_Done. Qed.

Lemma ref_count_kept i k f :
  (forall s, ensures (f s) (moved s)) -> kept i (Streams.modify_m k f).
Proof. intros Hf. apply sending_kept. intros c. apply ctx_modify_m_kept. intros s _. apply Hf. Qed.

Lemma ref_inc_moved s : ensures (Stream.ref_inc s) (moved s).
Proof. apply ensures_obind; intros ? _. apply ensures_Done. moved. Qed.

Lemma ref_dec_moved s : ensures (Stream.ref_dec s) (moved s).
Proof. apply ensures_obind; intros ? _. apply ensures_Done. moved. Qed.

Lemma new_ref_kept i k : kept i (Streams.new_ref k).
Proof. kbind; [apply ref_count_kept, ref_inc_moved|intros; kret]. Qed.
#[local] Hint Resolve wake_kept refs_inc_kept refs_dec_kept new_ref_kept : keeps.

Lemma clone_ref_kept i k : kept i (Streams.clone_ref k).
Proof.
  unfold Streams.clone_ref. kbind; [apply ref_count_kept, ref_inc_moved|intros].
  inner_kept.
Qed.

Lemma queue_body_trailer_kept (c : Ctx.t) k d t : kept c (Streams.queue_body_trailer k d t).
Proof. unfold Streams.queue_body_trailer. send_kept. Qed.
#[local] Hint Resolve queue_body_trailer_kept : keeps.

Lemma send_response_kept i k response : kept i (Streams.send_response k response).
Proof. unfold Streams.send_response. inner_kept. Qed.

Lemma ref_send_reset_kept i now k reason : kept i (Streams.ref_send_reset now k reason).
Proof. unfold Streams.ref_send_reset. inner_kept. Qed.

Lemma streams_next_accept_kept i : kept i Streams.next_accept.
Proof.
  unfold Streams.next_accept. inner_kept. apply set_counts_kept.
  apply ensures_obind; intros ? _. by apply ensures_Done.
Qed.

Lemma streams_apply_remote_settings_kept i settings : kept i (Streams.apply_remote_settings settings).
Proof.
  unfold Streams.apply_remote_settings. kmodifies_bind; [by split|]. inner_kept.
Qed.

Lemma streams_recvd_ping_kept i payload : kept i (Streams.recvd_ping payload).
Proof. unfold Streams.recvd_ping. inner_kept. Qed.

Lemma maybe_cancel_kept i now k : kept i (Streams.maybe_cancel now k).
Proof. unfold Streams.maybe_cancel. cbv zeta. inner_kept. Qed.
#[local] Hint Resolve maybe_cancel_kept : keeps.

Lemma cancel_promises_kept i now fuel ppp : kept i (Streams.cancel_promises now fuel ppp).
Proof.
  revert i ppp. induction fuel as [|fuel IH]; intros i ppp; cbn [Streams.cancel_promises];
    [apply keeps_panic|]. kbind.
  - eapply ensures_bind; [apply (queue_pop_evolves moved NextAccept)|]. intros [[k q] st] He.
    apply ensures_Done. by split.
  - intros [[k|] q] i' _; cbv iota; inner_kept.
Qed.
#[local] Hint Resolve cancel_promises_kept : keeps.

Lemma drop_stream_ref_kept i now k : kept i (Streams.drop_stream_ref now k).
Proof.
  unfold Streams.drop_stream_ref. kbind; [apply refs_dec_kept|intros ? ? _].
  kbind; [apply ref_count_kept, ref_dec_moved|intros ? ? _]. inner_kept.
  all: apply sending_kept; intros; send_kept.
Qed.

Lemma drop_streams_kept i : kept i Streams.drop_streams.
Proof. unfold Streams.drop_streams. inner_kept. Qed.

(** ** Polling *)

Context `{!FrameSink}.

Lemma inner_poll_complete_evolves fuel waker i dst :
  ensures (Inner.poll_complete fuel waker i dst) (fun '(_, i', _) => evolves i i').
Proof.
  unfold Inner.poll_complete. eapply ensures_bind; [apply poll_complete_evolves|].
  intros [[r c] d] He. apply as_send_evolves in He.
  destruct r as [[?|?]|]; apply ensures_Done; [|done..]. etrans; [exact He|]. by split.
Qed.

Lemma inc_connection_window_evolves i size :
  evolves i (i <| Inner.actions ::= (fun a => a <| Actions.recv ::= (fun rc =>
    (Recv.inc_connection_window rc size).2) |>) |>).
Proof.
  assert (forall rc, flow_step (Recv.flow rc) (Recv.flow (Recv.inc_connection_window rc size).2) /\
    Recv.next_stream_id (Recv.inc_connection_window rc size).2 = Recv.next_stream_id rc /\
    Recv.max_stream_id (Recv.inc_connection_window rc size).2 = Recv.max_stream_id rc) as Hrc.
  { intros rc. unfold Recv.inc_connection_window.
    destruct (FlowControl.inc_window _ _) as [r f] eqn:Hf. split_and!; [by eapply flow_inc_eq|done..]. }
  destruct (Hrc (inner_recv i)) as (Hf & Hn & Hm). split; [done|..].
  - constructor; [done|]. constructor; [|done]. by apply rtc_once.
  - unfold frame_of, inner_world, inner_send, inner_recv in *. record. by rewrite Hn, Hm.
Qed.

Lemma poll_window_update_evolves i dst :
  ensures (Inner.poll_window_update i dst) (fun '(_, i', _) => evolves i i').
Proof.
  unfold Inner.poll_window_update. destruct (negb _); [by apply ensures_Done|].
  eapply (ensures_bind _ _ (fun '(_, i', _) => evolves i i')).
  { unfold Inner.poll_connection_window_update. apply ensures_obind; intros [size|] _;
      [|by apply ensures_Done]. apply ensures_obind; intros [r d] _.
    destruct r as [[?|?]|]; apply ensures_Done; [apply inc_connection_window_evolves|done..]. }
  intros [[r i1] d1] He1. destruct r as [[?|?]|]; [|by apply ensures_Done..].
  eapply (ensures_bind _ _ (fun '(_, i', _) => evolves i i')).
  { unfold Inner.poll_stream_window_update. apply ensures_obind; intros [[id size]|] _;
      [|by apply ensures_Done]. apply ensures_obind; intros [r d] _.
    destruct r as [[?|?]|]; [|by apply ensures_Done..].
    destruct (Store.find_mut _ _) as [k|]; [|by apply ensures_Done].
    eapply ensures_bind; [apply (modify_evolves moved)|].
    - intros s _. eapply moved_recv_flow; [apply flow_inc|]. by apply moved_same.
    - intros st He. apply ensures_Done. etrans; [exact He1|]. by split. }
  intros [[r i2] d2] He2. destruct r as [[?|?]|]; apply ensures_Done; [|done..].
  etrans; [exact He2|]. by split.
Qed.

End ops.

#[export] Hint Resolve actions_send_reset_kept recv_headers_of_kept fail_stream_kept
  queue_body_trailer_kept new_ref_kept refs_inc_kept : keeps.
