(* ===== verification/Calls.v ===== *)
(** * The calls on a connection, as a transition system

    [call i i'] is one call of a public operation on the state shared by a connection:
    a handler of a frame, an operation of a handle, a poll against the codec.  Every
    state reached by calls from a new connection satisfies [inv]; every call
    [advances] the state: streams only move as [moved] allows, new streams start from
    [Stream.new], identifiers only grow, the limits of GOAWAY only shrink. *)

From S2P Require Import Prelude Effects FrameBase ControlFrames SettingsFrame DataFrame HpackHeader.
From S2P Require Import HeadersFrame ProtoErrors FramedRead FrameSink ProtoHandlers StreamState.
From S2P Require Import FlowWindow SlabLib FrameBuffer StreamRec StreamStore StreamStoreFacts.
From S2P Require Import StreamQueue Spa StreamCounts Evolve Send SendOps SendPoll SendKept.
From S2P Require Import Messages Recv RecvOps RecvKept Inner Streams InnerKept.

Section calls.
Context `{HttpPlz} `{Hsl : SlabOps} `{!SlabLaws Hsl} `{Him : IndexMapOps} `{!FrameSink}.

Implicit Types (i : Inner.t) (k : Key.t) (s : Stream.t) (id : StreamId.t).

(** ** The operations *)

Inductive operation : forall {A}, M Inner.t A -> Prop :=
| op_recv_data now frame : operation (Inner.recv_data now frame)
| op_recv_headers now frame : operation (Inner.recv_headers now frame)
| op_recv_reset frame : operation (Inner.recv_reset frame)
| op_recv_go_away frame : operation (Inner.recv_go_away frame)
| op_recv_window_update now frame : operation (Inner.recv_window_update now frame)
| op_recv_eof b : operation (Inner.recv_eof b)
| op_send_reset now id reason : operation (Inner.send_reset now id reason)
| op_handle_error err : operation (Inner.handle_error err)
| op_apply_local_settings settings : operation (Streams.apply_local_settings settings)
| op_apply_remote_settings settings : operation (Streams.apply_remote_settings settings)
| op_send_go_away id : operation (Streams.send_go_away id)
| op_clear_expired now : operation (Streams.clear_expired_reset_streams now)
| op_recvd_ping payload : operation (Streams.recvd_ping payload)
| op_send_request request is_spa : operation (Streams.send_request request is_spa)
| op_send_response k response : operation (Streams.send_response k response)
| op_ref_send_reset now k reason : operation (Streams.ref_send_reset now k reason)
| op_next_accept : operation Streams.next_accept
| op_take_request k : operation (Streams.take_request k)
| op_poll_response waker k : operation (Streams.poll_response waker k)
| op_clone_ref k : operation (Streams.clone_ref k)
| op_drop_stream_ref now k : operation (Streams.drop_stream_ref now k)
| op_clone_streams : operation Streams.clone_streams
| op_drop_streams : operation Streams.drop_streams.

Inductive call : Inner.t -> Inner.t -> Prop :=
| call_op {A} (m : M Inner.t A) a i i' : operation m -> m i = Done (a, i') -> call i i'
| call_poll_complete fuel waker dst r dst' i i' :
    Inner.poll_complete fuel waker i dst = Done (r, i', dst') -> call i i'
| call_poll_window_update dst r dst' i i' :
    Inner.poll_window_update i dst = Done (r, i', dst') -> call i i'
| call_poll_spa nanos dst p r c dst' p' i :
    SendPoll.poll_spa nanos (Inner.as_send i) dst p = Done (r, c, dst', p') ->
    call i (i <| Inner.as_send := c |>)
| call_send_pending_refusal dst r rcv dst' i :
    RecvOps.send_pending_refusal (inner_recv i) dst = Done (r, rcv, dst') ->
    call i (i <| Inner.actions ::= (fun a => a <| Actions.recv := rcv |>) |>).

Definition reachable (role : Role.t) (config : ConnectionConfig.t) (i : Inner.t) : Prop :=
  rtc call (Streams.new role config) i.

(** ** What a call does *)

Definition role_of i : Role.t := Counts.role (Inner.counts i).
Definition send_next i : result StreamId.t unit := Send.next_stream_id (inner_send i).
Definition recv_next i : result StreamId.t unit := Recv.next_stream_id (inner_recv i).

(** [below id n]: the identifier comes before the next one, [Err] being past them all. *)
Definition below id (n : result StreamId.t unit) : Prop :=
  match n with Ok n => id < n | Err _ => True end.

Definition next_le (a b : result StreamId.t unit) : Prop :=
  match a, b with Ok x, Ok y => x <= y | _, Err _ => True | Err _, Ok _ => False end.

(** An identifier that was used: it comes before the next one of its side. *)
Definition known i id : Prop :=
  exists local, Role.is_local_init (role_of i) id = Done local /\
    below id (if local : bool then send_next i else recv_next i).

Record advances i i' : Prop := {
  adv_role : role_of i' = role_of i;
  adv_send_next : next_le (send_next i) (send_next i');
  adv_recv_next : next_le (recv_next i) (recv_next i');
  adv_send_max : Send.max_stream_id (inner_send i') <= Send.max_stream_id (inner_send i);
  adv_recv_max : Recv.max_stream_id (inner_recv i') <= Recv.max_stream_id (inner_recv i);
  adv_flows : Forall2 (rtc flow_step) (flows_of i) (flows_of i');
  adv_parity : role_of i = Role.Client -> (forall n, send_next i = Ok n -> n mod 2 = 1) ->
    forall n, send_next i' = Ok n -> n mod 2 = 1;
  adv_streams k s' : Store.lookup (Inner.store i') k = Some s' ->
    (exists s, Store.lookup (Inner.store i) k = Some s /\ moved s s') \/
    (Store.lookup (Inner.store i) k = None /\ known i' (Stream.id s') /\
     exists id w1 w2, moved (Stream.new id w1 w2) s')
}.

(** The invariant of a connection: every stream is known, and the identifiers of a
    client are odd. *)
Record inv i : Prop := {
  inv_known k s : Store.lookup (Inner.store i) k = Some s -> known i (Stream.id s);
  inv_parity : role_of i = Role.Client -> forall n, send_next i = Ok n -> n mod 2 = 1
}.

(** ** Facts *)

#[local] Instance next_le_preorder : PreOrder next_le.
Proof.
  split; [intros [x|x]; cbn; done|]. intros [x|x] [y|y] [z|z]; cbn; try done. lia.
Qed.

Lemma below_mono id a b : next_le a b -> below id a -> below id b.
Proof. destruct a, b; cbn; try done. lia. Qed.

Lemma known_mono i i' id : advances i i' -> known i id -> known i' id.
Proof.
  intros [] (local & Hl & Hb). exists local. rewrite adv_role0. split; [done|].
  destruct local; by eapply below_mono.
Qed.

Lemma advances_inv i i' : inv i -> advances i i' -> inv i'.
Proof.
  intros [Hk Hp] Ha. split.
  - intros k s' Hs'. destruct (adv_streams _ _ Ha k s' Hs') as [(s & Hs & Hm)|(_ & Hn & _)]; [|done].
    rewrite (moved_id _ _ Hm). by eapply known_mono, Hk.
  - intros Hr. rewrite (adv_role _ _ Ha) in Hr. apply (adv_parity _ _ Ha Hr). by apply Hp.
Qed.

Lemma evolves_advances i i' : evolves i i' -> advances i i'.
Proof.
  intros [He Hf Hr]. cbn in Hr. injection Hr as Hr Hsn Hsm Hrn Hrm.
  split; unfold role_of, send_next, recv_next; rewrite ?Hr, ?Hsn, ?Hsm, ?Hrn, ?Hrm; try done.
  intros k s' Hs'. left. by apply He.
Qed.

Lemma advances_evolves i i1 i2 : advances i i1 -> evolves i1 i2 -> advances i i2.
Proof.
  intros Ha He. pose proof (evolves_advances _ _ He) as Hb. split.
  - by rewrite (adv_role _ _ Hb), (adv_role _ _ Ha).
  - etrans; [apply Ha|apply Hb].
  - etrans; [apply Ha|apply Hb].
  - etrans; [apply Hb|apply Ha].
  - etrans; [apply Hb|apply Ha].
  - etrans; [apply Ha|apply Hb].
  - intros Hr Hn. apply (adv_parity _ _ Hb); [by rewrite (adv_role _ _ Ha)|]. by apply (adv_parity _ _ Ha).
  - intros k s2 Hs2. destruct (evolves_store _ _ He k s2 Hs2) as (s1 & Hs1 & Hm).
    destruct (adv_streams _ _ Ha k s1 Hs1) as [(s & Hs & Hm1)|(Hs & Hk & id & w1 & w2 & Hm1)].
    + left. exists s. split; [done|by etrans].
    + right. split_and!; [done| |].
      * rewrite (moved_id _ _ Hm). by eapply known_mono.
      * exists id, w1, w2. by etrans.
Qed.

(** The calls that only evolve the state. *)
Lemma kept_advances {A} (m : M Inner.t A) i : kept i m -> ensures (m i) (fun '(_, i') => advances i i').
Proof. intros Hm. eapply ensures_mono; [exact Hm|]. intros [a i'] He. by apply evolves_advances. Qed.

Lemma bind_gets {W A B} (f : W -> A) (k : A -> M W B) w : bind (gets f) k w = k (f w) w.
Proof. done. Qed.

Lemma advances_bind {A B} (m : M Inner.t A) (f : A -> M Inner.t B) i :
  ensures (m i) (fun '(_, i') => advances i i') -> (forall a i', kept i' (f a)) ->
  ensures (bind m f i) (fun '(_, i') => advances i i').
Proof.
  intros Hm Hf. eapply ensures_bind; [exact Hm|]. intros [a i1] Ha.
  eapply ensures_mono; [apply Hf|]. intros [b i2] He. by eapply advances_evolves.
Qed.

Lemma advances_try {A B E} (m : M Inner.t (result A E)) (f : A -> M Inner.t (result B E)) i :
  ensures (m i) (fun '(_, i') => advances i i') -> (forall a i', kept i' (f a)) ->
  ensures (try m f i) (fun '(_, i') => advances i i').
Proof.
  intros Hm Hf. apply advances_bind; [done|]. intros [a|e] i'; [apply Hf|kret].
Qed.

(** ** Lowering the limits *)

Lemma recv_go_away_advances frame i :
  ensures (Inner.recv_go_away frame i) (fun '(_, i') => advances i i').
Proof.
  unfold Inner.recv_go_away. cbv zeta. apply advances_try; [|intros; inner_kept].
  unfold Send.recv_go_away. destruct (Z.gtb_spec (GoAway.last_stream_id frame)
    (Send.max_stream_id (Actions.send (Inner.actions i)))); apply ensures_Done.
  - apply evolves_advances. by destruct i as [? [] ? ? ?].
  - split; try done. intros k s' Hs'. left. by exists s'.
Qed.

Lemma send_go_away_advances id i :
  ensures (Streams.send_go_away id i) (fun '(_, i') => advances i i').
Proof.
  unfold Streams.send_go_away, Recv.go_away. apply ensures_obind; intros r Hr. apply ensures_Done.
  destruct (Z.geb_spec (Recv.max_stream_id (Actions.recv (Inner.actions i))) id);
    cbn [assert obind] in Hr; [|done]. injection Hr as <-.
  split; try done. intros k s' Hs'. left. by exists s'.
Qed.

(** ** Opening streams *)

Lemma is_server_initiated_mod id : id <> 0 -> StreamId.is_server_initiated id = (id mod 2 =? 0).
Proof. intros Hid. unfold StreamId.is_server_initiated. by rewrite (proj2 (Z.eqb_neq id 0)). Qed.

Lemma next_id_inv id n : StreamId.next_id id = Done n -> next_le (Ok id) n /\ below id n /\
  (id mod 2 = 1 -> forall m, n = Ok m -> m mod 2 = 1).
Proof.
  unfold StreamId.next_id. destruct (_ <=? _); [cbn [assert obind]|done]. intros [= <-].
  destruct (_ >? _); cbn; [done|]. split_and!; [lia..|]. intros Hm m [= <-].
  by rewrite Zplus_mod, Hm.
Qed.

(** A stream is stored under an identifier its side is already past. *)
Lemma insert_advances i i1 st id w1 w2 v :
  advances i i1 -> Inner.store i1 = Inner.store i -> known i1 id ->
  moved (Stream.new id w1 w2) v ->
  (forall k s', Store.lookup st k = Some s' -> Store.lookup (Inner.store i) k = Some s' \/
     Store.lookup (Inner.store i) k = None /\ s' = v) ->
  advances i (i1 <| Inner.store := st |>).
Proof.
  intros [] Hst Hk Hm Hl. split; try done. intros k s' Hs'.
  destruct (Hl k s' Hs') as [Hs|(Hs & ->)]; [left; by exists s'|].
  right. split_and!; [done| |by exists id, w1, w2]. rewrite (moved_id _ _ Hm). exact Hk.
Qed.

Lemma vacant_insert_born st id v k st' :
  Store.vacant_insert st id v = (k, st') ->
  forall x s', Store.lookup st' x = Some s' -> Store.lookup st x = Some s' \/
     Store.lookup st x = None /\ s' = v.
Proof.
  unfold Store.vacant_insert. destruct (slab_insert v (Store.streams st)) as [n sl] eqn:Hi.
  intros [= _ <-] x s' Hs'. destruct (slab_insert_born st x v n sl _ Hi s' Hs') as [?|(? & ? & ?)]; auto.
Qed.

Lemma insert_born st id v :
  ensures (Store.insert st id v) (fun '(k, st') => Key.stream_id k = id /\
    forall x s', Store.lookup st' x = Some s' -> Store.lookup st x = Some s' \/
     Store.lookup st x = None /\ s' = v).
Proof.
  unfold Store.insert. destruct (slab_insert v (Store.streams st)) as [n sl] eqn:Hi.
  destruct (im_insert _ _ _) as [old m]. apply ensures_obind; intros _ _. apply ensures_Done.
  split; [done|]. intros x s' Hs'.
  destruct (slab_insert_born st x v n sl _ Hi s' Hs') as [?|(? & ? & ?)]; auto.
Qed.

(** [can_open] hands out an identifier the peer had not used. *)
Lemma can_open_spec r id mode cs role :
  ensures (Recv.can_open r id mode cs role) (fun '(res, r') =>
    (Recv.flow r' = Recv.flow r /\ Recv.max_stream_id r' = Recv.max_stream_id r) /\
    (Recv.next_stream_id r' = Recv.next_stream_id r \/
     next_le (Recv.next_stream_id r) (Recv.next_stream_id r') /\
     below id (Recv.next_stream_id r') /\ Role.is_local_init role id = Done false) /\
    forall x, res = Ok (Some x) -> x = id /\ below id (Recv.next_stream_id r') /\
      Role.is_local_init role id = Done false /\
      exists n, Recv.next_stream_id r = Ok n /\ n <= id).
Proof.
  unfold Recv.can_open. apply ensures_obind; intros _ _.
  destruct (Role.ensure_can_open role id mode) as [[]|e] eqn:Hc;
    [|apply ensures_Done; split_and!; [done|done|by left|done]].
  apply can_open_not_local in Hc. unfold Recv.get_next_stream_id.
  destruct (Recv.next_stream_id r) as [n|] eqn:Hn;
    [|apply ensures_Done; split_and!; [done|done|by left|done]].
  destruct (Z.ltb_spec id n); [apply ensures_Done; split_and!; [done|done|by left|done]|].
  apply ensures_obind; intros next Hnext. apply next_id_inv in Hnext as (Hle & Hb & _).
  assert (next_le (Ok n) next) as Hle' by (etrans; [|exact Hle]; done).
  destruct (negb _); apply ensures_Done; (split; [done|]); (split; [by right|]); [done|].
  intros x [= ->]. split_and!; [done..|]. by exists n.
Qed.

(** The stream of a HEADERS frame: a stream of the store, or a new one whose
    identifier the peer had not used. *)
Lemma insert_or_create_advances id i :
  ensures (Inner.insert_or_create id (role_of i) i) (fun '(r, i') => advances i i' /\
    forall k, r = Ok (Some k) -> Store.find_entry (Inner.store i) id = Some k \/
      Key.stream_id k = id /\ Role.is_local_init (role_of i) id = Done false /\
      exists n, recv_next i = Ok n /\ n <= id).
Proof.
  intros [r i'] He. unfold Inner.insert_or_create, try, bind, gets, ret in He. cbn [obind] in He.
  destruct (Store.find_entry (Inner.store i) id) as [k|] eqn:Hf.
  { injection He as <- <-. split; [by apply evolves_advances|]. intros k' [= ->]. auto. }
  match type of He with obind ?o _ = _ => destruct o as [[forgotten i0]|] eqn:Hfg end;
    [cbn [obind] in He|done].
  assert (i0 = i) as ->.
  { destruct (negb _); [|by injection Hfg]. unfold lift in Hfg.
    destruct (Actions.is_forgotten_stream _ _ _); cbn in Hfg; [by injection Hfg|done]. }
  destruct forgotten; [injection He as <- <-; split; [by apply evolves_advances|done]|].
  destruct (Recv.can_open _ _ _ _ _) as [[res rcv]|] eqn:Hc; [cbn [obind] in He|done].
  apply can_open_spec in Hc as ((Hfl & Hmx) & Hnext & Hx).
  set (i1 := i <| Inner.actions ::= _ |>) in He.
  assert (advances i i1) as Ha.
  { split; try done; [|unfold inner_recv, i1; record; lia| |].
    - unfold recv_next, inner_recv, i1. record. by destruct Hnext as [->|(? & _)].
    - unfold flows_of, inner_world, inner_recv, i1. record. by rewrite Hfl.
    - intros k s Hs. left. by exists s. }
  destruct res as [[x|]|e]; [|by injection He as <- <-..].
  destruct (Hx x eq_refl) as (-> & Hb & Hl & n & Hn & Hle).
  destruct (Store.vacant_insert _ _ _) as [k st] eqn:Hv. injection He as <- <-. split.
  - eapply (insert_advances i i1 st id _ _ _ Ha); [done| |done|by eapply vacant_insert_born].
    exists false. done.
  - intros k' [= <-]. right. split_and!; [|done|by exists n].
    unfold Store.vacant_insert in Hv. destruct (slab_insert _ _). by injection Hv as <- _.
Qed.

Lemma recv_headers_advances now frame i :
  ensures (Inner.recv_headers now frame i) (fun '(_, i') => advances i i').
Proof.
  unfold Inner.recv_headers, Inner.role. cbv zeta. rewrite 2!bind_gets.
  destruct (_ >? _); [apply kept_advances; inner_kept|]. apply advances_try.
  - eapply ensures_mono; [apply insert_or_create_advances|]. by intros [r i'] [Ha _].
  - intros [k|] i'; inner_kept.
Qed.

Lemma send_maybe_reset_spec snd id :
  ensures (Send.maybe_reset_next_stream_id snd id) (fun snd' =>
    Send.flow snd' = Send.flow snd /\ Send.max_stream_id snd' = Send.max_stream_id snd /\
    next_le (Send.next_stream_id snd) (Send.next_stream_id snd') /\
    below id (Send.next_stream_id snd') /\
    (id mod 2 = 1 -> (forall n, Send.next_stream_id snd = Ok n -> n mod 2 = 1) ->
     forall n, Send.next_stream_id snd' = Ok n -> n mod 2 = 1)).
Proof.
  unfold Send.maybe_reset_next_stream_id.
  destruct (Send.next_stream_id snd) as [next|] eqn:Hn; [|apply ensures_Done; by rewrite Hn].
  apply ensures_obind; intros _ _. destruct (Z.geb_spec id next).
  - apply ensures_obind; intros n Hid. apply next_id_inv in Hid as (Hle & Hb & Hp).
    apply ensures_Done. split_and!; [done|done| |done|by auto]. etrans; [|exact Hle]. done.
  - apply ensures_Done. rewrite Hn. split_and!; auto; cbn; lia.
Qed.

Lemma recv_maybe_reset_spec r id :
  ensures (Recv.maybe_reset_next_stream_id r id) (fun r' =>
    Recv.flow r' = Recv.flow r /\ Recv.max_stream_id r' = Recv.max_stream_id r /\
    next_le (Recv.next_stream_id r) (Recv.next_stream_id r') /\
    below id (Recv.next_stream_id r')).
Proof.
  unfold Recv.maybe_reset_next_stream_id.
  destruct (Recv.next_stream_id r) as [next|] eqn:Hn; [|apply ensures_Done; by rewrite Hn].
  apply ensures_obind; intros _ _. destruct (Z.geb_spec id next).
  - apply ensures_obind; intros n Hid. apply next_id_inv in Hid as (Hle & Hb & Hp).
    apply ensures_Done. split_and!; [done|done| |done]. etrans; [|exact Hle]. done.
  - apply ensures_Done. rewrite Hn. split_and!; auto; cbn; lia.
Qed.

(** An identifier a client initiates is odd. *)
Lemma client_local_odd id : Role.is_local_init Role.Client id = Done true -> id mod 2 = 1.
Proof.
  unfold Role.is_local_init, StreamId.is_zero, StreamId.is_server_initiated.
  pose proof (Z.mod_pos_bound id 2 ltac:(lia)).
  destruct (Z.eqb_spec id 0), (Z.eqb_spec (id mod 2) 0); cbn; done || lia.
Qed.

Lemma odd_client_local id : id mod 2 = 1 -> Role.is_local_init Role.Client id = Done true.
Proof.
  intros Hid. unfold Role.is_local_init, StreamId.is_zero, StreamId.is_server_initiated.
  destruct (Z.eqb_spec id 0) as [->|]; [done|]. by rewrite Hid.
Qed.

Lemma send_reset_advances now id reason i :
  ensures (Inner.send_reset now id reason i) (fun '(_, i') => advances i i').
Proof.
  unfold Inner.send_reset, Inner.role. rewrite 2!bind_gets.
  apply advances_bind; [|intros; inner_kept].
  destruct (Store.find_entry _ _) as [k|]; [apply kept_advances; inner_kept|].
  unfold bind, lift. destruct (Role.is_local_init _ _) as [local|] eqn:Hl; [cbn [obind]|done].
  eapply (ensures_bind _ _ (fun a => advances i (i <| Inner.actions := a |>) /\
    known (i <| Inner.actions := a |>) id)).
  - destruct local; (eapply ensures_bind; [apply send_maybe_reset_spec || apply recv_maybe_reset_spec|]);
      [intros snd (Hf & Hm & Hn & Hb & Hp)|intros rcv (Hf & Hm & Hn & Hb)]; apply ensures_Done;
      (split; [|eexists; split; [exact Hl|exact Hb]]); split; try done;
      unfold flows_of, inner_world, inner_send, inner_recv in *; record; rewrite ?Hf, ?Hm; try done.
    + intros Hr. apply Hp, client_local_odd. unfold role_of in Hr. by rewrite <-Hr.
    + intros k s Hs. left. by exists s.
    + intros k s Hs. left. by exists s.
  - intros a [Ha Hk]. destruct (Store.vacant_insert _ _ _) as [k st] eqn:Hv. apply ensures_Done.
    by eapply (insert_advances i (i <| Inner.actions := a |>) st id 0 0), vacant_insert_born.
Qed.

(** The stream of a request has the identifier that was next. *)
Lemma open_stream_advances request i :
  inv i -> role_of i = Role.Client ->
  ensures (Streams.open_stream request i) (fun '(r, i') => advances i i' /\
    forall k, r = Ok k -> send_next i = Ok (Key.stream_id k)).
Proof.
  intros [_ Hp] Hr. unfold Streams.open_stream, Send.open, Send.ensure_next_stream_id.
  destruct (Send.next_stream_id (Actions.send (Inner.actions i))) as [id|] eqn:Hn; cbn [map_err].
  2: { apply ensures_Done. split; [|done]. apply evolves_advances. by destruct i as [? [] ? ? ?]. }
  specialize (Hp Hr id Hn). destruct (StreamId.next_id id) as [n|] eqn:Hid; [cbn [obind]|done].
  apply next_id_inv in Hid as (Hle & Hb & Hpar). cbv zeta.
  set (i1 := i <| Inner.actions ::= _ |>).
  assert (advances i i1) as Ha.
  { split; try done.
    - change (next_le (send_next i) n). unfold send_next, inner_send. by rewrite Hn.
    - intros _ _ m Hm. exact (Hpar Hp m Hm).
    - intros k s Hs. left. by exists s. }
  eapply ensures_bind; [apply insert_born|]. intros [k st] [Hk Hborn]. apply ensures_Done. split.
  - eapply (insert_advances i i1 st id _ _ _ Ha); [done| | |exact Hborn].
    + exists true. split; [|exact Hb]. change (Role.is_local_init (role_of i) id = Done true).
      rewrite Hr. by apply odd_client_local.
    + destruct (bool_decide _); [moved|done].
  - intros k' [= <-]. rewrite Hk. destruct (bool_decide _); exact Hn.
Qed.

Lemma send_request_advances request is_spa i :
  inv i ->
  ensures (Streams.send_request request is_spa i) (fun '(r, i') => advances i i').
Proof.
  intros Hi. unfold Streams.send_request, Inner.role. rewrite 2!bind_gets.
  destruct (Actions.ensure_no_conn_error _); [|apply kept_advances; inner_kept].
  destruct (Send.ensure_next_stream_id _); [|apply kept_advances; inner_kept].
  destruct (Counts.role (Inner.counts i)) eqn:Hr; cbn [Role.is_server];
    [|apply kept_advances; inner_kept].
  apply advances_try.
  - eapply ensures_mono; [by apply open_stream_advances|]. by intros [? ?] [? _].
  - intros k i'. inner_kept. eapply ensures_bind; [apply (remove_evolves moved)|]. intros [id st] He.
    apply ensures_Done. split; [|done..]. etrans; [|exact He]. apply (unlink_evolves moved).
Qed.

Lemma send_pending_refusal_spec r dst :
  ensures (RecvOps.send_pending_refusal r dst) (fun '(_, r', _) =>
    Recv.flow r' = Recv.flow r /\ Recv.next_stream_id r' = Recv.next_stream_id r /\
    Recv.max_stream_id r' = Recv.max_stream_id r).
Proof.
  unfold RecvOps.send_pending_refusal. destruct (Recv.refused r); [|by apply ensures_Done].
  destruct (poll_ready dst) as [[[?|?]|] d]; [|by apply ensures_Done..].
  apply ensures_obind; intros [? ?] _. apply ensures_obind; intros _ _. by apply ensures_Done.
Qed.

Lemma operation_advances {A} (m : M Inner.t A) i :
  operation m -> inv i -> ensures (m i) (fun '(_, i') => advances i i').
Proof.
  intros Hop Hi. destruct Hop.
  all: try (apply recv_headers_advances || apply recv_go_away_advances || apply send_reset_advances
    || apply send_go_away_advances || by apply send_request_advances).
  all: apply kept_advances.
  all: first [apply inner_recv_data_kept | apply inner_recv_reset_kept | apply recv_window_update_kept
    | apply inner_recv_eof_kept | apply inner_handle_error_kept | apply streams_apply_remote_settings_kept
    | apply streams_recvd_ping_kept | apply send_response_kept | apply ref_send_reset_kept
    | apply streams_next_accept_kept | apply clone_ref_kept | apply drop_stream_ref_kept
    | apply refs_inc_kept | apply drop_streams_kept
    | apply receiving_kept; intros; solve [eauto with keeps] ].
Qed.

Lemma call_advances i i' : call i i' -> inv i -> advances i i'.
Proof.
  intros Hc Hi. destruct Hc as [A m a i i' Hop Hm|fuel waker dst r dst' i i' Hm|dst r dst' i i' Hm
    |nanos dst p r c dst' p' i Hm|dst r rcv dst' i Hm].
  - exact (operation_advances m i Hop Hi _ Hm).
  - apply evolves_advances. exact (inner_poll_complete_evolves _ _ _ _ _ Hm).
  - apply evolves_advances. exact (poll_window_update_evolves _ _ _ Hm).
  - apply evolves_advances, as_send_evolves. exact (poll_spa_evolves _ _ _ _ _ Hm).
  - apply send_pending_refusal_spec in Hm as (Hf & Hn & Hmx). apply evolves_advances.
    split; [done|..]; unfold flows_of, frame_of, inner_world, inner_send, inner_recv in *; record;
      by rewrite ?Hf, ?Hn, ?Hmx.
Qed.

Lemma new_inv role config : inv (Streams.new role config).
Proof.
  split.
  - intros k s Hs. apply lookup_some in Hs as [Hs _]. cbn in Hs. by rewrite slab_map_new in Hs.
  - intros _ n [= <-]. done.
Qed.

Lemma reachable_inv role config i : reachable role config i -> inv i.
Proof.
  assert (forall i i', rtc call i i' -> inv i -> inv i') as Hall.
  { induction 1 as [|i1 i2 i3 Hc _ IH]; [done|]. intros Hi. apply IH.
    eapply advances_inv; [done|]. by apply call_advances. }
  intros Hr. by eapply Hall, new_inv.
Qed.

End calls.
