(* ===== verification/CallsFacts.v ===== *)
(** * What holds along every history of a connection

    The consequences of [Calls]: how streams move, the range of every window, the use
    of identifiers, and the effect of GOAWAY, for any sequence of calls on a new
    connection. *)

From S2P Require Import Prelude Effects FrameBase ControlFrames SettingsFrame DataFrame HpackHeader.
From S2P Require Import HeadersFrame ProtoErrors FramedRead FrameSink ProtoHandlers StreamState.
From S2P Require Import FlowWindow SlabLib FrameBuffer StreamRec StreamStore StreamStoreFacts.
From S2P Require Import StreamQueue Spa StreamCounts Evolve Send SendOps SendPoll SendKept.
From S2P Require Import Messages Recv RecvOps RecvKept Inner Streams InnerKept Calls.

(** ** Runs of the state machine and of the windows *)

Lemma run_app os1 os2 s s1 s2 : run os1 s = Some s1 -> run os2 s1 = Some s2 -> run (os1 ++ os2) s = Some s2.
Proof.
  revert s. induction os1 as [|o os1 IH]; intros s; cbn; [by intros [= ->]|].
  destruct (State.apply o s); [apply IH|done].
Qed.

Lemma rtc_state_run s s' : rtc state_step s s' <-> exists os, run os s = Some s'.
Proof.
  split.
  - induction 1 as [s|s1 s2 s3 [o Ho] _ [os Hos]]; [by exists []|].
    exists (o :: os). cbn. by rewrite Ho.
  - intros [os Hos]. revert s Hos. induction os as [|o os IH]; intros s; cbn; [by intros [= ->]|].
    destruct (State.apply o s) as [s1|] eqn:Ho; [|done]. intros Hos.
    eapply rtc_l; [by exists o|by apply IH].
Qed.

Lemma flow_step_i32 f f' : flow_step f f' -> is_i32 (FlowControl.window f) -> is_i32 (FlowControl.window f').
Proof.
  intros Hs Hw. destruct Hs as [f sz|f sz]; unfold FlowControl.inc_window, FlowControl.dec_window,
    Window.increase_by, Window.decrease_by; destruct f as [w c]; cbn in *.
  - destruct (fits_i32 _) eqn:Hf; cbn [negb orb]; [|done]. apply fits_i32_spec in Hf.
    rewrite as_i32_of_i32 by done. by destruct (_ >? _).
  - destruct (fits_i32 _) eqn:Hf; [|done]. by apply fits_i32_spec in Hf.
Qed.

Lemma flow_steps_i32 f f' :
  rtc flow_step f f' -> is_i32 (FlowControl.window f) -> is_i32 (FlowControl.window f').
Proof. induction 1 as [|f1 f2 f3 Hs _ IH]; [done|]. intros Hw. by eapply IH, flow_step_i32. Qed.

(** The capacity, from which WINDOW_UPDATE frames are computed, is fixed for good. *)
Lemma flow_steps_capacity f f' : rtc flow_step f f' -> FlowControl.capacity f' = FlowControl.capacity f.
Proof.
  induction 1 as [|f1 f2 f3 Hs _ IH]; [done|]. rewrite IH.
  destruct Hs as [f sz|f sz]; unfold FlowControl.inc_window, FlowControl.dec_window; by case_match.
Qed.

Lemma as_i32_i32 z : is_i32 (as_i32 z).
Proof.
  unfold as_i32, wrap_u32. pose proof (Z.mod_pos_bound z 4294967296 ltac:(lia)).
  destruct (Z.leb_spec (z mod 4294967296) i32_max); unfold_ints; lia.
Qed.

Section facts.
Context `{HttpPlz} `{Hsl : SlabOps} `{!SlabLaws Hsl} `{Him : IndexMapOps} `{!FrameSink}.

Implicit Types (i : Inner.t) (k : Key.t) (s : Stream.t) (id : StreamId.t).

(** C2: whatever call a connection handles next (a frame of the peer, an operation of a
    handle, a poll), each stream of the store either was there before, with the same
    identifier, and its state follows the state machine and its windows move by window
    increments and decrements, or it is new and grew that way out of an idle stream;
    in particular a closed stream, or a closed sending half, never reopens. *)
Theorem calls_move_streams role config i i' k s' :
  reachable role config i -> call i i' -> Store.lookup (Inner.store i') k = Some s' ->
  (exists s, Store.lookup (Inner.store i) k = Some s /\ moved s s' /\
     (exists os, run os (Stream.state s) = Some (Stream.state s')) /\
     (State.is_closed (Stream.state s) = true -> State.is_closed (Stream.state s') = true) /\
     (State.is_send_closed (Stream.state s) = true -> State.is_send_closed (Stream.state s') = true)) \/
  (Store.lookup (Inner.store i) k = None /\
     exists id w1 w2, moved (Stream.new id w1 w2) s' /\
       exists os, run os State.Idle = Some (Stream.state s')).
Proof.
  intros Hr%reachable_inv Hc Hs'.
  destruct (adv_streams _ _ (call_advances _ _ Hc Hr) k s' Hs') as [(s & Hs & Hm)|(Hs & _ & id & w1 & w2 & Hm)].
  - left. exists s. pose proof (moved_state _ _ Hm) as Hst. split_and!; [done|done| | |].
    + by apply rtc_state_run.
    + induction Hst as [|s1 s2 s3 [o Ho] _ IH]; [done|]. intros Hcl.
      destruct (apply_mono _ _ _ Ho) as (A & _). by apply IH, A.
    + induction Hst as [|s1 s2 s3 [o Ho] _ IH]; [done|]. intros Hcl.
      destruct (apply_mono _ _ _ Ho) as (_ & A & _). by apply IH, A.
  - right. split; [done|]. exists id, w1, w2. split; [done|].
    exact (proj1 (rtc_state_run _ _) (moved_state _ _ Hm)).
Qed.

(** What is true of every stream of a reachable connection. *)
Record stream_ok s : Prop := {
  ok_send_window : is_i32 (FlowControl.window (Stream.send_flow s));
  ok_recv_window : is_i32 (FlowControl.window (Stream.recv_flow s));
  ok_state : exists os, run os State.Idle = Some (Stream.state s)
}.

Lemma moved_ok s s' : moved s s' -> stream_ok s -> stream_ok s'.
Proof.
  intros [_ Hst Hsf Hrf] [Hs Hr [os Hos]]. split; [by eapply flow_steps_i32..|].
  apply rtc_state_run in Hst as [os' Hos']. exists (os ++ os'). by eapply run_app.
Qed.

Lemma new_ok id w1 w2 : stream_ok (Stream.new id w1 w2).
Proof. split; [apply as_i32_i32..|by exists []]. Qed.

Lemma rtc_reachable_ind role config (P : Inner.t -> Prop) :
  P (Streams.new role config) ->
  (forall i i', inv i -> advances i i' -> P i -> P i') ->
  forall i, reachable role config i -> P i.
Proof.
  intros H0' Hstep i Hr. unfold reachable in Hr.
  assert (forall i i', rtc call i i' -> inv i /\ P i -> P i') as Hall.
  { induction 1 as [|i1 i2 i3 Hc _ IH]; [by intros [_ ?]|]. intros [Hi HP].
    pose proof (call_advances _ _ Hc Hi) as Ha. apply IH. split; [by eapply advances_inv|].
    by eapply Hstep. }
  eapply Hall; [exact Hr|]. split; [apply new_inv|done].
Qed.

(** C21: along every history of a connection the flow-control windows stay 32-bit
    numbers: the two windows of every stream and the two of the connection are never
    above 2^31 - 1 nor below -2^31, whatever WINDOW_UPDATE and SETTINGS frames the
    peer sends; and every stream is in a state the state machine reaches from idle. *)
Theorem windows_stay_in_range role config i :
  reachable role config i ->
  Forall (fun f => is_i32 (FlowControl.window f)) (flows_of i) /\
  forall k s, Store.lookup (Inner.store i) k = Some s -> stream_ok s.
Proof.
  revert i. apply rtc_reachable_ind.
  - split; [repeat constructor; apply as_i32_i32|]. intros k s [Hs _]%lookup_some. cbn in Hs.
    by rewrite slab_map_new in Hs.
  - intros i i' _ Ha [Hf Hs]. split.
    + pose proof (adv_flows _ _ Ha) as Hfl. clear -Hf Hfl.
      induction Hfl as [|f f' l l' Hff _ IH]; [done|]. apply Forall_cons in Hf as [Hf Hl].
      constructor; [by eapply flow_steps_i32|by apply IH].
    + intros k s' Hs'.
      destruct (adv_streams _ _ Ha k s' Hs') as [(s & Hl & Hm)|(_ & _ & id & w1 & w2 & Hm)].
      * by eapply moved_ok, Hs.
      * by eapply moved_ok, new_ok.
Qed.

(** C13: identifiers are used once and in order.  Along every history, each stream of
    the store has an identifier below the next one of its side; a request is given an
    identifier above those of all local streams, with the parity of the client; and a
    HEADERS frame either finds its stream or opens one above those of all remote
    streams. *)
Theorem stream_ids_never_reused role config i :
  reachable role config i ->
  (forall k s, Store.lookup (Inner.store i) k = Some s -> known i (Stream.id s)) /\
  (forall request k i', role_of i = Role.Client -> Streams.open_stream request i = Done (Ok k, i') ->
     Key.stream_id k mod 2 = 1 /\
     forall k0 s0, Store.lookup (Inner.store i) k0 = Some s0 ->
       Role.is_local_init (role_of i) (Stream.id s0) = Done true -> Stream.id s0 < Key.stream_id k) /\
  (forall id k i', Inner.insert_or_create id (role_of i) i = Done (Ok (Some k), i') ->
     Store.find_entry (Inner.store i) id = Some k \/
     Key.stream_id k = id /\ forall k0 s0, Store.lookup (Inner.store i) k0 = Some s0 ->
       Role.is_local_init (role_of i) (Stream.id s0) = Done false -> Stream.id s0 < id).
Proof.
  intros Hi%reachable_inv. split_and!.
  - apply Hi.
  - intros request k i' Hr Ho. destruct (open_stream_advances request i Hi Hr _ Ho) as [_ Hk].
    specialize (Hk k eq_refl). split; [by apply (inv_parity _ Hi Hr)|]. intros k0 s0 Hs0 Hl.
    destruct (inv_known _ Hi k0 s0 Hs0) as (local & Hl' & Hb). rewrite Hl in Hl'. injection Hl' as <-.
    by rewrite Hk in Hb.
  - intros id k i' Ho. destruct (insert_or_create_advances id i _ Ho) as [_ Hk].
    destruct (Hk k eq_refl) as [Hf|(Hid & _ & n & Hn & Hle)]; [by left|right]. split; [done|].
    intros k0 s0 Hs0 Hl. destruct (inv_known _ Hi k0 s0 Hs0) as (local & Hl' & Hb).
    rewrite Hl in Hl'. injection Hl' as <-. cbn in Hb. rewrite Hn in Hb. cbn in Hb. lia.
Qed.

Lemma calls_limits i1 i2 :
  rtc call i1 i2 -> inv i1 ->
  Recv.max_stream_id (inner_recv i2) <= Recv.max_stream_id (inner_recv i1) /\
  Send.max_stream_id (inner_send i2) <= Send.max_stream_id (inner_send i1).
Proof.
  induction 1 as [|j1 j2 j3 Hc _ IH]; [done|]. intros Hj.
  pose proof (call_advances _ _ Hc Hj) as Ha.
  destruct (IH (advances_inv _ _ Hj Ha)). destruct Ha. lia.
Qed.

(** C14: GOAWAY is final.  Once the connection has announced the last stream [n] it will
    process, every later HEADERS frame for a stream above [n] is ignored without any
    change, and no stream above [n] can be reset by the peer, whatever calls came in
    between; and the limit the peer announced never grows. *)
Theorem goaway_is_final role config i n i1 i2 :
  reachable role config i -> Streams.send_go_away n i = Done (tt, i1) -> rtc call i1 i2 ->
  (forall now frame, n < Headers.stream_id frame -> Inner.recv_headers now frame i2 = Done (Ok tt, i2)) /\
  (forall frame, n < Reset.stream_id frame -> Reset.stream_id frame <> 0 ->
     Inner.recv_reset frame i2 = Done (Ok tt, i2)) /\
  Send.max_stream_id (inner_send i2) <= Send.max_stream_id (inner_send i).
Proof.
  intros Hi%reachable_inv Hg Hc.
  assert (Recv.max_stream_id (inner_recv i1) = n) as Hn.
  { unfold Streams.send_go_away, Recv.go_away in Hg. destruct (assert _); [|done].
    cbn [obind] in Hg. by injection Hg as <-. }
  pose proof (send_go_away_advances n i _ Hg) as Ha.
  assert (Recv.max_stream_id (inner_recv i2) <= n /\
    Send.max_stream_id (inner_send i2) <= Send.max_stream_id (inner_send i)) as [Hmax Hsend].
  { rewrite <-Hn. destruct (calls_limits i1 i2 Hc (advances_inv _ _ Hi Ha)) as [Hr Hs].
    split; [done|]. etrans; [exact Hs|apply Ha]. }
  unfold inner_recv in Hmax. split_and!; [| |done].
  - intros now frame Hf. unfold Inner.recv_headers, Inner.role, bind, gets, ret. cbn [obind].
    by rewrite (proj2 (Z.gtb_lt _ _)) by lia.
  - intros frame Hf Hz. unfold Inner.recv_reset, Inner.role, bind, gets, ret, StreamId.is_zero.
    cbn [obind]. rewrite (proj2 (Z.eqb_neq _ 0)) by done. by rewrite (proj2 (Z.gtb_lt _ _)) by lia.
Qed.

End facts.
