(* ===== verification/Connection.v ===== *)
(** * The connection

    Models [src/src/proto/connection.rs]: the dispatch of the peer's frames, the order
    of the control frames, graceful and immediate shutdown, and the poll loop.  The
    receiving half of the codec ([poll_next], the limits of the reader) and its
    shutdown are the operations of [Codec]; [now] and [waker] are what the clock and
    the task answer. *)

From S2P Require Import Prelude Effects FrameBase ControlFrames SettingsFrame DataFrame HpackHeader.
From S2P Require Import HeadersFrame ProtoErrors FramedRead FrameSink ProtoHandlers StreamState.
From S2P Require Import FlowWindow SlabLib FrameBuffer StreamRec StreamStore StreamQueue Spa.
From S2P Require Import StreamCounts Send SendOps SendPoll Messages Recv RecvOps Inner Streams.

(** The rest of [codec::Codec]. *)
Class Codec `{FrameSink} : Type := {
  poll_next : sink -> poll (option (result Frame.t ProtoError.t)) * sink;
  shutdown : sink -> poll (result unit io_error) * sink;
  set_max_recv_frame_size : sink -> Z -> outcome sink;
  set_max_recv_header_list_size : sink -> Z -> sink;
  set_recv_header_table_size : sink -> Z -> sink
}.

Inductive ConnectionState : Type :=
| COpen
| CClosing (reason : Reason.t) (initiator : Initiator.t)
| CClosed (reason : Reason.t) (initiator : Initiator.t).

Module Connection.

Section connection.
Context `{HttpPlz} `{!FrameSink} `{!Codec} `{SlabOps} `{IndexMapOps}.

Record t : Type := mk {
  codec : sink;
  streams : Inner.t;
  settings_handler : SettingsHandler.t;
  ping_handler : PingHandler.t;
  goaway_handler : GoAwayHandler.t;
  role : Role.t;
  state : ConnectionState;
  error : option GoAway.t;
  is_spa : bool
}.

#[global] Instance eta_t : Eta t := fun c =>
  mk (codec c) (streams c) (settings_handler c) (ping_handler c) (goaway_handler c) (role c)
     (state c) (error c) (is_spa c).

Abbreviation N := (M t) (only parsing).

(** [new]; [nanos] is the clock. *)
Definition new (nanos : Z) (role : Role.t) (config : ConnectionConfig.t) (codec : sink) : t :=
  let is_spa := negb (Stream.is_none (ConnectionConfig.spa_tracker config)) in
  let (spa, ping_handler) :=
    match ConnectionConfig.spa_tracker config with
    | Some s =>
        if SpaTracker.is_enhanced_ping s then
          let (s, p) := SpaTracker.add_enhanced_ping_first_ping nanos s PingHandler.new in (Some s, p)
        else (Some s, PingHandler.new)
    | None => (None, PingHandler.new)
    end in
  let config := config <| ConnectionConfig.spa_tracker := spa |> in
  {| codec := codec;
     streams := Streams.new role config;
     settings_handler := SettingsHandler.new (ConnectionConfig.local_settings config);
     ping_handler := ping_handler;
     goaway_handler := GoAwayHandler.new;
     role := role;
     state := COpen;
     error := None;
     is_spa := is_spa |}.

(** An operation on the streams. *)
Definition on_streams {A} (m : M Inner.t A) : N A := zoom streams m.

Definition on_goaway (f : GoAwayHandler.t -> outcome GoAwayHandler.t) : N unit := fun c =>
  let! g := f (goaway_handler c) in Done (tt, c <| goaway_handler := g |>).

Definition set_codec (f : sink -> outcome sink) : N unit := fun c =>
  let! d := f (codec c) in Done (tt, c <| codec := d |>).

(** [if let Some(val) = o { f(val) }] *)
Definition if_some {A} (o : option A) (f : A -> N unit) : N unit :=
  match o with Some a => f a | None => ret tt end.

(** ** GOAWAY *)

Definition go_away_graceful (id : StreamId.t) (e : Reason.t) : N unit :=
  let frame := GoAway.new id e in
  on_streams (Streams.send_go_away id);*
  on_goaway (fun g => GoAwayHandler.enqueue_go_away g frame).

Definition last_id : N StreamId.t := gets (fun c => Streams.last_processed_id (streams c)).

Definition go_away_now (e : Reason.t) : N unit :=
  let* id := last_id in
  on_goaway (fun g => GoAwayHandler.go_away_now g (GoAway.new id e)).

Definition go_away_now_data (e : Reason.t) (data : bytes) : N unit :=
  let* id := last_id in
  on_goaway (fun g => GoAwayHandler.go_away_now g (GoAway.with_debug_data id e data)).

Definition go_away_from_user (e : Reason.t) : N unit :=
  let* id := last_id in
  on_goaway (fun g => GoAwayHandler.go_away_from_user g (GoAway.new id e));*
  on_streams (Inner.handle_error (ProtoError.user_go_away e));*
  ret tt.

Definition go_away_gracefully : N unit :=
  let* g := gets goaway_handler in
  if GoAwayHandler.is_going_away g then ret tt
  else
    go_away_graceful StreamId.MAX Reason.NO_ERROR;*
    (fun c => let! p := PingHandler.ping_shutdown (ping_handler c) in
              Done (tt, c <| ping_handler := p |>)).

Definition maybe_close_connection_if_no_streams : N unit :=
  let* s := gets streams in
  when (negb (Streams.has_streams_or_other_references s)) (go_away_now Reason.NO_ERROR).

(** ** The frames of the peer *)

Definition apply_local_settings (settings : Settings.t) : N (result unit ProtoError.t) :=
  if_some (Settings.max_frame_size settings) (fun max =>
    set_codec (fun d => set_max_recv_frame_size d max));*
  if_some (Settings.max_header_list_size settings) (fun max =>
    set_codec (fun d => Done (set_max_recv_header_list_size d max)));*
  if_some (Settings.header_table_size settings) (fun val =>
    set_codec (fun d => Done (set_recv_header_table_size d val)));*
  on_streams (Streams.apply_local_settings settings).

Definition recv_settings (settings : Settings.t) : N (result unit ProtoError.t) :=
  let*? action := (fun c =>
    let (r, h) := SettingsHandler.recv (settings_handler c) settings in
    Done (r, c <| settings_handler := h |>)) in
  match action with
  | SettingsHandler.ApplyLocal local_settings => apply_local_settings local_settings
  | SettingsHandler.ActionOk => ret (Ok tt)
  end.

Definition recv_ping (ping : Ping.t) : N unit :=
  let* action := (fun c =>
    let (a, p) := PingHandler.handle (ping_handler c) ping in
    Done (a, c <| ping_handler := p |>)) in
  match action with
  | PingHandler.MustAck => ret tt
  | PingHandler.Unknown =>
      let* is_spa := gets is_spa in
      if is_spa : bool then
        let* payload := (fun c =>
          let (payload, p) := PingHandler.pending_ping_payload (ping_handler c) in
          Done (payload, c <| ping_handler := p |>)) in
        if_some payload (fun payload => on_streams (Streams.recvd_ping payload))
      else ret tt
  | PingHandler.Shutdown =>
      let* id := last_id in
      go_away_graceful id Reason.NO_ERROR
  end.

(** PRIORITY and PUSH_PROMISE frames are [todo!()]. *)
Definition recv_frame (now : Z) (frame : Frame.t) : N (result unit ProtoError.t) :=
  match frame with
  | Frame.Data data => on_streams (Inner.recv_data now data)
  | Frame.Headers headers => on_streams (Inner.recv_headers now headers)
  | Frame.Priority _ => panic
  | Frame.Reset reset => on_streams (Inner.recv_reset reset)
  | Frame.Settings settings => recv_settings settings
  | Frame.PushPromise _ => panic
  | Frame.Ping ping => recv_ping ping;* ret (Ok tt)
  | Frame.GoAway go_away =>
      let*? _ := on_streams (Inner.recv_go_away go_away) in
      modifies (fun c => c <| error := Some go_away |>);*
      ret (Ok tt)
  | Frame.WindowUpdate wupdate => on_streams (Inner.recv_window_update now wupdate)
  end.

(** ** Errors *)

Definition set_state (s : ConnectionState) : N unit := modifies (fun c => c <| state := s |>).

Definition poll2_go_away (reason : Reason.t) (debug_data : bytes) (initiator : Initiator.t) : N unit :=
  let e := ProtoError.GoAway debug_data reason initiator in
  let* g := gets goaway_handler in
  match GoAwayHandler.going_away g with
  | Some ga =>
      if GoAwayHandler.reason ga =? reason then set_state (CClosing reason initiator)
      else
        on_streams (Inner.handle_error e);*
        go_away_now_data reason debug_data
  | None =>
      on_streams (Inner.handle_error e);*
      go_away_now_data reason debug_data
  end.

Definition handle_poll2_result (now : Z) (result : result unit ProtoError.t) :
    N (Prelude.result unit ProtoError.t) :=
  match result with
  | Ok _ =>
      set_state (CClosing Reason.NO_ERROR Initiator.Library);*
      ret (Ok tt)
  | Err (ProtoError.GoAway debug_data reason initiator) =>
      poll2_go_away reason debug_data initiator;*
      ret (Ok tt)
  | Err (ProtoError.Reset id reason initiator) =>
      lift (assert (bool_decide (initiator = Initiator.Library)));*
      let* r := on_streams (Inner.send_reset now id reason) in
      (match r with
       | Ok _ => ret tt
       | Err e => poll2_go_away (ga_reason e) (ga_debug_data e) Initiator.Library
       end);*
      ret (Ok tt)
  | Err (ProtoError.Io kind inner) =>
      let e := ProtoError.Io kind inner in
      on_streams (Inner.handle_error e);*
      let* c := gets id in
      if Streams.send_buffer_is_empty (streams c) &&
         bool_decide (kind = UnexpectedEof) &&
         (Role.is_server (role c) ||
          bool_decide (option_map GoAway.error_code (error c) = Some Reason.NO_ERROR))
      then
        set_state (CClosed Reason.NO_ERROR Initiator.Library);*
        ret (Ok tt)
      else ret (Err e)
  end.

Definition take_error (ours : Reason.t) (initiator : Initiator.t) : N (result unit ProtoError.t) :=
  fun c =>
  let (debug_data, theirs) :=
    match error c with
    | Some frame => (GoAway.debug_data frame, GoAway.error_code frame)
    | None => ([], Reason.NO_ERROR)
    end in
  let r :=
    if theirs =? Reason.NO_ERROR then
      if ours =? Reason.NO_ERROR then Ok tt else Err (ProtoError.GoAway [] ours initiator)
    else Err (ProtoError.remote_go_away debug_data theirs) in
  Done (r, c <| error := None |>).

(** ** Polling *)

(** [ready!(m)?; k] *)
Definition ready {A E} (conv : E -> ProtoError.t) (m : N (poll (result unit E)))
    (k : N (poll (result A ProtoError.t))) : N (poll (result A ProtoError.t)) :=
  let* r := m in
  match r with
  | Pending => ret Pending
  | Ready (Err e) => ret (Ready (Err (conv e)))
  | Ready (Ok _) => k
  end.

(** Polling one of the handlers against the codec. *)
Definition poll_ping : N (poll (result unit io_error)) := fun c =>
  let! (r, h, d) := PingHandler.poll_pending (ping_handler c) (codec c) in
  Done (r, c <| ping_handler := h |> <| codec := d |>).

Definition poll_remote_settings : N (poll (result unit ProtoError.t)) := fun c =>
  let! (r, (h, s), d) :=
    SettingsHandler.poll_remote_settings (fun settings i => Streams.apply_remote_settings settings i)
      (settings_handler c) (codec c) (streams c) in
  Done (r, c <| settings_handler := h |> <| streams := s |> <| codec := d |>).

Definition poll_local_settings : N (poll (result unit ProtoError.t)) := fun c =>
  let! (r, h, d) := SettingsHandler.poll_local_settings (settings_handler c) (codec c) in
  Done (r, c <| settings_handler := h |> <| codec := d |>).

Definition poll_refusal : N (poll (result unit io_error)) := fun c =>
  let! (r, rcv, d) := RecvOps.send_pending_refusal (Actions.recv (Inner.actions (streams c))) (codec c) in
  Done (r, c <| streams ::= (fun i => i <| Inner.actions ::= (fun a => a <| Actions.recv := rcv |>) |>) |>
             <| codec := d |>).

Definition poll_window_update : N (poll (result unit io_error)) := fun c =>
  let! (r, i, d) := Inner.poll_window_update (streams c) (codec c) in
  Done (r, c <| streams := i |> <| codec := d |>).

Definition poll_control_frames : N (poll (result unit ProtoError.t)) :=
  ready proto_of_io poll_ping (
  ready id poll_remote_settings (
  ready id poll_local_settings (
  ready proto_of_io poll_refusal (
  ready proto_of_io poll_window_update (
  ret (Ready (Ok tt))))))).

Definition poll_go_away : N (poll (option (result Reason.t io_error))) := fun c =>
  let! (r, g, d) := GoAwayHandler.send_pending_go_away (goaway_handler c) (codec c) in
  Done (r, c <| goaway_handler := g |> <| codec := d |>).

Definition next_frame : N (poll (option (result Frame.t ProtoError.t))) := fun c =>
  let (r, d) := poll_next (codec c) in Done (r, c <| codec := d |>).

(** The second half of a round of [poll2]: control frames, then one frame of the peer;
    [None] is the next round. *)
Definition poll2_read (now : Z) : N (option (poll (result unit ProtoError.t))) :=
  let* r := poll_control_frames in
  match r with
  | Pending => ret (Some Pending)
  | Ready (Err e) => ret (Some (Ready (Err e)))
  | Ready (Ok _) =>
      let* f := next_frame in
      match f with
      | Pending => ret (Some Pending)
      | Ready (Some (Err e)) => ret (Some (Ready (Err e)))
      | Ready (Some (Ok frame)) =>
          let* r := recv_frame now frame in
          ret (match r with Ok _ => None | Err e => Some (Ready (Err e)) end)
      | Ready None =>
          let* r := on_streams (Inner.recv_eof false) in
          lift (assert (is_ok r));*
          ret (Some (Ready (Ok tt)))
      end
  end.

Definition poll2_round (now : Z) : N (option (poll (result unit ProtoError.t))) :=
  let* r := poll_go_away in
  match r with
  | Pending => ret (Some Pending)
  | Ready (Some (Err e)) => ret (Some (Ready (Err (proto_of_io e))))
  | Ready (Some (Ok reason)) =>
      let* g := gets goaway_handler in
      if GoAwayHandler.should_close_now g then
        ret (Some (Ready (if GoAwayHandler.is_user_initiated g then Ok tt
                          else Err (ProtoError.library_go_away reason))))
      else
        lift (assert (reason =? Reason.NO_ERROR));*
        poll2_read now
  | Ready None => poll2_read now
  end.

(** [fuel] bounds the frames of the peer that one call handles. *)
Definition poll2 (fuel : nat) (now : Z) : N (poll (result unit ProtoError.t)) :=
  on_streams (Streams.clear_expired_reset_streams now);*
  loop fuel (poll2_round now).

Definition can_go_away (c : t) : bool :=
  (negb (Stream.is_none (error c)) || GoAwayHandler.should_close_on_idle (goaway_handler c)) &&
  negb (Streams.has_streams (streams c)).

Definition poll_complete (fuel : nat) (waker : Z) : N (poll (result unit io_error)) := fun c =>
  let! (r, i, d) := Inner.poll_complete fuel waker (streams c) (codec c) in
  Done (r, c <| streams := i |> <| codec := d |>).

Definition poll_spa (now : Z) : N (poll (result unit io_error)) := fun c =>
  if negb (is_spa c) then Done (Ready (Ok tt), c)
  else
    let! (r, x, d, p) :=
      SendPoll.poll_spa now (Inner.as_send (streams c)) (codec c) (ping_handler c) in
    Done (r, c <| streams ::= (fun i => i <| Inner.as_send := x |>) |>
               <| codec := d |> <| ping_handler := p |>).

(** A round of [poll]; [None] is the next round. *)
Definition poll_round (fuel : nat) (now waker : Z) : N (option (poll (result unit ProtoError.t))) :=
  let* st := gets state in
  match st with
  | COpen =>
      let* r := poll2 fuel now in
      match r with
      | Pending =>
          let* r := ready proto_of_io (poll_complete fuel waker)
                      (ready proto_of_io (poll_spa now) (ret (Ready (Ok tt)))) in
          match r with
          | Ready (Ok _) =>
              let* c := gets id in
              if can_go_away c then
                go_away_now Reason.NO_ERROR;*
                ret None
              else ret (Some Pending)
          | r => ret (Some r)
          end
      | Ready result =>
          let* r := handle_poll2_result now result in
          ret (match r with Ok _ => None | Err e => Some (Ready (Err e)) end)
      end
  | CClosing reason initiator =>
      let* r := (fun c => let (r, d) := shutdown (codec c) in Done (r, c <| codec := d |>)) in
      match r with
      | Pending => ret (Some Pending)
      | Ready (Err e) => ret (Some (Ready (Err (proto_of_io e))))
      | Ready (Ok _) =>
          set_state (CClosed reason initiator);*
          ret None
      end
  | CClosed reason initiator =>
      let* r := take_error reason initiator in
      ret (Some (Ready r))
  end.

Definition poll (fuel : nat) (now waker : Z) : N (FrameSink.poll (result unit ProtoError.t)) :=
  loop fuel (poll_round fuel now waker).

(** [Drop for Connection] *)
Definition drop : N unit :=
  on_streams (Inner.recv_eof true);*
  ret tt.

End connection.

End Connection.
