(* ===== verification/Builder.v ===== *)
(** * Building a connection

    Models [src/src/builder.rs]: the options of a connection, the SETTINGS they announce,
    and the handshake that turns a transport into what a connection is made of.  The trait
    [BuildConnection] is a class; [Client] and [Server] of [Endpoints] are its instances. *)

From Stdlib Require Import String.
From S2P Require Import Prelude FrameBase ControlFrames SettingsFrame DataFrame HpackHeader HpackDecoder HpackTable HpackEncoder HeadersFrame.
From S2P Require Import ProtoErrors FramedRead FramedReadFacts FrameSink FramedWrite WireCodec Preface Spa StreamCounts.
Local Open Scope Z_scope.

(** [proto/mod.rs] *)
Definition DEFAULT_REMOTE_RESET_COUNT_MAX : Z := 20.
Definition DEFAULT_LOCAL_RESET_COUNT_MAX : Z := 1024.
Definition DEFAULT_RESET_STREAM_MAX : Z := 50.
Definition DEFAULT_RESET_STREAM_SECS : Z := 1.

(** [Duration::from_secs], in nanoseconds *)
Definition from_secs (n : Z) : Z := n * 1000000000.

(** The trait [BuildConnection]; [Connection] is what [build] makes of a codec [S], at the
    time [nanos]. *)
Class BuildConnection (S R : Type) : Type := {
  BuiltConnection : Type;
  role_opts : R;
  is_server : bool;
  is_client : bool;
  take_spa_mode : R -> option Mode.t * R;
  is_spa : R -> bool;
  init_stream_id : StreamId.t;
  build : Z -> Role.t -> ConnectionConfig.t -> S -> outcome BuiltConnection
}.

Module Builder.

Section builder.
Context {S R : Type} `{!BuildConnection S R}.

Record t : Type := mk {
  initial_connection_window_size : option Z;
  local_max_error_reset_streams : option Z;
  reset_stream_duration : Z;
  local_reset_stream_max : Z;
  remote_reset_stream_max : Z;
  role : R;
  settings : Settings.t;
  max_recv_buffer_size : Z
}.

#[global] Instance eta_t : Eta t := fun b =>
  mk (initial_connection_window_size b) (local_max_error_reset_streams b) (reset_stream_duration b)
     (local_reset_stream_max b) (remote_reset_stream_max b) (role b) (settings b) (max_recv_buffer_size b).

Definition new : t := {|
  initial_connection_window_size := None;
  local_reset_stream_max := DEFAULT_RESET_STREAM_MAX;
  local_max_error_reset_streams := Some DEFAULT_LOCAL_RESET_COUNT_MAX;
  remote_reset_stream_max := DEFAULT_REMOTE_RESET_COUNT_MAX;
  reset_stream_duration := from_secs DEFAULT_RESET_STREAM_SECS;
  settings := Settings.set_enable_push false Settings.default;
  role := role_opts;
  max_recv_buffer_size := usize_max
|}.

(** ** Options *)

Definition set_initial_connection_window_size (size : Z) (b : t) : t :=
  b <| initial_connection_window_size := Some size |>.
Definition initial_window_size (size : Z) (b : t) : t :=
  b <| settings ::= Settings.set_initial_window_size (Some size) |>.
Definition max_frame_size (max : Z) (b : t) : outcome t :=
  let! s := Settings.set_max_frame_size (Some max) (settings b) in
  Done (b <| settings := s |>).
Definition max_header_list_size (max : Z) (b : t) : t :=
  b <| settings ::= Settings.set_max_header_list_size (Some max) |>.
Definition max_concurrent_streams (max : Z) (b : t) : t :=
  b <| settings ::= Settings.set_max_concurrent_streams (Some max) |>.
Definition header_table_size (size : Z) (b : t) : t :=
  b <| settings ::= Settings.set_header_table_size (Some size) |>.
Definition max_concurrent_reset_streams (max : Z) (b : t) : t := b <| local_reset_stream_max := max |>.
Definition set_reset_stream_duration (dur : Z) (b : t) : t := b <| reset_stream_duration := dur |>.
Definition max_local_error_reset_streams (max : option Z) (b : t) : t := b <| local_max_error_reset_streams := max |>.
Definition max_pending_accept_reset_streams (max : Z) (b : t) : t := b <| remote_reset_stream_max := max |>.
Definition enable_connect_protocol (b : t) : t :=
  b <| settings ::= Settings.set_enable_connect_protocol (Some 1) |>.
Definition set_max_recv_buffer_size (size : Z) (b : t) : t := b <| max_recv_buffer_size := size |>.

(** ** The handshake *)

Definition build_config (peer_settings : Settings.t) (b : t) : ConnectionConfig.t * t :=
  let (mode, r) := take_spa_mode (role b) in
  ({| ConnectionConfig.initial_connection_window_size := initial_connection_window_size b;
      ConnectionConfig.local_max_error_reset_streams := local_max_error_reset_streams b;
      ConnectionConfig.reset_stream_duration := reset_stream_duration b;
      ConnectionConfig.local_reset_stream_max := local_reset_stream_max b;
      ConnectionConfig.remote_reset_stream_max := remote_reset_stream_max b;
      ConnectionConfig.local_settings := settings b;
      ConnectionConfig.peer_settings := peer_settings;
      ConnectionConfig.spa_tracker := option_map SpaTracker.from_mode mode;
      ConnectionConfig.max_recv_buffer_size := max_recv_buffer_size b |},
   b <| role := r |>).

Definition the_role : Role.t := if is_client then Role.Client else Role.Server.

Context `{HeaderPlz} `{!NameHash} `{!HeaderMapOps} `{!HeaderMapIter} `{!Transport} `{!AsyncIo} `{!Delimiter}.

(** A poll of [handshake] at the time [nanos]; [view] is the codec as the connection uses
    it. *)
Definition handshake (nanos : Z) (view : WireCodec.t -> S) (b : t) (stage : PrefaceConn.Stage) :
    outcome (poll (result BuiltConnection PrefaceError.t) * PrefaceConn.Stage) :=
  let! (r, stage) := PrefaceConn.poll the_role (settings b) stage in
  match r with
  | Pending => Done (Pending, stage)
  | Ready (Err e) => Done (Ready (Err e), stage)
  | Ready (Ok (stream, remote_settings)) =>
      let (config, _) := build_config remote_settings b in
      let! conn := build nanos the_role config (view stream) in
      Done (Ready (Ok conn), stage)
  end.

End builder.

End Builder.
