(* ===== verification/Endpoints.v ===== *)
(** * Clients and servers

    Models [src/src/client.rs] and [src/src/server.rs]: what [Builder] builds for each
    role, and the public operations.  The handles share the streams of the connection: an
    operation on a handle is a computation on [Inner.t], one on the connection on
    [Connection.t]. *)

From S2P Require Import Prelude Effects FrameBase ControlFrames SettingsFrame DataFrame HpackHeader.
From S2P Require Import HeadersFrame ProtoErrors FramedRead FrameSink OpError ProtoHandlers StreamState.
From S2P Require Import FlowWindow SlabLib FrameBuffer StreamRec StreamStore StreamQueue Spa.
From S2P Require Import StreamCounts Send SendOps SendPoll Messages Recv RecvOps Inner Streams Connection Builder.

(** [impl From<SendError> for OpError] *)
Definition from_send_error (src : SendError) : OpError.t :=
  match src with
  | SendUser e => OpError.from_user e
  | SendConnection e => OpError.from_proto e
  end.

Definition map_err {A E F} (f : E -> F) (r : result A E) : result A F :=
  match r with Ok a => Ok a | Err e => Err (f e) end.

Definition poll_map {A B} (f : A -> B) (r : poll A) : poll B :=
  match r with Ready a => Ready (f a) | Pending => Pending end.

Definition is_pending {A} (r : poll A) : bool := match r with Pending => true | Ready _ => false end.

(** ** The handles *)

(** What they ask of the streams: [Streams::num_active_streams] and the like. *)
Module StreamsInfo.

Section info.
Context `{HttpPlz} `{SlabOps} `{IndexMapOps}.

Definition num_active_streams (i : Inner.t) : nat := im_len (Store.ids (Inner.store i)).
Definition num_wired_streams (i : Inner.t) : nat := slab_len (Store.streams (Inner.store i)).
Definition max_send_streams (i : Inner.t) : Z := Counts.max_send_streams (Inner.counts i).
Definition is_extended_connect_protocol_enabled (i : Inner.t) : bool :=
  Send.is_extended_connect_protocol_enabled (Actions.send (Inner.actions i)).

End info.

End StreamsInfo.

Module ResponseFuture.

Section future.
Context `{HttpPlz} `{SlabOps} `{IndexMapOps}.

Abbreviation I := (M Inner.t) (only parsing).

Definition stream_id (k : Key.t) : I StreamId.t :=
  let* s := Inner.stream k in ret (Stream.id s).

Definition take_partial_response (k : Key.t) : I (option Response) :=
  Inner.receiving (RecvOps.take_partial_response k).
Definition poll (waker : Z) (k : Key.t) : I (FrameSink.poll (result Response PartialResponse)) :=
  Streams.poll_response waker k.

End future.

End ResponseFuture.

Module SendRequest.

(** Besides the shared streams. *)
Record t : Type := mk { is_spa : bool }.

Section request.
Context `{HttpPlz} `{SlabOps} `{IndexMapOps}.

Abbreviation I := (M Inner.t) (only parsing).

(** A [ResponseFuture] is the key of its stream. *)
Definition send_request (self : t) (request : Request) : I (result Key.t OpError.t) :=
  let* r := Streams.send_request request (is_spa self) in
  ret (map_err from_send_error r).

Fixpoint spa (self : t) (requests : list Request) : I (list (result Key.t OpError.t)) :=
  match requests with
  | [] => ret []
  | r :: requests =>
      let* x := send_request self r in
      let* l := spa self requests in
      ret (x :: l)
  end.

End request.

End SendRequest.

Module SendResponse.

Section response.
Context `{HttpPlz} `{SlabOps} `{IndexMapOps}.

Abbreviation I := (M Inner.t) (only parsing).

Definition send_response (k : Key.t) (response : Response) : I (result unit UserError.t) :=
  Streams.send_response k response.
Definition send_reset (now : Z) (k : Key.t) (reason : Reason.t) : I unit := Streams.ref_send_reset now k reason.

End response.

End SendResponse.

Section endpoints.
Context `{HttpPlz} `{!FrameSink} `{!Codec} `{SlabOps} `{IndexMapOps}.

Abbreviation N := (M Connection.t) (only parsing).

(** ** The client *)

Record Client : Type := client { spa_mode : option Mode.t }.

(** [ClientBuilder::single_packet_attack_mode] *)
Definition single_packet_attack_mode (mode : Mode.t) (b : Builder.t (R := Client)) : Builder.t (R := Client) :=
  b <| Builder.role := client (Some mode) |>.

Definition client_build (nanos : Z) (role : Role.t) (config : ConnectionConfig.t) (codec : sink) :
    outcome (Connection.t * SendRequest.t) :=
  let is_spa := negb (Stream.is_none (ConnectionConfig.spa_tracker config)) in
  let conn := Connection.new nanos role config codec in
  let! (_, conn) := Connection.on_streams Streams.clone_streams conn in
  Done (conn, SendRequest.mk is_spa).

#[export] Instance build_client : BuildConnection sink Client := {
  role_opts := client None;
  is_server := false;
  is_client := true;
  take_spa_mode := fun r => (spa_mode r, client None);
  is_spa := fun r => negb (Stream.is_none (spa_mode r));
  init_stream_id := 1;
  build := client_build
}.

(** [Future for ClientConnection]; also answered: whether the task is woken once more. *)
Definition poll_client (fuel : nat) (now waker : Z) : N (poll (result unit OpError.t) * bool) :=
  Connection.maybe_close_connection_if_no_streams;*
  let* had_streams_or_refs := gets (fun c => Streams.has_streams_or_other_references (Connection.streams c)) in
  let* r := Connection.poll fuel now waker in
  let result := poll_map (map_err OpError.from_proto) r in
  let* has := gets (fun c => Streams.has_streams_or_other_references (Connection.streams c)) in
  ret (result, is_pending result && had_streams_or_refs && negb has).

(** [poll_once]: a poll whose waiting is an answer. *)
Definition poll_once {T E} (poll_conn : T -> outcome (poll (result unit E) * T)) (conn : T) : outcome (result unit E * T) :=
  let! (r, conn) := poll_conn conn in
  Done (match r with Pending => Ok tt | Ready r => r end, conn).

(** ** The server *)

Inductive Server : Type := server.

Definition server_build (nanos : Z) (role : Role.t) (config : ConnectionConfig.t) (codec : sink) : outcome Connection.t :=
  Done (Connection.new nanos role config codec).

#[export] Instance build_server : BuildConnection sink Server := {
  role_opts := server;
  is_server := true;
  is_client := false;
  take_spa_mode := fun r => (None, r);
  is_spa := fun _ => false;
  init_stream_id := 2;
  build := server_build
}.

(** [ServerConnection::poll_accept]; a [SendResponse] is the key of its stream. *)
Definition poll_accept (fuel : nat) (now waker : Z) : N (poll (option (result (Request * Key.t) OpError.t))) :=
  let* r := Connection.poll fuel now waker in
  match r with
  | Ready (Err e) => ret (Ready (Some (Err (OpError.from_proto e))))
  | Ready (Ok _) => ret (Ready None)
  | Pending =>
      let* accepted := Connection.on_streams Streams.next_accept in
      match accepted with
      | Some inner =>
          let* request := Connection.on_streams (Streams.take_request inner) in
          ret (Ready (Some (Ok (request, inner))))
      | None => ret Pending
      end
  end.

Definition poll_closed (fuel : nat) (now waker : Z) : N (poll (result unit OpError.t)) :=
  let* r := Connection.poll fuel now waker in
  ret (poll_map (map_err OpError.from_proto) r).

Definition abrupt_shutdown (reason : Reason.t) : N unit := Connection.go_away_from_user reason.
Definition graceful_shutdown : N unit := Connection.go_away_gracefully.

End endpoints.
