(* ===== verification/Describe.v ===== *)
(** * What errors say

    Models the [Display] and [Debug] impls of reasons and errors:
    [src/src/frame/reason.rs], [src/src/codec/error.rs], [src/src/proto/error.rs] and
    [src/src/error.rs].  How the standard library shows an [io::Error] and the crate
    [bytes] a [Bytes] are parameters. *)

From Stdlib Require Import String.
From S2P Require Import Prelude FrameBase ControlFrames SettingsFrame DataFrame HpackHeader HeadersFrame.
From S2P Require Import ProtoErrors FramedRead FrameSink OpError Messages Streams Endpoints.
Local Open Scope Z_scope.

(** [Reason::description], the [Display] of a reason *)
Definition description (r : Reason.t) : bytes :=
  str match r with
      | 0 => "not a result of an error"
      | 1 => "unspecific protocol error detected"
      | 2 => "unexpected internal error encountered"
      | 3 => "flow-control protocol violated"
      | 4 => "settings ACK not received in timely manner"
      | 5 => "received frame when stream half-closed"
      | 6 => "frame with invalid size"
      | 7 => "refused stream before processing any application logic"
      | 8 => "stream no longer needed"
      | 9 => "unable to maintain the header compression context"
      | 10 => "connection established in response to a CONNECT request was reset or abnormally closed"
      | 11 => "detected excessive load generating behavior"
      | 12 => "security properties do not meet minimum requirements"
      | 13 => "endpoint requires HTTP/1.1"
      | _ => "unknown reason"
      end.

(** [LowerHex] of a [u32]: eight digits are enough. *)
Definition hex_digit (d : Z) : Z := if d <? 10 then 48 + d else 97 + (d - 10).

Fixpoint lower_hex_digits (n : nat) (v : Z) : bytes :=
  match n with
  | O => []
  | S n => (if v / 16 =? 0 then [] else lower_hex_digits n (v / 16)) ++ [hex_digit (v mod 16)]
  end.

Definition lower_hex (v : Z) : bytes := lower_hex_digits 8 v.

(** [Debug] of a reason *)
Definition reason_name (r : Reason.t) : bytes :=
  match r with
  | 0 => str "NO_ERROR"
  | 1 => str "PROTOCOL_ERROR"
  | 2 => str "INTERNAL_ERROR"
  | 3 => str "FLOW_CONTROL_ERROR"
  | 4 => str "SETTINGS_TIMEOUT"
  | 5 => str "STREAM_CLOSED"
  | 6 => str "FRAME_SIZE_ERROR"
  | 7 => str "REFUSED_STREAM"
  | 8 => str "CANCEL"
  | 9 => str "COMPRESSION_ERROR"
  | 10 => str "CONNECT_ERROR"
  | 11 => str "ENHANCE_YOUR_CALM"
  | 12 => str "INADEQUATE_SECURITY"
  | 13 => str "HTTP_1_1_REQUIRED"
  | other => str "Reason(" ++ lower_hex other ++ str ")"
  end.

Definition user_error_text (e : UserError.t) : bytes :=
  str match e with
      | UserError.InactiveStreamId => "inactive stream"
      | UserError.UnexpectedFrameType => "unexpected frame type"
      | UserError.PayloadTooBig => "payload too big"
      | UserError.Rejected => "rejected"
      | UserError.ReleaseCapacityTooBig => "release capacity too big"
      | UserError.OverflowedStreamId => "stream ID overflowed"
      | UserError.MalformedHeaders => "malformed headers"
      | UserError.MissingUriSchemeAndAuthority => "request URI missing scheme and authority"
      | UserError.PollResetAfterSendResponse => "poll_reset after send_response is illegal"
      | UserError.SendPingWhilePending => "send_ping before received previous pong"
      | UserError.SendSettingsWhilePending => "sending SETTINGS before received previous ACK"
      | UserError.PeerDisabledServerPush => "sending PUSH_PROMISE to peer who disabled server push"
      | UserError.BufferLimitExceeded => "buffer limit exceeded"
      end.

Section describe.
(** [io::Error] shown, of its kind alone and with an inner error; [Debug] of [Bytes] *)
Context (io_text : io_error -> bytes) (bytes_debug : bytes -> bytes).

Definition proto_error_text (e : ProtoError.t) : bytes :=
  match e with
  | ProtoError.Reset _ reason _ | ProtoError.GoAway _ reason _ => description reason
  | ProtoError.Io _ (Some inner) => inner
  | ProtoError.Io kind None => io_text (IoError kind None)
  end.

Definition send_error_text (e : SendError) : bytes :=
  match e with
  | SendConnection e => proto_error_text e
  | SendUser e => user_error_text e
  end.

Definition op_error_text (e : OpError.t) : bytes :=
  let with_data text reason debug_data :=
    text ++ description reason ++
    match debug_data with [] => [] | _ => str " (" ++ bytes_debug debug_data ++ str ")" end in
  match OpError.kind e with
  | OpError.Reset _ reason Initiator.User => str "stream error sent by user: " ++ description reason
  | OpError.Reset _ reason Initiator.Library => str "stream error detected: " ++ description reason
  | OpError.Reset _ reason Initiator.Remote => str "stream error received: " ++ description reason
  | OpError.GoAway debug_data reason Initiator.User => with_data (str "connection error sent by user: ") reason debug_data
  | OpError.GoAway debug_data reason Initiator.Library => with_data (str "connection error detected: ") reason debug_data
  | OpError.GoAway debug_data reason Initiator.Remote => with_data (str "connection error received: ") reason debug_data
  | OpError.FromReason reason => str "protocol error: " ++ description reason
  | OpError.User e => str "user error: " ++ user_error_text e
  | OpError.Io e => io_text e
  end.

End describe.

(** ** Facts *)

(** The codes of the protocol are told apart, and each has its own name. *)
Lemma descriptions_differ :
  NoDup (map description (seqZ 0 14)) /\ NoDup (map reason_name (seqZ 0 14)).
Proof. split; apply (bool_decide_eq_true _); vm_compute; reflexivity. Qed.

(** Any other code is shown as a number. *)
Example reason_name_other : reason_name 3054 = str "Reason(bee)".
Proof. vm_compute. reflexivity. Qed.

(** The test [error_from_reason] of [error.rs]. *)
Example error_from_reason :
  OpError.reason (OpError.from_reason Reason.HTTP_1_1_REQUIRED) = Some Reason.HTTP_1_1_REQUIRED.
Proof. reflexivity. Qed.

(** Different errors of the user are shown differently. *)
Lemma user_error_text_inj e e' : user_error_text e = user_error_text e' -> e = e'.
Proof. destruct e, e'; (done || (intros H; exfalso; revert H; apply (bool_decide_eq_true (_ <> _)); vm_compute; reflexivity)). Qed.
