(* ===== verification/WireCodecFacts.v ===== *)
(** * The codec implements what the connection relies on

    The reader never panics on what the transport delivers, whatever it is; together with
    the writer's invariant ([FramedWriteFacts]) this makes the codec an instance of the
    interfaces the handlers are verified against: [FrameSink] with its laws, and the
    class [Codec] of [Connection]. *)

From S2P Require Import Prelude Effects FrameBase ControlFrames SettingsFrame DataFrame HpackHeader HpackDecoder HpackDecoderFacts.
From S2P Require Import HpackTable HpackEncoder HeadersFrame HeaderChunks ProtoErrors FramedRead FramedReadFacts FrameSink FramedWrite FramedWriteFacts.
From S2P Require Import WireCodec Connection.

(** ** The reader *)

Section reader.
Context `{HeaderPlz} `{!HeaderPlzLaws _} `{!HeaderMapOps} `{!Transport} `{!Delimiter} `{!DelimiterLaws _}.

Import FramedReader.

(** The tables and the partial block are within some limits, the one of CONTINUATION
    frames at least the current. *)
Definition reader_fine (r : FramedReader.t) : Prop :=
  exists m limit, reader_ok m limit (state r) /\ 0 <= max_continuation_frames r <= limit /\
    0 < max_frame_length (inner r).

Lemma calc_max_ok h n : 0 < n -> returns (FramedRead.calc_max_continuation_frames h n) (fun k => 0 <= k).
Proof.
  intros Hn. unfold FramedRead.calc_max_continuation_frames. destruct (Z.eqb_spec n 0); [lia|]. cbn [negb assert obind].
  apply returns_Done. lia.
Qed.

Lemma reader_ok_mono m limit m' limit' s :
  reader_ok m limit s -> m <= m' -> limit <= limit' -> reader_ok m' limit' s.
Proof.
  intros [(Ht & Hm & Hl & Hu) Hp] Hle Hle'. split.
  - split_and!; try done; try lia. destruct (Decoder.max_size_update _); [lia|done].
  - unfold partial_ok in *. destruct (FramedRead.partial_inout s); [|done]. destruct Hp as (? & ? & ?). split_and!; try done; lia.
Qed.

Lemma new_limits r k :
  reader_fine r -> 0 <= k -> forall r', state r' = state r -> max_continuation_frames r' = k -> 0 < max_frame_length (inner r') ->
  reader_fine r'.
Proof.
  intros (m & limit & Hok & Hlim & _) Hk r' Hs <- Hpos. exists m, (Z.max limit (max_continuation_frames r')). rewrite Hs.
  split_and!; [|lia..|done]. eapply reader_ok_mono; [done|lia..].
Qed.

Lemma new_fine : returns (FramedReader.new delimiter_new) reader_fine.
Proof.
  unfold FramedReader.new. destruct (calc_max_ok FramedRead.DEFAULT_SETTINGS_MAX_HEADER_LIST_SIZE _ new_max_frame_length) as (k & -> & Hk).
  apply returns_Done. exists DEFAULT_SETTINGS_HEADER_TABLE_SIZE, k. unfold DEFAULT_SETTINGS_HEADER_TABLE_SIZE.
  split; [|split; [split; [exact Hk|done]|apply new_max_frame_length]].
  split; [|done]. split_and!; cbn; try lia. split; cbn; lia.
Qed.

Lemma set_max_frame_size_fine r v :
  reader_fine r -> DEFAULT_MAX_FRAME_SIZE <= v <= MAX_MAX_FRAME_SIZE ->
  returns (FramedReader.set_max_frame_size r v) (fun r' => reader_fine r' /\ FramedReader.max_frame_size r' = v).
Proof.
  intros Hr Hv. unfold FramedReader.set_max_frame_size. rewrite !(proj2 (Z.leb_le _ _)) by apply Hv. cbn [andb assert obind].
  assert (0 < v) by (unfold DEFAULT_MAX_FRAME_SIZE in Hv; lia).
  match goal with |- context [FramedRead.calc_max_continuation_frames ?h v] => destruct (calc_max_ok h v) as (k & -> & Hk); [done|] end.
  apply returns_Done. unfold FramedReader.max_frame_size. record. rewrite set_max_frame_length_spec. split; [|done].
  apply (new_limits r k Hr Hk); record; rewrite ?set_max_frame_length_spec; done.
Qed.

Lemma set_max_frame_size_ensures r v : reader_fine r -> ensures (FramedReader.set_max_frame_size r v) reader_fine.
Proof.
  intros Hr. destruct (decide (DEFAULT_MAX_FRAME_SIZE <= v <= MAX_MAX_FRAME_SIZE)) as [Hv|Hv].
  - destruct (set_max_frame_size_fine r v Hr Hv) as (r' & -> & Hr' & _). by apply ensures_Done.
  - unfold FramedReader.set_max_frame_size. destruct (_ && _) eqn:Hb; [|apply ensures_Panic]. exfalso. bool_to_prop. lia.
Qed.

Lemma set_max_header_list_size_fine r v : reader_fine r -> returns (FramedReader.set_max_header_list_size r v) reader_fine.
Proof.
  intros Hr. unfold FramedReader.set_max_header_list_size. pose proof Hr as (_ & _ & _ & _ & Hpos).
  match goal with |- context [FramedRead.calc_max_continuation_frames v ?n] => destruct (calc_max_ok v n) as (k & -> & Hk); [done|] end.
  apply returns_Done. by apply (new_limits r k Hr Hk).
Qed.

Lemma set_header_table_size_fine r v : reader_fine r -> 0 <= v -> reader_fine (FramedReader.set_header_table_size r v).
Proof.
  intros (m & limit & [(Ht & Hm & Hl & Hu) Hp] & Hlim & Hpos) Hv. exists (Z.max m v), limit. split; [|done]. split; [|done].
  unfold dec_ok, FramedReader.set_header_table_size, Decoder.queue_size_update. record. destruct (Decoder.max_size_update _); split_and!; done || lia.
Qed.

(** Whatever is delivered, the reader answers. *)
Lemma poll_loop_fine fuel : forall r s,
  reader_fine r -> (frames_ready (inner r) s < fuel)%nat ->
  returns (FramedReader.poll_loop fuel r s) (fun x => reader_fine x.1.2 /\ io_written x.2 = io_written s).
Proof.
  induction fuel as [|fuel IH]; intros r s Hr Hf; [lia|]. cbn [FramedReader.poll_loop].
  pose proof (poll_next_max (inner r) s) as Hmax. pose proof (poll_next_written (inner r) s) as Hwr.
  destruct (poll_next_bytes (inner r) s) as [[x d] s'] eqn:Hp. cbn [fst snd] in Hmax, Hwr.
  pose proof Hr as (m & limit & Hok & Hlim & Hpos).
  assert (reader_fine (r <| inner := d |>)) as Hr1 by (exists m, limit; split; [exact Hok|]; split; [exact Hlim|]; record; lia).
  destruct x as [[[b|e]|]|]; try by apply returns_Done.
  destruct (poll_next_whole _ _ _ _ _ Hp) as [Hlen Hu]. pose proof (poll_next_progress _ _ _ _ _ Hp) as Hlt.
  destruct (decode_frame_ok m limit (max_continuation_frames (r <| inner := d |>)) (state (r <| inner := d |>))
    (max_header_list_size (r <| inner := d |>)) b) as (res & st & -> & Hst); [done|lia|apply Hlim|done|done|]. cbn [obind].
  assert (reader_fine (with_state (r <| inner := d |>) st)) as Hr2.
  { exists m, limit. split; [by destruct st|]. split; [exact Hlim|]. by rewrite <-Hmax in Hpos. }
  destruct res as [[f|]|e]; [by apply returns_Done| |by apply returns_Done].
  destruct (IH (with_state (r <| inner := d |>) st) s' Hr2) as (x & -> & Hx & Hxw).
  { change (inner (with_state (r <| inner := d |>) st)) with d. lia. }
  apply returns_Done. split; [done|congruence].
Qed.

Lemma poll_next_fine r s :
  reader_fine r -> returns (FramedReader.poll_next r s) (fun x => reader_fine x.1.2 /\ io_written x.2 = io_written s).
Proof. intros Hr. apply poll_loop_fine; [done|lia]. Qed.

End reader.

(** ** Operations under an invariant *)

(** The answer of a computation that returns, with what is known of it. *)
Definition total {A} {P : A -> Prop} (o : outcome A) : returns o P -> { a | P a }.
Proof.
  refine (match o with Done a => fun H => exist _ a _ | Panic => fun H => False_rect _ _ end).
  - abstract (destruct H as (a' & Heq & HP); injection Heq as Heq; by rewrite Heq).
  - abstract (by destruct H as (a' & Heq & _)).
Defined.

Lemma total_eq {A} {P : A -> Prop} (o : outcome A) (H : returns o P) : o = Done (proj1_sig (total o H)).
Proof. destruct o as [a|]; [done|]. exfalso. by destruct H as (a & ? & _). Qed.

(** A computation that may panic, with what is known of its answer. *)
Definition partial {A} {P : A -> Prop} (o : outcome A) : ensures o P -> outcome { a | P a } :=
  match o with
  | Done a => fun H => Done (exist _ a (H a eq_refl))
  | Panic => fun _ => Panic
  end.

Lemma partial_eq {A} {P : A -> Prop} (o : outcome A) (H : ensures o P) a :
  o = Done a -> exists HP, partial o H = Done (exist _ a HP).
Proof. intros ->. by eexists. Qed.

Lemma partial_inv {A} {P : A -> Prop} (o : outcome A) (H : ensures o P) x :
  partial o H = Done x -> o = Done (proj1_sig x).
Proof. destruct o as [a|]; [|done]. by intros [= <-]. Qed.

(** ** The codec *)

Section codec.
Context `{HeaderPlz} `{!HeaderPlzLaws _} `{!NameHash} `{!HeaderMapOps} `{!HeaderMapIter}.
Context `{!Transport} `{!TransportLaws _} `{!Delimiter} `{!DelimiterLaws _}.

Import WireCodec.

Definition codec_ok (c : WireCodec.t) : Prop :=
  reader_fine (framed_read c) /\ exists sent, on_wire (framed_write c) sent.

Abbreviation pending c := (FrameEncoder.next (FramedWrite.encoder (framed_write c))).

Lemma new_codec_ok s v :
  DEFAULT_MAX_FRAME_SIZE <= v <= MAX_MAX_FRAME_SIZE ->
  returns (WireCodec.with_max_recv_frame_size s v) (fun c => codec_ok c /\ on_wire (framed_write c) (io_written s)).
Proof.
  intros Hv. unfold with_max_recv_frame_size. destruct new_fine as (r & -> & Hr). cbn [obind].
  destruct (set_max_frame_size_fine r v Hr Hv) as (r' & -> & Hr' & _). cbn [obind]. apply returns_Done.
  split; [split; [done|]|]; [eexists|]; apply new_wire.
Qed.

(** Operations of the writer. *)
Lemma on_writer_ok {A} (f : FramedWrite.t -> outcome (A * FramedWrite.t)) c :
  (forall sent, on_wire (framed_write c) sent -> returns (f (framed_write c)) (fun x => on_wire x.2 sent)) ->
  codec_ok c -> returns (on_writer f c) (fun x => codec_ok x.2).
Proof.
  intros Hf [Hr (sent & Hw)]. unfold on_writer. destruct (Hf sent Hw) as ([a w] & -> & Hw'). cbn [obind].
  apply returns_Done. split; [done|]. by exists sent.
Qed.

Lemma poll_ready_ok c : codec_ok c -> returns (poll_ready c) (fun x => codec_ok x.2).
Proof. apply on_writer_ok. intros sent Hw. eapply returns_mono; [by apply poll_ready_spec|]. by intros x (? & _). Qed.

Lemma flush_ok c : codec_ok c -> returns (flush c) (fun x => codec_ok x.2).
Proof. apply on_writer_ok. intros sent Hw. eapply returns_mono; [by apply writer_flush_spec|]. by intros x (? & _). Qed.

Lemma shutdown_ok c : codec_ok c -> returns (shutdown c) (fun x => codec_ok x.2).
Proof. apply on_writer_ok. intros sent Hw. eapply returns_mono; [by apply shutdown_spec|]. by intros x (? & _). Qed.

Lemma inc_write_buffer_ok c n : codec_ok c -> codec_ok (inc_write_buffer c n).
Proof. intros [Hr (sent & Hw)]. split; [done|]. exists sent. by apply inc_write_buffer_wire. Qed.

Lemma set_send_header_table_size_ok c n : codec_ok c -> codec_ok (set_send_header_table_size c n).
Proof. intros [Hr (sent & Hw)]. split; [done|]. exists sent. by apply set_header_table_size_wire. Qed.

Lemma poll_next_ok c : codec_ok c -> returns (poll_next c) (fun x => codec_ok x.2).
Proof.
  intros [Hr (sent & [K Hw])]. unfold poll_next.
  destruct (poll_next_fine (framed_read c) (FramedWrite.inner (framed_write c)) Hr) as ([[x r] s] & -> & Hr' & Hs). cbn [obind].
  apply returns_Done. split; [done|]. exists sent. split; [done|]. cbn [snd] in Hs. rewrite <-Hw, <-Hs. done.
Qed.

Lemma encoder_ok_max e v : encoder_ok e -> 0 < v < 2 ^ 24 -> encoder_ok (e <| FrameEncoder.max_frame_size := v |>).
Proof. intros []. by split. Qed.

Lemma set_max_send_frame_size_ok' c v : codec_ok c -> 0 < v -> ensures (WireCodec.set_max_send_frame_size c v) codec_ok.
Proof.
  intros [Hr (sent & [K Hw])] Hv. unfold WireCodec.set_max_send_frame_size, FramedWrite.set_max_frame_size.
  destruct (Z.leb_spec v MAX_MAX_FRAME_SIZE) as [Hle|]; [|apply ensures_Panic]. cbn [assert obind]. apply ensures_Done.
  change MAX_MAX_FRAME_SIZE with 16777215 in Hle. rewrite wrap_u32_id by (unfold_ints; lia).
  split; [done|]. eexists. split; [|done]. apply encoder_ok_max; [done|lia].
Qed.

Lemma buffer_ok c f : codec_ok c -> pending c = None -> ensures (buffer c f) (fun x => codec_ok x.2).
Proof.
  intros [Hr (sent & [K Hw])] Hn x Hx. unfold buffer, on_writer in Hx. apply obind_Done in Hx as ([r w] & Hx & [= <-]).
  unfold FramedWrite.buffer in Hx. apply obind_Done in Hx as ([r' e] & Hx & [= -> <-]).
  split; [done|]. eexists. split; [|done]. by apply (buffer_keeps _ f K Hn (r, e)).
Qed.

Lemma set_max_recv_frame_size_ok c v : codec_ok c -> ensures (set_max_recv_frame_size c v) codec_ok.
Proof.
  intros [Hr Hw] c' Hc. unfold set_max_recv_frame_size in Hc. apply obind_Done in Hc as (r & Hr' & [= <-]).
  split; [|done]. exact (set_max_frame_size_ensures _ v Hr _ Hr').
Qed.

Lemma set_max_recv_header_list_size_ok c v : codec_ok c -> returns (set_max_recv_header_list_size c v) codec_ok.
Proof.
  intros [Hr Hw]. unfold set_max_recv_header_list_size. destruct (set_max_header_list_size_fine _ v Hr) as (r & -> & Hr').
  by apply returns_Done.
Qed.

Lemma set_recv_header_table_size_ok c v : codec_ok c -> 0 <= v -> codec_ok (set_recv_header_table_size c v).
Proof. intros [Hr Hw] Hv. split; [|done]. by apply set_header_table_size_fine. Qed.

(** *** The codec as a sink

    A codec within its invariant and the frames it has accepted.  The interface speaks of
    [Z]: a table size that is no [usize] does nothing, a maximum below 1 is refused; and
    it has no frame buffered while another is half written, which the comment on
    [Codec::buffer] forbids ([poll_ready] must be called first). *)
Definition codec_sink_state : Type := { x : WireCodec.t * list Frame.t | codec_ok x.1 }.

Implicit Types s : codec_sink_state.

Definition the_codec s : WireCodec.t := (proj1_sig s).1.
Definition the_frames s : list Frame.t := (proj1_sig s).2.

Lemma codec_inv s : codec_ok (the_codec s).
Proof. exact (proj2_sig s). Qed.

Definition move s (c : WireCodec.t) (Hc : codec_ok c) : codec_sink_state := exist _ (c, the_frames s) Hc.

(** An operation that always answers. *)
Definition answer {A} s (f : WireCodec.t -> outcome (A * WireCodec.t))
    (Hf : returns (f (the_codec s)) (fun x => codec_ok x.2)) : A * codec_sink_state :=
  let x := total (f (the_codec s)) Hf in
  ((proj1_sig x).1, move s (proj1_sig x).2 (proj2_sig x)).

Lemma answer_spec {A} s f Hf a s' :
  @answer A s f Hf = (a, s') -> f (the_codec s) = Done (a, the_codec s') /\ the_frames s' = the_frames s.
Proof.
  unfold answer. intros [= <- <-]. split; [|done]. rewrite (total_eq _ Hf) at 1. generalize (total _ Hf). by intros [[a c] Hc].
Qed.

(** [buffer] when no frame is half written. *)
Definition buffer_idle (c : WireCodec.t) f : outcome (result unit UserError.t * WireCodec.t) :=
  match pending c with None => buffer c f | Some _ => Panic end.

Lemma buffer_idle_ok c f : codec_ok c -> ensures (buffer_idle c f) (fun x => codec_ok x.2).
Proof.
  intros Hc. unfold buffer_idle. destruct (pending c) eqn:Hn; [by apply ensures_Panic|]. by apply buffer_ok.
Qed.

Definition accept s f : outcome (result unit UserError.t * codec_sink_state) :=
  let! x := partial (buffer_idle (the_codec s) f) (buffer_idle_ok (the_codec s) f (proj2_sig s)) in
  let r := (proj1_sig x).1 in
  Done (r, exist (fun x => codec_ok x.1)
    ((proj1_sig x).2, match r with Ok _ => the_frames s ++ [f] | Err _ => the_frames s end) (proj2_sig x)).

#[export] Instance codec_sink : FrameSink := {
  sink := codec_sink_state;
  sink_frames := the_frames;
  sink_has_capacity := fun s => FrameEncoder.has_capacity (FramedWrite.encoder (framed_write (the_codec s)));
  FrameSink.poll_ready := fun s => answer s poll_ready (poll_ready_ok (the_codec s) (proj2_sig s));
  sink_buffer := accept;
  FrameSink.flush := fun s => answer s flush (flush_ok (the_codec s) (proj2_sig s));
  FrameSink.write_buf_empty := fun s => write_buf_empty (the_codec s);
  FrameSink.inc_write_buffer := fun s n => move s _ (inc_write_buffer_ok _ n (proj2_sig s));
  FrameSink.max_send_frame_size := fun s => max_send_frame_size (the_codec s);
  FrameSink.set_max_send_frame_size := fun s v =>
    match decide (0 < v) with
    | Specif.left Hv =>
        let! x := partial (WireCodec.set_max_send_frame_size (the_codec s) v)
          (set_max_send_frame_size_ok' (the_codec s) v (proj2_sig s) Hv) in
        Done (move s (proj1_sig x) (proj2_sig x))
    | right _ => Panic
    end;
  FrameSink.set_send_header_table_size := fun s v => move s _ (set_send_header_table_size_ok _ v (proj2_sig s))
}.

Lemma accept_done s f r c :
  buffer_idle (the_codec s) f = Done (r, c) ->
  exists s', accept s f = Done (r, s') /\ the_codec s' = c /\
    the_frames s' = match r with Ok _ => the_frames s ++ [f] | Err _ => the_frames s end.
Proof.
  intros Hb. unfold accept. destruct (partial_eq _ (buffer_idle_ok (the_codec s) f (proj2_sig s)) _ Hb) as (HP & ->).
  cbn [obind proj1_sig fst snd]. by eexists.
Qed.

Lemma accept_inv s f s' : accept s f = Done (Ok tt, s') -> the_frames s' = the_frames s ++ [f].
Proof.
  unfold accept. destruct (partial _ _) as [[[r c] Hx]|]; [|done].
  cbn [obind proj1_sig fst snd]. by intros [= -> <-].
Qed.

(** A frame the writer can send is accepted. *)
Lemma accept_sendable s f :
  FrameEncoder.has_capacity (FramedWrite.encoder (framed_write (the_codec s))) = true ->
  sendable (FramedWrite.encoder (framed_write (the_codec s))) f ->
  exists s', accept s f = Done (Ok tt, s') /\ the_frames s' = the_frames s ++ [f] /\
    max_send_frame_size (the_codec s') = max_send_frame_size (the_codec s).
Proof.
  intros Hcap Hs. apply has_capacity_next in Hcap. destruct (codec_inv s) as [Hr (sent & Hw)].
  destruct (framed_buffer_spec _ sent f Hw Hcap Hs) as ([r w] & Hb & Hok & Hm & _). cbn [fst snd] in Hok, Hm. subst r.
  destruct (accept_done s f (Ok tt) (the_codec s <| framed_write := w |>)) as (s' & Ha & Hc & Hf).
  - unfold buffer_idle. rewrite Hcap. unfold buffer, on_writer. by rewrite Hb.
  - exists s'. split_and!; [done..|]. by rewrite Hc.
Qed.

#[local] Arguments answer : simpl never.
#[local] Arguments accept : simpl never.

#[export] Instance codec_sink_laws : FrameSinkLaws codec_sink.
Proof.
  split; cbn.
  - intros s. destruct (answer s _ _) as [a s'] eqn:Ha. by apply answer_spec in Ha as [_ ?].
  - intros s. destruct (answer s _ _) as [a s'] eqn:Ha. by apply answer_spec in Ha as [_ ?].
  - done.
  - intros s s' [Ha _]%answer_spec. unfold poll_ready, on_writer in Ha. apply obind_Done in Ha as ([r w] & Hp & [= -> Hc]).
    destruct (codec_inv s) as [_ (sent & Hw)]. destruct (poll_ready_spec _ _ Hw) as (x & Hx & _ & _ & Hcap & _).
    rewrite Hp in Hx. injection Hx as <-. rewrite <-Hc. by apply Hcap.
  - intros s f Hcap Hc. destruct (accept_sendable s f Hcap) as (s' & Ha & Hf & _); [by destruct f|by exists s'].
  - intros s f Hcap Hs. apply accept_sendable; [done|].
    destruct f; try done. cbn in Hs |- *. by apply Z.leb_le in Hs.
  - apply accept_inv.
  - intros s. destruct (answer s _ _) as [a s'] eqn:Ha. apply answer_spec in Ha as [Ha _]. unfold poll_ready, on_writer in Ha.
    apply obind_Done in Ha as ([r w] & Hp & [= -> Hc]).
    destruct (codec_inv s) as [_ (sent & Hw)]. destruct (poll_ready_spec _ _ Hw) as (x & Hx & _ & (_ & Hm & _) & _).
    rewrite Hp in Hx. injection Hx as <-. cbn. by rewrite <-Hc.
  - intros s. destruct (answer s _ _) as [a s'] eqn:Ha. apply answer_spec in Ha as [Ha _]. unfold flush, on_writer in Ha.
    apply obind_Done in Ha as ([r w] & Hp & [= -> Hc]).
    destruct (codec_inv s) as [_ (sent & Hw)]. destruct (writer_flush_spec _ _ Hw) as (x & Hx & _ & (_ & Hm & _) & _).
    rewrite Hp in Hx. injection Hx as <-. cbn. by rewrite <-Hc.
  - intros s v Hv. unfold DEFAULT_MAX_FRAME_SIZE in Hv. destruct (decide (0 < v)) as [Hp|]; [|lia].
    assert (exists w, FramedWrite.set_max_frame_size (framed_write (the_codec s)) v = Done w) as [w Hw].
    { unfold FramedWrite.set_max_frame_size. rewrite (proj2 (Z.leb_le _ _)) by apply Hv. by eexists. }
    destruct (partial_eq _ (set_max_send_frame_size_ok' (the_codec s) v (proj2_sig s) Hp) (the_codec s <| framed_write := w |>)) as (HP & ->).
    { change ((proj1_sig s).1) with (the_codec s). unfold WireCodec.set_max_send_frame_size. by rewrite Hw. }
    cbn [obind]. by eexists.
  - done.
Qed.

(** The rest of the codec, as the connection uses it. *)
#[export] Instance codec_of_connection : Connection.Codec := {
  Connection.poll_next := fun s => answer s poll_next (poll_next_ok (the_codec s) (proj2_sig s));
  Connection.shutdown := fun s => answer s shutdown (shutdown_ok (the_codec s) (proj2_sig s));
  Connection.set_max_recv_frame_size := fun s v =>
    let! x := partial (set_max_recv_frame_size (the_codec s) v) (set_max_recv_frame_size_ok (the_codec s) v (proj2_sig s)) in
    Done (move s (proj1_sig x) (proj2_sig x));
  Connection.set_max_recv_header_list_size := fun s v =>
    let x := total (set_max_recv_header_list_size (the_codec s) v)
      (set_max_recv_header_list_size_ok (the_codec s) v (proj2_sig s)) in
    move s (proj1_sig x) (proj2_sig x);
  Connection.set_recv_header_table_size := fun s v =>
    match decide (0 <= v) with
    | Specif.left Hv => move s _ (set_recv_header_table_size_ok (the_codec s) v (proj2_sig s) Hv)
    | right _ => s
    end
}.

(** ** Properties *)


End codec.
