(* ===== verification/PrefaceFacts.v ===== *)
(** * The handshake keeps its contract

    Whatever the peer sends and however the transport behaves, a poll of the handshake
    returns, what it writes is the greeting of its role and then the acknowledgement (or
    the GOAWAY), and a handshake that succeeds leaves a codec that is empty, has the
    peer's parameters, and whose decoder has not seen a header block yet. *)

From Stdlib Require Import String.
From S2P Require Import Prelude Effects FrameBase ControlFrames SettingsFrame DataFrame HpackHeader HpackDecoder HpackDecoderFacts.
From S2P Require Import HpackTable HpackEncoder HpackEncoderFacts HeadersFrame HeaderChunks ProtoErrors FramedRead FramedReadFacts FrameSink FramedWrite FramedWriteFacts.
From S2P Require Import WireCodec WireCodecFacts Preface.
Local Open Scope Z_scope.

(** ** Waiting for SETTINGS *)

Section reader.
Context `{HeaderPlz} `{!HeaderPlzLaws _} `{!HeaderMapOps} `{!Transport} `{!Delimiter} `{!DelimiterLaws _}.

(** The reader has decoded nothing ([d] is its decoder), or holds a partial header block,
    after which no SETTINGS come. *)
Definition awaits (d : Decoder.t) (s : FramedRead.State) : Prop :=
  s = FramedRead.state d None \/ FramedRead.partial_inout s <> None.

Lemma header_block_awaits d s head max loaded r s' :
  awaits d s -> FramedRead.header_block s head max loaded = Done (r, s') ->
  (r = Ok None -> awaits d s') /\ (forall f, r <> Ok (Some (Frame.Settings f))).
Proof.
  intros Ha. unfold FramedRead.header_block. destruct loaded as [[frame payload]|e].
  - intros Hd. apply obind_Done in Hd as ([[[res frame'] rest] d'] & _ & Hd).
    destruct (FramedRead.hpack_error _ _ _); [by injection Hd as <- <-|].
    destruct (Continuable.is_end_headers frame); injection Hd as <- <-; split; try done.
    + by destruct frame'.
    + intros _. by right.
  - destruct e; by intros [= <- <-].
Qed.

Lemma continuation_awaits d s head max limit b r s' :
  FramedRead.continuation s head max limit b = Done (r, s') ->
  (r = Ok None -> awaits d s') /\ (forall f, r <> Ok (Some (Frame.Settings f))).
Proof.
  unfold FramedRead.continuation. destruct (FramedRead.partial_inout s) as [p|]; [|by intros [= <- <-]].
  destruct (negb (_ =? _)); [by intros [= <- <-]|]. destruct (negb _ && _); [by intros [= <- <-]|].
  intros Hd. apply obind_Done in Hd as (payload & _ & Hd). destruct (negb _ && _ && _); [by injection Hd as <- <-|].
  apply obind_Done in Hd as ([[[res frame'] rest] d'] & _ & Hd). destruct (FramedRead.hpack_error _ _ _); [by injection Hd as <- <-|].
  destruct (Z.land (Head.flag head) 4 =? 4); injection Hd as <- <-; split; try done.
  - by destruct frame'.
  - intros _. by right.
Qed.

Lemma decode_awaits d s max limit b r s' :
  awaits d s -> all_u8 b -> FramedRead.decode_frame s max limit b = Done (r, s') ->
  (r = Ok None -> awaits d s') /\ (forall f, r = Ok (Some (Frame.Settings f)) -> s' = FramedRead.state d None /\ Settings.legal f).
Proof.
  intros Ha Hb. unfold FramedRead.decode_frame. intros Hd. apply obind_Done in Hd as (head & _ & Hd).
  assert (forall x : FramedRead.Result, (x = Ok None -> awaits d s') /\ (forall f, x <> Ok (Some (Frame.Settings f))) ->
    (x = Ok None -> awaits d s') /\ (forall f, x = Ok (Some (Frame.Settings f)) -> s' = FramedRead.state d None /\ Settings.legal f)) as Hweak.
  { intros x [Hx1 Hx2]. split; [done|]. intros f Hf. by destruct (Hx2 f). }
  destruct (decide (Head.kind head = Kind.Continuation)) as [Hk|Hk].
  - rewrite bool_decide_true in Hd by done. apply Hweak.
    destruct (FramedRead.partial_inout s); apply obind_Done in Hd as (pl & _ & Hd); rewrite Hk in Hd; by apply (continuation_awaits d) in Hd.
  - rewrite bool_decide_false in Hd by done.
    destruct (FramedRead.partial_inout s) eqn:Hpart; [by injection Hd as <- <-|]. destruct Ha as [->|Ha]; [|done].
    apply obind_Done in Hd as (p & Hp & Hd).
    assert (all_u8 p) as Hpu by (unfold slice_from in Hp; destruct (_ <=? _)%nat; [injection Hp as <-; by apply Forall_drop|done]).
    destruct (Head.kind head) eqn:Hkind; try done.
    all: try (apply obind_Done in Hd as (x & Hx & Hd)).
    all: try (injection Hd as <- <-; destruct x; by split).
    + by apply Hweak, (header_block_awaits d _ _ _ _ _ _ (or_introl eq_refl) Hd).
    + destruct (StreamId.is_zero _); [by injection Hd as <- <-|]. apply obind_Done in Hd as (x & Hx & Hd).
      destruct x as [?|[]]; by injection Hd as <- <-.
    + injection Hd as <- <-. destruct x as [f|e]; [|by split]. split; [done|]. intros f' [= ->]. split; [done|].
      by apply settings_load_legal_aux in Hx.
    + by apply Hweak, (header_block_awaits d _ _ _ _ _ _ (or_introl eq_refl) Hd).
    + injection Hd as <- <-. split; [intros _; by left|done].
Qed.

Definition settings_read (d : Decoder.t) (x : poll (option (result Frame.t ProtoError.t)) * FramedReader.t) : Prop :=
  (x.1 = Pending -> awaits d (FramedReader.state x.2)) /\
  (forall f, x.1 = Ready (Some (Ok (Frame.Settings f))) -> FramedReader.state x.2 = FramedRead.state d None /\ Settings.legal f).

Lemma poll_loop_awaits d fuel : forall r s x r' s',
  awaits d (FramedReader.state r) -> FramedReader.poll_loop fuel r s = Done (x, r', s') -> settings_read d (x, r').
Proof.
  induction fuel as [|fuel IH]; intros r s x r' s' Ha Hp; [done|]. cbn [FramedReader.poll_loop] in Hp.
  destruct (poll_next_bytes (FramedReader.inner r) s) as [[y dl] s1] eqn:Hb.
  assert (FramedReader.state (r <| FramedReader.inner := dl |>) = FramedReader.state r) as Hst by done.
  destruct y as [[[b|e]|]|]; [|by injection Hp as <- <- <-..].
  destruct (poll_next_whole _ _ _ _ _ Hb) as [_ Hu]. apply obind_Done in Hp as ([res st] & Hd & Hp). rewrite Hst in Hd.
  destruct (decode_awaits _ _ _ _ _ _ _ Ha Hu Hd) as [Hnone Hsome].
  assert (FramedReader.state (FramedReader.with_state (r <| FramedReader.inner := dl |>) st) = st) as Hws by by destruct st.
  destruct res as [[f|]|e]; [|by eapply IH; [|exact Hp]; rewrite Hws; apply Hnone|by injection Hp as <- <- <-].
  injection Hp as <- <- <-. split; [done|]. intros f' [= ->]. cbn [snd]. rewrite Hws. by apply Hsome.
Qed.

End reader.

(** ** The stages *)

Section stages.
Context `{HeaderPlz} `{!HeaderPlzLaws _} `{!NameHash} `{!HeaderMapOps} `{!HeaderMapIter}.
Context `{!Transport} `{!TransportLaws _} `{!Delimiter} `{!DelimiterLaws _} `{!AsyncIo} `{!AsyncIoLaws _}.

Import WireCodec PrefaceConn.

Abbreviation writer c := (FramedWrite.encoder (framed_write c)).

(** The codec has accepted [sent]; [h] is its HPACK encoder, [m] the largest frame it sends. *)
Record codec_at (h : Encoder.t) (m : Z) (sent : bytes) (c : WireCodec.t) : Prop := {
  ca_reader : reader_fine (framed_read c);
  ca_wire : on_wire (framed_write c) sent;
  ca_hpack : FrameEncoder.hpack (writer c) = h;
  ca_max : FrameEncoder.max_frame_size (writer c) = m
}.

(** All of it is written. *)
Record quiet (h : Encoder.t) (m : Z) (sent : bytes) (c : WireCodec.t) : Prop := {
  qu_at : codec_at h m sent c;
  qu_next : FrameEncoder.next (writer c) = None;
  qu_written : io_written (get_mut c) = sent
}.

Lemma flush_quiet h m sent c :
  codec_at h m sent c ->
  returns (WireCodec.flush c) (fun x => framed_read x.2 = framed_read c /\ codec_at h m sent x.2 /\
    (x.1 = Ready (Ok tt) -> quiet h m sent x.2)).
Proof.
  intros [Hr Hw Hh Hm]. unfold WireCodec.flush, on_writer.
  destruct (writer_flush_spec _ _ Hw) as ([r w] & -> & Hw' & (Eh & Em & _) & _ & Hq). cbn [obind fst snd] in *. apply returns_Done.
  assert (codec_at h m sent (c <| framed_write := w |>)) as Hc by (split; try done; record; congruence).
  split; [done|]. split; [done|]. intros Hready. destruct (Hq Hready) as [Hwr (Hn & _)]. by split.
Qed.

Lemma buffer_quiet h m sent c f o :
  quiet h m sent c -> is_control f = true -> (forall e h' o', sends e f h' o' -> h' = FrameEncoder.hpack e /\ o' = o) ->
  returns (WireCodec.buffer c f) (fun x => x.1 = Ok tt /\ framed_read x.2 = framed_read c /\ codec_at h m (sent ++ o) x.2).
Proof.
  intros [[Hr Hw Hh Hm] Hn _] Hf Ho. unfold WireCodec.buffer, on_writer.
  assert (sendable (writer c) f) as Hs by by destruct f.
  destruct (framed_buffer_spec _ _ f Hw Hn Hs) as ([r w] & -> & Hok & Hmax & o' & Hsends & Hw'). cbn [obind fst snd] in *.
  apply returns_Done. destruct (Ho _ _ _ Hsends) as [Eh ->]. split; [done|]. split; [done|]. split; try done; record; congruence.
Qed.

(** *** What the handshake promises *)

Context (start : bytes) (role : Role.t) (local : Settings.t).

(** What each role writes first. *)
Definition greeting : bytes :=
  match role with Role.Client => PREFACE | Role.Server => [] end ++ Settings.encode local [].

Definition greeted : bytes := start ++ greeting.
Definition acknowledged : bytes := greeted ++ Settings.encode Settings.ack [].
Definition refused_with (reason : Reason.t) : bytes := greeted ++ GoAway.encode (GoAway.new StreamId.ZERO reason) [].

Definition hpack0 : Encoder.t := Encoder.new DEFAULT_SETTINGS_HEADER_TABLE_SIZE 0.
Definition decoder0 : Decoder.t := Decoder.new DEFAULT_SETTINGS_HEADER_TABLE_SIZE.

(** The encoder and the limit the SETTINGS of the peer ask for. *)
Definition hpack_of (remote : Settings.t) : Encoder.t :=
  match Settings.header_table_size remote with Some v => Encoder.update_max_size hpack0 v | None => hpack0 end.
Definition max_of (remote : Settings.t) : Z := default DEFAULT_MAX_FRAME_SIZE (Settings.max_frame_size remote).

Definition nothing_read (c : WireCodec.t) : Prop := FramedReader.state (framed_read c) = FramedRead.state decoder0 None.

Definition stage_ok (st : Stage) : Prop :=
  match st with
  | Start s => io_written s = start
  | WritePreface rest s => role = Role.Client /\ exists p, PREFACE = p ++ rest /\ io_written s = start ++ p
  | FlushSettings c => codec_at hpack0 DEFAULT_MAX_FRAME_SIZE greeted c /\ nothing_read c
  | ReadPreface _ c => role = Role.Server /\ quiet hpack0 DEFAULT_MAX_FRAME_SIZE greeted c /\ nothing_read c
  | ReadSettings c => quiet hpack0 DEFAULT_MAX_FRAME_SIZE greeted c /\ awaits decoder0 (FramedReader.state (framed_read c))
  | FlushGoAway c reason => codec_at hpack0 DEFAULT_MAX_FRAME_SIZE (refused_with reason) c
  | FlushAck c remote =>
      codec_at (hpack_of remote) (max_of remote) acknowledged c /\ nothing_read c /\ Settings.legal remote
  | Finished _ => False
  end.

(** A handshake that succeeds. *)
Definition established (c : WireCodec.t) (remote : Settings.t) : Prop :=
  quiet (hpack_of remote) (max_of remote) acknowledged c /\ nothing_read c /\ Settings.legal remote.

(** What has been written when it fails, by the error. *)
Definition written_on (e : PrefaceError.t) (written : bytes) : Prop :=
  match e with
  | PrefaceError.InvalidPreface => role = Role.Server /\ written = greeted
  | PrefaceError.Eof | PrefaceError.WrongFrame _ => written = greeted
  | PrefaceError.Proto _ (ProtoError.GoAway _ reason _) => written = refused_with reason
  | PrefaceError.Proto _ _ => written = greeted
  | PrefaceError.Io _ _ =>
      exists reply rest, (reply = acknowledged \/ exists reason, reply = refused_with reason) /\ reply = written ++ rest
  | PrefaceError.Codec _ _ => False
  end.

Definition kept (x : FrameSink.poll output * Stage) : Prop :=
  match x with
  | (Pending, st) => stage_ok st
  | (Ready (Ok (c, remote)), Finished s) => s = get_mut c /\ established c remote
  | (Ready (Err e), Finished s) => written_on e (io_written s)
  | _ => False
  end.

Definition keeps (m : step) : Prop := returns m kept.

Lemma keeps_failed e s : written_on e (io_written s) -> keeps (fail e s).
Proof. intros He. by apply returns_Done. Qed.

Lemma io_prefix c h m sent context e :
  codec_at h m sent c -> (exists rest, acknowledged = sent ++ rest) \/ (exists reason, sent = refused_with reason) ->
  written_on (PrefaceError.Io context e) (io_written (get_mut c)).
Proof.
  intros [_ [_ Hw] _ _] [[rest Hs]|[reason Hs]]; cbn.
  - exists acknowledged. eexists. split; [by left|]. by rewrite Hs, <-Hw, <-app_assoc.
  - exists (refused_with reason). eexists. split; [right; by exists reason|]. by rewrite <-Hs, <-Hw.
Qed.

Lemma flush_then_keeps context stage c k h m sent :
  codec_at h m sent c -> (exists rest, acknowledged = sent ++ rest) \/ (exists reason, sent = refused_with reason) ->
  (forall c', framed_read c' = framed_read c -> codec_at h m sent c' -> stage_ok (stage c')) ->
  (forall c', framed_read c' = framed_read c -> quiet h m sent c' -> keeps (k c')) ->
  keeps (flush_then context stage c k).
Proof.
  intros Hc Hs Hst Hk. unfold keeps, flush_then. destruct (flush_quiet _ _ _ _ Hc) as ([r c'] & -> & Hr & Hc' & Hq). cbn [obind fst snd] in *.
  destruct r as [[[]|e]|]; cbn [ctx].
  - by apply Hk, Hq.
  - apply keeps_failed. by eapply io_prefix.
  - apply returns_Done. by apply Hst.
Qed.

Lemma buffer_then_keeps context c f k h m sent o :
  quiet h m sent c -> is_control f = true -> (forall e h' o', sends e f h' o' -> h' = FrameEncoder.hpack e /\ o' = o) ->
  (forall c', framed_read c' = framed_read c -> codec_at h m (sent ++ o) c' -> keeps (k c')) ->
  keeps (buffer_then context c f k).
Proof.
  intros Hq Hf Ho Hk. unfold keeps, buffer_then. destruct (buffer_quiet _ _ _ _ _ _ Hq Hf Ho) as ([r c'] & -> & Hr & Hrd & Hc). cbn [obind fst snd] in *.
  subst r. cbn [ctx]. by apply Hk.
Qed.

Lemma flush_ack_keeps c remote :
  codec_at (hpack_of remote) (max_of remote) acknowledged c -> nothing_read c -> Settings.legal remote -> keeps (flush_ack c remote).
Proof.
  intros Hc Hn Hl. eapply flush_then_keeps; [exact Hc|left; exists []; by rewrite app_nil_r|..]; unfold nothing_read in *.
  - intros c' Hr Hc'. split; [done|]. split; [|done]. unfold nothing_read. by rewrite Hr.
  - intros c' Hr Hc'. apply returns_Done. split; [done|]. split; [done|]. split; [|done]. unfold nothing_read. by rewrite Hr.
Qed.

Lemma flush_goaway_keeps c reason : codec_at hpack0 DEFAULT_MAX_FRAME_SIZE (refused_with reason) c -> keeps (flush_goaway c reason).
Proof.
  intros Hc. eapply flush_then_keeps; [exact Hc|right; by exists reason|done|].
  intros c' _ Hq. apply keeps_failed. apply Hq.
Qed.

(** The SETTINGS of the peer are applied to an idle writer. *)
Lemma apply_peer_settings_quiet c remote :
  quiet hpack0 DEFAULT_MAX_FRAME_SIZE greeted c -> Settings.legal remote ->
  returns (apply_peer_settings c remote) (fun c' => framed_read c' = framed_read c /\
    quiet (hpack_of remote) (max_of remote) greeted c').
Proof.
  intros Hq Hl. unfold apply_peer_settings.
  set (c1 := match Settings.header_table_size remote with
    | Some val => WireCodec.set_send_header_table_size c val
    | None => c
    end).
  assert (framed_read c1 = framed_read c /\ quiet (hpack_of remote) DEFAULT_MAX_FRAME_SIZE greeted c1) as [Hr1 [[Hr Hw Hh Hm] Hn Hio]].
  { destruct Hq as [[Hr Hw Hh Hm] Hn Hio]. unfold c1, hpack_of. destruct (Settings.header_table_size remote) as [v|]; [|by split].
    split; [done|]. split; [|done..]. split; [done|by apply set_header_table_size_wire| |done].
    unfold WireCodec.set_send_header_table_size, FramedWrite.set_header_table_size. record. by rewrite Hh. }
  unfold max_of. destruct (Settings.max_frame_size remote) as [v|] eqn:Hv; [|apply returns_Done; by split].
  assert (0 < v <= MAX_MAX_FRAME_SIZE) as Hrange.
  { unfold Settings.legal in Hl. rewrite Hv in Hl. destruct_and!. cbn in *. change MAX_MAX_FRAME_SIZE with 16777215. lia. }
  unfold WireCodec.set_max_send_frame_size.
  destruct (set_max_frame_size_spec (framed_write c1) greeted v Hw Hrange) as (w & Hset & Hw' & Hmax); [by rewrite Hn|].
  rewrite Hset. cbn [obind]. apply returns_Done. split; [done|].
  unfold FramedWrite.set_max_frame_size in Hset. rewrite (proj2 (Z.leb_le _ _)) in Hset by apply Hrange. injection Hset as <-.
  by split; [split|..].
Qed.

Lemma send_ack_keeps c remote :
  quiet hpack0 DEFAULT_MAX_FRAME_SIZE greeted c -> nothing_read c -> Settings.legal remote -> keeps (send_ack c remote).
Proof.
  intros Hq Hn Hl. unfold keeps, send_ack. destruct (apply_peer_settings_quiet c remote Hq Hl) as (c1 & -> & Hr1 & Hq1). cbn [obind].
  eapply buffer_then_keeps; [exact Hq1|done|by intros e h' o' [-> ->]|].
  intros c2 Hr2 Hc2. apply flush_ack_keeps; [done| |done]. unfold nothing_read in *. by rewrite Hr2, Hr1.
Qed.

Lemma send_goaway_response_keeps c reason : quiet hpack0 DEFAULT_MAX_FRAME_SIZE greeted c -> keeps (send_goaway_response c reason).
Proof.
  intros Hq. eapply buffer_then_keeps; [exact Hq|done|by intros e h' o' [-> ->]|]. intros c' _ Hc. by apply flush_goaway_keeps.
Qed.

(** Reading writes nothing and leaves the writer alone. *)
Lemma poll_next_quiet c h m sent :
  quiet h m sent c -> awaits decoder0 (FramedReader.state (framed_read c)) ->
  returns (WireCodec.poll_next c) (fun x => quiet h m sent x.2 /\ settings_read decoder0 (x.1, framed_read x.2)).
Proof.
  intros [[Hr [K Hw] Hh Hm] Hn Hio] Ha. unfold WireCodec.poll_next.
  destruct (poll_next_fine (framed_read c) (FramedWrite.inner (framed_write c)) Hr) as ([[x r] s] & Hp & Hr' & Hs).
  rewrite Hp. cbn [obind fst snd] in *. apply poll_loop_awaits with (d := decoder0) in Hp; [|done].
  apply returns_Done. split; [|exact Hp]. unfold get_mut in *. split; [split; try done|done|].
  - split; [done|]. record. by rewrite Hs.
  - unfold get_mut. record. by rewrite Hs.
Qed.

Lemma read_peer_settings_keeps c :
  quiet hpack0 DEFAULT_MAX_FRAME_SIZE greeted c -> awaits decoder0 (FramedReader.state (framed_read c)) -> keeps (read_peer_settings c).
Proof.
  intros Hq Ha. unfold keeps, read_peer_settings.
  destruct (poll_next_quiet _ _ _ _ Hq Ha) as ([x c'] & -> & Hq' & [Hpend Hset]). cbn [obind fst snd] in *.
  destruct x as [[[f|e]|]|].
  - destruct f as [f|f|f|f|f|f|f|f|f]; try (apply keeps_failed; apply Hq'). destruct (Hset f eq_refl) as [Hs Hl]. by apply send_ack_keeps.
  - destruct e as [id reason i|data reason i|k msg]; [apply keeps_failed, Hq'|by apply send_goaway_response_keeps|apply keeps_failed, Hq'].
  - apply keeps_failed, Hq'.
  - apply returns_Done. split; [done|]. by apply Hpend.
Qed.

Lemma nothing_awaits c : nothing_read c -> awaits decoder0 (FramedReader.state (framed_read c)).
Proof. intros Hn. by left. Qed.

Lemma read_preface_keeps filled c :
  role = Role.Server -> quiet hpack0 DEFAULT_MAX_FRAME_SIZE greeted c -> nothing_read c -> keeps (read_preface filled c).
Proof.
  intros Hrole Hq Hn. unfold keeps, read_preface. pose proof (read_exact_written (get_mut c) 24 filled) as Hw.
  destruct (poll_read_exact (get_mut c) 24 filled) as [[r filled'] s] eqn:Hp. cbn [snd] in Hw.
  assert (quiet hpack0 DEFAULT_MAX_FRAME_SIZE greeted (with_io c s)) as Hq'.
  { destruct Hq as [[Hr [K Hwire] Hh Hm] Hnext Hio]. unfold get_mut in *. split; [split; try done|done|].
    - split; [done|]. unfold with_io. record. by rewrite Hw.
    - unfold get_mut, with_io. record. by rewrite Hw. }
  destruct r as [[[]|e]|]; cbn [ctx].
  - destruct (bool_decide _); [by apply read_peer_settings_keeps; [|apply nothing_awaits]|].
    apply keeps_failed. split; [done|apply Hq'].
  - apply keeps_failed. eapply io_prefix; [apply Hq'|left; by eexists].
  - by apply returns_Done.
Qed.

Lemma flush_settings_keeps c :
  codec_at hpack0 DEFAULT_MAX_FRAME_SIZE greeted c -> nothing_read c -> keeps (flush_settings role c).
Proof.
  intros Hc Hn. eapply flush_then_keeps; [exact Hc|left; by eexists|..].
  - intros c' Hr Hc'. split; [done|]. unfold nothing_read. by rewrite Hr.
  - intros c' Hr Hq. assert (nothing_read c') as Hn' by (unfold nothing_read; by rewrite Hr).
    destruct role eqn:Hrole; [apply read_peer_settings_keeps; [done|by apply nothing_awaits]|by apply read_preface_keeps].
Qed.

Lemma new_quiet s : returns (WireCodec.new s) (fun c => quiet hpack0 DEFAULT_MAX_FRAME_SIZE (io_written s) c /\ nothing_read c).
Proof.
  destruct (new_codec_ok s DEFAULT_MAX_FRAME_SIZE) as (c & Hc & [Hr _] & Hw); [by split|]. unfold WireCodec.new. rewrite Hc.
  apply returns_Done. unfold with_max_recv_frame_size in Hc. apply obind_Done in Hc as (r & Hnew & Hc).
  apply obind_Done in Hc as (r' & Hset & [= <-]).
  unfold FramedReader.new in Hnew. apply obind_Done in Hnew as (k & _ & [= <-]).
  unfold FramedReader.set_max_frame_size in Hset. apply obind_Done in Hset as (u & _ & Hset). apply obind_Done in Hset as (k' & _ & [= <-]).
  split; [|done]. unfold FramedWrite.new, get_mut in *. split; [split; try done|..]; cbn in *; by destruct (is_write_vectored s).
Qed.

Definition written_before : bytes := start ++ match role with Role.Client => PREFACE | Role.Server => [] end.

Lemma send_settings_keeps s : io_written s = written_before -> keeps (send_settings role local s).
Proof.
  intros Hs. unfold keeps, send_settings. destruct (new_quiet s) as (c & -> & Hq & Hn). cbn [obind]. rewrite Hs in Hq.
  eapply buffer_then_keeps; [exact Hq|done|by intros e h' o' [-> ->]|]. intros c' Hr Hc.
  unfold written_before in Hc. rewrite <-app_assoc in Hc. apply flush_settings_keeps; [done|]. unfold nothing_read. by rewrite Hr.
Qed.

Lemma write_preface_keeps p rest s :
  role = Role.Client -> PREFACE = p ++ rest -> io_written s = start ++ p -> keeps (write_preface role local rest s).
Proof.
  intros Hrole Hp Hs. unfold keeps, write_preface. destruct (poll_write_all s rest) as [[r rest'] s'] eqn:Hw.
  destruct (write_all_spec _ _ _ _ _ Hw) as [(q & -> & Hs') Hr]. rewrite Hs, <-app_assoc in Hs'. rewrite app_assoc in Hp.
  destruct r as [[[]|e]|]; cbn [ctx].
  - apply send_settings_keeps. rewrite (Hr eq_refl), app_nil_r in Hp. unfold written_before. by rewrite Hrole, Hp, Hs'.
  - apply keeps_failed. exists acknowledged. unfold acknowledged, greeted, greeting. rewrite Hrole, Hp, Hs'. eexists.
    split; [by left|]. by rewrite <-!app_assoc.
  - apply returns_Done. split; [done|]. by exists (p ++ q).
Qed.

(** C4: the handshake, on either side.  Whatever octets the peer sends and however the
    transport behaves, polling never panics and the peer's bytes are never mixed up: what
    is written is, in this order and nothing else, the greeting (for a client the 24
    octets of the preface and its SETTINGS, for a server its SETTINGS), then the SETTINGS
    ACK; if the reader finds the connection broken, a GOAWAY instead of it; buffering
    never fails.  A handshake that succeeds has read SETTINGS with legal values, has
    applied the peer's table and frame size, has written everything, and its HPACK decoder
    is new. *)
Theorem handshake_contract st : stage_ok st -> exists x, PrefaceConn.poll role local st = Done x /\ kept x.
Proof.
  intros Hst. enough (keeps (PrefaceConn.poll role local st)) as (x & Hx & Hk) by by exists x.
  destruct st as [s|rest s|c|filled c|c|c reason|c remote|s]; cbn [PrefaceConn.poll stage_ok] in *.
  - destruct role eqn:Hrole; rewrite <-Hrole.
    + apply (write_preface_keeps []); [done|done|by rewrite app_nil_r].
    + apply send_settings_keeps. unfold written_before. by rewrite Hrole, app_nil_r.
  - destruct Hst as (Hrole & p & Hp & Hs). by eapply write_preface_keeps.
  - destruct Hst. by apply flush_settings_keeps.
  - destruct Hst as (? & ? & ?). by apply read_preface_keeps.
  - destruct Hst. by apply read_peer_settings_keeps.
  - by apply flush_goaway_keeps.
  - destruct Hst as (? & ? & ?). by apply flush_ack_keeps.
  - done.
Qed.

(** The SETTINGS the peer wrote are the ones read. *)
Lemma poll_next_settings c peer d' s' :
  nothing_read c -> Settings.legal peer -> Settings.flags peer = SettingsFlags.empty ->
  poll_next_bytes (FramedReader.inner (framed_read c)) (get_mut c) = (Ready (Some (Ok (Settings.encode peer []))), d', s') ->
  exists c', WireCodec.poll_next c = Done (Ready (Some (Ok (Frame.Settings peer))), c').
Proof.
  intros Hn Hl Hf Hp. unfold WireCodec.poll_next, FramedReader.poll_next. cbn [FramedReader.poll_loop]. unfold get_mut in Hp. rewrite Hp.
  destruct (wire_split (Frame.Settings peer) (Settings.encode peer []) (or_intror (conj Hl Hf)) eq_refl) as (h & p & _ & _ & _ & Hd).
  change (FramedReader.state (framed_read c <| FramedReader.inner := d' |>)) with (FramedReader.state (framed_read c)).
  rewrite Hn, Hd by done. cbn [obind]. by eexists.
Qed.

(** What a poll that has read [peer] may answer. *)
Definition settled (peer : Settings.t) (x : FrameSink.poll output * Stage) : Prop :=
  match x with
  | (Pending, FlushAck _ remote) => remote = peer
  | (Ready (Ok (_, remote)), _) => remote = peer
  | (Ready (Err (PrefaceError.Io _ _)), _) => True
  | _ => False
  end.

Lemma send_ack_settled c peer x : keeps (send_ack c peer) -> send_ack c peer = Done x -> settled peer x.
Proof.
  intros (x' & Hx' & Hk) Hx. rewrite Hx in Hx'. injection Hx' as <-. unfold send_ack in Hx.
  apply obind_Done in Hx as (c1 & _ & Hx). unfold buffer_then in Hx. apply obind_Done in Hx as ([r c2] & _ & Hx).
  destruct r as [[]|e]; cbn [ctx] in Hx; [|injection Hx as <-; by destruct Hk].
  unfold flush_ack, flush_then in Hx. apply obind_Done in Hx as ([r c3] & _ & Hx). by destruct r as [[[]|e]|]; injection Hx as <-.
Qed.


End stages.
