(* ===== verification/EndpointsFacts.v ===== *)
(** * What the builders announce and how an idle client ends

    The SETTINGS of any sequence of options, as the reader of a peer takes them; and the
    end of a client connection that has no stream and no handle, followed through the poll
    loop to the shutdown of the codec. *)

From S2P Require Import Prelude Effects FrameBase ControlFrames SettingsFrame DataFrame HpackHeader HpackDecoder HpackTable HpackEncoder.
From S2P Require Import HeadersFrame ProtoErrors FramedRead FramedReadFacts FrameSink OpError FramedWrite WireCodec Preface ProtoHandlers StreamState.
From S2P Require Import FlowWindow SlabLib FrameBuffer StreamRec StreamStore StreamQueue Spa.
From S2P Require Import StreamCounts Send SendOps SendPoll Messages Recv RecvOps Inner Streams Connection Builder Endpoints.
Local Open Scope Z_scope.

(** ** The settings of a builder *)

Section builder.
Context {S R : Type} `{!BuildConnection S R}.

Abbreviation builder := (Builder.t (R := R)).

(** The calls that configure a builder. *)
Inductive setting : Type :=
| InitialConnectionWindowSize (size : Z)
| InitialWindowSize (size : Z)
| MaxFrameSize (max : Z)
| MaxHeaderListSize (max : Z)
| MaxConcurrentStreams (max : Z)
| HeaderTableSize (size : Z)
| MaxConcurrentResetStreams (max : Z)
| ResetStreamDuration (dur : Z)
| MaxLocalErrorResetStreams (max : option Z)
| MaxPendingAcceptResetStreams (max : Z)
| EnableConnectProtocol
| MaxRecvBufferSize (size : Z).

Definition set (x : setting) (b : builder) : outcome builder :=
  match x with
  | InitialConnectionWindowSize size => Done (Builder.set_initial_connection_window_size size b)
  | InitialWindowSize size => Done (Builder.initial_window_size size b)
  | MaxFrameSize max => Builder.max_frame_size max b
  | MaxHeaderListSize max => Done (Builder.max_header_list_size max b)
  | MaxConcurrentStreams max => Done (Builder.max_concurrent_streams max b)
  | HeaderTableSize size => Done (Builder.header_table_size size b)
  | MaxConcurrentResetStreams max => Done (Builder.max_concurrent_reset_streams max b)
  | ResetStreamDuration dur => Done (Builder.set_reset_stream_duration dur b)
  | MaxLocalErrorResetStreams max => Done (Builder.max_local_error_reset_streams max b)
  | MaxPendingAcceptResetStreams max => Done (Builder.max_pending_accept_reset_streams max b)
  | EnableConnectProtocol => Done (Builder.enable_connect_protocol b)
  | MaxRecvBufferSize size => Done (Builder.set_max_recv_buffer_size size b)
  end.

Fixpoint configure (l : list setting) (b : builder) : outcome builder :=
  match l with
  | [] => Done b
  | x :: l => let! b := set x b in configure l b
  end.

(** The arguments are [u32] where the code has them. *)
Definition in_type (x : setting) : Prop :=
  match x with
  | InitialConnectionWindowSize v | InitialWindowSize v | MaxFrameSize v | MaxHeaderListSize v
  | MaxConcurrentStreams v | HeaderTableSize v => is_u32 v
  | _ => True
  end.

(** The window size set last. *)
Definition window_of (l : list setting) (o : option Z) : option Z :=
  fold_left (fun o x => match x with InitialWindowSize v => Some v | _ => o end) l o.

(** Legal but for the window size. *)
Definition nearly_legal (s : Settings.t) : Prop :=
  Settings.legal (Settings.set_initial_window_size None s) /\ Settings.opt_in is_u32 (Settings.initial_window_size s) /\
  Settings.flags s = SettingsFlags.empty.

Lemma frame_size_range v : frame_size_ok v = true <-> 16384 <= v <= 16777215.
Proof. unfold frame_size_ok, DEFAULT_MAX_FRAME_SIZE. change MAX_MAX_FRAME_SIZE with 16777215. rewrite andb_true_iff, !Z.leb_le. done. Qed.

Lemma set_nearly_legal x b b' :
  in_type x -> nearly_legal (Builder.settings b) -> set x b = Done b' ->
  nearly_legal (Builder.settings b') /\
  Settings.initial_window_size (Builder.settings b') = window_of [x] (Settings.initial_window_size (Builder.settings b)).
Proof.
  intros Hx Hn Hs. destruct b as [z1 z2 z3 z4 z5 z6 [f t p c w m h e] z7].
  unfold nearly_legal, Settings.legal in *. cbn in Hn. destruct_and!.
  destruct x as [v|v|v|v|v|v|v|v|v|v| |v]; cbn [set in_type] in *.
  3: unfold Builder.max_frame_size, Settings.set_max_frame_size in Hs; destruct (frame_size_ok v) eqn:Hv; [|done];
    apply frame_size_range in Hv; cbn [assert obind] in Hs.
  all: injection Hs as <-; cbn; split_and!; (done || by right).
Qed.

Lemma configure_nearly_legal l : forall b b',
  Forall in_type l -> nearly_legal (Builder.settings b) -> configure l b = Done b' ->
  nearly_legal (Builder.settings b') /\
  Settings.initial_window_size (Builder.settings b') = window_of l (Settings.initial_window_size (Builder.settings b)).
Proof.
  induction l as [|x l IH]; intros b b' Hl Hb Hc; [by injection Hc as <-|].
  apply Forall_cons in Hl as [Hx Hl]. cbn [configure] in Hc. apply obind_Done in Hc as (b1 & Hs & Hc).
  destruct (set_nearly_legal x b b1 Hx Hb Hs) as [Hb1 Hw1]. destruct (IH b1 b' Hl Hb1 Hc) as [Hb' Hw']. split; [done|].
  rewrite Hw', Hw1. done.
Qed.

End builder.

(** A window above 2^31 - 1 makes a reader refuse the frame. *)
Section refused.
Context `{HeaderPlz} `{HeaderMapOps}.

Lemma record_window_refused s v :
  nearly_legal s -> Settings.initial_window_size s = Some v -> v > i32_max ->
  settings_record_all Settings.default (Settings.for_each s) = Err InvalidSettingValue.
Proof.
  destruct s as [f a b c d e g h]. unfold nearly_legal, Settings.legal. cbn. intros (Hl & _ & _) -> Hv. destruct_and!.
  unfold Settings.for_each, Settings.default. cbn -[settings_record_all].
  erewrite (settings_record_all_opt _ _ a _ (fun o => Settings.mk 0 o None None None None None None)); [|done..].
  erewrite (settings_record_all_opt _ _ b _ (fun o => Settings.mk 0 a o None None None None None));
    [|intros w ->; cbn in *; destruct_or?; by subst|done].
  erewrite (settings_record_all_opt _ _ c _ (fun o => Settings.mk 0 a b o None None None None)); [|done..].
  unfold settings_record_all. cbn [Settings.opt_list app fold_left rbind Settings.record].
  change MAX_INITIAL_WINDOW_SIZE with 2147483647. destruct (Z.gtb_spec v 2147483647); [|unfold_ints; lia].
  apply settings_record_all_err.
Qed.

Lemma refused_settings s v st max limit :
  nearly_legal s -> Settings.initial_window_size s = Some v -> v > i32_max -> FramedRead.partial_inout st = None ->
  FramedRead.decode_frame st max limit (Settings.encode s []) = Done (Err FramedRead.protocol_error, st).
Proof.
  intros Hn Hw Hv Hst. rewrite settings_encode_split.
  pose proof Hn as (Hl & Hu & Hf).
  destruct (decode_frame_payload (Head.new Kind.Settings (Settings.flags s) StreamId.ZERO) (Settings.payload_len s)
    (concat (map (fun x => Setting.encode x []) (Settings.for_each s)))) as [Hh Hp].
  { change (StreamId.valid 0). unfold StreamId.valid. rewrite stream_id_MAX_val. ilia. }
  unfold FramedRead.decode_frame. rewrite Hh. cbn [obind]. rewrite Hst, Hp. cbn [obind Head.kind].
  assert (Settings.load (Head.new Kind.Settings (Settings.flags s) StreamId.ZERO)
    (concat (map (fun x => Setting.encode x []) (Settings.for_each s))) = Done (Err InvalidSettingValue)) as ->; [|done].
  unfold Settings.load. rewrite Hf. cbn -[concat Settings.for_each Nat.modulo].
  rewrite settings_payload_length, (Nat.mul_comm 6), Nat.Div0.mod_mul. cbn [Nat.eqb negb].
  rewrite settings_chunks, settings_load_chunks_encode.
  - by rewrite (record_window_refused s v).
  - unfold Settings.legal, Settings.for_each in *. cbn in Hl, Hu. destruct_and!.
    repeat apply Forall_app_2; match goal with |- context [Settings.opt_list _ ?o] => destruct o end;
      cbn in *; repeat constructor; cbn; unfold_ints; lia.
Qed.

End refused.

(** C28: a builder announces what a peer accepts, but for one option: whatever the sequence
    of its options (with arguments of their types), the SETTINGS they make have legal
    values, except that the initial window size is not checked: a peer that reads the
    frame gets exactly these settings when the window is at most 2^31 - 1, and refuses the
    connection when it is larger.  The configuration of the connection waits for the
    acknowledgement of the same settings and keeps the peer's. *)
Theorem builder_announces {S R : Type} `{!BuildConnection S R} `{HeaderPlz} `{HeaderMapOps} l (b : Builder.t (R := R)) peer st max limit :
  Forall in_type l -> configure l Builder.new = Done b -> FramedRead.partial_inout st = None ->
  let config := (Builder.build_config peer b).1 in
  ConnectionConfig.local_settings config = Builder.settings b /\ ConnectionConfig.peer_settings config = peer /\
  FramedRead.decode_frame st max limit (Settings.encode (Builder.settings b) []) =
    match window_of l None with
    | Some v => if v >? i32_max then Done (Err FramedRead.protocol_error, st)
                else Done (Ok (Some (Frame.Settings (Builder.settings b))), st)
    | None => Done (Ok (Some (Frame.Settings (Builder.settings b))), st)
    end.
Proof.
  intros Hl Hc Hst config. split; [unfold config, Builder.build_config; by destruct (take_spa_mode _)|].
  split; [unfold config, Builder.build_config; by destruct (take_spa_mode _)|].
  destruct (configure_nearly_legal l Builder.new b Hl) as [Hn Hw]; [repeat split; by left|done|].
  change (Settings.initial_window_size (Builder.settings Builder.new)) with (@None Z) in Hw. rewrite <-Hw. clear Hw Hc.
  assert (Settings.legal (Builder.settings b) -> FramedRead.decode_frame st max limit (Settings.encode (Builder.settings b) []) =
    Done (Ok (Some (Frame.Settings (Builder.settings b))), st)) as Hlegal.
  { intros Hle. pose proof Hn as (_ & _ & Hf).
    destruct (wire_split (Frame.Settings (Builder.settings b)) _ (or_intror (conj Hle Hf)) eq_refl) as (h & p & _ & _ & _ & Hd). by apply Hd. }
  destruct (Settings.initial_window_size (Builder.settings b)) as [v|] eqn:Hv.
  - destruct (Z.gtb_spec v i32_max).
    + apply (refused_settings _ v); done || lia.
    + apply Hlegal. destruct Hn as (Hle & Hu & _). unfold Settings.legal in *. destruct_and!. rewrite Hv in *. cbn in *.
      split_and!; try done; unfold_ints; lia.
  - apply Hlegal. destruct Hn as (Hle & _ & _). unfold Settings.legal in *. destruct_and!. rewrite Hv. by split_and!.
Qed.

(** ** An idle client *)

Section idle.
Context `{HttpPlz} `{!FrameSink} `{!FrameSinkLaws _} `{!Codec} `{SlabOps} `{IndexMapOps}.

Import GoAwayHandler.

(** The handler before and after the GOAWAY of an idle connection is written. *)
Definition closing (id : StreamId.t) (p : option GoAway.t) : GoAwayHandler.t :=
  GoAwayHandler.mk true (Some (mkGoing id Reason.NO_ERROR)) false p.

Definition goodbye (c : Connection.t) : GoAway.t := GoAway.new (Streams.last_processed_id (Connection.streams c)) Reason.NO_ERROR.

Lemma maybe_close_idle c :
  Connection.goaway_handler c = GoAwayHandler.new -> Streams.has_streams_or_other_references (Connection.streams c) = false ->
  Connection.maybe_close_connection_if_no_streams c =
    Done (tt, c <| Connection.goaway_handler := closing (Streams.last_processed_id (Connection.streams c)) (Some (goodbye c)) |>).
Proof.
  intros Hg Hs. destruct c as [d s sh ph g r st e sp]. cbn in Hg, Hs. subst g.
  unfold Connection.maybe_close_connection_if_no_streams, bind, gets, when. cbn [Connection.streams obind]. rewrite Hs. cbn [negb]. reflexivity.
Qed.

(** One pass of the inner loop writes the GOAWAY and ends. *)
Lemma poll2_idle fuel now c id frame i d1 :
  Connection.goaway_handler c = closing id (Some frame) -> GoAway.error_code frame = Reason.NO_ERROR ->
  Streams.clear_expired_reset_streams now (Connection.streams c) = Done (tt, i) ->
  poll_ready (Connection.codec c) = (Ready (Ok tt), d1) -> (0 < fuel)%nat ->
  exists d2, sink_frames d2 = sink_frames (Connection.codec c) ++ [Frame.GoAway frame] /\
    Connection.poll2 fuel now c =
      Done (Ready (Err (ProtoError.library_go_away Reason.NO_ERROR)),
        c <| Connection.streams := i |> <| Connection.goaway_handler := closing id None |> <| Connection.codec := d2 |>).
Proof.
  intros Hg Hf Hi Hp Hfuel. destruct fuel as [|fuel]; [lia|]. destruct c as [d s sh ph g r st e sp]. cbn in Hg, Hi, Hp |- *. subst g.
  destruct (sink_buffer_control d1 (Frame.GoAway frame)) as (d2 & Hb & Hfr); [by eapply poll_ready_capacity|done|].
  exists d2. split; [by rewrite Hfr, <-(poll_ready_frames d), Hp|].
  unfold Connection.poll2, Connection.on_streams, zoom, bind at 1. cbn [Connection.streams]. rewrite Hi. cbn [obind loop].
  unfold Connection.poll2_round, Connection.poll_go_away, bind. record.
  unfold send_pending_go_away. cbn [pending closing]. rewrite Hp. record. rewrite Hb. cbn [obind expect]. rewrite Hf. reflexivity.
Qed.

(** What remains once the GOAWAY is with the codec: the codec is shut down. *)
Definition shut (c : Connection.t) (x : poll (result unit ProtoError.t) * Connection.t) : Prop :=
  match shutdown (Connection.codec c) with
  | (Ready (Ok _), d) =>
      x = (Ready (Ok tt), c <| Connection.codec := d |> <| Connection.state := CClosed Reason.NO_ERROR Initiator.Library |>)
  | (Ready (Err e), d) => x = (Ready (Err (proto_of_io e)), c <| Connection.codec := d |>)
  | (Pending, d) => x = (Pending, c <| Connection.codec := d |>)
  end.

Lemma poll_closing fuel now waker c :
  Connection.state c = CClosing Reason.NO_ERROR Initiator.Library -> Connection.error c = None -> (1 < fuel)%nat ->
  forall inner, exists x, loop fuel (Connection.poll_round inner now waker) c = Done x /\ shut c x.
Proof.
  intros Hst He Hf inner. destruct fuel as [|[|fuel]]; [lia..|]. destruct c as [d s sh ph g r st e sp]. cbn in Hst, He. subst st e.
  unfold shut. cbn [loop Connection.codec]. unfold Connection.poll_round at 1. unfold bind, gets. cbn [obind Connection.state Connection.codec].
  destruct (shutdown d) as [[[[]|er]|] d'] eqn:Hsh; record; [|by eexists..].
  eexists. split; [|reflexivity]. unfold Connection.poll_round, bind, gets. record. reflexivity.
Qed.

Definition idle_ends (c : Connection.t) (x : poll (result unit OpError.t) * Connection.t) : Prop :=
  exists closed y, shut closed y /\ x = (poll_map (map_err OpError.from_proto) y.1, y.2) /\
    Connection.state closed = CClosing Reason.NO_ERROR Initiator.Library /\
    sink_frames (Connection.codec closed) = sink_frames (Connection.codec c) ++ [Frame.GoAway (goodbye c)].

(** C9: a client without streams, whose handles are dropped, ends by itself: one poll,
    when the codec has room, hands it a GOAWAY with NO_ERROR and the last stream it
    processed, and goes on to shut the codec down: it is ready without an error when that
    is complete, waits or fails as that does.  While there is a stream or a handle,
    polling the client is polling its connection. *)
Theorem client_ends_when_idle fuel now waker c i d1 :
  (Connection.state c = COpen -> Connection.error c = None -> Connection.goaway_handler c = GoAwayHandler.new ->
   Streams.clear_expired_reset_streams now (Connection.streams c) = Done (tt, i) ->
   poll_ready (Connection.codec c) = (Ready (Ok tt), d1) -> (2 < fuel)%nat ->
   Streams.has_streams_or_other_references (Connection.streams c) = false ->
   exists r woken c', poll_client fuel now waker c = Done ((r, woken), c') /\ idle_ends c (r, c')) /\
  (Streams.has_streams_or_other_references (Connection.streams c) = true ->
   forall r c', Connection.poll fuel now waker c = Done (r, c') ->
     exists woken, poll_client fuel now waker c = Done ((poll_map (map_err OpError.from_proto) r, woken), c')).
Proof.
  split.
  - intros Hst He Hg Hi Hp Hf Hs. unfold poll_client. unfold bind at 1. rewrite maybe_close_idle by done. cbn [obind].
    set (c1 := c <| Connection.goaway_handler := _ |>).
    destruct (poll2_idle fuel now c1 (Streams.last_processed_id (Connection.streams c)) (goodbye c) i d1) as (d2 & Hfr & Hpoll2);
      [done..|lia|].
    set (c2 := c1 <| Connection.streams := i |> <| Connection.goaway_handler := closing (Streams.last_processed_id (Connection.streams c)) None |>
                  <| Connection.codec := d2 |> <| Connection.state := CClosing Reason.NO_ERROR Initiator.Library |>).
    destruct fuel as [|fuel]; [lia|].
    destruct (poll_closing fuel now waker c2 eq_refl He ltac:(lia) (S fuel)) as ([r c3] & Hloop & Hshut).
    assert (Connection.poll (S fuel) now waker c1 = Done (r, c3)) as Hpoll.
    { unfold Connection.poll. cbn [loop]. unfold bind at 1. unfold Connection.poll_round at 1. unfold bind at 1, gets.
      change (Connection.state c1) with (Connection.state c). rewrite Hst. cbn [obind]. unfold bind at 1. rewrite Hpoll2. cbn [obind].
      unfold Connection.handle_poll2_result, Connection.poll2_go_away, bind, gets. cbn [obind ProtoError.library_go_away].
      change (Connection.goaway_handler (c1 <| Connection.streams := i |> <| Connection.goaway_handler := closing (Streams.last_processed_id (Connection.streams c)) None |>
        <| Connection.codec := d2 |>)) with (closing (Streams.last_processed_id (Connection.streams c)) None).
      cbn. exact Hloop. }
    unfold bind, gets. cbn [obind]. rewrite Hpoll. cbn [obind]. eexists _, _, _. split; [reflexivity|].
    exists c2, (r, c3). split_and!; [done..|]. exact Hfr.
  - intros Hs r c' Hp. unfold poll_client. unfold bind at 1.
    assert (Connection.maybe_close_connection_if_no_streams c = Done (tt, c)) as ->.
    { unfold Connection.maybe_close_connection_if_no_streams, bind, gets, when. cbn [obind]. by rewrite Hs. }
    cbn [obind]. unfold bind, gets. cbn [obind]. rewrite Hp. cbn [obind]. by eexists.
Qed.

End idle.
