(* ===== verification/Witnesses.v ===== *)
(** * Concrete instances of the theorems about the class parameters

    Each theorem proved for any implementation of the crates [header-plz], [slab] and
    [indexmap], or for any codec behind [FrameSink], is applied here to the concrete
    instances and to a concrete input. *)

From Stdlib Require Import String Sorting.Sorted.
From S2P Require Import Prelude FrameBase ControlFrames SettingsFrame DataFrame HpackInt Huffman.
From S2P Require Import HpackHeader HpackDecoder HpackDecoderFacts HpackStrings HeadersFrame.
From S2P Require Import HeadersFacts ProtoErrors FramedRead Instances FramedReadFacts StreamState.
From S2P Require Import FlowWindow SlabLib FrameBuffer FrameSink ProtoHandlers ProtoHandlersFacts.
From S2P Require Import StreamRec StreamStore StreamStoreFacts StreamQueue Spa StreamCounts.
From S2P Require Import StreamCountsFacts.

Ltac numbers := vm_compute; first [reflexivity | discriminate | split; discriminate].

(** ** HPACK and header blocks *)

Definition header_ab : Header.hd := Header.Field (str "a") (str "b").

Lemma dec_table_fifo_witness :
  exists t', DecTable.insert (DecTable.new 100) header_ab = Done t' /\ table_ok t' /\
    DecTable.max_size t' = 100 /\ DecTable.entries t' = fit 100 [header_ab].
Proof.
  apply (dec_table_fifo (DecTable.new 100) header_ab 50); [split; [done|numbers]|numbers|numbers].
Defined.

Definition decoder : Decoder.t := Decoder.new 4096.

Lemma decoder_ok : dec_ok 4096 decoder.
Proof. split_and!; [split; [done|numbers]|numbers|numbers|numbers|numbers|done]. Qed.

Lemma hpack_decode_safe_witness :
  exists r d' rest out, Decoder.decode decoder [130; 65; 255] = Done (r, d', rest, out) /\
    dec_ok 4096 d' /\ 32 * len (DecTable.entries (Decoder.table d')) <= 4096 /\
    (r = Ok tt -> rest = []).
Proof.
  apply (hpack_decode_safe 4096 decoder [130; 65; 255]); [apply decoder_ok|].
  repeat constructor; numbers.
Defined.

Lemma literals_roundtrip_witness :
  exists block d', encode_literals [header_ab] [] = Done block /\
    Decoder.decode decoder block = Done (Ok tt, d', [], [header_ab]) /\
    Decoder.table d' = Decoder.table decoder.
Proof.
  apply (literals_roundtrip [header_ab] decoder).
  - constructor; [|constructor]. split; [repeat constructor; numbers|].
    split; [repeat constructor; numbers|]. by exists 97, [].
  - constructor; [|constructor]. split; numbers.
  - reflexivity.
Defined.

(** [a: b] as a literal without indexing. *)
Definition block_ab : bytes := [0; 1; 97; 1; 98].



(** ** Frames *)

Definition reader : FramedRead.State := FramedRead.state decoder None.

Definition ping_frame : Frame.t := Frame.Ping (Ping.new [1; 2; 3; 4; 5; 6; 7; 8]).

Lemma frame_roundtrip_witness :
  exists b, wire ping_frame = Some b /\
    FramedRead.decode_frame reader 4096 5 b = Done (Ok (Some ping_frame), reader) /\
    be_value (take 3 b) + Z.of_nat HEADER_LEN = len b.
Proof.
  eexists. split; [vm_compute; reflexivity|].
  apply (frame_roundtrip ping_frame _ reader 4096 5).
  - split; [reflexivity|repeat constructor; numbers].
  - vm_compute. reflexivity.
  - reflexivity.
Defined.

(** A PING frame of nine octets: its payload is missing. *)
Definition short_ping : bytes := [0; 0; 8; 6; 0; 0; 0; 0; 0].


(** A CONTINUATION frame that continues nothing. *)
Definition stray_continuation : bytes := [0; 0; 0; 9; 4; 0; 0; 0; 1].


(** ** Buffers, stores and queues *)

(** An empty buffer, with a deque of one frame and an empty one. *)
Definition buffer_one : Buffer.t (T:=Z) := {[ 0%nat := slot 7 None ]}.
Definition deque_one : Deque.t := Deque.mk (Some (FrameBuffer.indices 0 0)).

Lemma owns_one : owns buffer_one deque_one [0%nat] [7].
Proof.
  split; [apply NoDup_singleton|]. split; [|by split].
  split; [apply (lookup_singleton_eq 0%nat (slot 7 None))|exact I].
Qed.

Lemma owns_empty : owns buffer_one Deque.new [] [].
Proof. split; [constructor|]. by split. Qed.

Lemma deque_is_sequence_witness :
  (exists d' buf' ks', Deque.push_back deque_one buffer_one 8 = Done (d', buf') /\
     owns buf' d' ks' [7; 8] /\ owns buf' Deque.new [] [] /\ ks' ## []) /\
  (exists d' buf' ks', Deque.push_front deque_one buffer_one 8 = Done (d', buf') /\
     owns buf' d' ks' [8; 7] /\ owns buf' Deque.new [] [] /\ ks' ## []) /\
  (exists d' buf' ks', Deque.pop_front deque_one buffer_one = Done (Some 7, d', buf') /\
     owns buf' d' ks' [] /\ owns buf' Deque.new [] [] /\ ks' ## []).
Proof.
  apply (deque_is_sequence buffer_one deque_one [0%nat] [7] Deque.new [] [] 8);
    [apply owns_one|apply owns_empty|]. intros x _ Hx. by apply not_elem_of_nil in Hx.
Defined.

Definition stream_3 : Stream.t := Stream.new 3 65535 65535.

Lemma new_store_wf : store_wf Store.new.
Proof. intros id i Hi. done. Qed.

Lemma store_insert_remove_witness :
  exists k st1 st2, Store.insert Store.new 3 stream_3 = Done (k, st1) /\
    Store.index st1 k = Done stream_3 /\ Ptr.remove (Ptr.unlink st1 k) k = Done (3, st2).
Proof.
  destruct (store_insert_remove Store.new 3 stream_3 new_store_wf eq_refl eq_refl)
    as (k & st1 & st2 & Hi & _ & Hx & _ & Hr & _); [numbers|].
  exists k, st1, st2. by split_and!.
Defined.

(** A store with the stream 3 at index 0. *)
Definition key_3 : Key.t := Key.mk 0 3.
Definition store_with (s : Stream.t) : Store.t :=
  Store.mk (H:=concrete_slab) (H0:=concrete_im) {[ 0%nat := s ]} (nd [(Stream.id s, 0%nat)] eq_refl).
Definition store_3 : Store.t := store_with stream_3.

Lemma store_with_wf s : store_wf (store_with s).
Proof.
  intros id i. cbn. destruct (Z.eqb_spec id (Stream.id s)) as [->|]; [|done]. intros [= <-].
  exists s. split; [apply (lookup_singleton_eq 0%nat s)|reflexivity].
Qed.

Lemma lookup_3 : Store.lookup store_3 key_3 = Some stream_3.
Proof. reflexivity. Qed.

(** Unlinking every stream. *)
Definition unlink_all (n : nat) (st : Store.t) (k : Key.t) : outcome (nat * Store.t) :=
  Done (S n, Ptr.unlink st k).

Lemma for_each_visits_all_witness :
  exists log x' st',
    Store.for_each
      (fun '(log, x) st k => let! (y, st) := unlink_all x st k in Done ((log ++ [k], y), st))
      ([], 0%nat) store_3 = Done ((log, x'), st') /\ log ≡ₚ [key_3].
Proof.
  apply (for_each_visits_all unlink_all 0%nat store_3).
  intros x st k _. eexists _, _. split; [reflexivity|]. right. reflexivity.
Defined.

Lemma unlinked_3 (N : Next) : (next (Next:=N) stream_3 = None) -> unlinked N store_3.
Proof.
  intros Hn k s Hs _. apply lookup_some in Hs as [Hs _]. cbn in Hs.
  apply lookup_singleton_Some in Hs as [_ <-]. done.
Qed.

Lemma empty_queue (N : Next) : queue_repr N store_3 Queue.new [].
Proof. by split_and!; [constructor|..]. Qed.


(** ** Handlers *)

(** The handler was polled to the end. *)
Definition is_ready {E X Y} (o : outcome (poll (result unit E) * X * Y)) : bool :=
  match o with Done (Ready (Ok _), _, _) => true | _ => false end.

Lemma is_ready_Done {E X Y} (r : poll (result unit E)) (x : X) (y : Y) o :
  o = Done (r, x, y) -> is_ready o = true -> r = Ready (Ok tt).
Proof. intros ->. by destruct r as [[[]|]|]. Qed.

Definition ready_sink : sink := mkTrace [Ready (Ok tt); Ready (Ok tt)] [].


Definition apply_settings (_ : Settings.t) (n : nat) : outcome (result unit ProtoError.t * nat) :=
  Done (Ok tt, S n).


Definition goaway_7 : GoAway.t := GoAway.new 7 Reason.NO_ERROR.
Definition handler_7 : GoAwayHandler.t :=
  GoAwayHandler.mk false (Some (GoAwayHandler.mkGoing 7 Reason.NO_ERROR)) false (Some goaway_7).


Lemma go_away_now_repeats_witness :
  exists g', GoAwayHandler.go_away_now handler_7 goaway_7 = Done g' /\
    GoAwayHandler.pending g' = Some goaway_7 /\ GoAwayHandler.should_close_now g' = false.
Proof. by apply (go_away_now_repeats handler_7 (GoAwayHandler.mkGoing 7 Reason.NO_ERROR) goaway_7). Defined.

(** ** Counters *)

Definition config : ConnectionConfig.t :=
  ConnectionConfig.mk None (Some 10) 10 10 0 Settings.default Settings.default 0 None.
Definition counts : Counts.t := Counts.new Role.Server config.

Lemma counts_accounted : accounted counts store_3.
Proof. by split. Qed.

Lemma inc_num_streams_accounts_witness :
  exists c' st', Counts.inc_num_recv_streams counts store_3 key_3 = Done (c', st') /\
    accounted c' st' /\ Counts.num_recv_streams c' = 1 /\
    Store.lookup st' key_3 = Some (stream_3 <| Stream.is_counted := true |>).
Proof.
  apply (inc_num_streams_accounts counts store_3 key_3 stream_3);
    [apply counts_accounted|apply lookup_3|reflexivity|numbers|numbers|reflexivity|reflexivity].
Defined.

(** A closed stream with no handles left. *)
Definition closed_3 : Stream.t := stream_3 <| Stream.state := State.Closed Cause.EndStream |>.


Lemma counts_stay_within_limits_witness :
  exists c, Counts.inc_num_reset_streams counts = Done c /\
    within_limits c /\ same_limits counts c.
Proof.
  eexists. split; [reflexivity|].
  apply (counts_stay_within_limits Role.Server config).
  eapply crun_step; [apply crun_refl|]. by apply cs_inc_reset.
Defined.
