(* ===== verification/HistoryWitnesses.v ===== *)
(** * Concrete histories

    The theorems about calls, credit and the sending loop, applied to exchanges that
    are evaluated: a client that opens a stream, sends its request, and receives
    GOAWAY; a stream whose body waits to be sent. *)

From Stdlib Require Import String.
From S2P Require Import Prelude Effects FrameBase ControlFrames SettingsFrame DataFrame HpackHeader.
From S2P Require Import HeadersFrame ProtoErrors FramedRead FrameSink ProtoHandlers StreamState.
From S2P Require Import FlowWindow SlabLib FrameBuffer StreamRec StreamStore StreamStoreFacts.
From S2P Require Import StreamQueue Spa StreamCounts Evolve Send SendOps SendPoll Credit SendKept.
From S2P Require Import Messages Recv RecvOps Inner Streams InnerKept Calls CallsFacts.
From S2P Require Import Instances HttpInstance Witnesses.

Definition get_request (body : option bytes) : Request :=
  cMessage (cmethod "POST", cUri (Some (str "https")) (Some (str "a")) (str "/"), None) [] body None.

(** The state after a step that does not panic. *)
Definition is_done {A} (o : outcome A) : bool := match o with Done _ => true | Panic => false end.

Definition after {A} (m : M Inner.t A) (i : Inner.t) : Inner.t :=
  match m i with Done (_, i') => i' | Panic => i end.

Definition after_poll (fuel : nat) (i : Inner.t) (dst : sink) : Inner.t :=
  match Inner.poll_complete fuel 0 i dst with Done (_, i', _) => i' | Panic => i end.

Lemma after_call {A} (m : M Inner.t A) i : operation m -> is_done (m i) = true -> call i (after m i).
Proof.
  intros Hm Hd. unfold after. destruct (m i) as [[a i']|] eqn:He; [|done]. by eapply call_op.
Qed.

Lemma after_poll_call fuel i dst :
  is_done (Inner.poll_complete fuel 0 i dst) = true -> call i (after_poll fuel i dst).
Proof.
  intros Hd. unfold after_poll. destruct (Inner.poll_complete _ _ _ _) as [[[r i'] d]|] eqn:He; [|done].
  by eapply call_poll_complete.
Qed.

Definition stream_at (i : Inner.t) (k : Key.t) : Stream.t :=
  match Store.lookup (Inner.store i) k with Some s => s | None => stream_3 end.

Definition is_there (i : Inner.t) (k : Key.t) : bool := negb (Stream.is_none (Store.lookup (Inner.store i) k)).

Lemma stream_at_lookup i k : is_there i k = true -> Store.lookup (Inner.store i) k = Some (stream_at i k).
Proof. unfold is_there, stream_at. by destruct (Store.lookup _ _). Qed.

(** ** A client sends a request and its body *)

Definition client : Inner.t := Streams.new Role.Client config.
Definition key_1 : Key.t := Key.mk 0 1.
Definition accepting (n : nat) : sink := mkTrace (repeat (Ready (Ok tt)) n) [].

Definition requested : Inner.t := after (Streams.send_request (get_request (Some [1; 2; 3])) false) client.
Definition polled : Inner.t := after_poll 5 requested (accepting 9).

Lemma requested_reachable : reachable Role.Client config requested.
Proof. apply rtc_once, after_call; [constructor|vm_compute; reflexivity]. Qed.

Lemma poll_call : call requested polled.
Proof. apply after_poll_call. vm_compute. reflexivity. Qed.

Lemma polled_reachable : reachable Role.Client config polled.
Proof. eapply rtc_r; [apply requested_reachable|apply poll_call]. Qed.

Lemma calls_move_streams_witness :
  exists s, Store.lookup (Inner.store requested) key_1 = Some s /\ moved s (stream_at polled key_1) /\
    State.is_send_closed (Stream.state (stream_at polled key_1)) = true.
Proof.
  destruct (calls_move_streams Role.Client config requested polled key_1 (stream_at polled key_1)
    requested_reachable poll_call) as [(s & Hs & Hm & _)|(Hn & _)].
  - apply stream_at_lookup. vm_compute. reflexivity.
  - exists s. split; [exact Hs|]. split; [exact Hm|]. vm_compute. reflexivity.
  - rewrite (stream_at_lookup requested key_1) in Hn by (vm_compute; reflexivity). discriminate Hn.
Defined.

Lemma windows_stay_in_range_witness : stream_ok (stream_at polled key_1).
Proof.
  apply (windows_stay_in_range Role.Client config polled polled_reachable) with (k := key_1).
  apply stream_at_lookup. vm_compute. reflexivity.
Defined.

Lemma stream_ids_never_reused_witness : known polled (Stream.id (stream_at polled key_1)).
Proof.
  apply (stream_ids_never_reused Role.Client config polled polled_reachable) with (k := key_1).
  apply stream_at_lookup. vm_compute. reflexivity.
Defined.

(** ** A server that announced its last stream *)

Definition headers_1 : Headers.t :=
  Headers.new 1 (Pseudo.mk (Some (cmethod "GET")) None None None None None) [].

Definition headers_3 : Headers.t :=
  Headers.new 3 (Pseudo.mk (Some (cmethod "GET")) None None None None None) [].

Definition server : Inner.t := Streams.new Role.Server config.
Definition serving : Inner.t := after (Inner.recv_headers 0 headers_1) server.
Definition going : Inner.t := after (Streams.send_go_away 1) serving.
Definition gone : Inner.t := after Streams.next_accept going.

Lemma serving_reachable : reachable Role.Server config serving.
Proof. apply rtc_once, after_call; [constructor|vm_compute; reflexivity]. Qed.

Lemma goaway_is_final_witness :
  is_there gone key_1 = true /\
  Inner.recv_headers 0 headers_3 gone = Done (Ok tt, gone).
Proof.
  split; [vm_compute; reflexivity|].
  apply (goaway_is_final Role.Server config serving 1 going gone).
  - apply serving_reachable.
  - reflexivity.
  - apply rtc_once, after_call; [constructor|vm_compute; reflexivity].
  - reflexivity.
Defined.

(** ** A body that waits to be sent *)

Definition body_frame : Data.t bytes := Data.mk 1 [1; 2; 3] DataFlags.default None.

Definition sending_1 : Stream.t :=
  Stream.new 1 65535 65535
    <| Stream.state := State.Open Peer.Streaming Peer.AwaitingHeaders |>
    <| Stream.pending_send := Deque.mk (Some (FrameBuffer.indices 0 0)) |>
    <| Stream.remaining_data_len := Some 3 |>
    <| Stream.is_pending_send := true |>.

Definition to_send : Ctx.t :=
  Ctx.mk (H1:=concrete_slab) (Send.new config <| Send.pending_send := mkQueue (Some (QueueIndices.mk key_1 key_1)) |>)
    {[ 0%nat := slot (Frame.Data body_frame) None ]} (store_with sending_1)
    (Counts.new Role.Client config) None.

Lemma to_send_stream i s :
  slab_map (Store.streams (Ctx.store to_send)) !! i = Some s -> i = 0%nat /\ s = sending_1.
Proof. cbn. by intros [<- <-]%lookup_singleton_Some. Qed.

Lemma to_send_sound : sound to_send.
Proof.
  split; [split; [numbers|]|exists (fun _ => [0%nat]), (fun _ => [Frame.Data body_frame]); split].
  - intros i s [_ ->]%to_send_stream. split; numbers.
  - intros i s [_ ->]%to_send_stream. split_and!; [apply NoDup_singleton|done..].
  - intros i s [_ ->]%to_send_stream. split; [apply le_n|].
    intros d n Hd [= <-]. apply list_elem_of_singleton in Hd. by injection Hd as ->.
  - intros i j Hij [s [-> _]%to_send_stream] [s' [-> _]%to_send_stream]. done.
Qed.


(** The three octets are sent, in a frame that ends the stream. *)
Example to_send_is_sent :
  match SendPoll.poll_complete 5 to_send (accepting 9) with
  | Done (_, c', dst') =>
      (octets None <$> accepted dst', credit None c', credit (Some 1) c') =
        ([3], credit None to_send - 3, credit (Some 1) to_send - 3)
  | Panic => False
  end.
Proof. vm_compute. reflexivity. Qed.
