(* ===== verification/EncoderWitnesses.v ===== *)
(** * The HPACK encoder on concrete conversations

    A concrete hasher (FNV-1a, as in the crate [fnv]), and the theorems about the
    encoder applied to conversations that are evaluated. *)

From Stdlib Require Import String.
From S2P Require Import Prelude FrameBase HpackHeader HpackDecoder HpackStrings HpackTable.
From S2P Require Import HpackTableInv HpackTableOps HpackEncoder HpackEncoderFacts Instances.
Local Open Scope Z_scope.

(** [FnvHasher]: the offset basis and the prime of the 64-bit FNV-1a hash. *)
Definition fnv1a (l : bytes) : Z :=
  fold_left (fun h b => wrap_u64 (Z.lxor h b * 1099511628211)) l 14695981039346656037.

#[export] Instance concrete_hash : NameHash := {
  fnv_hash := fun n => fnv1a (Header.as_slice n);
  status_u16 := fun s => proj1_sig s
}.

#[export] Instance concrete_hash_laws : NameHashLaws concrete_hash.
Proof.
  split; try done.
  - intros n. cbn. unfold fnv1a. generalize (Header.as_slice n) as l. intros l.
    destruct l as [|b l _] using rev_ind; [cbn; unfold_ints; lia|]. rewrite fold_left_app. cbn.
    unfold wrap_u64. pose proof (Z.mod_pos_bound (Z.lxor (fold_left (fun h b => (Z.lxor h b * 1099511628211) mod 18446744073709551616) l 14695981039346656037) b * 1099511628211) 18446744073709551616 ltac:(lia)).
    unfold_ints. lia.
  - intros [a Ha] [b Hb]. cbn. intros ->. by apply (sig_eq_pi _).
Qed.

Definition field (n v : string) : Header.t (option BytesStr.t) := Header.Field (Some (str n)) (str v).
Definition more (v : string) : Header.t (option BytesStr.t) := Header.Field None (str v).

(** A request, a change of the table size, more names than the first index holds, and
    an eviction. *)
Definition conversation : list event := [
  Block [Header.Method cmethod_get; Header.Path (str "/a"); field "x-a" "1"; more "2"; field "cookie" "c"];
  Block [Header.Method cmethod_get; field "x-a" "1"; field "x-a" "3"; field "x-b" "4";
         field "accept-encoding" "GZIP, deflate"];
  Announce 300; Announce 500;
  Block [field "a1" "1"; field "a2" "2"; field "a3" "3"; field "a4" "4"; field "a5" "5"; field "a6" "6";
         field "a7" "7"; field "a8" "8"; field "a9" "9"; field "b1" "1"; field "b2" "2"; field "b3" "3"];
  Announce 0;
  Block [field "a1" "1"; Header.Status (cstatus 404 I)];
  Announce 4096;
  Block [field "a1" "1"; field "a1" "1"]
].

Definition ok_header (h : Header.hd) : bool :=
  forallb is_byte (Header.value_slice h) &&
  (len (Header.as_slice (Header.name h)) <? 2 ^ 26 - 1) && (len (Header.value_slice h) <? 2 ^ 26 - 1) &&
  match h with
  | Header.Field n _ => forallb is_byte n && match n with b :: _ => negb (b =? 58) | [] => false end
  | Header.Authority v | Header.Scheme v | Header.Path v => utf8_valid v
  | Header.Protocol v => utf8_valid (Protocol.as_str v)
  | _ => true
  end.

Lemma ok_header_room h : ok_header h = true -> with_room h.
Proof.
  unfold ok_header. rewrite !andb_true_iff, !Z.ltb_lt. intros [[[Hv Hn] Hl] Hw].
  split; [|by split]. split; [by apply all_bytes_u8; rewrite Hv|].
  destruct h; try done. apply andb_true_iff in Hw as [Hb Hw]. split; [by apply all_bytes_u8; rewrite Hb|].
  destruct name as [|b rest]; [done|]. exists b, rest. split; [done|]. by apply negb_true_iff, Z.eqb_neq in Hw.
Qed.

Definition ok_event (ev : event) : bool :=
  match ev with
  | Announce v => (0 <=? v) && (v <=? 2 ^ 28)
  | Block hs => match expand id None hs with Some sent => forallb ok_header sent | None => false end
  end.

Lemma ok_event_ok ev : ok_event ev = true -> event_ok ev.
Proof.
  destruct ev as [v|hs]; cbn; [rewrite andb_true_iff, !Z.leb_le; done|].
  destruct (expand id None hs) as [sent|]; [|done]. intros Hall. exists sent. split; [done|].
  rewrite forallb_forall in Hall. apply Forall_forall. intros h Hh%list_elem_of_In. by apply ok_header_room, Hall.
Qed.

Lemma hpack_conversation_witness :
  Forall event_ok conversation /\
  converse conversation (Encoder.new 4096 0) (Decoder.new 4096) = Done (answers conversation).
Proof.
  assert (Forall event_ok conversation) as Hok.
  { apply Forall_forall. intros ev Hev%list_elem_of_In. apply ok_event_ok.
    revert ev Hev. apply forallb_forall. vm_compute. reflexivity. }
  split; [exact Hok|]. apply hpack_conversation; [lia|exact Hok|vm_compute; reflexivity].
Defined.

(** The table of the sender after the first block. *)
Definition sender_table : EncTable.t :=
  match Encoder.encode (Encoder.new 4096 0) [field "x-a" "1"; field "x-b" "2"; field "x-a" "3"] [] with
  | Done (e, _) => Encoder.table e
  | Panic => EncTable.new 0 0
  end.

Lemma sender_table_wf : table_wf sender_table.
Proof.
  destruct (encode_good (Encoder.new 4096 0) (Decoder.new 4096)
    [field "x-a" "1"; field "x-b" "2"; field "x-a" "3"]
    [Header.Field (str "x-a") (str "1"); Header.Field (str "x-b") (str "2"); Header.Field (str "x-a") (str "3")])
    as (block & e' & d' & received & He & _ & _ & Hsync & _).
  - apply in_sync_new. lia.
  - reflexivity.
  - repeat (apply Forall_cons_2; [apply ok_header_room; vm_compute; reflexivity|]). apply Forall_nil_2.
  - vm_compute. reflexivity.
  - unfold sender_table. rewrite He. apply Hsync.
Qed.

Lemma enc_table_fifo_witness :
  table_wf sender_table /\
  exists r t', EncTable.index sender_table (Header.Field (str "x-a") (str "4")) = Done (r, t') /\
    index_ok sender_table (Header.Field (str "x-a") (str "4")) r t'.
Proof.
  split; [exact sender_table_wf|].
  destruct (enc_table_fifo sender_table (Header.Field (str "x-a") (str "4")) 300 sender_table_wf)
    as (_ & (r & t' & He & _ & _ & Hok & _) & _); [vm_compute; discriminate|ilia|vm_compute; reflexivity|].
  exists r, t'. split; [exact He|exact Hok].
Defined.
