(* ===== verification/CodecWitnesses.v ===== *)
(** * The codec on a concrete transport

    A transport with a script (how many octets it takes at each write, 0 meaning not
    ready; which frames arrive) and a framing over it, with their laws, and the theorems
    about the codec applied to them. *)

From Stdlib Require Import String.
From S2P Require Import Prelude FrameBase ControlFrames SettingsFrame DataFrame HpackHeader HpackDecoder HpackTable HpackEncoder HpackEncoderFacts HeadersFrame.
From S2P Require Import ProtoErrors FramedRead FrameSink FramedWrite FramedWriteFacts HeadersDelivery WireDelivery WireCodec WireCodecFacts Instances EncoderWitnesses.
Local Open Scope Z_scope.

Record script : Type := mkScript {
  output : bytes;
  room : list Z;
  arriving : list bytes
}.

Definition script_write (s : script) (b : bytes) : poll (result Z io_error) * script :=
  match room s with
  | [] => (Ready (Ok (len b)), mkScript (output s ++ b) [] (arriving s))
  | n :: l =>
      if n <=? 0 then (Pending, mkScript (output s) l (arriving s))
      else
        let k := Z.min n (len b) in
        (Ready (Ok k), mkScript (output s ++ take (Z.to_nat k) b) l (arriving s))
  end.

#[export] Instance script_transport : Transport := {
  io := script;
  io_written := output;
  is_write_vectored := fun _ => true;
  poll_write_buf := script_write;
  io_poll_flush := fun s => (Ready (Ok tt), s);
  io_poll_shutdown := fun s => (Ready (Ok tt), s);
  bytesmut_grow := fun c n => Z.max (2 * c) n
}.

#[export] Instance script_transport_laws : TransportLaws script_transport.
Proof.
  split; cbn; unfold script_write; try done.
  - intros [o r a] b n s'. cbn. pose proof (len_nonneg b). destruct r as [|k l]; [|destruct (Z.leb_spec k 0); [done|]]; intros [= <- <-]; cbn.
    + split; [lia|]. unfold len. by rewrite Nat2Z.id, firstn_all.
    + split; [lia|done].
  - intros [o r a] b n s'. cbn. destruct r as [|k l]; [|destruct (Z.leb_spec k 0); [done|]]; intros [= <- <-] Hb.
    + unfold len. destruct b; [done|]. cbn. lia.
    + unfold len. destruct b; [done|]. cbn. lia.
  - intros [o r a] b s'. cbn. destruct r as [|k l]; [done|]. destruct (Z.leb_spec k 0); [|done]. by intros [= <-].
  - intros [o r a] b e s'. cbn. destruct r as [|k l]; [done|]. by destruct (Z.leb_spec k 0).
  - intros. lia.
Qed.

(** What arrives is cut into frames already; a piece that is none is an error. *)
Definition script_next (d : Z) (s : script) : poll (option (result bytes read_error)) * Z * script :=
  match arriving s with
  | [] => (Pending, d, s)
  | b :: l =>
      let s := mkScript (output s) (room s) l in
      if (HEADER_LEN <=? length b)%nat && forallb is_byte b && (len b <=? d + Z.of_nat HEADER_LEN)
      then (Ready (Some (Ok b)), d, s)
      else (Ready (Some (Err (IoError InvalidData None, true))), d, s)
  end.

#[export] Instance script_delimiter : Delimiter := {
  delimiter := Z;
  delimiter_new := 8388608;
  max_frame_length := fun d => d;
  set_max_frame_length := fun _ v => v;
  poll_next_bytes := script_next;
  frames_ready := fun _ s => length (arriving s)
}.

#[export] Instance script_delimiter_laws : DelimiterLaws script_delimiter.
Proof.
  split; cbn; try done; unfold script_next.
  - intros d s. destruct (arriving s); [done|]. by case_match.
  - intros d s b d' s'. destruct (arriving s) as [|x l]; [done|]. destruct (_ && _) eqn:Hb; [|done]. intros [= -> -> <-].
    rewrite !andb_true_iff in Hb. destruct Hb as [[Hl Hu] _]. split; [by apply Nat.leb_le|]. apply all_bytes_u8. by rewrite Hu.
  - intros d s b d' s'. destruct (arriving s) as [|x l] eqn:Ha; [done|]. destruct (_ && _); [|done]. intros [= -> -> <-]. cbn. lia.
  - intros d s. destruct (arriving s); [done|]. by case_match.
Qed.

(** The header map of [Instances] is its list of entries. *)
#[export] Instance concrete_iter : HeaderMapIter := { hm_into_iter := fun m => m }.

(** ** A writer with a PING and a chained DATA frame, on a slow transport *)

Definition slow : script := mkScript [] [5; 0; 100; 3; 400] [].
Definition a_ping : Frame.t := Frame.Ping (Ping.new [1; 2; 3; 4; 5; 6; 7; 8]).
Definition a_body : Data.t bytes := Data.mk 1 (repeat 7 600) DataFlags.default None.

Definition after (w : FramedWrite.t) (f : Frame.t) : FramedWrite.t :=
  match FramedWrite.buffer w f with Done (_, w) => w | Panic => w end.

Definition busy : FramedWrite.t := after (after (FramedWrite.new slow) a_ping) (Frame.Data a_body).
Definition busy_sent : bytes :=
  Ping.encode (Ping.new [1; 2; 3; 4; 5; 6; 7; 8]) [] ++ HeaderChunks.frame_octets (Data.head a_body, Data.data a_body).

Lemma busy_wire : on_wire busy busy_sent.
Proof.
  split; [|vm_compute; reflexivity].
  split; try (vm_compute; (done || (split; (reflexivity || discriminate)))).
  - apply Nat.le_0_l.
  - intros f. change (FrameEncoder.next (FramedWrite.encoder busy)) with (Some (NData (Data.map (drop 230) a_body))).
    intros [= <-]. vm_compute. discriminate.
Qed.


(** The transport is not ready at the second write; the next call writes the rest. *)
Example slow_flush :
  match FramedWrite.flush busy with
  | Done (Pending, w) =>
      match FramedWrite.flush w with
      | Done (Ready (Ok _), w) => bool_decide (output (FramedWrite.inner w) = busy_sent)
      | _ => false
      end
  | _ => false
  end = true.
Proof. vm_compute. reflexivity. Qed.

Definition finished {A} (o : outcome A) : bool := match o with Done _ => true | Panic => false end.

Lemma finished_Done {A} (o : outcome A) : finished o = true -> exists r, o = Done r.
Proof. destruct o as [a|]; [by exists a|done]. Qed.

(** ** A header block on a fresh writer *)

Definition a_request : Headers.t :=
  Headers.new 1 (Pseudo.set_method cmethod_get (Pseudo.set_path (str "/") Pseudo.default)) [(str "x-a", str "1")].

Definition fresh : FramedWrite.t := FramedWrite.new slow.

Lemma writer_accepts_witness :
  (on_wire fresh [] /\ sendable (FramedWrite.encoder fresh) (Frame.Headers a_request)) /\
  exists w' o, FramedWrite.buffer fresh (Frame.Headers a_request) = Done (Ok tt, w') /\
    sends (FramedWrite.encoder fresh) (Frame.Headers a_request) (FrameEncoder.hpack (FramedWrite.encoder w')) o /\
    on_wire w' ([] ++ o).
Proof.
  assert (sendable (FramedWrite.encoder fresh) (Frame.Headers a_request)) as Hs.
  { split; [split; vm_compute; discriminate|]. split; [reflexivity|]. apply finished_Done. vm_compute. reflexivity. }
  pose proof (new_wire (H3 := script_transport) slow : on_wire fresh []) as Hw. split; [split; [exact Hw|exact Hs]|].
  apply (writer_accepts fresh [] (Frame.Headers a_request) Hw); [left; reflexivity|exact Hs].
Defined.


(** ** From one end to the other *)

Definition the_frames : list Frame.t := [a_ping; Frame.Headers a_request; Frame.Data a_body].

Definition flushed_once (w : FramedWrite.t) : FramedWrite.t :=
  match FramedWrite.flush w with Done (_, w) => w | Panic => w end.

Definition loaded_writer : FramedWrite.t := after (after (after fresh a_ping) (Frame.Headers a_request)) (Frame.Data a_body).

Definition takes (w : FramedWrite.t) (f : Frame.t) : bool :=
  FrameEncoder.has_capacity (FramedWrite.encoder w) &&
  match FramedWrite.buffer w f with Done (Ok _, _) => true | _ => false end.

Lemma drives_takes w f fs w' : takes w f = true -> drives (after w f) fs w' -> drives w (f :: fs) w'.
Proof.
  unfold takes, after. intros [Hc Hb]%andb_true_iff Hd.
  destruct (FramedWrite.buffer w f) as [[[[]|] w1]|] eqn:He; try done. eapply drives_buffer; [by left|exact He|exact Hd].
Qed.

Lemma drives_flushed w fs w' : finished (FramedWrite.flush w) = true -> drives (flushed_once w) fs w' -> drives w fs w'.
Proof.
  unfold flushed_once. intros [[r w1] He]%finished_Done Hd. rewrite He in Hd. by eapply drives_flush.
Qed.

Lemma flushes_ready w :
  match FramedWrite.flush w with Done (Ready (Ok _), _) => true | _ => false end = true ->
  FramedWrite.flush w = Done (Ready (Ok tt), flushed_once w).
Proof. unfold flushed_once. by destruct (FramedWrite.flush w) as [[[[[]|]|] w1]|]. Qed.

(** The transport is not ready in the middle of it. *)
Lemma driven : drives fresh the_frames (flushed_once loaded_writer).
Proof.
  do 3 (apply drives_takes; [vm_compute; reflexivity|]).
  apply drives_flushed; [vm_compute; reflexivity|apply drives_nil].
Qed.

Lemma a_request_deliverable : deliverable a_request.
Proof.
  split.
  - vm_compute. split; discriminate.
  - reflexivity.
  - left. reflexivity.
  - apply Forall_cons_2; [|apply Forall_nil_2]. split; vm_compute; reflexivity.
  - apply Forall_cons_2; [|apply Forall_nil_2]. split; [vm_compute; reflexivity|]. intros He. vm_compute in He. discriminate.
  - repeat (apply Forall_cons_2; [apply ok_header_room; vm_compute; reflexivity|]). apply Forall_nil_2.
Qed.

Lemma the_frames_deliverable : Forall (deliverable_frame DEFAULT_MAX_FRAME_SIZE 16777216) the_frames.
Proof.
  apply Forall_cons_2; [|apply Forall_cons_2; [|apply Forall_cons_2; [|apply Forall_nil_2]]].
  - split; [reflexivity|]. apply all_bytes_u8. vm_compute. exact I.
  - split; [exact a_request_deliverable|]. vm_compute. reflexivity.
  - split; [|vm_compute; discriminate]. split_and!; [vm_compute; split; discriminate|discriminate|reflexivity|by left|].
    vm_compute. reflexivity.
Qed.

