(* ===== verification/EndpointWitnesses.v ===== *)
(** * Handshakes, builders and an idle client, evaluated

    The theorems of [PrefaceFacts] and [EndpointsFacts] applied to the transport of
    [CodecWitnesses], on which both roles of the handshake are also run to the end, and
    to an idle client. *)

From Stdlib Require Import String.
From S2P Require Import Prelude Effects FrameBase ControlFrames SettingsFrame DataFrame HpackHeader HpackDecoder HpackTable HpackEncoder HpackEncoderFacts HeadersFrame.
From S2P Require Import ProtoErrors FramedRead FrameSink OpError FramedWrite FramedWriteFacts WireCodec Preface ProtoHandlers.
From S2P Require Import SlabLib StreamCounts Inner Streams Connection Builder Endpoints PrefaceFacts EndpointsFacts.
From S2P Require Import Instances HttpInstance Witnesses HistoryWitnesses EncoderWitnesses CodecWitnesses.
Local Open Scope Z_scope.

(** ** The futures on the scripted transport *)

Fixpoint script_write_all (fuel : nat) (s : script) (b : bytes) : poll (result unit io_error) * bytes * script :=
  match b with
  | [] => (Ready (Ok tt), [], s)
  | _ =>
      match fuel with
      | O => (Pending, b, s)
      | S fuel =>
          match script_write s b with
          | (Ready (Ok n), s) => script_write_all fuel s (drop (Z.to_nat n) b)
          | (Ready (Err e), s) => (Ready (Err e), b, s)
          | (Pending, s) => (Pending, b, s)
          end
      end
  end.

(** A piece that is longer than what is asked for is not cut: an error. *)
Definition script_read_exact (s : script) (n : nat) (filled : bytes) : poll (result unit io_error) * bytes * script :=
  match arriving s with
  | [] => (Pending, filled, s)
  | b :: l =>
      let s := mkScript (output s) (room s) l in
      if bool_decide (length (filled ++ b) = n) then (Ready (Ok tt), filled ++ b, s)
      else (Ready (Err (IoError UnexpectedEof None)), filled, s)
  end.

#[export] Instance script_async : AsyncIo := {
  poll_write_all := fun s b => script_write_all (length b) s b;
  poll_read_exact := script_read_exact
}.

Lemma script_write_ready s b n s' :
  script_write s b = (Ready (Ok n), s') -> output s' = output s ++ take (Z.to_nat n) b.
Proof.
  unfold script_write. destruct (room s) as [|k l]; [|destruct (k <=? 0); [done|]]; intros [= <- <-]; [|done].
  cbn [output]. unfold len. by rewrite Nat2Z.id, firstn_all.
Qed.

Lemma script_write_pending s b s' : script_write s b = (Pending, s') -> output s' = output s.
Proof. unfold script_write. destruct (room s); [done|]. case_match; by intros [= <-]. Qed.

Lemma script_write_all_spec fuel : forall s b r b' s',
  script_write_all fuel s b = (r, b', s') ->
  (exists p, b = p ++ b' /\ output s' = output s ++ p) /\ (r = Ready (Ok tt) -> b' = []).
Proof.
  induction fuel as [|fuel IH]; intros s [|x b] r b' s'; cbn [script_write_all].
  1-3: intros [= <- <- <-]; split; [exists []; by rewrite !app_nil_r|done].
  destruct (script_write s (x :: b)) as [[[n|e]|] s1] eqn:Hw.
  - intros Hr. apply IH in Hr as [(p & Hp & Ho) Hn]. split; [|done].
    pose proof (script_write_ready _ _ _ _ Hw) as Ho1.
    exists (take (Z.to_nat n) (x :: b) ++ p). rewrite <-app_assoc, <-Hp, take_drop. split; [done|]. by rewrite Ho, Ho1, app_assoc.
  - unfold script_write in Hw. destruct (room s); [done|]. by case_match.
  - intros [= <- <- <-]. pose proof (script_write_pending _ _ _ Hw) as Ho.
    split; [exists []; by rewrite Ho, !app_nil_r|done].
Qed.

#[export] Instance script_async_laws : AsyncIoLaws script_async.
Proof.
  split; cbn.
  - intros s b r b' s' Hw. by apply script_write_all_spec in Hw.
  - intros s n f. unfold script_read_exact. destruct (arriving s); [done|]. by case_match.
  - intros s n f f' s'. unfold script_read_exact. destruct (arriving s) as [|x l]; [done|]. case_bool_decide; [|done]. by intros [= <- <-].
Qed.

(** ** Both roles, to the end *)

Definition its_settings : Settings.t :=
  Settings.mk SettingsFlags.empty (Some 8192) (Some 0) (Some 100) (Some 1048576) (Some 32768) None None.
Definition its_greeting : bytes := Settings.encode its_settings [].

(** Polled until it is ready, at most [n] times. *)
Fixpoint polled_until (n : nat) (role : Role.t) (stage : PrefaceConn.Stage) : option (PrefaceConn.output * script) :=
  match n with
  | O => None
  | S n =>
      match PrefaceConn.poll role Settings.default stage with
      | Done (Ready r, PrefaceConn.Finished s) => Some (r, s)
      | Done (Pending, stage) => polled_until n role stage
      | _ => None
      end
  end.

Definition greets (role : Role.t) (room : list Z) (arriving : list bytes) : bool :=
  match polled_until 9 role (PrefaceConn.Start (mkScript [] room arriving)) with
  | Some (Ok (c, remote), s) =>
      bool_decide (output s = match role with Role.Client => PREFACE | Role.Server => [] end ++ Settings.encode Settings.default [] ++ Settings.encode Settings.ack []) &&
      bool_decide (Settings.encode remote [] = its_greeting) &&
      (FrameEncoder.max_frame_size (FramedWrite.encoder (WireCodec.framed_write c)) =? 32768)
  | _ => false
  end.

Example client_greets : greets Role.Client [5; 0; 100; 3; 0; 400] [its_greeting] = true.
Proof. vm_compute. reflexivity. Qed.

Example server_greets : greets Role.Server [5; 0; 100; 3; 0; 400] [PREFACE; its_greeting] = true.
Proof. vm_compute. reflexivity. Qed.

(** A server that is sent something else writes nothing after its SETTINGS. *)
Example wrong_preface :
  match polled_until 9 Role.Server (PrefaceConn.Start (mkScript [] [] [repeat 7 24; its_greeting])) with
  | Some (Err PrefaceError.InvalidPreface, s) => bool_decide (output s = Settings.encode Settings.default [])
  | _ => false
  end = true.
Proof. vm_compute. reflexivity. Qed.

Definition handshakes : PrefaceConn.Stage := PrefaceConn.Start slow.

Lemma handshake_contract_witness :
  stage_ok [] Role.Client Settings.default handshakes /\
  exists x, PrefaceConn.poll Role.Client Settings.default handshakes = Done x /\ kept [] Role.Client Settings.default x.
Proof.
  assert (stage_ok [] Role.Client Settings.default handshakes) as Hst by reflexivity.
  split; [exact Hst|]. exact (handshake_contract [] Role.Client Settings.default handshakes Hst).
Defined.

(** ** SETTINGS that arrive *)

Definition no_codec : WireCodec.t :=
  WireCodec.mk (FramedReader.mk 0 (Decoder.new 0) 0 0 None) (FramedWrite.new slow).

Definition reading (x : outcome (poll PrefaceConn.output * PrefaceConn.Stage)) : WireCodec.t :=
  match x with Done (Pending, PrefaceConn.ReadSettings c) => c | _ => no_codec end.

Definition is_reading (x : outcome (poll PrefaceConn.output * PrefaceConn.Stage)) : bool :=
  match x with Done (Pending, PrefaceConn.ReadSettings c) => true | _ => false end.

Definition arrives (l : list bytes) (c : WireCodec.t) : WireCodec.t :=
  PrefaceConn.with_io c (mkScript (output (PrefaceConn.get_mut c)) (room (PrefaceConn.get_mut c)) l).

Lemma reading_ok start role local x l :
  keeps start role local x -> is_reading x = true ->
  stage_ok start role local (PrefaceConn.ReadSettings (arrives l (reading x))).
Proof.
  intros (y & -> & Hk) Hr. destruct y as [[r|] [| | | |c| | |]]; try done. destruct Hk as [[[Hrd Hw Hh Hm] Hn Hio] Ha].
  split; [|exact Ha]. split; [|done|done]. split; [done| |done..]. exact Hw.
Qed.

Definition greeted_peer : outcome (poll PrefaceConn.output * PrefaceConn.Stage) :=
  PrefaceConn.poll Role.Client Settings.default (PrefaceConn.Start (mkScript [] [] [])).
Definition answered : WireCodec.t := arrives [its_greeting] (reading greeted_peer).

Lemma answered_ok : stage_ok [] Role.Client Settings.default (PrefaceConn.ReadSettings answered).
Proof.
  apply reading_ok; [|vm_compute; reflexivity]. apply (write_preface_keeps _ _ _ [] PREFACE); [reflexivity|reflexivity|].
  by rewrite app_nil_r.
Qed.


(** ** A builder *)

(** The rest of the codec over the trace: nothing arrives, and the shutdown takes the
    next answer. *)
#[export] Instance trace_codec : Codec := {
  Connection.poll_next := fun s => (Pending, s);
  Connection.shutdown := fun s => match answers s with a :: l => (a, mkTrace l (FrameSink.accepted s)) | [] => (Pending, s) end;
  Connection.set_max_recv_frame_size := fun s _ => Done s;
  Connection.set_max_recv_header_list_size := fun s _ => s;
  Connection.set_recv_header_table_size := fun s _ => s
}.

Definition options (window : Z) : list setting :=
  [MaxFrameSize 32768; InitialWindowSize window; MaxConcurrentStreams 0; EnableConnectProtocol; HeaderTableSize 0].

Definition no_options : Builder.t (R := Server) := Builder.new (BuildConnection0 := build_server).

Definition built (window : Z) : Builder.t (R := Server) :=
  match configure (options window) no_options with Done b => b | Panic => no_options end.

(** The largest window is announced as it is; the next one makes the peer refuse. *)
Lemma builder_announces_witness :
  FramedRead.decode_frame reader 4096 5 (Settings.encode (Builder.settings (built 2147483647)) []) =
    Done (Ok (Some (Frame.Settings (Builder.settings (built 2147483647)))), reader) /\
  FramedRead.decode_frame reader 4096 5 (Settings.encode (Builder.settings (built 2147483648)) []) =
    Done (Err FramedRead.protocol_error, reader).
Proof.
  assert (forall v, is_u32 v -> Forall in_type (options v)) as Ht by (intros v Hv; repeat constructor; unfold_ints; (lia || apply Hv)).
  split.
  - refine (proj2 (proj2 (builder_announces (BuildConnection0 := build_server) (options 2147483647) (built 2147483647) Settings.default reader 4096 5 _ _ _)));
      [apply Ht; unfold_ints; lia|reflexivity|reflexivity].
  - refine (proj2 (proj2 (builder_announces (BuildConnection0 := build_server) (options 2147483648) (built 2147483648) Settings.default reader 4096 5 _ _ _)));
      [apply Ht; unfold_ints; lia|reflexivity|reflexivity].
Defined.

(** ** A client that nobody uses *)

Definition idle_client : Connection.t := Connection.new 0 Role.Client config (mkTrace [Ready (Ok tt); Ready (Ok tt)] []).

Lemma client_ends_when_idle_witness :
  exists r woken c', poll_client 3 0 0 idle_client = Done ((r, woken), c') /\ idle_ends idle_client (r, c').
Proof.
  refine (proj1 (client_ends_when_idle 3 0 0 idle_client (Connection.streams idle_client) (mkTrace [Ready (Ok tt)] [])) _ _ _ _ _ _ _);
    try reflexivity; lia.
Defined.

(** And with the GOAWAY written and the codec shut down it ends. *)
Example idle_client_ended :
  match poll_client 3 0 0 idle_client with
  | Done ((Ready (Ok _), _), c) => map Frame.kind (FrameSink.accepted (Connection.codec c))
  | _ => []
  end = [Kind.GoAway].
Proof. vm_compute. reflexivity. Qed.
