(* ===== verification/EndToEnd.v ===== *)
(** * Clients and servers, octet by octet

    A client and a server, each a connection over the codec of [WireCodecFacts] and the
    transport of [CodecWitnesses]: the client sends a request with a body, the server
    accepts it and answers, and the client receives the answer.  What one side writes is
    cut at the frame heads and arrives at the other side.  Everything is evaluated, from
    the message to the octets and back: exchanges with flow control, requests in a single
    packet, and a graceful shutdown. *)

From Stdlib Require Import String.
From S2P Require Import Prelude Effects FrameBase ControlFrames SettingsFrame DataFrame HpackHeader HpackDecoder HpackTable HpackEncoder HeadersFrame.
From S2P Require Import ProtoErrors FramedRead FrameSink OpError FramedWrite FramedWriteFacts WireCodec WireCodecFacts Preface ProtoHandlers.
From S2P Require Import SlabLib StreamRec StreamStore StreamCounts Messages Recv Spa Inner Streams Connection Builder Endpoints.
From S2P Require Import Instances HttpInstance EncoderWitnesses CodecWitnesses.
Local Open Scope Z_scope.

#[local] Existing Instance codec_sink | 0.
#[local] Existing Instance codec_of_connection | 0.

Definition connection : Type := Connection.t (H2 := codec_sink).

(** ** The wire *)

(** The octets between frame heads. *)
Fixpoint cut_frames (fuel : nat) (b : bytes) : list bytes :=
  match fuel, b with
  | S fuel, _ :: _ =>
      let n := (Z.to_nat (be_value (take 3 b)) + HEADER_LEN)%nat in
      take n b :: cut_frames fuel (drop n b)
  | _, _ => []
  end.

(** The transport with everything written taken from it, and [b] about to arrive. *)
Definition rewired (b : bytes) (c : WireCodec.t) : WireCodec.t :=
  c <| WireCodec.framed_write ::= (fun w => w <| FramedWrite.inner := mkScript [] [] (cut_frames (length b) b) |>) |>.

Lemma rewired_ok b c : codec_ok c -> codec_ok (rewired b c).
Proof. intros [Hr (sent & He & Hw)]. split; [done|]. by eexists. Qed.

Lemma start_ok : returns (WireCodec.new (mkScript [] [] [])) codec_ok.
Proof.
  unfold WireCodec.new. destruct (new_codec_ok (H3 := script_transport) (mkScript [] [] []) DEFAULT_MAX_FRAME_SIZE) as (c & -> & Hc & _); [by split|].
  by apply returns_Done.
Qed.

Definition start : codec_sink_state :=
  let c := total (WireCodec.new (mkScript [] [] [])) start_ok in exist _ (proj1_sig c, []) (proj2_sig c).

Definition rewire (b : bytes) (s : codec_sink_state) : codec_sink_state :=
  exist _ (rewired b (the_codec s), WireCodecFacts.the_frames s) (rewired_ok b _ (codec_inv s)).

Definition written (c : connection) : bytes :=
  output (FramedWrite.inner (WireCodec.framed_write (the_codec (Connection.codec c)))).

Definition arrive (b : bytes) (c : connection) : connection := c <| Connection.codec ::= rewire b |>.

(** ** The two ends *)

Definition the_client : outcome (connection * SendRequest.t) :=
  client_build 0 Role.Client (Builder.build_config Settings.default (Builder.new (BuildConnection0 := build_client))).1 start.
Definition the_server : outcome connection :=
  server_build 0 Role.Server (Builder.build_config Settings.default (Builder.new (BuildConnection0 := build_server))).1 start.

(** One round after another: the client is polled, the server gets what it wrote, accepts
    and answers a request, and the client gets what the server wrote; until the client has
    its response.  Also answered: the request as the server saw it, and in each round the
    number of octets written by the client and by the server. *)
Fixpoint rounds (n : nat) (key : Key.t) (answer : Response) (ours theirs : connection)
    (request : option Request) (sizes : list (Z * Z)) : outcome (option Request * option Response * list (Z * Z)) :=
  match n with
  | O => Done (request, None, sizes)
  | S n =>
      let! (_, ours) := poll_client 99 0 0 ours in
      let! (accepted, theirs) := poll_accept 99 0 0 (arrive (written ours) theirs) in
      let! (request, theirs) :=
        match accepted with
        | Ready (Some (Ok (request, stream))) =>
            let! (_, theirs) := Connection.on_streams (SendResponse.send_response stream answer) theirs in
            let! (_, theirs) := poll_closed 99 0 0 theirs in
            Done (Some request, theirs)
        | _ => Done (request, theirs)
        end in
      let sizes := sizes ++ [(len (written ours), len (written theirs))] in
      let! (response, ours) := Connection.on_streams (ResponseFuture.poll 0 key) ours in
      match response with
      | Ready (Ok response) => Done (request, Some response, sizes)
      | Ready (Err _) => Done (request, None, sizes)
      | Pending => rounds n key answer (arrive (written theirs) ours) theirs request sizes
      end
  end.

Definition exchange (request : Request) (response : Response) :
    outcome (option Request * option Response * list (Z * Z)) :=
  let! (ours, handle) := the_client in
  let! theirs := the_server in
  let! (key, ours) := Connection.on_streams (SendRequest.send_request handle request) ours in
  match key with
  | Ok key => rounds 9 key response ours theirs None []
  | Err _ => Panic
  end.

Definition upload (n : Z) : Request :=
  cMessage (cmethod "POST", cUri (Some (str "https")) (Some (str "a.example")) (str "/upload"), None)
    [(str "x-name", str "value")] (Some (repeat 65 (Z.to_nat n))) None.
Definition page (n : Z) : Response :=
  cMessage (cstatus 200 I) [(str "server", str "two-plz")] (Some (repeat 66 (Z.to_nat n))) None.

(** A request and a response that fit the windows: the request is written in one round. *)
Example small_exchange :
  exchange (upload 300) (page 4) = Done (Some (upload 300), Some (page 4), [(348, 31); (0, 0)]).
Proof. vm_compute. reflexivity. Qed.

(** The bodies that arrive, and the sizes of the rounds. *)
Definition exchanged (n m : Z) (sizes : list (Z * Z)) : bool :=
  match exchange (upload n) (page m) with
  | Done (Some request, Some response, sizes') =>
      bool_decide (cm_body request = cm_body (upload n)) && bool_decide (cm_body response = cm_body (page m)) &&
      bool_decide (sizes' = sizes)
  | _ => false
  end.

(** A body larger than the initial window of 65,535 octets waits for the WINDOW_UPDATE of
    the other side, in either direction. *)
Example large_upload : exchanged 100000 4 [(65610, 52); (34492, 57); (0, 0)] = true.
Proof. vm_compute. reflexivity. Qed.

Example large_page : exchanged 4 100000 [(52, 65589); (52, 34492); (26, 0)] = true.
Proof. vm_compute. reflexivity. Qed.

(** ** Single-packet requests *)

Definition frame_type (f : bytes) : Z := nth 3 f 0.
Definition ends_stream (f : bytes) : bool := (frame_type f =? 0) && Z.testbit (nth 4 f 0) 0.

(** A peer that answers every PING, with the payload it was sent or with another. *)
Definition pongs (reply : bytes -> bytes) (b : bytes) : bytes :=
  concat (map (fun f => if frame_type f =? 6 then [0; 0; 8; 6; 1; 0; 0; 0; 0] ++ reply (drop HEADER_LEN f) else [])
    (cut_frames (length b) b)).

(** The types of the frames the client writes at each poll, 10 for DATA with END_STREAM. *)
Fixpoint spa_rounds (n : nat) (reply : bytes -> bytes) (ours : connection) : outcome (list (list Z)) :=
  match n with
  | O => Done []
  | S n =>
      let! (_, ours) := poll_client 99 0 0 ours in
      let! l := spa_rounds n reply (arrive (pongs reply (written ours)) ours) in
      Done (map (fun f => if ends_stream f then 10 else frame_type f) (cut_frames (length (written ours)) (written ours)) :: l)
  end.

Definition single_packet (mode : Mode.t) (reply : bytes -> bytes) : outcome (list (list Z)) :=
  let! (ours, handle) := client_build 0 Role.Client
    (Builder.build_config Settings.default (single_packet_attack_mode mode (Builder.new (BuildConnection0 := build_client)))).1 start in
  let! (_, ours) := Connection.on_streams (SendRequest.spa handle [upload 3; upload 3]) ours in
  spa_rounds 5 reply ours.

(** The frames that end the two streams leave together: at once, after a PING is answered,
    or after two are. *)
Example single_packet_native : single_packet Mode.Native id = Done [[1; 1; 0; 0; 10; 10]; []; []; []; []].
Proof. vm_compute. reflexivity. Qed.

Example single_packet_ping : single_packet Mode.ping id = Done [[1; 1; 0; 0]; [6]; [10; 10]; []; []].
Proof. vm_compute. reflexivity. Qed.

Example single_packet_enhanced : single_packet Mode.enhanced id = Done [[6; 1; 1; 0; 0]; []; [6]; [10; 10]; []].
Proof. vm_compute. reflexivity. Qed.

(** The payload of the answer is not compared with the one that was sent: any PONG releases
    the frames. *)
Example single_packet_any_pong :
  single_packet Mode.ping (fun _ => repeat 7 8) = single_packet Mode.ping id /\
  single_packet Mode.enhanced (fun _ => repeat 7 8) = single_packet Mode.enhanced id.
Proof. vm_compute. split; reflexivity. Qed.

(** ** Shutting down *)

(** Type and payload of the frames. *)
Definition frames_of (b : bytes) : list (Z * bytes) :=
  map (fun f => (frame_type f, drop HEADER_LEN f)) (cut_frames (length b) b).

Definition is_over {A E} (r : FrameSink.poll (result A E)) : bool := match r with Ready (Ok _) => true | _ => false end.

(** What the client and the server write in each round, until one of them has ended; and
    whether each has. *)
Fixpoint closing_rounds (n : nat) (ours theirs : connection) :
    outcome (list (list (Z * bytes) * list (Z * bytes)) * (bool * bool)) :=
  match n with
  | O => Done ([], (false, false))
  | S n =>
      let! ((r, _), ours) := poll_client 99 0 0 ours in
      let! (r', theirs) := poll_closed 99 0 0 (arrive (written ours) theirs) in
      let round := (frames_of (written ours), frames_of (written theirs)) in
      if is_over r || is_over r' then Done ([round], (is_over r, is_over r'))
      else
        let! (l, ended) := closing_rounds n (arrive (written theirs) ours) theirs in
        Done (round :: l, ended)
  end.

(** A server that shuts down gracefully announces it with the largest stream identifier and
    a PING; when the PING is answered it says which stream was the last, and both end. *)
Definition graceful : outcome (list (list (Z * bytes) * list (Z * bytes)) * (bool * bool)) :=
  let! (ours, _) := the_client in
  let! theirs := the_server in
  let! (_, theirs) := graceful_shutdown theirs in
  closing_rounds 6 ours theirs.

Example graceful_ends :
  let last_stream id := (7, be_bytes 4 id ++ be_bytes 4 Reason.NO_ERROR) in
  graceful = Done
    ([([], [last_stream StreamId.MAX; (6, Ping.SHUTDOWN)]);
      ([(6, Ping.SHUTDOWN); last_stream 0], [last_stream 0])], (true, true)).
Proof. vm_compute. reflexivity. Qed.

(** ** A stream that waits to be opened *)

(** A request is queued and, before the connection is polled, SETTINGS of the server arrive. *)
Definition raised (body : Z) (settings : Settings.t) : outcome connection :=
  let! (ours, handle) := the_client in
  let! (_, ours) := Connection.on_streams (SendRequest.send_request handle (upload body)) ours in
  let! (_, ours) := poll_client 99 0 0 (arrive (Settings.encode settings []) ours) in
  Done ours.

Definition larger_window : Settings.t := Settings.set_initial_window_size (Some 100000) Settings.default.

Definition survives (o : outcome connection) : bool := match o with Done _ => true | Panic => false end.

(** When they raise the window of streams, a stream with a body is queued for sending while
    it is queued to be opened, and the assertion of the queue fails. *)
Example raised_window_panics :
  survives (raised 300 Settings.default) = true /\ survives (raised 300 larger_window) = false.
Proof. vm_compute. split; reflexivity. Qed.
