(* ===== verification/Findings.v ===== *)
(** * Behaviours that deviate from the intent of the code

    Each example evaluates the model on a concrete input that shows one of them. *)

From Stdlib Require Import String.
From S2P Require Import Prelude Effects FrameBase ControlFrames SettingsFrame DataFrame HpackHeader.
From S2P Require Import HeadersFrame ProtoErrors FramedRead FrameSink ProtoHandlers StreamState.
From S2P Require Import FlowWindow SlabLib FrameBuffer StreamRec StreamStore StreamStoreFacts.
From S2P Require Import StreamQueue Spa StreamCounts Evolve Send SendOps SendPoll.
From S2P Require Import Messages Recv RecvOps Inner Streams Calls Connection.
From S2P Require Import Instances HttpInstance Witnesses HistoryWitnesses.

(** A client that sends DATA on an even identifier makes a server panic: [Send::new]
    starts its identifiers at 1 for a server too, which an assertion contradicts. *)
Definition even_data : Data.t bytes := Data.mk 2 [1; 2; 3] DataFlags.default None.

Lemma server_panics_on_even_data : is_done (Inner.recv_data 0 even_data server) = false.
Proof. vm_compute. reflexivity. Qed.

(** Trailers without a body: nothing marks the stream as sending trailers, so it is
    still open after the HEADERS frame with END_STREAM went out. *)
Definition bodyless : Inner.t :=
  after (Streams.send_request (cMessage (cmethod "POST",
    cUri (Some (str "https")) (Some (str "a")) (str "/"), None) [] None (Some [(str "a", str "b")])) false) client.

Definition ends_stream (f : Frame.t) : bool :=
  match f with
  | Frame.Headers h => Headers.is_end_stream h
  | Frame.Data d => Data.is_end_stream d
  | _ => false
  end.

Lemma trailers_without_body_stay_open :
  match Inner.poll_complete 9 0 bodyless (accepting 20) with
  | Done (_, i, dst) =>
      map ends_stream (accepted dst) = [false; true] /\
      State.is_send_closed (Stream.state (stream_at i key_1)) = false
  | Panic => False
  end.
Proof. vm_compute. split; reflexivity. Qed.

(** Capacity is reclaimed again by a second error: the connection window grows twice
    by what was allocated once. *)
Definition allocated_1 : Ctx.t :=
  to_send <| Ctx.store := store_with
    (sending_1 <| Stream.connection_window_allocated := 100 |>) |>.

Lemma capacity_reclaimed_twice :
  match (SendOps.reclaim_all_capacity key_1;* SendOps.reclaim_all_capacity key_1) allocated_1 with
  | Done (_, c) =>
      FlowControl.window (Send.flow (Ctx.send c)) =
        FlowControl.window (Send.flow (Ctx.send allocated_1)) + 200
  | Panic => False
  end.
Proof. vm_compute. reflexivity. Qed.

(** A body whose length is a multiple of 2^32 is never allocated any window. *)
Lemma huge_body_starves c k s rem available :
  Store.lookup (Ctx.store c) k = Some s -> Stream.connection_window_allocated s = 0 ->
  0 < rem -> rem mod 4294967296 = 0 -> 0 <= available ->
  SendPoll.try_allocate_stream_flow k rem available c = Done (false, c).
Proof.
  intros Hs Ha Hr Hm Hav. unfold SendPoll.try_allocate_stream_flow, bind, Ctx.stream, Store.index.
  rewrite Hs. cbn [unwrap obind]. rewrite Ha, (proj2 (Z.gtb_lt rem 0)) by lia. cbn [Z.eqb andb negb].
  unfold gets, as_u32, wrap_u32. cbn [obind]. rewrite Hm.
  pose proof (Credit.available_nonneg (Send.flow (Ctx.send c))).
  by rewrite (Z.min_r _ 0) by lia.
Qed.

(** SETTINGS without MAX_CONCURRENT_STREAMS lift the limit set before. *)
Lemma remote_settings_drop_limit :
  Counts.max_send_streams (Counts.apply_remote_settings counts Settings.default) = usize_max.
Proof. reflexivity. Qed.

(** A PRIORITY frame, which any peer may send at any time, is decoded and then hits a
    [todo!()]: the connection panics, whatever its state. *)
Definition priority_frame : bytes := [0; 0; 5; 2; 0; 0; 0; 0; 1; 0; 0; 0; 0; 16].

Lemma priority_is_decoded :
  match FramedRead.decode_frame reader 4096 5 priority_frame with
  | Done (Ok (Some (Frame.Priority _)), _) => True
  | _ => False
  end.
Proof. vm_compute. exact I. Qed.

Section priority.
Context `{HttpPlz} `{!FrameSink} `{!Codec} `{SlabOps} `{IndexMapOps}.

Lemma priority_panics now p c : Connection.recv_frame now (Frame.Priority p) c = Panic.
Proof. reflexivity. Qed.

End priority.
